(* ===== verification/_CoqProject ===== *)
-Q . S2P
Prelude.v
Stdio.v
MazeCommon.v
MazeTree.v
MazeGenerator.v
MazeEncode.v
MazeSolver.v
MazeEndToEnd.v
MazeClaims.v
Memlib.v
MmInline.v
Mm.v
MmHeap.v
MmLayout.v
MmProofs.v
MmSpec.v
MmRealloc.v
MmRefine.v
MmGrow.v
MmClaims.v
Mdriver.v
MdriverBytes.v
MdriverTables.v
MdriverProofs.v
MdriverTrace.v
MdriverRepl.v
MdriverReplPrint.v
MdriverReplProofs.v
MdriverReplClaims.v
MdriverClaims.v
MmTests.v
MmTestsProofs.v
MmTestsClaims.v
Clock.v
Fcyc.v
FcycProofs.v
TimerClaims.v
MdriverEval.v
MdriverTimed.v
MdriverMain.v
MdriverMainProofs.v
MdriverMainClaims.v
Db.v
DbTree.v
DbProofs.v
DbRemove.v
DbCmd.v
DbClaims.v
DbThreads.v
DbThreadsAlone.v
DbThreadsInv.v
DbThreadsProofs.v
DbThreadsClaims.v
Jobs.v
JobsSpec.v
JobsClaims.v
ShellCommon.v
Shell1.v
Shell2.v
Shell2Proofs.v
ShellClaims.v
TestSignals.v
TestPrograms.v
TestPlumbing.v
TestPlumbingClaims.v
TestClaims.v
Server.v
ServerInv.v
ServerSteps.v
ServerProofs.v
ServerLive.v
ServerShutdown.v
ServerClaims.v
Comm.v
CommProofs.v
Client.v
CommClaims.v
