(* ===== verification/Prelude.v ===== *)
(** * The systems projects of CS 1330: a verification library.

    The repository holds seven projects of a systems course; those written in C
    are a maze generator and solver, two shells, a memory allocator and a
    multithreaded database.  This library models them one by one, each on its
    own state, and proves what makes them correct.

    ** The programs and the files that model them

    - [1-maze-haininz]: the generator carves a maze by a random walk and writes
      it to a file as hexadecimal digits; the solver reads the file and searches
      it depth first.  [MazeCommon] models [common.c] (rooms by their indices,
      [get_neighbor], [initialize_maze]); [MazeGenerator] [shuffle_array] and
      [drunken_walk] of [generator.c] over the stream of [rand()], with
      [MazeTree] the trees that a walk grows;
      [MazeEncode] the encoding, the output file and [main]; [MazeSolver]
      [solver.c], with [-DFULL] a parameter; [MazeEndToEnd] relates the two
      programs through the file.
    - [6-malloc-haininz]: [Memlib] models [memlib.c] and the words of the arena;
      [MmInline] the boundary tags and the circular free list of [mminline.h];
      [Mm] the allocator [mm.c].  [MmHeap] holds the invariant of the free list,
      [MmLayout] the blocks from the prologue to the epilogue as a row of
      sizes, [MmProofs] what splitting, extending and coalescing do to the row,
      [MmSpec] the operations on the whole heap, [MmRealloc] [mm_realloc], and
      [MmRefine] an abstract heap of owned blocks, a class [Allocator] of its
      implementations, and client programs; [MmGrow] that the heap never
      shrinks and holds all payloads.  [Mdriver] models the driver
      [mdriver.c], its list of payload ranges and the evaluation of traces for
      validity and utilisation, as a program over the class [Allocator];
      [MdriverBytes] the bytes of words, [MdriverTables] the invariant of its
      tables and what allocating, freeing and reallocating a block do to them,
      [MdriverProofs] what it finds on an allocator that keeps its promise;
      [MdriverTrace] models [read_trace].  [MdriverRepl] models the interactive
      mode ([driver] and its commands) over [mm.c], [MdriverReplPrint] what it
      prints of the heap, [MdriverReplProofs] a session against an abstract
      one.  [MdriverEval] models the evaluation of speed and of the C library,
      [MdriverMain] the statistics, the options and [main], which runs all
      evaluations over [mm.c] and times them; [MdriverTimed] is about the timed
      evaluations, [MdriverMainProofs] about a run of [main].
      [Clock] models the cycle counters of [clock.c], [Fcyc] the K-best scheme
      of [fcyc.c], the timers of [ftimer.c] and [fsecs.c], on doubles of 53
      bits; [FcycProofs] the samples.  [MmTests] models the test program
      [mminline-tests.c], [MmTestsProofs] its tests one by one.
    - [7-database-haininz]: [Db] models [db.c] on a store of nodes with a
      reader-writer lock each, for one thread, where a lock that is not
      available is the fault [Blocked]; [DbTree] search trees as data with
      the finite map they stand for; [DbProofs] and [DbRemove] relate the two;
      [DbCmd] models printing and [interpret_command].  [DbThreads] cuts
      [db_query], [db_add] and [db_remove] at their lock operations and accesses
      and lets many threads take steps; [DbThreadsAlone] shows that one thread
      on its own does what [Db] says, [DbThreadsInv] and [DbThreadsProofs] that
      the steps keep the tree, the locks and the way of every search, and that
      each call acts on the table at once.  [Server] models the
      threads of [server.c] and the listener of [comm.c] as a step relation: a
      thread is a program counter with one case per lock operation, access to
      shared memory or library call, any thread may move next, and the
      environment decides what calls return, when a cancellation acts and when
      a wait ends for no reason.  [ServerInv] is the invariant, [ServerSteps]
      and [ServerProofs] that every step keeps it, [ServerLive] and
      [ServerShutdown] what becomes of clients once main shuts down.  [Comm]
      models the loop of a client and its thread ([comm_serve], the loop of
      [run_client]) over two streams of bytes, [CommProofs] a session, [Client]
      the rest of [client.c]: sockets, [fork] and [wait].
    - [5-shell-2-haininz/jobs.c]: [Jobs] models the linked list with its
      iterator; [JobsSpec] states the contract of [jobs.h] as a machine on a
      list of jobs, shows that [jobs.c] refines it, and gives the class
      [JobTable] of what the shell uses of it.
    - [4-shell-1-haininz/sh.c] and [5-shell-2-haininz/sh.c]: [ShellCommon]
      models what they share, parsing, builtins and redirection, and the
      system: what a call returns is a function of the history of calls.
      [Shell1] models the first shell, [Shell2] the second one over any
      [JobTable]; [Shell2Proofs] shows that a table that keeps its promise
      cannot be told from a list of jobs, and a logic of triples for the rest.
    - [5-shell-2-haininz/shell_2_tests/.../programs]: the programs that the tests
      of the second shell run.  [TestSignals] models a process that receives
      signals, with its handlers, mask and pending signals, as labelled steps in a
      small language of statements, and searches all states it can reach;
      [TestPrograms] the programs that wait and handle signals; [TestPlumbing]
      those that redirect, connect and inspect processes.

    The properties are in the files [*Claims], in the order of these parts.
    [Prelude] and [Stdio] hold what all parts share: faults, the state monad,
    arrays, characters and numbers, streams.

    ** How C is modelled

    A function that reads or writes state is a computation [ST S A] from a state
    to a result and a state or a fault; undefined behaviour (an access outside
    an object or through NULL, to freed storage, an overlapping [memcpy], signed
    overflow) is a fault, so a theorem that a function returns also says that it
    has none.  Pointers are addresses; objects live in finite maps, and freeing
    removes them.  Words of the allocator are integers, with the conversions of
    the code ([to_int] for the [int] parameter of [mem_sbrk]).  [malloc],
    [rand], streams and system calls are parameters; what is assumed of them is
    a hypothesis of the theorem that needs it ([malloc] returns fresh storage,
    [rand] a natural number, [open] the lowest free descriptor).

    ** Fuel

    Recursion that is not structural takes fuel, and the theorems show that what
    the definitions supply is enough: the number of rooms for the walk and the
    search (each call visits a new room), the heap size over the minimum block
    for the scan of the free list, the number of nodes or elements for walks
    over trees and lists, the length of the input for the loops over lines, the
    bound on the samples for the loop of [fcyc].  The loop of [callibrate], which
    ends only when the clock ticks, keeps its fuel as a parameter.  The
    nesting of ['f'] commands of the database, which the code does not bound,
    stays a parameter: a command file that includes itself has no answer.  The
    server needs none, as it is a relation; the thread of one client is given
    two steps per byte it can read, and reads a byte at least with each command.

    ** What the theorems show

    - maze: generation terminates with a maze in which every connection is
      decided, consistent and closed at the border, every room reachable and
      no two simple paths between the same rooms; the file is read back as
      written; the search finds the goal exactly when it can be reached and
      prints a simple open path, in a generated maze the only one; errors of
      reading and writing.
    - allocator: the heap invariant (tags, free list of exactly the free
      blocks, no two adjacent free blocks), [mm_malloc], [mm_free] and
      [mm_realloc] on every branch, and the refinement of an abstract heap by
      whole client programs; two counterexamples, for [mm_realloc] and for
      sizes beyond [int].  The driver accepts the allocator on every proper
      trace, but for refused requests, the data of high indices that it misreads
      and the faulty copy of [mm_realloc]; it computes the utilisation it means
      to, at most 1, and a trace file is read as written; a run of the whole
      program on files of such traces, with any options, prints and reports what
      the traces deserve;
      a session of the interactive mode does what its commands mean, and its
      picture of the heap is right; errors in what they check.  The tests of
      [mminline.h] pass, but for a bit that is not initialised.
    - timers: the array of samples holds the K best, [fcyc] ends and returns the
      least sample, and the counters subtract with the right borrow.
    - database: each operation against the finite map, with the locks balanced
      and the tree ordered, and sequences of commands; [db_add] after a failed
      allocation.  Under many threads the hand-over-hand locking is linearizable,
      without faults and without deadlock, as long as no [db_remove] is in its
      two-children case, which does not lock; what goes wrong when one is.
    - server: in every reachable state the client list is a doubly linked list
      of the clients that joined and the count is right; the only faults are
      the ones listed; stop and go; that the shutdown ends and the database is
      cleaned up alone, with the condition under which it does, and the races
      when it does not hold.  The client program runs its children without
      leaking sockets, and each gets the responses of the finite map.
    - job list and shells: the list against its contract; parsing against a
      grammar; lines and sessions without faults, with distinct job numbers and
      the terminal returned; children that never return and whose descriptors
      are redirected; [fg] and [bg] without or with a wrong operand.  The test
      programs do what their descriptions say, under every schedule of signals,
      except for those that count to ten and the one that reports states, whose
      errors are shown; redirection and pipes leave the right descriptors.

    ** What is not modelled

    The scripts and expected outputs of the shell tests; the projects without C
    source.  Output is the text where a
    program reads it back (the maze, trace files, the connection), and
    otherwise a value that stands for the line with the numbers it shows, so
    that the conversions of [printf] for doubles and pointers are left out;
    [getopt] is the list of options it returns.  [db_print] and [db_cleanup] are run
    by one thread only, and in [Server] a command is two steps, its begin and its
    end, whose effect is that of [DbThreads].  In [DbThreads] memory is
    sequentially consistent: every access of the runs considered is under a lock
    of its node, except in the two-children case.  [Server]
    assumes that [pthread_create] stores the identifier before the new thread
    needs it, that thread identifiers are not reused, and that a cancellation
    acts in [comm_serve], [pthread_cond_wait], [sigwait], [fprintf] of the signal
    thread, [accept], and, possibly, in a command that reads a file.  *)

From Stdlib Require Import ZArith Lia Ascii.
From stdpp Require Import base gmap strings numbers option list.

Open Scope Z_scope.

(** ** Results, faults and the state monad

    C code that can stop abnormally is modelled by a computation that may
    return a [fault].  [AssertFail] is a failing [assert], [BadAccess] an
    access the C standard leaves undefined (out of an array, through NULL, to
    a freed object), [SignedOverflow] an arithmetic result outside the range of
    its signed type (undefined as well), [Blocked] a wait that
    only another thread could end, [Exit n] a call of [exit(n)], and [NoFuel] is reserved to
    the model: the fuel of a loop or recursion ran out.  *)
Inductive fault :=
  | AssertFail
  | BadAccess
  | SignedOverflow
  | Blocked
  | Exit (code : Z)
  | NoFuel.

Inductive result (A : Type) :=
  | Ok (a : A)
  | Err (f : fault).
Arguments Ok {A} a.
Arguments Err {A} f.

#[export] Instance fault_eq_dec : EqDecision fault.
Proof. solve_decision. Defined.

(** State-passing computations that may fail. *)
Definition ST (S A : Type) : Type := S → result (A * S).

#[export] Instance ST_ret {S} : MRet (ST S) := λ A a s, Ok (a, s).
#[export] Instance ST_bind {S} : MBind (ST S) := λ A B f m s,
  match m s with
  | Ok (a, s') => f a s'
  | Err e => Err e
  end.

Definition get {S} : ST S S := λ s, Ok (s, s).
Definition put {S} (s' : S) : ST S unit := λ _, Ok (tt, s').
Definition modify {S} (f : S → S) : ST S unit := λ s, Ok (tt, f s).
Definition fail {S A} (e : fault) : ST S A := λ _, Err e.

(** [assert(b)] *)
Definition assertb {S} (b : bool) : ST S unit :=
  if b then mret tt else fail AssertFail.

(** Reads a partial value, [BadAccess] when there is none. *)
Definition deref {S A} (o : option A) : ST S A :=
  match o with Some a => mret a | None => fail BadAccess end.

Lemma ST_bind_Ok {S A B} (f : A → ST S B) (m : ST S A) s a s' :
  m s = Ok (a, s') → (m ≫= f) s = f a s'.
Proof. unfold mbind, ST_bind. by intros ->. Qed.

Lemma ST_bind_Err {S A B} (f : A → ST S B) (m : ST S A) s e :
  m s = Err e → (m ≫= f) s = Err e.
Proof. unfold mbind, ST_bind. by intros ->. Qed.

Lemma ST_modify {S B} (f : S → S) (k : unit → ST S B) s : (modify f ≫= k) s = k tt (f s).
Proof. done. Qed.

Lemma ST_ret_bind {S A B} (a : A) (k : A → ST S B) s : ((mret a : ST S A) ≫= k) s = k a s.
Proof. done. Qed.

Lemma ST_get {S B} (k : S → ST S B) s : (get ≫= k) s = k s s.
Proof. done. Qed.

Lemma ST_bind_inv {S A B} (f : A → ST S B) (m : ST S A) s b s'' :
  (m ≫= f) s = Ok (b, s'') →
  ∃ a s', m s = Ok (a, s') ∧ f a s' = Ok (b, s'').
Proof. unfold mbind, ST_bind. destruct (m s) as [[a s']|]; naive_solver. Qed.

Lemma assertb_true {S} (b : bool) (s : S) : b = true → assertb b s = Ok (tt, s).
Proof. by intros ->. Qed.

(** Steps that need no equation. *)
Create Rewrite HintDb st.
#[export] Hint Rewrite @ST_modify @ST_ret_bind @ST_get : st.

(** [run H] executes the first computation of a sequence, whose outcome is the
    equation [H]. *)
Tactic Notation "run" uconstr(H) := rewrite (ST_bind_Ok _ _ _ _ _ H).

(** The null pointer. *)
Definition NULL : Z := 0.

(** ** Arrays indexed by C integers *)

(** [a[i]] for a C index: nothing below 0 or past the end. *)
Definition zlookup {A} (l : list A) (i : Z) : option A :=
  if i <? 0 then None else l !! Z.to_nat i.

(** [a[i] = x] for an index that [zlookup] accepts. *)
Definition zinsert {A} (l : list A) (i : Z) (x : A) : list A :=
  if i <? 0 then l else <[Z.to_nat i := x]> l.

Lemma zlookup_lt {A} (l : list A) i :
  0 ≤ i < Z.of_nat (length l) → is_Some (zlookup l i).
Proof.
  intros [??]. unfold zlookup. rewrite (proj2 (Z.ltb_ge i 0)) by lia.
  apply lookup_lt_is_Some. lia.
Qed.

(** Exchanging two elements of an array permutes it. *)
Lemma swap_Permutation {A} (l : list A) (i j : nat) x y :
  l !! i = Some x → l !! j = Some y → <[j := x]> (<[i := y]> l) ≡ₚ l.
Proof.
  intros Hi Hj. destruct (decide (i = j)) as [->|Hne].
  - simplify_eq. rewrite list_insert_insert_eq. by rewrite list_insert_id.
  - apply Permutation_inj. split; [by rewrite !length_insert|].
    exists (λ k, if decide (k = i) then j else if decide (k = j) then i else k).
    split; [intros a b; repeat case_decide; congruence|].
    intros k. pose proof (lookup_lt_Some _ _ _ Hi). pose proof (lookup_lt_Some _ _ _ Hj).
    repeat case_decide; subst;
      rewrite ?list_lookup_insert_eq, ?list_lookup_insert_ne, ?list_lookup_insert_eq
        by (rewrite ?length_insert; done || lia); done.
Qed.

Lemma size_list_to_set_le `{Countable A} (l : list A) :
  (size (list_to_set l : gset A) ≤ length l)%nat.
Proof.
  induction l as [|x l IH]; [done|]. rewrite list_to_set_cons; simpl.
  rewrite size_union_alt, size_singleton. etrans; [|apply le_n_S, IH].
  apply le_n_S, subseteq_size. set_solver.
Qed.

Lemma length_bind_const {A B} (f : A → list B) (l : list A) n :
  (∀ x, length (f x) = n) → length (l ≫= f) = (length l * n)%nat.
Proof. intros Hf. induction l as [|x l IH]; csimpl; [done|]. by rewrite length_app, Hf, IH. Qed.

(** The sum of a quantity over a map. *)
Definition msum {A} (f : A → Z) (m : gmap Z A) : Z := map_fold (λ _ x a, f x + a) 0 m.

Lemma msum_insert {A} (f : A → Z) m i x : m !! i = None → msum f (<[i := x]> m) = f x + msum f m.
Proof. intros Hi. unfold msum. by rewrite map_fold_insert_L by (intros; lia || done). Qed.

Lemma msum_delete {A} (f : A → Z) m i x : m !! i = Some x → msum f m = f x + msum f (delete i m).
Proof.
  intros Hi. rewrite <- (msum_insert f (delete i m) i x) by apply lookup_delete_eq. by rewrite insert_delete_id.
Qed.

Lemma msum_move {A} (f : A → Z) m i x y :
  m !! i = Some x → msum f (<[i := y]> m) = msum f m - f x + f y.
Proof.
  intros Hi. rewrite (msum_delete f m i x Hi), <- insert_delete_eq, msum_insert by apply lookup_delete_eq. lia.
Qed.

Lemma msum_nonneg {A} (f : A → Z) m : map_Forall (λ _ x, 0 ≤ f x) m → 0 ≤ msum f m.
Proof.
  induction m as [|i n m Hi IH] using map_ind; [done|]. rewrite msum_insert by done.
  intros [Hn Hm]%map_Forall_insert; [|done]. specialize (IH Hm). lia.
Qed.

(** A left fold that may fail. *)
Fixpoint ofoldl {A B} (f : B → A → option B) (b : B) (l : list A) : option B :=
  match l with
  | [] => Some b
  | x :: l => match f b x with Some b' => ofoldl f b' l | None => None end
  end.

(** Folding an array assignment over distinct or repeated indices. *)
Lemma lookup_ofoldl_insert `{Countable K} {A B} (f : A → B) (src : gmap K A)
    (dst : gmap K B) (l : list K) :
  (∀ k, k ∈ l → is_Some (src !! k)) →
  ∃ dst', ofoldl (λ d k, match src !! k with
                         | Some a => Some (<[k := f a]> d) | None => None end) dst l
            = Some dst' ∧
          ∀ k, dst' !! k = if decide (k ∈ l) then f <$> (src !! k) else dst !! k.
Proof.
  revert dst. induction l as [|k0 l IH]; intros dst Hsrc; cbn [ofoldl].
  - exists dst. split; [done|]. intros k. rewrite decide_False; [done|set_solver].
  - destruct (Hsrc k0) as [a Ha]; [set_solver|]. rewrite Ha.
    destruct (IH (<[k0 := f a]> dst)) as (dst' & Hrun & Hdst'); [set_solver|].
    exists dst'. split; [done|]. intros k. rewrite Hdst', lookup_insert.
    destruct (decide (k ∈ l)); [rewrite decide_True; [done|set_solver]|].
    case_decide; subst; [rewrite decide_True, Ha; [done|set_solver]|].
    rewrite decide_False; [done|set_solver].
Qed.

(** ** Characters and numbers in text *)

Abbreviation bytes := (list ascii).

Definition chr (n : Z) : ascii := ascii_of_N (Z.to_N n).
Definition ord (c : ascii) : Z := Z.of_N (N_of_ascii c).

(** [isspace] in the C locale: space, \t, \n, \v, \f, \r. *)
Definition isspace (c : ascii) : bool :=
  (ord c =? 32) || ((9 <=? ord c) && (ord c <=? 13)).

Definition isdigit (c : ascii) : bool := (48 <=? ord c) && (ord c <=? 57).

Fixpoint skip_spaces (l : bytes) : bytes :=
  match l with
  | [] => []
  | c :: l' => if isspace c then skip_spaces l' else l
  end.

Fixpoint read_digits (acc : Z) (l : bytes) : Z :=
  match l with
  | [] => acc
  | c :: l' => if isdigit c then read_digits (10 * acc + (ord c - 48)) l' else acc
  end.

(** [atoi], for numbers in the range of [int] (beyond it C leaves the result
    undefined). *)
Definition atoi (l : bytes) : Z :=
  match skip_spaces l with
  | c :: l' =>
      if ord c =? 45 then - read_digits 0 l'
      else if ord c =? 43 then read_digits 0 l'
      else read_digits 0 (c :: l')
  | [] => 0
  end.

(** The digit of ["%x"] for a value below 16, and its inverse. *)
Definition hex_char (d : Z) : ascii :=
  if d <? 10 then chr (48 + d) else chr (87 + d).

Definition hex_value (c : ascii) : option Z :=
  let n := ord c in
  if (48 <=? n) && (n <=? 57) then Some (n - 48)
  else if (97 <=? n) && (n <=? 102) then Some (n - 87)
  else if (65 <=? n) && (n <=? 70) then Some (n - 55)
  else None.

Fixpoint hex_digits (fuel : nat) (u : Z) (acc : bytes) : bytes :=
  match fuel with
  | O => acc
  | S fuel' =>
      let acc' := hex_char (u mod 16) :: acc in
      if u / 16 =? 0 then acc' else hex_digits fuel' (u / 16) acc'
  end.

(** What ["%x"] prints for an [int]: the digits of the value taken as an
    unsigned 32-bit number, at most eight of them. *)
Definition print_hex (v : Z) : bytes := hex_digits 8 (v mod 2 ^ 32) [].

(** A property of the sixteen hexadecimal digits, checked one by one. *)
Lemma forall_hex (P : Z → Prop) :
  Forall P (seqZ 0 16) → ∀ d, 0 ≤ d < 16 → P d.
Proof.
  intros HP d Hd. eapply (proj1 (Forall_forall P (seqZ 0 16)) HP).
  apply elem_of_seqZ. lia.
Qed.

Lemma print_hex_digit d : 0 ≤ d < 16 → print_hex d = [hex_char d].
Proof. revert d. apply forall_hex. by repeat constructor. Qed.

Lemma hex_value_char d : 0 ≤ d < 16 → hex_value (hex_char d) = Some d.
Proof. revert d. apply forall_hex. by repeat constructor. Qed.

Lemma isspace_hex_char d : 0 ≤ d < 16 → isspace (hex_char d) = false.
Proof. revert d. apply forall_hex. by repeat constructor. Qed.
