(* ===== verification/Stdio.v ===== *)
(** * Text streams: what the programs use of [stdio.h].

    Output streams with [fprintf], and the conversions ["%x"], ["%1x"] and
    ["%d"] that the maze programs read and write. *)

From Stdlib Require Import ZArith Lia Ascii.
From stdpp Require Import base gmap numbers option list.
From S2P Require Import Prelude.

Open Scope Z_scope.

(** ** Files

    What the C library does with a stream is an input of the model: whether
    [fopen] succeeds, whether the [n]-th [fprintf] does, and [fclose]. *)
Record file_io := FileIO {
  fopen_ok : bool;
  fprintf_ok : nat → bool;
  fclose_ok : bool;
}.

(** The text written so far and the number of writes attempted. *)
Record out_file := OutFile {
  text : bytes;
  nwrites : nat;
}.

Section Fprintf.
Context (io : file_io).

(** [fprintf]: negative on failure, else the number of characters. *)
Definition fprintf (s : bytes) : ST out_file Z := λ f,
  if fprintf_ok io (nwrites f)
  then Ok (Z.of_nat (length s), OutFile (text f ++ s) (S (nwrites f)))
  else Ok (-1, OutFile (text f) (S (nwrites f))).

Definition newline : ascii := chr 10.

End Fprintf.

Fixpoint dec_digits (fuel : nat) (u : Z) (acc : bytes) : bytes :=
  match fuel with
  | O => acc
  | S fuel' =>
      let acc' := chr (48 + u mod 10) :: acc in
      if u / 10 =? 0 then acc' else dec_digits fuel' (u / 10) acc'
  end.

(** What ["%d"] prints for an [int] (at most ten digits and a sign). *)
Definition print_dec (v : Z) : bytes :=
  if v <? 0 then chr 45 :: dec_digits 10 (- v) [] else dec_digits 10 v [].

(** ** Reading hexadecimal digits

    [fscanf(f, "%1x", &x)] on the rest of the input: the value returned (-1 for
    [EOF]), the digit stored if any, and what is left to read.  White space is
    skipped first; a lone sign uses up the field width and then fails to
    match; any other character is left unread. *)
Definition fscanf_1x (input : bytes) : Z * option Z * bytes :=
  match skip_spaces input with
  | [] => (-1, None, [])
  | c :: rest =>
      match hex_value c with
      | Some v => (1, Some v, rest)
      | None =>
          if (ord c =? 43) || (ord c =? 45) then (0, None, rest) else (0, None, c :: rest)
      end
  end.

Lemma fscanf_1x_digit d rest :
  0 ≤ d < 16 → fscanf_1x (hex_char d :: rest) = (1, Some d, rest).
Proof.
  intros Hd. unfold fscanf_1x. simpl. rewrite isspace_hex_char, hex_value_char by done. done.
Qed.

Lemma fscanf_1x_newline rest : fscanf_1x (newline :: rest) = fscanf_1x rest.
Proof. done. Qed.

(** The string in a buffer ends at the first null byte. *)
Fixpoint cstr (l : bytes) : bytes :=
  match l with
  | [] => []
  | c :: l' => if ord c =? 0 then [] else c :: cstr l'
  end.

(** [fgets(buf, n + 1, f)]: a line, or the first [n] bytes of it; and the rest
    of the input. *)
Fixpoint fgets_chars (n : nat) (l : bytes) : bytes * bytes :=
  match n, l with
  | O, _ => ([], l)
  | _, [] => ([], [])
  | S n', c :: l' =>
      if ord c =? 10 then ([c], l') else let '(w, rest) := fgets_chars n' l' in (c :: w, rest)
  end.

Lemma fgets_chars_split n l : (fgets_chars n l).1 ++ (fgets_chars n l).2 = l.
Proof.
  revert l. induction n as [|n IH]; intros [|c l]; simpl; [done..|].
  destruct (ord c =? 10); [done|]. specialize (IH l). destruct (fgets_chars n l). simpl in *. by rewrite IH.
Qed.

Lemma fgets_chars_progress n l :
  n ≠ O → l ≠ [] → (length (fgets_chars n l).2 < length l)%nat.
Proof.
  destruct n as [|n], l as [|c l]; try done. intros _ _. simpl. destruct (ord c =? 10); simpl; [lia|].
  pose proof (fgets_chars_split n l) as H. destruct (fgets_chars n l) as [w rest]. simpl in *.
  apply (f_equal length) in H. rewrite length_app in H. lia.
Qed.
