(* ===== verification/MazeCommon.v ===== *)
(** * The maze data model: [1-maze-haininz/common.h] and [common.c].

    Directions, rooms, the two-dimensional array of rooms, neighbours and
    initialisation, with the lemmas on the grid that the generator and the
    solver share. *)

From Stdlib Require Import ZArith Lia.
From stdpp Require Import base gmap numbers option list.
From S2P Require Import Prelude.

Open Scope Z_scope.

(** [typedef enum { NORTH = 0, SOUTH = 1, WEST = 2, EAST = 3 } Direction] *)
Inductive Direction := NORTH | SOUTH | WEST | EAST.

#[export] Instance Direction_eq_dec : EqDecision Direction.
Proof. solve_decision. Defined.

#[export] Instance Direction_inhabited : Inhabited Direction := populate NORTH.

(** The address of a room of the array: its row and column. *)
Abbreviation pos := (Z * Z)%type.

(** [struct maze_room].  A connection is 1 for a wall, 0 for an opening and -1
    for "not yet determined"; [next] is a pointer to another room of the same
    array or NULL. *)
Record maze_room := MkRoom {
  row : Z;
  col : Z;
  visited : Z;
  up_room : Z;
  down_room : Z;
  left_room : Z;
  right_room : Z;
  next : option pos;
}.

(** [struct maze_room maze[num_rows][num_cols]]: the rooms by their indices. *)
Abbreviation maze_t := (gmap pos maze_room).

(** [is_in_range]: 0 or 1 as in C. *)
Definition is_in_range (row col num_rows num_cols : Z) : Z :=
  if (row <? 0) || (row >=? num_rows) || (col <? 0) || (col >=? num_cols)
  then 0 else 1.

(** [get_neighbor]: [room] is the room pointed to; the result is the address of
    the neighbouring room, or NULL ([None]). *)
Definition get_neighbor (num_rows num_cols : Z) (room : maze_room)
    (dir : Direction) : option pos :=
  let cur_row := row room in
  let cur_col := col room in
  if is_in_range cur_row cur_col num_rows num_cols =? 0 then None
  else if bool_decide (dir = NORTH) && (cur_row - 1 >=? 0)
    then Some (cur_row - 1, cur_col)
  else if bool_decide (dir = SOUTH) && (cur_row + 1 <? num_rows)
    then Some (cur_row + 1, cur_col)
  else if bool_decide (dir = WEST) && (cur_col - 1 >=? 0)
    then Some (cur_row, cur_col - 1)
  else if bool_decide (dir = EAST) && (cur_col + 1 <? num_cols)
    then Some (cur_row, cur_col + 1)
  else None.

(** The body of the inner loop of [initialize_maze]. *)
Definition init_room (i j : Z) : maze_room :=
  MkRoom i j 0 (-1) (-1) (-1) (-1) None.

(** The indices [i, j] in the order of the two nested [for] loops. *)
Definition grid (num_rows num_cols : Z) : list pos :=
  i ← seqZ 0 num_rows; (λ j, (i, j)) <$> seqZ 0 num_cols.

(** [initialize_maze]: every room of the (uninitialised) array is assigned. *)
Definition initialize_maze (num_rows num_cols : Z) (maze : maze_t) : maze_t :=
  foldl (λ m p, <[p := init_room p.1 p.2]> m) maze (grid num_rows num_cols).

(** ** The four connection fields, selected by a direction

    The C code spells these selections out as [if (dir == NORTH) ... else if
    (dir == SOUTH) ... else if (dir == WEST) ... else ...]. *)
Definition wall (r : maze_room) (d : Direction) : Z :=
  match d with
  | NORTH => up_room r
  | SOUTH => down_room r
  | WEST => left_room r
  | EAST => right_room r
  end.

Definition set_wall (d : Direction) (v : Z) (r : maze_room) : maze_room :=
  match d with
  | NORTH => MkRoom (row r) (col r) (visited r) v (down_room r) (left_room r) (right_room r) (next r)
  | SOUTH => MkRoom (row r) (col r) (visited r) (up_room r) v (left_room r) (right_room r) (next r)
  | WEST => MkRoom (row r) (col r) (visited r) (up_room r) (down_room r) v (right_room r) (next r)
  | EAST => MkRoom (row r) (col r) (visited r) (up_room r) (down_room r) (left_room r) v (next r)
  end.

Definition set_visited (v : Z) (r : maze_room) : maze_room :=
  MkRoom (row r) (col r) v (up_room r) (down_room r) (left_room r) (right_room r) (next r).

Definition set_next (n : option pos) (r : maze_room) : maze_room :=
  MkRoom (row r) (col r) (visited r) (up_room r) (down_room r) (left_room r) (right_room r) n.

(** ** The grid and its geometry *)
Section Grid.
Context (num_rows num_cols : Z).

Definition in_grid (p : pos) : Prop :=
  0 ≤ p.1 < num_rows ∧ 0 ≤ p.2 < num_cols.

#[export] Instance in_grid_dec p : Decision (in_grid p).
Proof. unfold in_grid. apply _. Defined.

(** The position one step in a direction, whether or not it is in the grid. *)
Definition step (d : Direction) (p : pos) : pos :=
  match d with
  | NORTH => (p.1 - 1, p.2)
  | SOUTH => (p.1 + 1, p.2)
  | WEST => (p.1, p.2 - 1)
  | EAST => (p.1, p.2 + 1)
  end.

Lemma is_in_range_spec r c :
  is_in_range r c num_rows num_cols = if decide (in_grid (r, c)) then 1 else 0.
Proof.
  unfold is_in_range, in_grid; simpl. case_decide.
  - rewrite !orb_false_intro; [done|..]; lia.
  - destruct (r <? 0) eqn:?, (r >=? num_rows) eqn:?, (c <? 0) eqn:?,
      (c >=? num_cols) eqn:?; simpl; try done; lia.
Qed.

Lemma get_neighbor_spec room d :
  get_neighbor num_rows num_cols room d =
    if decide (in_grid (row room, col room) ∧ in_grid (step d (row room, col room)))
    then Some (step d (row room, col room)) else None.
Proof.
  unfold get_neighbor. rewrite is_in_range_spec.
  destruct (decide (in_grid (row room, col room))) as [Hin|Hin]; simpl.
  - destruct d; simpl; unfold in_grid in *; simpl in *;
      repeat case_match; case_decide; try done; lia.
  - rewrite decide_False; naive_solver.
Qed.

Lemma elem_of_grid p : p ∈ grid num_rows num_cols ↔ in_grid p.
Proof.
  destruct p as [i j]. unfold grid, in_grid. simpl. split.
  - intros (i' & (j' & [= -> ->] & Hj)%list_elem_of_fmap & Hi)%list_elem_of_bind.
    apply elem_of_seqZ in Hi, Hj. lia.
  - intros [??]. apply list_elem_of_bind. exists i. split; [|apply elem_of_seqZ; lia].
    apply list_elem_of_fmap. exists j. split; [done|apply elem_of_seqZ; lia].
Qed.

Lemma length_grid :
  0 ≤ num_rows → 0 ≤ num_cols →
  length (grid num_rows num_cols) = Z.to_nat (num_rows * num_cols).
Proof.
  intros HR HC. unfold grid. rewrite length_bind_const with (n := Z.to_nat num_cols).
  - rewrite length_seqZ. lia.
  - intros x. by rewrite length_fmap, length_seqZ.
Qed.

(** Every room of a freshly initialised maze is the initial room of its
    position, whatever the array held before. *)
Lemma lookup_initialize_maze m p :
  initialize_maze num_rows num_cols m !! p =
    if decide (in_grid p) then Some (init_room p.1 p.2) else m !! p.
Proof.
  unfold initialize_maze. rewrite <-(decide_ext _ _ _ _ (elem_of_grid p)).
  generalize (grid num_rows num_cols) as l. intros l. revert m.
  induction l as [|q l IH]; intros m; simpl; [done|].
  rewrite IH. destruct (decide (p ∈ l)).
  - rewrite decide_True; [done|set_solver].
  - rewrite lookup_insert. case_decide; subst.
    + rewrite decide_True; [done|set_solver].
    + rewrite decide_False; [done|set_solver].
Qed.
End Grid.

(** ** Views of a maze *)

Lemma wall_set_wall r d d' v :
  wall (set_wall d v r) d' = if decide (d = d') then v else wall r d'.
Proof. by destruct d, d'. Qed.

Lemma visited_set_wall r d v : visited (set_wall d v r) = visited r.
Proof. by destruct d. Qed.

Lemma pos_set_wall r d v :
  row (set_wall d v r) = row r ∧ col (set_wall d v r) = col r.
Proof. by destruct d. Qed.

Section Views.
Context (num_rows num_cols : Z).

(** The array has exactly the rooms of the grid, each knowing where it is. *)
Record maze_wf (m : maze_t) : Prop := {
  wf_dom p : is_Some (m !! p) ↔ in_grid num_rows num_cols p;
  wf_pos p r : m !! p = Some r → (row r, col r) = p;
}.

Definition vis (m : maze_t) (p : pos) : Prop :=
  ∃ r, m !! p = Some r ∧ visited r ≠ 0.

(** An opening leads from [p] to its neighbour [q]. *)
Definition opening (m : maze_t) (p q : pos) : Prop :=
  ∃ r d, m !! p = Some r ∧ wall r d = 0 ∧ q = step d p ∧
         in_grid num_rows num_cols q.

(** The rooms not visited yet: the measure of both searches. *)
Definition unvisited (m : maze_t) : gset pos :=
  dom (filter (λ pr, visited pr.2 = 0) m).

Lemma elem_of_unvisited m p :
  p ∈ unvisited m ↔ ∃ r, m !! p = Some r ∧ visited r = 0.
Proof.
  unfold unvisited. rewrite elem_of_dom. unfold is_Some.
  setoid_rewrite map_lookup_filter_Some. done.
Qed.

Lemma not_vis_unvisited m p r : m !! p = Some r → ¬ vis m p → visited r = 0.
Proof.
  intros Hr Hnv. destruct (decide (visited r = 0)); [done|].
  destruct Hnv. by exists r.
Qed.

#[export] Instance vis_dec m p : Decision (vis m p).
Proof.
  refine (match m !! p as o return m !! p = o → Decision (vis m p) with
          | Some r => λ H, if decide (visited r = 0) then right _ else left _
          | None => λ H, right _
          end eq_refl); unfold vis; naive_solver.
Defined.

Lemma unvisited_mono m m' :
  maze_wf m → maze_wf m' → (∀ p, vis m p → vis m' p) →
  unvisited m' ⊆ unvisited m.
Proof.
  intros Hwf Hwf' Hv p (r & Hr & Hr0)%elem_of_unvisited. apply elem_of_unvisited.
  destruct (proj2 (wf_dom m Hwf p)) as [r0 Hr0'].
  { by apply (wf_dom m' Hwf'). }
  exists r0. split; [done|]. eapply not_vis_unvisited; [done|].
  intros (r1 & ? & ?)%Hv. congruence.
Qed.

Lemma unvisited_size_lt m m' p :
  maze_wf m → maze_wf m' → (∀ q, vis m q → vis m' q) →
  p ∈ unvisited m → vis m' p → (size (unvisited m') < size (unvisited m))%nat.
Proof.
  intros Hwf Hwf' Hv Hp (r & Hr & Hr0). apply subset_size. split.
  - by apply unvisited_mono.
  - intros Hsub. apply Hsub, elem_of_unvisited in Hp as (? & ? & ?). congruence.
Qed.

(** Updating one room. *)
Lemma maze_wf_insert m p r r' :
  maze_wf m → m !! p = Some r → row r' = row r → col r' = col r →
  maze_wf (<[p := r']> m).
Proof.
  intros Hwf Hp Hrow Hcol. split.
  - intros q. rewrite <-(wf_dom m Hwf), lookup_insert. case_decide; subst; [|done].
    split; intros; [by exists r|done].
  - intros q rq. rewrite lookup_insert. case_decide; subst; [|by apply wf_pos].
    intros [= <-]. rewrite Hrow, Hcol. by apply (wf_pos m Hwf).
Qed.

Lemma maze_wf_neighbor m p r d :
  maze_wf m → m !! p = Some r →
  get_neighbor num_rows num_cols r d =
    if decide (in_grid num_rows num_cols (step d p)) then Some (step d p) else None.
Proof.
  intros Hwf Hp. rewrite get_neighbor_spec, (wf_pos m Hwf p r Hp).
  assert (in_grid num_rows num_cols p) by (apply (wf_dom m Hwf); by exists r).
  repeat case_decide; naive_solver.
Qed.

Lemma initialize_maze_wf m0 :
  (∀ p, is_Some (m0 !! p) → in_grid num_rows num_cols p) →
  maze_wf (initialize_maze num_rows num_cols m0).
Proof.
  intros Hm0. split; intros p.
  - rewrite lookup_initialize_maze. case_decide; naive_solver.
  - intros r. rewrite lookup_initialize_maze. case_decide as Hp.
    + intros [= <-]. by destruct p.
    + intros Hr. destruct Hp. apply Hm0. by exists r.
Qed.

Lemma unvisited_size_grid m :
  maze_wf m → 0 ≤ num_rows → 0 ≤ num_cols →
  (size (unvisited m) ≤ Z.to_nat (num_rows * num_cols))%nat.
Proof.
  intros Hwf HR HC.
  assert (unvisited m ⊆ list_to_set (grid num_rows num_cols)) as Hsub.
  { intros p (r & Hr & _)%elem_of_unvisited. apply elem_of_list_to_set, elem_of_grid.
    apply (wf_dom m Hwf). by exists r. }
  etrans; [by apply subseteq_size|].
  etrans; [apply size_list_to_set_le|]. by rewrite length_grid.
Qed.

(** In a grid, a set of rooms that holds the corner and is closed under
    neighbours holds every room. *)
Lemma grid_connected (P : pos → Prop) :
  P (0, 0) →
  (∀ p d, P p → in_grid num_rows num_cols (step d p) → P (step d p)) →
  ∀ p, in_grid num_rows num_cols p → P p.
Proof.
  intros H0 Hstep [i j] [[Hi1 Hi2] [Hj1 Hj2]]; simpl in *.
  assert (P (i, 0)) as Hcol.
  { revert Hi2. pattern i. apply natlike_ind; [done| |done].
    intros x Hx IH Hlt. apply (Hstep (x, 0) SOUTH); [apply IH; lia|].
    unfold in_grid; simpl. lia. }
  revert Hj2. pattern j. apply natlike_ind; [done| |done].
  intros y Hy IH Hlt. apply (Hstep (i, y) EAST); [apply IH; lia|].
  unfold in_grid; simpl. lia.
Qed.
End Views.
