(* ===== verification/MazeTree.v ===== *)
(** * Trees of rooms.

    A tree is given by the parent of every room but the root, and grows by
    fresh leaves, the way the walk of the generator discovers rooms.  In a tree
    two simple paths with the same ends are equal. *)

From stdpp Require Import base gmap option list.
From S2P Require Import Prelude.

Section Paths.
Context {A : Type} (E : A → A → Prop).

(** [l] lists the rooms of a path after its first one, [x], up to [y]. *)
Fixpoint path (x : A) (l : list A) (y : A) : Prop :=
  match l with
  | [] => x = y
  | z :: l => E x z ∧ path z l y
  end.

Lemma path_last x l y : path x l y → last (x :: l) = Some y.
Proof.
  revert x. induction l as [|z l IH]; intros x; simpl; [by intros ->|].
  intros [_ Hp]. by apply IH.
Qed.

Lemma path_snoc x l z y : path x (l ++ [z]) y ↔ z = y ∧ ∃ w, path x l w ∧ E w z.
Proof.
  revert x. induction l as [|v l IH]; intros x; simpl.
  - naive_solver.
  - rewrite IH. naive_solver.
Qed.

(** A path that starts and ends at the same place repeats it, unless empty. *)
Lemma path_loop x l : path x l x → NoDup (x :: l) → l = [].
Proof.
  intros Hp [Hx _]%NoDup_cons. destruct l as [|z l]; [done|]. destruct Hx.
  destruct Hp as [_ Hp]. apply path_last, last_Some_elem_of in Hp. done.
Qed.
End Paths.

Lemma path_mono {A} (E E' : A → A → Prop) (P : A → Prop) x l y :
  (∀ a b, P a → P b → E a b → E' a b) → Forall P (x :: l) →
  path E x l y → path E' x l y.
Proof.
  intros HE. revert x. induction l as [|z l IH]; intros x HP; [done|].
  apply Forall_cons in HP as [Hx HP]. simpl. intros [HE1 Hp].
  split; [|by apply IH]. apply HE; [done|by apply Forall_cons in HP as [? _]|done].
Qed.

Lemma Forall_ne {A} (q : A) l : q ∉ l → Forall (λ z, q ≠ z) l.
Proof. intros Hl. apply Forall_forall. intros z Hz ->. done. Qed.

Section Tree.
Context {A : Type} `{Countable A} (root : A).

(** The trees: [par] gives the parent of every node but the root. *)
Inductive tree : gmap A A → Prop :=
  | tree_root : tree ∅
  | tree_leaf par q p :
      tree par → (p = root ∨ is_Some (par !! p)) → q ≠ root → par !! q = None →
      tree (<[q := p]> par).

(** Two nodes joined by an edge. *)
Definition edge (par : gmap A A) (x y : A) : Prop :=
  par !! x = Some y ∨ par !! y = Some x.

Lemma tree_parent par q p :
  tree par → par !! q = Some p → p = root ∨ is_Some (par !! p).
Proof.
  intros Ht. revert q p.
  induction Ht as [|par q0 p0 Ht IH Hp0 Hq0 Hf]; intros q p.
  - by rewrite lookup_empty.
  - rewrite lookup_insert_Some. unfold is_Some in *. setoid_rewrite lookup_insert_Some.
    intros [[<- <-]|[Hne Hq]].
    + destruct Hp0 as [|[x Hx]]; [by left|right]. exists x. right. split; [|done]. congruence.
    + destruct (IH q p Hq) as [|[x Hx]]; [by left|right].
      exists x. right. split; [|done]. congruence.
Qed.

(** The edges after adding the leaf [q] under [p]. *)
Section Leaf.
Context (par : gmap A A) (q p : A).
Context (Ht : tree par) (Hp : p = root ∨ is_Some (par !! p)).
Context (Hq : q ≠ root) (Hf : par !! q = None).

Local Abbreviation E' := (edge (<[q := p]> par)).

Lemma leaf_not_parent x : par !! x ≠ Some q.
Proof. intros Hx. destruct (tree_parent par x q Ht Hx) as [|[? ?]]; congruence. Qed.

Lemma leaf_ne : p ≠ q.
Proof. destruct Hp as [->|[x Hx]]; congruence. Qed.

Lemma edge_leaf_l x : E' q x → x = p.
Proof.
  unfold edge. rewrite !lookup_insert_Some. pose proof (leaf_not_parent x). naive_solver.
Qed.

Lemma edge_leaf_r x : E' x q → x = p.
Proof. intros [?|?]; apply edge_leaf_l; by (left + right). Qed.

Lemma edge_old x y : q ≠ x → q ≠ y → E' x y → edge par x y.
Proof. intros ??. unfold edge. by rewrite !lookup_insert_ne by done. Qed.

Lemma path_old x l y : Forall (λ z, q ≠ z) (x :: l) → path E' x l y → path (edge par) x l y.
Proof. apply path_mono. intros a b. apply edge_old. Qed.

(** A simple path between other nodes does not pass through the leaf. *)
Lemma path_avoids x l y :
  q ≠ x → q ≠ y → NoDup (x :: l) → path E' x l y → q ∉ x :: l.
Proof.
  revert x. induction l as [|z l IH]; intros x Hx Hy Hnd; simpl.
  - intros _. set_solver.
  - intros [Hxz Hzl]. destruct (decide (q = z)) as [<-|Hqz].
    + apply edge_leaf_r in Hxz as ->. destruct l as [|w l]; [by destruct Hy|].
      destruct Hzl as [->%edge_leaf_l _]. apply NoDup_cons in Hnd as [Hnd _]. set_solver.
    + apply NoDup_cons in Hnd as [_ Hnd]. apply not_elem_of_cons. auto.
Qed.

(** A simple path from the leaf goes through its parent and never returns. *)
Lemma path_from_leaf l y :
  q ≠ y → NoDup (q :: l) → path E' q l y →
  ∃ l', l = p :: l' ∧ NoDup (p :: l') ∧ path (edge par) p l' y.
Proof.
  intros Hy [Hql Hnd]%NoDup_cons. destruct l as [|z l]; simpl; [done|].
  intros [->%edge_leaf_l Hpath]. exists l. split_and!; [done..|].
  by apply path_old; [apply Forall_ne|].
Qed.

(** So does a simple path to the leaf. *)
Lemma path_to_leaf x l :
  q ≠ x → NoDup (x :: l) → path E' x l q →
  ∃ l', l = l' ++ [q] ∧ NoDup (x :: l') ∧ path (edge par) x l' p.
Proof.
  intros Hx Hnd Hpath.
  destruct l as [|z l _] using rev_ind; [by destruct Hx|].
  apply path_snoc in Hpath as (-> & w & Hpath & ->%edge_leaf_r).
  rewrite app_comm_cons in Hnd. apply NoDup_app in Hnd as (Hnd & Hdis & _).
  exists l. split_and!; [done..|]. apply path_old; [|done].
  apply Forall_ne. intros Hin. apply (Hdis q Hin). set_solver.
Qed.
End Leaf.

(** Simple paths are determined by their ends. *)
Theorem tree_unique_path par x y l1 l2 :
  tree par → NoDup (x :: l1) → NoDup (x :: l2) →
  path (edge par) x l1 y → path (edge par) x l2 y → l1 = l2.
Proof.
  intros Ht. revert x y l1 l2.
  induction Ht as [|par q p Ht IH Hp Hq Hf]; intros x y l1 l2 Hn1 Hn2 H1 H2.
  - assert (∀ x l, path (edge ∅) x l y → l = []) as Hnil.
    { intros x' [|z l]; [done|]. intros [[?|?] _]; by rewrite lookup_empty in *. }
    by rewrite (Hnil x l1 H1), (Hnil x l2 H2).
  - destruct (decide (q = x)) as [<-|Hx], (decide (q = y)) as [<-|Hy].
    + by rewrite (path_loop _ _ _ H1 Hn1), (path_loop _ _ _ H2 Hn2).
    + destruct (path_from_leaf par q p Ht Hp Hq Hf l1 y) as (k1 & -> & ? & ?); [done..|].
      destruct (path_from_leaf par q p Ht Hp Hq Hf l2 y) as (k2 & -> & ? & ?); [done..|].
      f_equal. by eapply IH.
    + destruct (path_to_leaf par q p Ht Hp Hq Hf x l1) as (k1 & -> & ? & ?); [done..|].
      destruct (path_to_leaf par q p Ht Hp Hq Hf x l2) as (k2 & -> & ? & ?); [done..|].
      f_equal. by eapply IH.
    + apply (IH x y l1 l2 Hn1 Hn2); (eapply path_old; [|done]);
        apply Forall_ne; by eapply (path_avoids par q p Ht Hp Hq Hf).
Qed.
End Tree.
