(* ===== verification/MazeGenerator.v ===== *)
(** * The maze generator: [1-maze-haininz/generator.c].

    The drunken walk as a state-passing computation over the array of rooms and
    the stream of values of [rand()], and what every generated maze satisfies. *)

From Stdlib Require Import ZArith Lia.
From stdpp Require Import base gmap numbers option relations list.
From S2P Require Import Prelude MazeCommon MazeTree.

Open Scope Z_scope.

(** [get_opposite_dir] *)
Definition get_opposite_dir (dir : Direction) : Direction :=
  if bool_decide (dir = NORTH) then SOUTH
  else if bool_decide (dir = SOUTH) then NORTH
  else if bool_decide (dir = WEST) then EAST
  else WEST.

(** What the walk threads: the array of rooms, and how many times [rand()]
    has been called. *)
Record gen_state := GenState {
  gmaze : maze_t;
  nrand : nat;
}.

Section Generator.
(** [rand n] is the value of the [n]-th call of [rand()]; the seed is chosen
    by [srand(time(NULL))], so nothing is assumed of the stream but the range
    the C library documents. *)
Context (rand : nat → Z).
Context (num_rows num_cols : Z).

Definition rand_call : ST gen_state Z := λ s,
  Ok (rand (nrand s), GenState (gmaze s) (S (nrand s))).

(** [maze[p.row][p.col]], read and updated in place. *)
Definition room_at (p : pos) : ST gen_state maze_room := λ s,
  deref (gmaze s !! p) s.

Definition upd_room (p : pos) (f : maze_room → maze_room) : ST gen_state unit :=
  r ← room_at p;
  modify (λ s, GenState (<[p := f r]> (gmaze s)) (nrand s)).

(** One iteration of the loop of [shuffle_array]. *)
Definition shuffle_step (directions : list Direction) (i : Z) :
    ST gen_state (list Direction) :=
  x ← rand_call;
  let r := Z.rem x 4 in
  temp ← deref (zlookup directions i);
  dr ← deref (zlookup directions r);
  mret (zinsert (zinsert directions i dr) r temp).

(** [shuffle_array]: [for (int i = 0; i < 4; i++)]. *)
Definition shuffle_array (directions : list Direction) :
    ST gen_state (list Direction) :=
  d0 ← shuffle_step directions 0;
  d1 ← shuffle_step d0 1;
  d2 ← shuffle_step d1 2;
  shuffle_step d2 3.

(** The body of the loop of [drunken_walk] for one direction; [self] is the
    recursive call. *)
Definition walk_dir (self : Z → Z → ST gen_state unit) (row_ col_ : Z)
    (dir : Direction) : ST gen_state unit :=
  room ← room_at (row_, col_);
  match get_neighbor num_rows num_cols room dir with
  | None => upd_room (row_, col_) (set_wall dir 1)
  | Some n =>
      neighbor ← room_at n;
      if visited neighbor =? 0 then
        upd_room (row_, col_) (set_wall dir 0);;
        self (row neighbor) (col neighbor)
      else
        let w := wall neighbor (get_opposite_dir dir) in
        if negb (w =? -1) then upd_room (row_, col_) (set_wall dir w)
        else upd_room (row_, col_) (set_wall dir 1)
  end.

Fixpoint walk_loop (self : Z → Z → ST gen_state unit) (row_ col_ : Z)
    (directions : list Direction) : ST gen_state unit :=
  match directions with
  | [] => mret tt
  | dir :: ds => walk_dir self row_ col_ dir;; walk_loop self row_ col_ ds
  end.

(** [drunken_walk]; the fuel bounds the depth of the recursion. *)
Fixpoint drunken_walk (fuel : nat) (row_ col_ : Z) : ST gen_state unit :=
  match fuel with
  | O => fail NoFuel
  | S fuel' =>
      if is_in_range row_ col_ num_rows num_cols =? 0 then mret tt
      else
        directions ← shuffle_array [NORTH; SOUTH; EAST; WEST];
        upd_room (row_, col_) (set_visited 1);;
        walk_loop (drunken_walk fuel') row_ col_ directions
  end.

(** The part of [main] between the argument check and the encoding:
    [initialize_maze] and the walk from the corner. *)
Definition generate_maze (uninit : maze_t) : result (unit * gen_state) :=
  drunken_walk (Z.to_nat (num_rows * num_cols)) 0 0
    (GenState (initialize_maze num_rows num_cols uninit) 0).
End Generator.

(** ** Shuffling *)
Section Shuffle.
Context (rand : nat → Z) (Hrand : ∀ n, 0 ≤ rand n).

Lemma shuffle_step_perm dirs i s :
  length dirs = 4%nat → 0 ≤ i < 4 →
  ∃ dirs', shuffle_step rand dirs i s = Ok (dirs', GenState (gmaze s) (S (nrand s))) ∧
           dirs' ≡ₚ dirs.
Proof.
  intros Hlen Hi.
  assert (0 ≤ Z.rem (rand (nrand s)) 4 < 4) as Hr by (apply Z.rem_bound_pos; [done|lia]).
  destruct (zlookup_lt dirs i) as [x Hx]; [lia|].
  destruct (zlookup_lt dirs (Z.rem (rand (nrand s)) 4)) as [y Hy]; [lia|].
  exists (zinsert (zinsert dirs i y) (Z.rem (rand (nrand s)) 4) x). split.
  - unfold shuffle_step, rand_call, mbind, ST_bind. by rewrite Hx, Hy.
  - unfold zlookup, zinsert in *.
    rewrite !(proj2 (Z.ltb_ge _ 0)) in * by lia. by apply swap_Permutation.
Qed.

(** [shuffle_array] permutes the four directions and touches only the random
    stream. *)
Lemma shuffle_array_perm dirs s :
  length dirs = 4%nat →
  ∃ dirs', shuffle_array rand dirs s = Ok (dirs', GenState (gmaze s) (4 + nrand s)) ∧
           dirs' ≡ₚ dirs.
Proof.
  intros Hlen. unfold shuffle_array.
  destruct (shuffle_step_perm dirs 0 s) as (d0 & H0 & P0); [done..|].
  run H0.
  destruct (shuffle_step_perm d0 1 (GenState (gmaze s) (S (nrand s)))) as (d1 & H1 & P1);
    [by rewrite P0|done|].
  run H1. simpl in *.
  destruct (shuffle_step_perm d1 2 (GenState (gmaze s) (S (S (nrand s))))) as (d2 & H2 & P2);
    [by rewrite P1, P0|done|].
  run H2. simpl in *.
  destruct (shuffle_step_perm d2 3 (GenState (gmaze s) (S (S (S (nrand s))))))
    as (d3 & H3 & P3); [by rewrite P2, P1, P0|done|].
  exists d3. split; [done|]. by rewrite P3, P2, P1, P0.
Qed.
End Shuffle.

Lemma opposite_involutive d : get_opposite_dir (get_opposite_dir d) = d.
Proof. by destruct d. Qed.

Lemma step_opposite d p : step (get_opposite_dir d) (step d p) = p.
Proof. destruct p, d; unfold step; simpl; f_equal; lia. Qed.

(** ** The invariant of the walk *)
Section Walk.
Context (rand : nat → Z) (Hrand : ∀ n, 0 ≤ rand n).
Context (num_rows num_cols : Z).

Local Abbreviation in_grid := (in_grid num_rows num_cols).
Local Abbreviation opening := (opening num_rows num_cols).
Local Abbreviation walk := (drunken_walk rand num_rows num_cols).

Record gen_inv (m : maze_t) : Prop := {
  gi_wf : maze_wf num_rows num_cols m;
  gi_vals p r d : m !! p = Some r → wall r d = -1 ∨ wall r d = 0 ∨ wall r d = 1;
  gi_fresh p r d : m !! p = Some r → visited r = 0 → wall r d = -1;
  gi_agree p r d r' :
    m !! p = Some r → m !! step d p = Some r' →
    wall r d ≠ -1 → wall r' (get_opposite_dir d) ≠ -1 →
    wall r d = wall r' (get_opposite_dir d);
  gi_border p r d :
    m !! p = Some r → ¬ in_grid (step d p) → wall r d ≠ -1 → wall r d = 1;
}.

(** Rooms visited before a call keep their contents. *)
Definition frame (m m' : maze_t) : Prop :=
  ∀ q r, m !! q = Some r → visited r ≠ 0 → m' !! q = Some r.

(** What has been determined of a visited room stays. *)
Definition extends (m m' : maze_t) : Prop :=
  ∀ q r, m !! q = Some r → visited r ≠ 0 →
    ∃ r', m' !! q = Some r' ∧ visited r' ≠ 0 ∧
          ∀ d, wall r d ≠ -1 → wall r' d = wall r d.

Lemma frame_extends m m' : frame m m' → extends m m'.
Proof. intros Hf q r Hq Hv. exists r. naive_solver. Qed.

#[local] Instance extends_trans : Transitive extends.
Proof.
  intros m1 m2 m3 H12 H23 q r Hq Hv.
  destruct (H12 q r Hq Hv) as (r2 & Hq2 & Hv2 & Hw2).
  destruct (H23 q r2 Hq2 Hv2) as (r3 & Hq3 & Hv3 & Hw3).
  exists r3. split_and!; [done..|]. intros d Hd.
  rewrite Hw3; rewrite Hw2; done.
Qed.

Lemma extends_vis m m' p : extends m m' → vis m p → vis m' p.
Proof. intros He (r & Hr & Hv). destruct (He p r Hr Hv) as (r' & ? & ? & _). by exists r'. Qed.

(** Openings start at visited rooms, so they survive. *)
Lemma extends_opening m m' p q :
  gen_inv m → extends m m' → opening m p q → opening m' p q.
Proof.
  intros Hi He (r & d & Hr & Hw & -> & Hq).
  destruct (decide (visited r = 0)) as [Hv|Hv]; cycle 1.
  - destruct (He p r Hr Hv) as (r' & Hr' & _ & Hw').
    exists r', d. split_and!; [done| |done|done]. rewrite Hw'; lia.
  - rewrite (gi_fresh m Hi p r d Hr Hv) in Hw. lia.
Qed.

Lemma extends_path m m' p q :
  gen_inv m → extends m m' → rtc (opening m) p q → rtc (opening m') p q.
Proof.
  intros Hi He. apply rtc_subrel. intros x y. by apply extends_opening.
Qed.

(** A room is finished: its four connections are determined and its
    neighbours visited. *)
Definition finished (m : maze_t) (p : pos) : Prop :=
  ∃ r, m !! p = Some r ∧
    ∀ d, wall r d ≠ -1 ∧ (in_grid (step d p) → vis m (step d p)).

Lemma extends_finished m m' p :
  vis m p → extends m m' → finished m p → finished m' p.
Proof.
  intros (r0 & Hr0 & Hv) He (r & Hr & Hd).
  assert (r0 = r) as -> by congruence.
  destruct (He p r Hr Hv) as (r' & Hr' & _ & Hw). exists r'. split; [done|].
  intros d. destruct (Hd d) as [Hd1 Hd2]. rewrite (Hw d Hd1). split; [done|].
  intros Hg. by eapply extends_vis, Hd2.
Qed.

(** The rooms form a tree rooted at the corner while [cur] is the room the walk
    is in or about to enter: the nodes of the tree are the visited rooms and
    [cur], an opening seen from a room joins a node and its parent, and every
    parent has its side of the connection open. *)
Record tree_of (m : maze_t) (cur : pos) (par : gmap pos pos) : Prop := {
  to_tree : tree (0, 0) par;
  to_nodes q : q = (0, 0) ∨ is_Some (par !! q) ↔ q = cur ∨ vis m q;
  to_edges q r d : m !! q = Some r → wall r d = 0 → edge par q (step d q);
  to_open q p : par !! q = Some p → opening m p q;
}.

Definition tree_inv (m : maze_t) (cur : pos) : Prop := ∃ par, tree_of m cur par.

Lemma tree_inv_cur m p q : vis m p → vis m q → tree_inv m p → tree_inv m q.
Proof.
  intros Hp Hq (par & [Ht Hn He Ho]). exists par. split; [done| |done..].
  intros x. rewrite Hn. naive_solver.
Qed.

(** The contract of a walk that starts at an unvisited room [p]. *)
Record walk_post (m : maze_t) (p : pos) (m' : maze_t) : Prop := {
  wp_inv : gen_inv m';
  wp_frame : frame m m';
  wp_here : vis m' p;
  wp_tree : tree_inv m' p;
  wp_new q : vis m' q → ¬ vis m q → finished m' q ∧ rtc (opening m') p q;
}.

(** The invariant of the loop over the directions: [m0] is the maze the walk
    was called with, [ds] are the directions still to do. *)
Record loop_inv (m0 : maze_t) (p : pos) (ds : list Direction) (m : maze_t) : Prop := {
  li_inv : gen_inv m;
  li_frame : frame m0 m;
  li_here : ∃ r, m !! p = Some r ∧ visited r ≠ 0 ∧
    ∀ d, (d ∈ ds → wall r d = -1) ∧
         (d ∉ ds → wall r d ≠ -1 ∧ (in_grid (step d p) → vis m (step d p)));
  li_tree : tree_inv m p;
  li_new q : vis m q → ¬ vis m0 q → q ≠ p → finished m q ∧ rtc (opening m) p q;
}.

Lemma step_ne d p : step d p ≠ p.
Proof. destruct p, d; unfold step; simpl; intros [=]; lia. Qed.

(** Storing a value in an undetermined connection of a visited room. *)
Lemma set_wall_gen_inv m p r d v :
  gen_inv m → m !! p = Some r → visited r ≠ 0 → v = 0 ∨ v = 1 →
  (∀ r', m !! step d p = Some r' → wall r' (get_opposite_dir d) ≠ -1 →
     v = wall r' (get_opposite_dir d)) →
  (¬ in_grid (step d p) → v = 1) →
  gen_inv (<[p := set_wall d v r]> m).
Proof.
  intros Hi Hp Hvis Hv Hnb Hb. split.
  - apply maze_wf_insert with r; [apply Hi|done|apply pos_set_wall..].
  - intros q rq d'. rewrite lookup_insert. case_decide; subst; [|by apply Hi].
    intros [= <-]. rewrite wall_set_wall. case_decide; [lia|by apply (gi_vals m Hi q)].
  - intros q rq d'. rewrite lookup_insert. case_decide; subst; [|by apply Hi].
    intros [= <-]. by rewrite visited_set_wall.
  - intros q rq d' r'. rewrite !lookup_insert.
    destruct (decide (p = q)) as [<-|Hpq].
    + rewrite decide_False by (intros Heq; by eapply step_ne).
      intros [= <-] Hr'. rewrite wall_set_wall. case_decide; subst.
      * intros _ Hne. by apply Hnb.
      * by apply (gi_agree m Hi p).
    + intros Hq. case_decide as Hstep; [|by apply (gi_agree m Hi q)].
      intros [= <-]. rewrite wall_set_wall. case_decide as Hd; [|subst p; by apply (gi_agree m Hi q)].
      intros Hne _. subst p d. symmetry.
      rewrite step_opposite, opposite_involutive in Hnb. by apply Hnb.
  - intros q rq d'. rewrite lookup_insert. case_decide; subst; [|by apply Hi].
    intros [= <-]. rewrite wall_set_wall. case_decide; subst; [by intros; apply Hb|].
    by apply (gi_border m Hi q).
Qed.

Lemma set_wall_extends m p r d v :
  m !! p = Some r → wall r d = -1 → extends m (<[p := set_wall d v r]> m).
Proof.
  intros Hp Hd q rq Hq Hv. rewrite lookup_insert. case_decide; [|naive_solver].
  assert (rq = r) as -> by congruence. eexists. split; [done|].
  rewrite visited_set_wall. split; [done|]. intros d' Hd'.
  rewrite wall_set_wall. case_decide; congruence.
Qed.

Lemma set_wall_vis m p r d v q :
  m !! p = Some r → vis (<[p := set_wall d v r]> m) q ↔ vis m q.
Proof.
  intros Hp. unfold vis. rewrite lookup_insert. case_decide; [subst|done].
  split.
  - intros (r' & [= <-] & Hv). exists r. by rewrite visited_set_wall in Hv.
  - intros (r' & Hr' & Hv). exists (set_wall d v r). rewrite visited_set_wall. naive_solver.
Qed.

Lemma edge_sym (par : gmap pos pos) x y : edge par x y → edge par y x.
Proof. unfold edge. tauto. Qed.

(** Storing a value copied from the other side, or a wall, keeps the tree. *)
Lemma set_wall_tree_inv m p r d v :
  gen_inv m → m !! p = Some r → visited r ≠ 0 → wall r d = -1 →
  (v = 0 → ∃ r', m !! step d p = Some r' ∧ wall r' (get_opposite_dir d) = 0) →
  tree_inv m p → tree_inv (<[p := set_wall d v r]> m) p.
Proof.
  intros Hi Hp Hvis Hd Hv (par & [Ht Hn He Ho]). exists par. split; [done|..].
  - intros q. by rewrite set_wall_vis.
  - intros q rq d'. rewrite lookup_insert. case_decide; [subst q|by apply He].
    intros [= <-]. rewrite wall_set_wall. case_decide; [subst d'|by apply He].
    intros (r' & Hr' & Hw)%Hv. apply edge_sym.
    rewrite <-(step_opposite d p) at 2. by eapply He.
  - intros q x Hx. eapply extends_opening; [done| |by apply Ho]. by apply set_wall_extends.
Qed.

(** Opening the wall to an unvisited room makes that room a leaf. *)
Lemma open_wall_tree_inv m p r d rn :
  gen_inv m → m !! p = Some r → visited r ≠ 0 → wall r d = -1 →
  in_grid (step d p) → m !! step d p = Some rn → visited rn = 0 →
  tree_inv m p → tree_inv (<[p := set_wall d 0 r]> m) (step d p).
Proof.
  intros Hi Hp Hvis Hd Hg Hrn Hun (par & [Ht Hn He Ho]).
  assert (vis m p) as Hvp by (by exists r).
  assert (¬ ((step d p) = (0, 0) ∨ is_Some (par !! step d p))) as Hfresh.
  { rewrite Hn. intros [Heq|(r' & ? & ?)]; [by eapply step_ne|congruence]. }
  assert (par !! step d p = None) as Hnone by (apply eq_None_not_Some; tauto).
  exists (<[step d p := p]> par). split.
  - constructor; [done|by apply Hn; right|tauto|done].
  - intros q. rewrite set_wall_vis by done. rewrite lookup_insert_is_Some'.
    specialize (Hn q). naive_solver.
  - assert (∀ x y, edge par x y → edge (<[step d p := p]> par) x y) as Hmono.
    { intros x y [?|?]; [left|right]; rewrite lookup_insert_ne; congruence. }
    intros q rq d'. rewrite lookup_insert. case_decide; [subst q|by intros; apply Hmono, (He q rq)].
    intros [= <-]. rewrite wall_set_wall. case_decide; [subst d'|by intros; apply Hmono, (He p r)].
    intros _. right. by rewrite lookup_insert_eq.
  - intros q x. rewrite lookup_insert_Some. intros [[<- <-]|[_ Hx]].
    + exists (set_wall d 0 r), d. rewrite lookup_insert_eq, wall_set_wall, decide_True; done.
    + eapply extends_opening; [done| |by apply Ho]. by apply set_wall_extends.
Qed.

(** One iteration of the loop: [m] is extended to [m2], the new rooms being
    those a recursive call may have visited. *)
Lemma loop_inv_step m0 p d ds m r v m2 :
  ¬ vis m0 p → NoDup (d :: ds) → loop_inv m0 p (d :: ds) m →
  m !! p = Some r → v ≠ -1 → gen_inv m2 →
  frame (<[p := set_wall d v r]> m) m2 →
  (in_grid (step d p) → vis m2 (step d p)) → tree_inv m2 p →
  (∀ q, vis m2 q → ¬ vis m q → finished m2 q ∧ rtc (opening m2) p q) →
  loop_inv m0 p ds m2.
Proof.
  intros Hp0 [Hd Hnd]%NoDup_cons Hl Hp Hv Hi2 Hf Hnb Htree Hnew.
  destruct (li_here _ _ _ _ Hl) as (r0 & Hr0 & Hvis & Hdirs).
  assert (r0 = r) as -> by congruence.
  assert (extends m m2) as He.
  { etrans; [apply (set_wall_extends m p r d v); [done|]|by apply frame_extends].
    apply (Hdirs d). set_solver. }
  split; [done|..].
  - intros q rq Hq Hvq. apply Hf; [|done]. rewrite lookup_insert_ne.
    + by apply Hl.
    + intros <-. apply Hp0. by exists rq.
  - exists (set_wall d v r). split_and!.
    + apply Hf; [by rewrite lookup_insert_eq|by rewrite visited_set_wall].
    + by rewrite visited_set_wall.
    + intros d'. rewrite wall_set_wall. destruct (Hdirs d') as [H1 H2]. split.
      * intros Hd'. rewrite decide_False by set_solver. apply H1. set_solver.
      * intros Hd'. case_decide as Hdd; [by subst|].
        destruct H2 as [H2 H3]; [set_solver|]. split; [done|].
        intros Hg. by eapply extends_vis, H3.
  - done.
  - intros q Hq2 Hq0 Hqp. destruct (decide (vis m q)) as [Hq|Hq]; [|by apply Hnew].
    destruct (li_new _ _ _ _ Hl q Hq Hq0 Hqp) as [Hfin Hpath]. split.
    + by eapply extends_finished.
    + by eapply extends_path; [apply Hl|..].
Qed.

Lemma frame_refl m : frame m m.
Proof. by intros q r. Qed.

(** The contract a recursive call is used with: unvisited rooms at most
    [n] many. *)
Definition walk_spec (n : nat) (self : Z → Z → ST gen_state unit) : Prop :=
  ∀ p m k, gen_inv m → in_grid p → ¬ vis m p → tree_inv m p → (size (unvisited m) ≤ n)%nat →
    ∃ m' k', self p.1 p.2 (GenState m k) = Ok (tt, GenState m' k') ∧ walk_post m p m'.

Lemma upd_room_Ok p f m k r :
  m !! p = Some r →
  upd_room p f (GenState m k) = Ok (tt, GenState (<[p := f r]> m) k).
Proof. intros Hp. unfold upd_room, room_at, mbind, ST_bind. simpl. by rewrite Hp. Qed.

Lemma in_grid_lookup m p : gen_inv m → in_grid p → ∃ r, m !! p = Some r.
Proof. intros Hi Hg. by apply (wf_dom _ _ m (gi_wf m Hi)). Qed.

Lemma room_at_Ok p m k r : m !! p = Some r → room_at p (GenState m k) = Ok (r, GenState m k).
Proof. intros Hr. unfold room_at. simpl. by rewrite Hr. Qed.

Section Iteration.
Context (n : nat) (self : Z → Z → ST gen_state unit) (Hself : walk_spec n self).
Context (m0 : maze_t) (p : pos) (d : Direction) (ds : list Direction).
Context (m : maze_t) (k : nat) (r : maze_room).
Context (Hp0 : ¬ vis m0 p) (Hnd : NoDup (d :: ds)) (Hl : loop_inv m0 p (d :: ds) m).
Context (Hsize : (size (unvisited m) ≤ n)%nat).
Context (Hr : m !! p = Some r) (Hvis : visited r ≠ 0).

Local Abbreviation iterates s' := (∃ m' k',
  s' = Ok (tt, GenState m' k') ∧ loop_inv m0 p ds m').

Lemma undetermined : wall r d = -1.
Proof.
  destruct (li_here _ _ _ _ Hl) as (r0 & Hr0 & _ & Hdirs).
  assert (r0 = r) as -> by congruence. apply Hdirs. set_solver.
Qed.

(** An unvisited neighbour: open the wall, then walk from it. *)
Lemma walk_dir_unvisited rn :
  in_grid (step d p) → m !! step d p = Some rn → visited rn = 0 →
  iterates ((upd_room p (set_wall d 0);; self (row rn) (col rn)) (GenState m k)).
Proof.
  intros Hg Hrn Hv. assert (gen_inv m) as Hi by apply Hl.
  run ((upd_room_Ok p (set_wall d 0) m k r Hr)).
  assert (gen_inv (<[p:=set_wall d 0 r]> m)) as Hi1.
  { apply set_wall_gen_inv; [done..|by left| |done]. intros r' Hr' Hne.
    destruct Hne. assert (r' = rn) as -> by congruence. by eapply gi_fresh. }
  destruct (Hself (step d p) (<[p:=set_wall d 0 r]> m) k) as (m2 & k2 & Hrun & Hpost).
  { done. }
  { done. }
  { rewrite set_wall_vis by done. intros (r' & ? & ?). congruence. }
  { apply open_wall_tree_inv with rn; try done; [apply undetermined|apply Hl]. }
  { etrans; [|done]. apply subseteq_size.
    apply (unvisited_mono num_rows num_cols); [apply Hi|apply Hi1|].
    intros q. by rewrite set_wall_vis. }
  rewrite <-(wf_pos _ _ m (gi_wf m Hi) _ _ Hrn) in Hrun. simpl in Hrun.
  rewrite Hrun. exists m2, k2. split; [done|].
  assert (m2 !! p = Some (set_wall d 0 r)) as Hp2.
  { apply Hpost; [by rewrite lookup_insert_eq|by rewrite visited_set_wall]. }
  eapply loop_inv_step with (v := 0); try done; [apply Hpost..|intros _; apply Hpost| |].
  { apply tree_inv_cur with (step d p); [apply Hpost| |apply Hpost].
    exists (set_wall d 0 r). by rewrite visited_set_wall. }
  intros q Hq2 Hqm. destruct (wp_new _ _ _ Hpost q) as [Hfin Hpath]; [done| |].
  { by rewrite set_wall_vis. }
  split; [done|]. eapply rtc_l; [|done].
  exists (set_wall d 0 r), d. split_and!; [done|by rewrite wall_set_wall, decide_True|done|done].
Qed.

(** No call: only this room's connection is stored. *)
Lemma walk_dir_store v :
  v = 0 ∨ v = 1 →
  (∀ r', m !! step d p = Some r' → wall r' (get_opposite_dir d) ≠ -1 →
     v = wall r' (get_opposite_dir d)) →
  (¬ in_grid (step d p) → v = 1) →
  (in_grid (step d p) → vis m (step d p)) →
  (v = 0 → ∃ r', m !! step d p = Some r' ∧ wall r' (get_opposite_dir d) = 0) →
  iterates (upd_room p (set_wall d v) (GenState m k)).
Proof.
  intros Hv Hagree Hborder Hnb Hcopy. exists (<[p:=set_wall d v r]> m), k.
  split; [by apply upd_room_Ok|].
  assert (gen_inv (<[p:=set_wall d v r]> m)) as Hi1 by (apply set_wall_gen_inv; try done; apply Hl).
  eapply (loop_inv_step m0 p d ds m r v); try done; [lia|apply frame_refl| | |].
  - intros Hg. apply set_wall_vis; auto.
  - apply set_wall_tree_inv; try done; [apply Hl|apply undetermined|apply Hl].
  - intros q Hq Hqm. by rewrite set_wall_vis in Hq.
Qed.

Lemma walk_dir_spec :
  iterates (walk_dir num_rows num_cols self p.1 p.2 d (GenState m k)).
Proof.
  assert (gen_inv m) as Hi by apply Hl. unfold walk_dir.
  rewrite <-(surjective_pairing p), (ST_bind_Ok _ _ _ _ _ (room_at_Ok p m k r Hr)).
  rewrite (maze_wf_neighbor _ _ m p r d (gi_wf m Hi) Hr).
  destruct (decide (in_grid (step d p))) as [Hg|Hg].
  - destruct (in_grid_lookup m _ Hi Hg) as [rn Hrn].
    run ((room_at_Ok _ m k rn Hrn)).
    pose proof (gi_vals m Hi _ _ (get_opposite_dir d) Hrn) as Hvals.
    destruct (Z.eqb_spec (visited rn) 0) as [Hv|Hv]; [by apply walk_dir_unvisited|].
    assert (vis m (step d p)) by (by exists rn).
    destruct (Z.eqb_spec (wall rn (get_opposite_dir d)) (-1)) as [Hw|Hw]; simpl;
      apply walk_dir_store; try done; try lia; intros r'; rewrite Hrn; naive_solver.
  - apply walk_dir_store; try done; [by right|]. intros r' Hr'.
    destruct Hg. apply (wf_dom _ _ m (gi_wf m Hi)). by exists r'.
Qed.
End Iteration.

(** Inside the loop fewer rooms are unvisited than before the call. *)
Lemma loop_inv_size m0 p ds m :
  gen_inv m0 → in_grid p → ¬ vis m0 p → loop_inv m0 p ds m →
  (size (unvisited m) < size (unvisited m0))%nat.
Proof.
  intros Hi0 Hg Hp0 Hl. destruct (in_grid_lookup m0 p Hi0 Hg) as [r0 Hr0].
  eapply (unvisited_size_lt num_rows num_cols); [apply Hi0|apply Hl| | |].
  - intros q Hq. eapply extends_vis; [|done]. apply frame_extends, Hl.
  - apply elem_of_unvisited. exists r0. split; [done|]. by eapply not_vis_unvisited.
  - destruct (li_here _ _ _ _ Hl) as (r & Hr & Hv & _). by exists r.
Qed.

Lemma walk_loop_spec n self m0 p ds m k :
  walk_spec n self → gen_inv m0 → in_grid p → ¬ vis m0 p →
  (size (unvisited m0) ≤ S n)%nat → NoDup ds → loop_inv m0 p ds m →
  ∃ m' k', walk_loop num_rows num_cols self p.1 p.2 ds (GenState m k)
             = Ok (tt, GenState m' k') ∧ loop_inv m0 p [] m'.
Proof.
  intros Hself Hi0 Hg Hp0 Hsize. revert m k.
  induction ds as [|d ds IH]; intros m k Hnd Hl; [by exists m, k|].
  destruct (li_here _ _ _ _ Hl) as (r & Hr & Hv & _).
  pose proof (loop_inv_size m0 p _ m Hi0 Hg Hp0 Hl).
  destruct (walk_dir_spec n self Hself m0 p d ds m k r) as (m1 & k1 & Hrun & Hl1);
    try done; [lia|].
  simpl. run Hrun. apply IH; [|done].
  by apply NoDup_cons in Hnd as [_ ?].
Qed.

(** Marking the room visited starts the loop. *)
Lemma loop_inv_start m0 p r ds :
  gen_inv m0 → m0 !! p = Some r → visited r = 0 → tree_inv m0 p → (∀ d, d ∈ ds) →
  loop_inv m0 p ds (<[p := set_visited 1 r]> m0).
Proof.
  intros Hi Hp Hv Htree Hds.
  assert (∀ q, vis (<[p := set_visited 1 r]> m0) q → q = p ∨ vis m0 q) as Hvis.
  { intros q (rq & Hq & Hvq). rewrite lookup_insert in Hq. case_decide; [by left|right].
    by exists rq. }
  assert (∀ q rq, (<[p := set_visited 1 r]> m0) !! q = Some rq →
            ∃ rq', m0 !! q = Some rq' ∧ ∀ d, wall rq d = wall rq' d) as Hwalls.
  { intros q rq. rewrite lookup_insert. case_decide; [|naive_solver].
    intros [= <-]. subst. exists r. split; [done|by intros []]. }
  split; [split| | | |].
  - apply maze_wf_insert with r; [apply Hi|done..].
  - intros q rq d (rq' & Hq & ->)%Hwalls. by apply (gi_vals m0 Hi q).
  - intros q rq d. rewrite lookup_insert. case_decide; [|by apply Hi]. by intros [= <-].
  - intros q rq d rq2 (rq' & Hq & ->)%Hwalls (rq2' & Hq2 & ->)%Hwalls.
    by apply (gi_agree m0 Hi q).
  - intros q rq d (rq' & Hq & ->)%Hwalls. by apply (gi_border m0 Hi q).
  - intros q rq Hq Hvq. rewrite lookup_insert_ne; [done|]. intros ->. congruence.
  - exists (set_visited 1 r). rewrite lookup_insert_eq. split_and!; [done..|].
    intros d. split; [intros _|intros Hd; by destruct Hd].
    transitivity (wall r d); [by destruct d|by apply (gi_fresh m0 Hi p)].
  - destruct Htree as (par & [Ht Hn He Ho]). exists par. split; [done|..].
    + intros q. rewrite Hn. split; [|intros [|?%Hvis]; tauto].
      intros [|(rq & Hq & Hvq)]; [tauto|right]. exists rq.
      rewrite lookup_insert_ne; [done|]. congruence.
    + intros q rq d (rq' & Hq & ->)%Hwalls. by apply He.
    + intros q x (rx & d & Hx & Hd)%Ho. rewrite <-(insert_id m0 p r) in Hx by done.
      exists (if decide (p = x) then set_visited 1 r else rx), d.
      rewrite lookup_insert in *. case_decide; [injection Hx as <-|done].
      split; [done|]. by destruct d.
  - intros q [->|?]%Hvis ??; done.
Qed.

(** The loop invariant at the end of the loop is the contract of the walk. *)
Lemma loop_inv_end m0 p m :
  loop_inv m0 p [] m → walk_post m0 p m.
Proof.
  intros Hl. destruct (li_here _ _ _ _ Hl) as (r & Hr & Hv & Hd).
  split; [apply Hl|apply Hl|by exists r|apply Hl|]. intros q Hq Hq0.
  destruct (decide (q = p)) as [->|Hne]; [|by apply Hl]. split; [|done].
  exists r. split; [done|]. intros d. apply Hd. set_solver.
Qed.

Lemma drunken_walk_spec n : walk_spec n (walk n).
Proof.
  induction n as [|n IH]; intros p m k Hi Hg Hp Htree Hsize;
    destruct (in_grid_lookup m p Hi Hg) as [r Hr];
    pose proof (not_vis_unvisited m p r Hr Hp) as Hv.
  { apply Nat.le_0_r, size_empty_inv in Hsize.
    exfalso. eapply (elem_of_empty (C:=gset pos) p), Hsize.
    apply elem_of_unvisited. by exists r. }
  simpl. rewrite is_in_range_spec, decide_True by (by rewrite <-(surjective_pairing p)).
  simpl. destruct (shuffle_array_perm rand Hrand [NORTH; SOUTH; EAST; WEST] (GenState m k))
    as (ds & Hsh & Hperm); [done|].
  rewrite (ST_bind_Ok _ _ _ _ _ Hsh), <-(surjective_pairing p).
  run ((upd_room_Ok p (set_visited 1) m _ r Hr)).
  destruct (walk_loop_spec n (walk n) m p ds (<[p:=set_visited 1 r]> m) (4 + k))
    as (m' & k' & Hrun & Hl); try done.
  - rewrite Hperm. repeat constructor; set_solver.
  - apply loop_inv_start; [done..|]. intros d. rewrite Hperm. destruct d; set_solver.
  - exists m', k'. split; [done|by apply loop_inv_end].
Qed.

Lemma initialize_maze_gen_inv m0 :
  (∀ p, is_Some (m0 !! p) → in_grid p) →
  gen_inv (initialize_maze num_rows num_cols m0).
Proof.
  intros Hm0. pose proof (initialize_maze_wf num_rows num_cols m0 Hm0) as Hwf.
  assert (∀ p r d, initialize_maze num_rows num_cols m0 !! p = Some r → wall r d = -1) as Hw.
  { intros p r d Hr. assert (in_grid p) as Hp by (apply (wf_dom _ _ _ Hwf); by exists r).
    rewrite lookup_initialize_maze, decide_True in Hr by done.
    injection Hr as <-. by destruct d. }
  split; try done.
  - intros p r d Hr. left. by eapply Hw.
  - intros p r d Hr Hv. by eapply Hw.
  - intros p r d r' Hr Hr' Hne. destruct Hne. by eapply Hw.
  - intros p r d Hr Hg Hne. destruct Hne. by eapply Hw.
Qed.

(** A carved maze: every room visited, every connection an opening or a wall,
    the two sides of a connection agreeing, no opening to the outside, every
    room reachable from the corner, and at most one way between two rooms that
    enters no room twice. *)
Record carved (m : maze_t) : Prop := {
  pm_wf : maze_wf num_rows num_cols m;
  pm_visited p : in_grid p → vis m p;
  pm_determined p r d : m !! p = Some r → wall r d = 0 ∨ wall r d = 1;
  pm_symmetric p r d r' :
    m !! p = Some r → m !! step d p = Some r' →
    wall r d = wall r' (get_opposite_dir d);
  pm_border p r d : m !! p = Some r → ¬ in_grid (step d p) → wall r d = 1;
  pm_connected p : in_grid p → rtc (opening m) (0, 0) p;
  pm_unique p q l l' :
    path (opening m) p l q → path (opening m) p l' q →
    NoDup (p :: l) → NoDup (p :: l') → l = l';
}.

(** The openings of a maze grown as a tree leave one simple path. *)
Lemma tree_inv_unique m cur p q l l' :
  tree_inv m cur → path (opening m) p l q → path (opening m) p l' q →
  NoDup (p :: l) → NoDup (p :: l') → l = l'.
Proof.
  intros (par & Ht) Hl Hl' Hn Hn'.
  assert (∀ x k y, path (opening m) x k y → path (edge par) x k y) as Hmono.
  { intros x k y. apply (path_mono _ _ (λ _, True)); [|by apply Forall_true].
    intros a b _ _ (r & d & Hr & Hd & -> & _). by eapply to_edges. }
  eapply (tree_unique_path (0, 0) par); [apply Ht|..]; eauto.
Qed.

Lemma walk_post_carved m m' :
  0 < num_rows → 0 < num_cols → gen_inv m → (∀ q, ¬ vis m q) →
  walk_post m (0, 0) m' → carved m'.
Proof.
  intros HR HC Hi Hunv Hpost.
  assert (∀ p, in_grid p → vis m' p) as Hall.
  { apply (grid_connected num_rows num_cols); [apply Hpost|]. intros p d Hp Hg.
    destruct (wp_new _ _ _ Hpost p Hp (Hunv p)) as [(r & Hr & Hd) _]. by apply Hd. }
  assert (∀ p r, m' !! p = Some r → in_grid p) as Hin.
  { intros p r Hr. apply (wf_dom _ _ m' (gi_wf m' (wp_inv _ _ _ Hpost))). by exists r. }
  assert (∀ p r d, m' !! p = Some r → wall r d ≠ -1) as Hdet.
  { intros p r d Hr. destruct (wp_new _ _ _ Hpost p) as [(r' & Hr' & Hd) _]; [by eauto..|].
    assert (r' = r) as -> by congruence. apply Hd. }
  split.
  - apply Hpost.
  - done.
  - intros p r d Hr. pose proof (Hdet p r d Hr).
    destruct (gi_vals m' (wp_inv _ _ _ Hpost) p r d Hr); naive_solver.
  - intros p r d r' Hr Hr'. apply (gi_agree m' (wp_inv _ _ _ Hpost) p); eauto.
  - intros p r d Hr Hg. apply (gi_border m' (wp_inv _ _ _ Hpost) p); eauto.
  - intros p Hp. by apply (wp_new _ _ _ Hpost p); [apply Hall|].
  - intros p q l l'. eapply tree_inv_unique, Hpost.
Qed.

(** Before the walk the tree is the corner alone. *)
Lemma tree_inv_init m :
  (∀ q, ¬ vis m q) → gen_inv m → tree_inv m (0, 0).
Proof.
  intros Hunv Hi. exists ∅. split.
  - constructor.
  - intros q. unfold is_Some. setoid_rewrite lookup_empty. specialize (Hunv q). naive_solver.
  - intros q r d Hr Hd. exfalso. apply (Hunv q). exists r. split; [done|]. intros Hv.
    rewrite (gi_fresh m Hi q r d Hr Hv) in Hd. done.
  - intros q p. by rewrite lookup_empty.
Qed.

Lemma generate_maze_spec uninit :
  0 < num_rows → 0 < num_cols → (∀ p, is_Some (uninit !! p) → in_grid p) →
  ∃ m k, generate_maze rand num_rows num_cols uninit = Ok (tt, GenState m k) ∧ carved m.
Proof.
  intros HR HC Huninit.
  pose proof (initialize_maze_gen_inv uninit Huninit) as Hi.
  assert (∀ q, ¬ vis (initialize_maze num_rows num_cols uninit) q) as Hunv.
  { intros q (r & Hr & Hv). assert (in_grid q) as Hq
      by (apply (wf_dom _ _ _ (gi_wf _ Hi)); by exists r).
    rewrite lookup_initialize_maze, decide_True in Hr by done. by injection Hr as <-. }
  destruct (drunken_walk_spec (Z.to_nat (num_rows * num_cols)) (0, 0)
    (initialize_maze num_rows num_cols uninit) 0%nat) as (m & k & Hrun & Hpost);
    [done|unfold MazeCommon.in_grid; simpl; lia|apply Hunv|by apply tree_inv_init|
     apply unvisited_size_grid; [apply Hi|lia..]|].
  exists m, k. split; [done|]. by eapply walk_post_carved.
Qed.
End Walk.
