(* ===== verification/MazeEncode.v ===== *)
(** * Encoding a maze and writing it: the second half of
    [1-maze-haininz/generator.c], up to its [main]. *)

From Stdlib Require Import ZArith Lia Ascii.
From stdpp Require Import base gmap numbers option relations list.
From S2P Require Import Prelude Stdio MazeCommon MazeGenerator.

Open Scope Z_scope.

(** [encode_room] *)
Definition encode_room (room : maze_room) : Z :=
  let sum := 0 in
  let sum := if up_room room =? 1 then sum + 1 else sum in
  let sum := if down_room room =? 1 then sum + 2 else sum in
  let sum := if left_room room =? 1 then sum + 4 else sum in
  let sum := if right_room room =? 1 then sum + 8 else sum in
  sum.

(** [encode_maze]: fills [result], an [int] array of the same shape. *)
Definition encode_maze (num_rows num_cols : Z) (maze : maze_t) (result : gmap pos Z) :
    option (gmap pos Z) :=
  ofoldl (λ res p, match maze !! p with
                   | Some room => Some (<[p := encode_room room]> res)
                   | None => None
                   end) result (grid num_rows num_cols).

(** ** Writing *)
Section Write.
Context (io : file_io).

(** The inner loop: [Some 1] when it returns from the function. *)
Fixpoint write_row (encoded_maze : gmap pos Z) (row : list pos) :
    ST out_file (option Z) :=
  match row with
  | [] => mret None
  | p :: row' =>
      encoded_room ← deref (encoded_maze !! p);
      err ← fprintf io (print_hex encoded_room);
      if err <? 0 then mret (Some 1) else write_row encoded_maze row'
  end.

Fixpoint write_rows (encoded_maze : gmap pos Z) (rows : list (list pos)) :
    ST out_file (option Z) :=
  match rows with
  | [] => mret None
  | row :: rows' =>
      ret ← write_row encoded_maze row;
      match ret with
      | Some v => mret (Some v)
      | None =>
          err ← fprintf io [newline];
          if err <? 0 then mret (Some 1) else write_rows encoded_maze rows'
      end
  end.

Definition grid_rows (num_rows num_cols : Z) : list (list pos) :=
  (λ i, (λ j, (i, j)) <$> seqZ 0 num_cols) <$> seqZ 0 num_rows.

(** [write_encoded_maze_to_file]: the value returned and the file. *)
Definition write_encoded_maze_to_file (num_rows num_cols : Z)
    (encoded_maze : gmap pos Z) : ST out_file Z :=
  if negb (fopen_ok io) then mret 1
  else
    ret ← write_rows encoded_maze (grid_rows num_rows num_cols);
    match ret with
    | Some v => mret v
    | None => if negb (fclose_ok io) then mret 1 else mret 0
    end.
End Write.

(** The generator's [main]: the exit status and the output file. *)
Definition generator_main (rand : nat → Z) (io : file_io) (argv : list bytes)
    (uninit : maze_t) (uninit_enc : gmap pos Z) : ST out_file Z :=
  match argv with
  | [_; file_name; rows; cols] =>
      let num_rows := atoi rows in
      let num_cols := atoi cols in
      if (num_rows >? 0) && (num_cols >? 0) then
        match generate_maze rand num_rows num_cols uninit with
        | Err e => fail e
        | Ok (_, s) =>
            encoded_maze ← deref (encode_maze num_rows num_cols (gmaze s) uninit_enc);
            ret ← write_encoded_maze_to_file io num_rows num_cols encoded_maze;
            (* if (ret == -1) the error is reported on stdout *)
            mret 0
        end
      else mret 0
  | _ => mret 1
  end.

(** ** Properties *)

(** With its connections determined, a room's code is the sum of the bits of
    its walls, a hexadecimal digit. *)
Lemma encode_room_bound room : 0 ≤ encode_room room < 16.
Proof. unfold encode_room. repeat case_match; lia. Qed.

Definition dir_bit (d : Direction) : Z :=
  match d with NORTH => 0 | SOUTH => 1 | WEST => 2 | EAST => 3 end.

Lemma encode_room_testbit room d :
  Z.testbit (encode_room room) (dir_bit d) = (wall room d =? 1).
Proof.
  unfold encode_room.
  destruct (up_room room =? 1) eqn:?, (down_room room =? 1) eqn:?,
    (left_room room =? 1) eqn:?, (right_room room =? 1) eqn:?, d; simpl; congruence.
Qed.

Lemma encode_maze_spec num_rows num_cols m res :
  (∀ p, in_grid num_rows num_cols p → is_Some (m !! p)) →
  ∃ res', encode_maze num_rows num_cols m res = Some res' ∧
    ∀ p, in_grid num_rows num_cols p → res' !! p = encode_room <$> (m !! p).
Proof.
  intros Hm. destruct (lookup_ofoldl_insert encode_room m res (grid num_rows num_cols))
    as (res' & Hrun & Hres').
  { intros p Hp. by apply Hm, elem_of_grid. }
  exists res'. split; [done|]. intros p Hp. rewrite Hres', decide_True; [done|].
  by apply elem_of_grid.
Qed.

(** The text of a maze: a digit per room, a newline per row. *)
Definition row_text (enc : gmap pos Z) (row : list pos) : bytes :=
  (λ p, hex_char (default 0 (enc !! p))) <$> row.

Definition maze_text (num_rows num_cols : Z) (enc : gmap pos Z) : bytes :=
  row ← grid_rows num_rows num_cols; row_text enc row ++ [newline].

Section WriteOk.
Context (io : file_io) (Hio : ∀ n, fprintf_ok io n = true).
Context (enc : gmap pos Z).

Definition digit_at (p : pos) : Prop := ∃ d, enc !! p = Some d ∧ 0 ≤ d < 16.

Lemma write_row_Ok row f :
  Forall digit_at row →
  write_row io enc row f =
    Ok (None, OutFile (text f ++ row_text enc row) (length row + nwrites f)).
Proof.
  intros Hrow. revert f. induction Hrow as [|p row (d & Hd & Hd16) Hrow IH]; intros f; simpl.
  - rewrite app_nil_r. by destruct f.
  - unfold mbind, ST_bind. rewrite Hd. simpl. unfold fprintf. rewrite Hio. simpl.
    rewrite print_hex_digit by done. simpl. rewrite IH. simpl.
    rewrite <-app_assoc. simpl. do 3 f_equal. lia.
Qed.

Lemma write_rows_Ok rows f :
  Forall (Forall digit_at) rows →
  ∃ n, write_rows io enc rows f =
    Ok (None, OutFile (text f ++ (row ← rows; row_text enc row ++ [newline])) n).
Proof.
  intros Hrows. revert f. induction Hrows as [|row rows Hrow Hrows IH]; intros f; simpl.
  - rewrite app_nil_r. exists (nwrites f). by destruct f.
  - run ((write_row_Ok row f Hrow)).
    unfold mbind at 1, ST_bind at 1, fprintf. rewrite Hio. simpl.
    destruct (IH (OutFile ((text f ++ row_text enc row) ++ [newline])
                  (S (length row + nwrites f)))) as [n Hn].
    exists n. rewrite Hn. simpl. by rewrite <-!app_assoc.
Qed.
End WriteOk.

Lemma grid_rows_in_grid num_rows num_cols :
  Forall (Forall (in_grid num_rows num_cols)) (grid_rows num_rows num_cols).
Proof.
  unfold grid_rows. apply Forall_forall. intros row (i & -> & Hi)%list_elem_of_fmap.
  apply Forall_forall. intros p (j & -> & Hj)%list_elem_of_fmap.
  apply elem_of_seqZ in Hi, Hj. unfold in_grid. simpl. lia.
Qed.

Lemma write_encoded_maze_Ok io num_rows num_cols enc :
  fopen_ok io = true → fclose_ok io = true → (∀ n, fprintf_ok io n = true) →
  (∀ p, in_grid num_rows num_cols p → ∃ d, enc !! p = Some d ∧ 0 ≤ d < 16) →
  ∃ n, write_encoded_maze_to_file io num_rows num_cols enc (OutFile [] 0) =
    Ok (0, OutFile (maze_text num_rows num_cols enc) n).
Proof.
  intros Hopen Hclose Hio Henc. unfold write_encoded_maze_to_file. rewrite Hopen. simpl.
  destruct (write_rows_Ok io Hio enc (grid_rows num_rows num_cols) (OutFile [] 0)) as [n Hn].
  { eapply Forall_impl; [apply grid_rows_in_grid|]. intros row Hrow.
    eapply Forall_impl; [done|]. apply Henc. }
  exists n. run Hn. by rewrite Hclose.
Qed.
