(* ===== verification/MazeSolver.v ===== *)
(** * The maze solver: [1-maze-haininz/solver.c].

    Decoding, the depth-first search with its [next] pointers and its two
    output modes, reading the maze file, and [main]. *)

From Stdlib Require Import ZArith Lia Ascii.
From stdpp Require Import base gmap numbers option relations list.
From S2P Require Import Prelude Stdio MazeCommon.

Open Scope Z_scope.

(** [create_room_connections]: [hex & bit ? 1 : 0] for each direction. *)
Definition create_room_connections (room : maze_room) (hex : Z) : maze_room :=
  let bit b := if negb (Z.land hex b =? 0) then 1 else 0 in
  MkRoom (row room) (col room) (visited room) (bit 1) (bit 2) (bit 4) (bit 8) (next room).

(** [decode_maze] *)
Definition decode_maze (num_rows num_cols : Z) (maze : maze_t) (encoded_maze : gmap pos Z) :
    option maze_t :=
  ofoldl (λ m p, match m !! p, encoded_maze !! p with
                 | Some room, Some hex => Some (<[p := create_room_connections room hex]> m)
                 | _, _ => None
                 end) maze (grid num_rows num_cols).

(** The array of rooms and the path file. *)
Record sol_state := SolState {
  smaze : maze_t;
  sfile : out_file;
}.

Section Solver.
Context (io : file_io).
(** Whether the program is compiled with [-DFULL]. *)
Context (full : bool).
Context (num_rows num_cols goal_row goal_col : Z).

Definition sroom_at (p : pos) : ST sol_state maze_room := λ s, deref (smaze s !! p) s.

Definition supd_room (p : pos) (f : maze_room → maze_room) : ST sol_state unit :=
  r ← sroom_at p;
  modify (λ s, SolState (<[p := f r]> (smaze s)) (sfile s)).

Definition path_fprintf (s : bytes) : ST sol_state Z := λ st,
  match fprintf io s (sfile st) with
  | Ok (err, f) => Ok (err, SolState (smaze st) f)
  | Err e => Err e
  end.

(** The format ["%d, %d\n"]. *)
Definition coord_line (row_ col_ : Z) : bytes :=
  print_dec row_ ++ [chr 44; chr 32] ++ print_dec col_ ++ [newline].

(** The two [#ifdef FULL] blocks of [dfs]. *)
Definition full_line (row_ col_ : Z) : ST sol_state unit :=
  if full then
    err ← path_fprintf (coord_line row_ col_);
    if err <? 0 then fail (Exit 1) else mret tt
  else mret tt.

(** The loop over the directions; [self] is the recursive call. *)
Fixpoint dfs_loop (self : Z → Z → ST sol_state Z) (row_ col_ : Z)
    (directions : list Direction) : ST sol_state Z :=
  match directions with
  | [] => mret 0
  | dir :: ds =>
      room ← sroom_at (row_, col_);
      match get_neighbor num_rows num_cols room dir with
      | Some n =>
          neighbor ← sroom_at n;
          if (visited neighbor =? 0) && (wall room dir =? 0) then
            supd_room (row_, col_) (set_next (Some n));;
            found ← self (row neighbor) (col neighbor);
            if found =? 1 then mret 1
            else full_line row_ col_;; dfs_loop self row_ col_ ds
          else dfs_loop self row_ col_ ds
      | None => dfs_loop self row_ col_ ds
      end
  end.

(** [dfs]; the fuel bounds the depth of the recursion. *)
Fixpoint dfs (fuel : nat) (row_ col_ : Z) : ST sol_state Z :=
  match fuel with
  | O => fail NoFuel
  | S fuel' =>
      full_line row_ col_;;
      if (row_ =? goal_row) && (col_ =? goal_col) then mret 1
      else
        supd_room (row_, col_) (set_visited 1);;
        dfs_loop (dfs fuel') row_ col_ [NORTH; SOUTH; EAST; WEST]
  end.

(** [print_pruned_path]: [while (room != NULL)], with fuel. *)
Fixpoint print_pruned_path (fuel : nat) (room : option pos) : ST sol_state Z :=
  match room with
  | None => mret 0
  | Some p =>
      match fuel with
      | O => fail NoFuel
      | S fuel' =>
          r ← sroom_at p;
          err ← path_fprintf (coord_line (row r) (col r));
          if err <? 0 then mret 1 else print_pruned_path fuel' (next r)
      end
  end.
End Solver.

(** ** Reading the maze *)
Section Read.
(** The indeterminate value of the local [encoded_room] when [fscanf] stores
    nothing in it. *)
Context (junk : Z).

Fixpoint read_rooms (ps : list pos) (input : bytes) (encoded_maze : gmap pos Z) :
    Z * gmap pos Z :=
  match ps with
  | [] => (0, encoded_maze)
  | p :: ps' =>
      let '(err, v, rest) := fscanf_1x input in
      let encoded_maze' := <[p := default junk v]> encoded_maze in
      if err <? 0 then (1, encoded_maze') else read_rooms ps' rest encoded_maze'
  end.

(** [read_encoded_maze_from_file]: [file] is [None] when [fopen] fails. *)
Definition read_encoded_maze_from_file (num_rows num_cols : Z) (file : option bytes)
    (fclose_ok : bool) (encoded_maze : gmap pos Z) : Z * gmap pos Z :=
  match file with
  | None => (1, encoded_maze)
  | Some input =>
      let '(ret, enc) := read_rooms (grid num_rows num_cols) input encoded_maze in
      if ret =? 1 then (1, enc)
      else if negb fclose_ok then (1, enc) else (0, enc)
  end.
End Read.

Definition PRUNED_header : bytes := chr <$> [80; 82; 85; 78; 69; 68; 10].
Definition FULL_header : bytes := chr <$> [70; 85; 76; 76; 10].

(** The solver's [main]; [maze_file] is the content of the input file if it can
    be opened, [io] the behaviour of the output file. *)
Definition solver_main (full : bool) (io : file_io) (maze_file : option bytes)
    (in_fclose_ok : bool) (junk : Z) (argv : list bytes)
    (uninit_enc : gmap pos Z) (uninit : maze_t) : result (Z * out_file) :=
  match argv with
  | [_; _; rows; cols; _; srow; scol; grow; gcol] =>
      let num_rows := atoi rows in
      let num_cols := atoi cols in
      let start_row := atoi srow in
      let start_col := atoi scol in
      let goal_row := atoi grow in
      let goal_col := atoi gcol in
      if (start_row <? 0) || (start_row >=? num_rows) || (start_col <? 0)
         || (start_col >=? num_cols) || (goal_row <? 0) || (goal_row >=? num_rows)
         || (goal_col <? 0) || (goal_col >=? num_cols)
      then Err (Exit 1)
      else
        let '(ret, enc) := read_encoded_maze_from_file junk num_rows num_cols maze_file
                             in_fclose_ok uninit_enc in
        if ret =? 1 then Err (Exit 1)
        else
          match decode_maze num_rows num_cols (initialize_maze num_rows num_cols uninit) enc with
          | None => Err BadAccess
          | Some maze =>
              if negb (fopen_ok io) then Err (Exit 1)
              else
                let fuel := Z.to_nat (num_rows * num_cols) in
                let search := dfs io full num_rows num_cols goal_row goal_col fuel
                                start_row start_col in
                let body : ST sol_state unit :=
                  if full then
                    err ← path_fprintf io FULL_header;
                    if err <? 0 then fail (Exit 1) else search;; mret tt
                  else
                    err ← path_fprintf io PRUNED_header;
                    if err <? 0 then fail (Exit 1)
                    else
                      search;;
                      perr ← print_pruned_path io fuel (Some (start_row, start_col));
                      if perr =? 1 then fail (Exit 1) else mret tt in
                match body (SolState maze (OutFile [] 0)) with
                | Err e => Err e
                | Ok (_, s) =>
                    if negb (fclose_ok io) then Err (Exit 1) else Ok (0, sfile s)
                end
          end
  | _ => Ok (1, OutFile [] 0)
  end.

(** ** The search

    [M] is the decoded maze: the search never changes a wall. *)
Section Search.
Context (io : file_io) (full : bool).
Context (Hio : full = true → ∀ n, fprintf_ok io n = true).
Context (num_rows num_cols : Z) (goal : pos).
Context (M : maze_t).

Local Abbreviation in_grid := (in_grid num_rows num_cols).
Local Abbreviation opening := (opening num_rows num_cols).
Local Abbreviation search := (dfs io full num_rows num_cols goal.1 goal.2).

Record sol_inv (m : maze_t) : Prop := {
  si_wf : maze_wf num_rows num_cols m;
  si_walls p r : m !! p = Some r → ∃ r0, M !! p = Some r0 ∧ ∀ d, wall r d = wall r0 d;
  si_goal : ¬ vis m goal;
  si_fresh p r : m !! p = Some r → visited r = 0 → next r = None;
}.

Definition kept (m m' : maze_t) : Prop :=
  ∀ q r, m !! q = Some r → visited r ≠ 0 → m' !! q = Some r.

Lemma kept_vis m m' p : kept m m' → vis m p → vis m' p.
Proof. intros Hk (r & Hr & Hv). exists r. auto. Qed.

#[local] Instance kept_trans : Transitive kept.
Proof. intros m1 m2 m3 H12 H23 q r Hq Hv. auto. Qed.

(** Following [next] from a room: the rooms met, up to the NULL pointer, each
    step going through an opening. *)
Inductive chain (m : maze_t) : pos → list pos → Prop :=
  | chain_end p r : m !! p = Some r → next r = None → chain m p [p]
  | chain_next p r q l :
      m !! p = Some r → next r = Some q → opening M p q → chain m q l →
      chain m p (p :: l).

Lemma chain_kept m m' p l :
  chain m p l → (∀ x, x ∈ l → m' !! x = m !! x) → chain m' p l.
Proof.
  induction 1 as [p r Hr Hn|p r q l Hr Hn Ho Hc IH]; intros Hkeep.
  - eapply chain_end; [|done]. rewrite Hkeep; [done|set_solver].
  - eapply chain_next; [|done..|apply IH; set_solver]. rewrite Hkeep; [done|set_solver].
Qed.

Lemma chain_head m p l : chain m p l → ∃ l', l = p :: l'.
Proof. inversion 1; eauto. Qed.

(** The visited rooms of [m'] that are not visited in [m], when the search
    gave up: all their openings lead to visited rooms. *)
Definition closed_since (m m' : maze_t) (p : pos) (ds : list Direction) : Prop :=
  ∀ x d r, vis m' x → ¬ vis m x → (x = p → d ∉ ds) →
    M !! x = Some r → wall r d = 0 → in_grid (step d x) → vis m' (step d x).

(** The contract of a search started at an unvisited room [p]. *)
Record dfs_post (m : maze_t) (p : pos) (found : Z) (m' : maze_t) : Prop := {
  dp_inv : sol_inv m';
  dp_kept : kept m m';
  dp_chain : ∃ l, chain m' p l ∧ NoDup l ∧ (∀ x, x ∈ l → ¬ vis m x) ∧
                  (found = 1 → last l = Some goal);
  dp_found : found = 0 ∨ found = 1;
  dp_fail : found = 0 → vis m' p ∧ closed_since m m' p [];
}.

(** The loop over the directions [ds] still to try, [m0] being the maze the
    search was called with. *)
Record dfs_inv (m0 : maze_t) (p : pos) (ds : list Direction) (m : maze_t) : Prop := {
  di_inv : sol_inv m;
  di_kept : kept m0 m;
  di_here : vis m p;
  di_chain : ∃ l, chain m p l ∧ NoDup l ∧ (∀ x, x ∈ l → ¬ vis m0 x);
  di_closed : closed_since m0 m p ds;
}.

Definition dfs_spec (n : nat) (self : Z → Z → ST sol_state Z) : Prop :=
  ∀ p m f, sol_inv m → in_grid p → ¬ vis m p → (size (unvisited m) ≤ n)%nat →
    ∃ found m' f', self p.1 p.2 (SolState m f) = Ok (found, SolState m' f') ∧
                   dfs_post m p found m'.

Lemma full_line_Ok r c m f :
  ∃ f', full_line io full r c (SolState m f) = Ok (tt, SolState m f').
Proof.
  unfold full_line. destruct full; [|by exists f].
  unfold path_fprintf, fprintf, mbind, ST_bind. simpl. rewrite Hio by done.
  eexists. rewrite (proj2 (Z.ltb_ge _ 0)) by lia. done.
Qed.

Lemma supd_room_Ok p g m f r :
  m !! p = Some r →
  supd_room p g (SolState m f) = Ok (tt, SolState (<[p := g r]> m) f).
Proof. intros Hp. unfold supd_room, sroom_at, mbind, ST_bind. simpl. by rewrite Hp. Qed.

Lemma sroom_at_Ok p m f r :
  m !! p = Some r → sroom_at p (SolState m f) = Ok (r, SolState m f).
Proof. intros Hr. unfold sroom_at. simpl. by rewrite Hr. Qed.

Lemma sol_lookup m p : sol_inv m → in_grid p → ∃ r, m !! p = Some r.
Proof. intros Hi Hg. by apply (wf_dom _ _ m (si_wf m Hi)). Qed.

(** Pointing a visited room somewhere keeps the invariant. *)
Lemma set_next_inv m p r q :
  sol_inv m → m !! p = Some r → visited r ≠ 0 →
  sol_inv (<[p := set_next q r]> m).
Proof.
  intros Hi Hp Hv. split.
  - apply maze_wf_insert with r; [apply Hi|done..].
  - intros x rx. rewrite lookup_insert. case_decide; [|by apply Hi]. intros [= <-]. subst.
    destruct (si_walls m Hi x r Hp) as (r0 & ? & Hw). exists r0. split; [done|].
    intros d. rewrite <-Hw. by destruct d.
  - intros (rx & Hx & Hvx). rewrite lookup_insert in Hx. case_decide.
    + subst. apply (si_goal m Hi). by exists r.
    + apply (si_goal m Hi). by exists rx.
  - intros x rx. rewrite lookup_insert. case_decide; [|by apply Hi]. by intros [= <-].
Qed.

Lemma set_next_vis m p r q x :
  m !! p = Some r → vis (<[p := set_next q r]> m) x ↔ vis m x.
Proof.
  intros Hp. unfold vis. rewrite lookup_insert. case_decide; [subst|done].
  split; [intros (r' & [= <-] & Hv); by exists r|].
  intros (r' & Hr' & Hv). exists (set_next q r). naive_solver.
Qed.

(** Marking a room visited starts the loop. *)
Lemma dfs_inv_start m p r ds :
  sol_inv m → m !! p = Some r → visited r = 0 → p ≠ goal → (∀ d, d ∈ ds) →
  dfs_inv m p ds (<[p := set_visited 1 r]> m).
Proof.
  intros Hi Hp Hv Hpg Hds.
  assert (∀ x, vis (<[p := set_visited 1 r]> m) x → x = p ∨ vis m x) as Hvis.
  { intros x (rx & Hx & Hvx). rewrite lookup_insert in Hx. case_decide; [by left|right].
    by exists rx. }
  split; [split|..].
  - apply maze_wf_insert with r; [apply Hi|done..].
  - intros x rx. rewrite lookup_insert. case_decide; [|by apply Hi]. intros [= <-]. subst.
    destruct (si_walls m Hi x r Hp) as (r0 & ? & Hw). exists r0. split; [done|].
    intros d. rewrite <-Hw. by destruct d.
  - intros [?|?]%Hvis; [congruence|by apply (si_goal m Hi)].
  - intros x rx. rewrite lookup_insert. case_decide; [|by apply Hi]. by intros [= <-].
  - intros x rx Hx Hvx. rewrite lookup_insert_ne; [done|]. intros ->. congruence.
  - exists (set_visited 1 r). by rewrite lookup_insert_eq.
  - exists [p]. split_and!.
    + eapply chain_end; [by rewrite lookup_insert_eq|]. simpl. by eapply si_fresh.
    + apply NoDup_singleton.
    + intros x ->%list_elem_of_singleton (rx & ? & ?). congruence.
  - intros x d rx [->|?]%Hvis ? Hd; [|done]. by destruct (Hd eq_refl).
Qed.

(** A direction that is not taken: no opening, or a visited neighbour. *)
Lemma dfs_inv_skip m0 p d ds m :
  dfs_inv m0 p (d :: ds) m →
  (∀ r, M !! p = Some r → wall r d = 0 → in_grid (step d p) → vis m (step d p)) →
  dfs_inv m0 p ds m.
Proof.
  intros [? ? ? ? Hcl] Hd. split; [done..|]. intros x d' r Hx Hx0 Hds Hr Hw Hg.
  destruct (decide (x = p ∧ d' = d)) as [[-> ->]|Hne]; [by eapply Hd|].
  eapply Hcl; try done. intros Hxp. apply not_elem_of_cons. naive_solver.
Qed.

(** A direction that is taken: the search goes on from the neighbour. *)
Section Taken.
Context (m0 : maze_t) (p : pos) (d : Direction) (ds : list Direction).
Context (m : maze_t) (r : maze_room) (found : Z) (m2 : maze_t).
Context (Hp0 : ¬ vis m0 p) (Hl : dfs_inv m0 p (d :: ds) m).
Context (Hr : m !! p = Some r) (Hg : in_grid (step d p)) (Hw : wall r d = 0).
Let m1 := <[p := set_next (Some (step d p)) r]> m.
Context (Hpost : dfs_post m1 (step d p) found m2).

Lemma taken_visited : visited r ≠ 0.
Proof. destruct (di_here _ _ _ _ Hl) as (r' & ? & ?). congruence. Qed.

Lemma taken_kept : kept m0 m2.
Proof.
  intros x rx Hx Hvx. apply (dp_kept _ _ _ _ Hpost); [|done]. unfold m1.
  rewrite lookup_insert_ne; [by apply Hl|]. intros <-. apply Hp0. by exists rx.
Qed.

Lemma taken_vis x : vis m x → vis m2 x.
Proof.
  intros Hx. eapply kept_vis; [apply Hpost|]. by apply set_next_vis.
Qed.

Lemma taken_chain :
  ∃ l, chain m2 p l ∧ NoDup l ∧ (∀ x, x ∈ l → ¬ vis m0 x) ∧
       (found = 1 → last l = Some goal).
Proof.
  destruct (dp_chain _ _ _ _ Hpost) as (l & Hc & Hnd & Hnew & Hlast).
  destruct (si_walls m (di_inv _ _ _ _ Hl) p r Hr) as (r0 & Hr0 & Hw0).
  exists (p :: l). split_and!.
  - apply (chain_next _ _ (set_next (Some (step d p)) r) (step d p)); [|done| |done].
    + apply (dp_kept _ _ _ _ Hpost); [by apply lookup_insert_eq|]. apply taken_visited.
    + exists r0, d. split_and!; [done|by rewrite <-Hw0|done|done].
  - apply NoDup_cons. split; [|done]. intros Hpl. apply (Hnew p Hpl).
    apply set_next_vis; [done|]. exists r. split; [done|apply taken_visited].
  - intros x [->|Hx]%elem_of_cons; [done|]. intros Hx0. apply (Hnew x Hx).
    apply set_next_vis; [done|]. by eapply kept_vis, Hx0; apply Hl.
  - intros Hf. destruct (chain_head _ _ _ Hc) as [l' ->]. simpl in *. by apply Hlast.
Qed.

Lemma taken_found : found = 1 → dfs_post m0 p found m2.
Proof.
  intros Hf. split; [apply Hpost|apply taken_kept|apply taken_chain|by right|].
  rewrite Hf. done.
Qed.

Lemma taken_fail : found = 0 → dfs_inv m0 p ds m2.
Proof.
  intros Hf. destruct (dp_fail _ _ _ _ Hpost Hf) as [Hq Hcl].
  split; [apply Hpost|apply taken_kept|apply taken_vis, Hl| |].
  - destruct taken_chain as (l & ? & ? & ? & _). by exists l.
  - intros x d' rx Hx Hx0 Hds Hrx Hwx Hgx.
    destruct (decide (x = p ∧ d' = d)) as [[-> ->]|Hne]; [done|].
    destruct (decide (vis m x)) as [Hxm|Hxm].
    + apply taken_vis. eapply (di_closed _ _ _ _ Hl); try done.
      intros Hxp. apply not_elem_of_cons. naive_solver.
    + eapply Hcl; try done; [|set_solver]. unfold m1. by rewrite set_next_vis.
Qed.
End Taken.

Lemma dfs_inv_size m0 p ds m :
  sol_inv m0 → in_grid p → ¬ vis m0 p → dfs_inv m0 p ds m →
  (size (unvisited m) < size (unvisited m0))%nat.
Proof.
  intros Hi0 Hg Hp0 Hl. destruct (sol_lookup m0 p Hi0 Hg) as [r0 Hr0].
  eapply (unvisited_size_lt num_rows num_cols); [apply Hi0|apply Hl| | |apply Hl].
  - intros q Hq. by eapply kept_vis; [apply Hl|].
  - apply elem_of_unvisited. exists r0. split; [done|]. by eapply not_vis_unvisited.
Qed.

Lemma dfs_loop_spec n self m0 p ds m f :
  dfs_spec n self → sol_inv m0 → in_grid p → ¬ vis m0 p →
  (size (unvisited m0) ≤ S n)%nat → dfs_inv m0 p ds m →
  ∃ found m' f', dfs_loop io full num_rows num_cols self p.1 p.2 ds (SolState m f)
                   = Ok (found, SolState m' f') ∧ dfs_post m0 p found m'.
Proof.
  intros Hself Hi0 Hg Hp0 Hsize. revert m f. induction ds as [|d ds IH]; intros m f Hl.
  { exists 0, m, f. split; [done|]. split; [apply Hl|apply Hl| |by left|].
    - destruct (di_chain _ _ _ _ Hl) as (l & ? & ? & ?). exists l. by split_and!.
    - intros _. split; [apply Hl|apply Hl]. }
  destruct (di_here _ _ _ _ Hl) as (r & Hr & Hv). assert (sol_inv m) as Hi by apply Hl.
  destruct (si_walls m Hi p r Hr) as (r0 & Hr0 & Hw0).
  pose proof (dfs_inv_size m0 p _ m Hi0 Hg Hp0 Hl) as Hlt.
  cbn [dfs_loop]. rewrite <-(surjective_pairing p).
  run ((sroom_at_Ok p m f r Hr)).
  rewrite (maze_wf_neighbor _ _ m p r d (si_wf m Hi) Hr).
  destruct (decide (in_grid (step d p))) as [Hgd|Hgd];
    [|by apply IH; apply dfs_inv_skip with d].
  destruct (sol_lookup m _ Hi Hgd) as [rn Hrn].
  run ((sroom_at_Ok _ m f rn Hrn)).
  destruct (Z.eqb_spec (visited rn) 0) as [Hvn|Hvn]; simpl;
    [|apply IH, dfs_inv_skip with d; [done|]; by exists rn].
  destruct (Z.eqb_spec (wall r d) 0) as [Hw|Hw]; simpl; cycle 1.
  { apply IH, dfs_inv_skip with d; [done|]. intros r1 Hr1. rewrite Hw0 in Hw. congruence. }
  rewrite (ST_bind_Ok _ _ _ _ _ (supd_room_Ok p (set_next (Some (step d p))) m f r Hr)).
  destruct (Hself (step d p) (<[p := set_next (Some (step d p)) r]> m) f)
    as (found & m2 & f2 & Hrun & Hpost).
  { by apply set_next_inv. }
  { done. }
  { rewrite set_next_vis by done. intros (r' & ? & ?). congruence. }
  { etrans; [apply subseteq_size|apply Nat.lt_succ_r, (Nat.lt_le_trans _ _ _ Hlt), Hsize].
    apply (unvisited_mono num_rows num_cols); [apply Hi|by apply set_next_inv|].
    intros x. by rewrite set_next_vis. }
  assert (row rn = (step d p).1 ∧ col rn = (step d p).2) as [-> ->].
  { by rewrite <-(wf_pos _ _ m (si_wf m Hi) _ _ Hrn). }
  run Hrun.
  destruct (dp_found _ _ _ _ Hpost) as [->| ->]; simpl.
  - destruct (full_line_Ok p.1 p.2 m2 f2) as [f3 Hline].
    run Hline. apply IH. by eapply taken_fail.
  - exists 1, m2, f2. split; [done|]. by eapply taken_found.
Qed.

Lemma search_spec n : dfs_spec n (search n).
Proof.
  induction n as [|n IH]; intros p m f Hi Hg Hp Hsize;
    destruct (sol_lookup m p Hi Hg) as [r Hr];
    pose proof (not_vis_unvisited m p r Hr Hp) as Hv.
  { apply Nat.le_0_r, size_empty_inv in Hsize.
    exfalso. eapply (elem_of_empty (C:=gset pos) p), Hsize.
    apply elem_of_unvisited. by exists r. }
  cbn [dfs]. destruct (full_line_Ok p.1 p.2 m f) as [f1 Hline].
  run Hline.
  destruct (decide (p = goal)) as [->|Hpg].
  - rewrite !Z.eqb_refl. simpl. exists 1, m, f1. split; [done|].
    split; [done|by intros ??|..|by right|done].
    exists [goal]. split_and!; [|apply NoDup_singleton|by intros x ->%list_elem_of_singleton|done].
    eapply chain_end; [done|]. by eapply si_fresh.
  - assert ((p.1 =? goal.1) && (p.2 =? goal.2) = false) as ->.
    { apply not_true_is_false. intros [?%Z.eqb_eq ?%Z.eqb_eq]%andb_prop.
      destruct p, goal; simpl in *; congruence. }
    rewrite <-(surjective_pairing p).
    run ((supd_room_Ok p (set_visited 1) m f1 r Hr)).
    apply (dfs_loop_spec n); try done. apply dfs_inv_start; try done.
    intros []; set_solver.
Qed.
End Search.

(** ** The whole search *)

(** A path through openings, as the list of its rooms. *)
Definition open_path (num_rows num_cols : Z) (M : maze_t) (start : pos) (l : list pos) : Prop :=
  head l = Some start ∧
  ∀ i p q, l !! i = Some p → l !! S i = Some q → opening num_rows num_cols M p q.

(** A maze as [main] hands it to [dfs]: nothing visited, no [next] pointer. *)
Definition unsearched (m : maze_t) : Prop :=
  ∀ p r, m !! p = Some r → visited r = 0 ∧ next r = None.

Section Whole.
Context (io : file_io) (full : bool).
Context (Hio : full = true → ∀ n, fprintf_ok io n = true).
Context (num_rows num_cols : Z) (start goal : pos) (M : maze_t).
Context (HM : maze_wf num_rows num_cols M) (Hfresh : unsearched M).
Context (Hstart : in_grid num_rows num_cols start).

Local Abbreviation opening := (opening num_rows num_cols M).

Lemma chain_open_path m p l :
  chain num_rows num_cols M m p l → open_path num_rows num_cols M p l.
Proof.
  induction 1 as [p r Hr Hn|p r q l Hr Hn Ho Hc [Hh Hl]].
  - split; [done|]. intros [|i] ??; [|done]. simpl. naive_solver.
  - split; [done|]. intros [|i] x y; simpl; [|apply Hl].
    destruct (chain_head _ _ _ _ _ _ Hc) as [l' ->]. simpl. naive_solver.
Qed.

Lemma chain_rtc m p l x :
  chain num_rows num_cols M m p l → last l = Some x → rtc opening p x.
Proof.
  induction 1 as [p r Hr Hn|p r q l Hr Hn Ho Hc IH]; intros Hx; [naive_solver|].
  eapply rtc_l; [done|]. apply IH. by destruct (chain_head _ _ _ _ _ _ Hc) as [l' ->].
Qed.

Lemma unsearched_inv : sol_inv num_rows num_cols goal M M.
Proof.
  split; [done| | |].
  - intros p r Hr. by exists r.
  - intros (r & Hr & Hv). apply Hv. by eapply Hfresh.
  - intros p r Hr _. by eapply Hfresh.
Qed.

Lemma unsearched_not_vis p : ¬ vis M p.
Proof. intros (r & Hr & Hv). apply Hv. by eapply Hfresh. Qed.

(** The rooms visited by a failed search are closed under openings. *)
Lemma closed_reachable m p :
  closed_since num_rows num_cols M M m start [] → vis m start →
  rtc opening start p → vis m p.
Proof.
  intros Hcl Hs. revert p. apply rtc_ind_r; [done|].
  intros p q Hp (r & d & Hr & Hw & -> & Hg) IH.
  eapply Hcl; [done|apply unsearched_not_vis|set_solver|done..].
Qed.

Local Abbreviation fuel := (Z.to_nat (num_rows * num_cols)).

Lemma search_complete :
  0 ≤ num_rows → 0 ≤ num_cols →
  ∀ f, ∃ found m f',
    dfs io full num_rows num_cols goal.1 goal.2 fuel start.1 start.2 (SolState M f)
      = Ok (found, SolState m f') ∧
    maze_wf num_rows num_cols m ∧
    (found = 1 ∧ rtc opening start goal ∨ found = 0 ∧ ¬ rtc opening start goal) ∧
    ∃ l, chain num_rows num_cols M m start l ∧ NoDup l ∧
         (found = 1 → last l = Some goal).
Proof.
  intros HR HC f. pose proof unsearched_inv as Hi.
  destruct (search_spec io full Hio num_rows num_cols goal M fuel start M f)
    as (found & m & f' & Hrun & Hpost);
    [done..|apply unsearched_not_vis|by apply unvisited_size_grid|].
  destruct (dp_chain _ _ _ _ _ _ _ _ Hpost) as (l & Hc & Hnd & _ & Hlast).
  exists found, m, f'. split_and!; [done|apply Hpost| |by exists l].
  destruct (dp_found _ _ _ _ _ _ _ _ Hpost) as [->| ->].
  - right. split; [done|]. intros Hreach.
    destruct (dp_fail _ _ _ _ _ _ _ _ Hpost eq_refl) as [Hs Hcl].
    apply (si_goal _ _ _ _ _ (dp_inv _ _ _ _ _ _ _ _ Hpost)).
    by apply closed_reachable.
  - left. split; [done|]. by eapply chain_rtc; [|apply Hlast].
Qed.
End Whole.

(** ** Printing the path *)
Section Print.
Context (io : file_io) (Hio : ∀ n, fprintf_ok io n = true).
Context (num_rows num_cols : Z) (M : maze_t).

Definition path_text (l : list pos) : bytes := p ← l; coord_line p.1 p.2.

Lemma print_chain m p l fuel f :
  maze_wf num_rows num_cols m → chain num_rows num_cols M m p l → (length l ≤ fuel)%nat →
  ∃ n, print_pruned_path io fuel (Some p) (SolState m f)
         = Ok (0, SolState m (OutFile (text f ++ path_text l) n)).
Proof.
  intros Hwf Hc. revert fuel f.
  induction Hc as [p r Hr Hn|p r q l Hr Hn Ho Hc IH]; intros fuel f Hfuel;
    (destruct fuel as [|fuel]; [simpl in Hfuel; lia|]); simpl;
    unfold mbind at 1, ST_bind at 1, sroom_at; simpl; rewrite Hr; simpl;
    unfold mbind at 1, ST_bind at 1, path_fprintf, fprintf; simpl; rewrite Hio; simpl;
    rewrite (proj2 (Z.ltb_ge _ 0)) by lia; rewrite Hn;
    pose proof (wf_pos _ _ m Hwf p r Hr) as Hpos.
  - eexists. unfold path_text. destruct fuel; simpl; by rewrite <-Hpos, app_nil_r.
  - simpl in Hfuel.
    destruct (IH fuel (OutFile (text f ++ coord_line (row r) (col r)) (S (nwrites f))))
      as [n Hrun]; [lia|].
    exists n. rewrite Hrun. simpl. unfold path_text. csimpl.
    by rewrite <-Hpos, <-!app_assoc.
Qed.

Lemma chain_in_grid m p l x :
  maze_wf num_rows num_cols m → chain num_rows num_cols M m p l → x ∈ l →
  in_grid num_rows num_cols x.
Proof.
  intros Hwf. induction 1 as [p r Hr|p r q l Hr]; intros Hx; apply elem_of_cons in Hx.
  - destruct Hx as [->|Hx]; [|by apply elem_of_nil in Hx]. apply (wf_dom _ _ m Hwf). by exists r.
  - destruct Hx as [->|?]; [|auto]. apply (wf_dom _ _ m Hwf). by exists r.
Qed.

Lemma chain_length m p l :
  0 ≤ num_rows → 0 ≤ num_cols → maze_wf num_rows num_cols m →
  chain num_rows num_cols M m p l → NoDup l →
  (length l ≤ Z.to_nat (num_rows * num_cols))%nat.
Proof.
  intros HR HC Hwf Hc Hnd. rewrite <-length_grid by done.
  apply submseteq_length, NoDup_submseteq; [done|].
  intros x Hx. apply elem_of_grid. by eapply chain_in_grid.
Qed.
End Print.

(** Without [-DFULL] the search writes nothing. *)
Section Silent.
Context (io : file_io) (num_rows num_cols goal_row goal_col : Z).

Lemma sroom_at_file p s r s' : sroom_at p s = Ok (r, s') → s' = s.
Proof. unfold sroom_at. destruct (smaze s !! p); by intros [=]. Qed.

Lemma supd_room_file p g s u s' : supd_room p g s = Ok (u, s') → sfile s' = sfile s.
Proof.
  unfold supd_room. intros (r & s1 & Hr%sroom_at_file & Hm)%ST_bind_inv. subst.
  by injection Hm as _ <-.
Qed.

Definition silent (c : ST sol_state Z) : Prop :=
  ∀ s v s', c s = Ok (v, s') → sfile s' = sfile s.

Lemma dfs_loop_silent self row_ col_ ds :
  (∀ r c, silent (self r c)) →
  silent (dfs_loop io false num_rows num_cols self row_ col_ ds).
Proof.
  intros Hself. induction ds as [|d ds IH]; intros s v s'; cbn [dfs_loop]; [by intros [=]; subst|].
  intros (r & s1 & ->%sroom_at_file & Hrest)%ST_bind_inv.
  destruct (get_neighbor num_rows num_cols r d) as [n|]; [|by eapply IH].
  apply ST_bind_inv in Hrest as (rn & s2 & ->%sroom_at_file & Hrest).
  destruct ((visited rn =? 0) && (wall r d =? 0)); [|by eapply IH].
  apply ST_bind_inv in Hrest as ([] & s3 & Hs3%supd_room_file & Hrest).
  apply ST_bind_inv in Hrest as (found & s4 & Hs4%Hself & Hrest).
  destruct (found =? 1); [injection Hrest as _ <-; congruence|].
  apply ST_bind_inv in Hrest as ([] & s5 & [= <-] & Hrest). apply IH in Hrest. congruence.
Qed.

Lemma dfs_silent fuel row_ col_ :
  silent (dfs io false num_rows num_cols goal_row goal_col fuel row_ col_).
Proof.
  revert row_ col_. induction fuel as [|fuel IH]; intros row_ col_ s v s'; cbn [dfs]; [done|].
  intros ([] & s1 & [= <-] & Hrest)%ST_bind_inv.
  destruct ((row_ =? goal_row) && (col_ =? goal_col)); [by injection Hrest as _ <-|].
  apply ST_bind_inv in Hrest as ([] & s2 & Hs2%supd_room_file & Hrest).
  apply dfs_loop_silent in Hrest; [|done]. congruence.
Qed.
End Silent.
