(* ===== verification/MazeEndToEnd.v ===== *)
(** * The maze programs together.

    The file the generator writes is read back by the solver as the same maze,
    and the solver prints a simple open path between any two rooms of it. *)

From Stdlib Require Import ZArith Lia Ascii.
From stdpp Require Import base gmap numbers option relations list.
From S2P Require Import Prelude Stdio MazeCommon MazeTree MazeGenerator MazeEncode MazeSolver.

Open Scope Z_scope.

(** ** Decoding *)

Lemma create_room_connections_wall room hex d :
  wall (create_room_connections room hex) d =
    if Z.testbit hex (dir_bit d) then 1 else 0.
Proof.
  assert (∀ n, 0 ≤ n → (negb (Z.land hex (2 ^ n) =? 0)) = Z.testbit hex n) as Hbit.
  { intros n Hn. destruct (Z.testbit hex n) eqn:Ht.
    - apply negb_true_iff, Z.eqb_neq. intros H0.
      assert (Z.testbit (Z.land hex (2 ^ n)) n = false) as H1 by by rewrite H0, Z.bits_0.
      by rewrite Z.land_spec, Ht, Z.pow2_bits_true in H1.
    - apply negb_false_iff, Z.eqb_eq, Z.bits_inj'. intros k Hk.
      rewrite Z.land_spec, Z.bits_0, Z.pow2_bits_eqb by done.
      destruct (Z.eqb_spec n k); subst; [by rewrite Ht|by rewrite andb_false_r]. }
  rewrite <-Hbit by by destruct d. by destruct d.
Qed.

(** Decoding the code of a room restores its four connections. *)
Lemma decode_encode_room room room0 d :
  (wall room d = 0 ∨ wall room d = 1) →
  wall (create_room_connections room0 (encode_room room)) d = wall room d.
Proof.
  intros Hw. rewrite create_room_connections_wall, encode_room_testbit.
  destruct (Z.eqb_spec (wall room d) 1); lia.
Qed.

Lemma decode_fold (l : list pos) (m : maze_t) (enc : gmap pos Z) :
  (∀ p, p ∈ l → is_Some (m !! p) ∧ is_Some (enc !! p)) →
  ∃ m', ofoldl (λ m p, match m !! p, enc !! p with
                       | Some room, Some hex => Some (<[p := create_room_connections room hex]> m)
                       | _, _ => None
                       end) m l = Some m' ∧
    ∀ p, m' !! p = if decide (p ∈ l)
                   then r ← m !! p; h ← enc !! p; Some (create_room_connections r h)
                   else m !! p.
Proof.
  revert m. induction l as [|q l IH]; intros m Hl; cbn [ofoldl].
  - exists m. split; [done|]. intros p. rewrite decide_False; [done|set_solver].
  - destruct (Hl q) as [[r Hr] [h Hh]]; [set_solver|]. rewrite Hr, Hh.
    destruct (IH (<[q := create_room_connections r h]> m)) as (m' & Hrun & Hm').
    { intros p Hp. destruct (Hl p) as [Hp1 Hp2]; [set_solver|]. split; [|done].
      rewrite lookup_insert. case_decide; [by eexists|done]. }
    exists m'. split; [done|]. intros p. rewrite Hm', lookup_insert.
    destruct (decide (p ∈ q :: l)) as [Hin|Hin]; case_decide; case_decide; subst;
      rewrite ?Hr, ?Hh; simpl; rewrite ?Hh; try done; set_solver.
Qed.

Lemma decode_maze_spec num_rows num_cols uninit enc :
  (∀ p, is_Some (uninit !! p) → in_grid num_rows num_cols p) →
  (∀ p, in_grid num_rows num_cols p → is_Some (enc !! p)) →
  ∃ D, decode_maze num_rows num_cols (initialize_maze num_rows num_cols uninit) enc = Some D ∧
    maze_wf num_rows num_cols D ∧ unsearched D ∧
    ∀ p r h, D !! p = Some r → enc !! p = Some h →
      ∀ d, wall r d = wall (create_room_connections (init_room p.1 p.2) h) d.
Proof.
  intros Hun Henc. pose proof (initialize_maze_wf num_rows num_cols uninit Hun) as Hwf.
  destruct (decode_fold (grid num_rows num_cols) (initialize_maze num_rows num_cols uninit) enc)
    as (D & Hrun & HD).
  { intros p Hp%elem_of_grid. split; [by apply (wf_dom _ _ _ Hwf)|by apply Henc]. }
  assert (∀ p, D !! p = if decide (in_grid num_rows num_cols p)
                        then h ← enc !! p; Some (create_room_connections (init_room p.1 p.2) h)
                        else None) as HD'.
  { intros p. rewrite HD, (decide_ext _ _ _ _ (elem_of_grid num_rows num_cols p)).
    rewrite lookup_initialize_maze. case_decide as Hp; simpl; [done|].
    destruct (uninit !! p) eqn:Hu; [|done]. destruct Hp. apply Hun. by rewrite Hu. }
  exists D. split_and!; [done|split|..].
  - intros p. rewrite HD'. case_decide as Hp; [|split; [by intros [? ?]|done]].
    destruct (Henc p Hp) as [h ->]. split; [done|]. by eexists.
  - intros p r. rewrite HD'. case_decide as Hp; [|done]. destruct (Henc p Hp) as [h ->]. simpl.
    intros [= <-]. by destruct p.
  - intros p r. rewrite HD'. case_decide as Hp; [|done]. destruct (Henc p Hp) as [h ->]. simpl.
    by intros [= <-].
  - intros p r h. rewrite HD'. case_decide as Hp; [|done]. intros Hr Hh.
    rewrite Hh in Hr. by injection Hr as <-.
Qed.

(** ** Reading back what was written *)
Section ReadBack.
Context (junk : Z) (enc : gmap pos Z).

Definition copy_rooms (ps : list pos) (e : gmap pos Z) : gmap pos Z :=
  foldl (λ e p, <[p := default 0 (enc !! p)]> e) e ps.

Lemma read_rooms_newline ps input e :
  read_rooms junk ps (newline :: input) e = read_rooms junk ps input e.
Proof. destruct ps; simpl; [done|]. by rewrite fscanf_1x_newline. Qed.

Lemma read_rooms_row row ps input e :
  Forall (digit_at enc) row →
  read_rooms junk (row ++ ps) (row_text enc row ++ input) e =
    read_rooms junk ps input (copy_rooms row e).
Proof.
  intros Hrow. revert e. induction Hrow as [|p row (d & Hd & Hd16) Hrow IH]; intros e; [done|].
  unfold row_text. cbn [app fmap list_fmap read_rooms]. rewrite Hd. simpl.
  rewrite fscanf_1x_digit by done. simpl. rewrite IH. by rewrite Hd.
Qed.

Lemma read_rooms_rows rows e :
  Forall (Forall (digit_at enc)) rows →
  read_rooms junk (concat rows) (row ← rows; row_text enc row ++ [newline]) e =
    (0, copy_rooms (concat rows) e).
Proof.
  intros Hrows. revert e. induction Hrows as [|row rows Hrow Hrows IH]; intros e; [done|].
  csimpl. rewrite <-app_assoc, read_rooms_row by done. simpl.
  rewrite read_rooms_newline, IH. unfold copy_rooms. by rewrite foldl_app.
Qed.

Lemma lookup_copy_rooms (ps : list pos) e p :
  (∀ q, q ∈ ps → is_Some (enc !! q)) → p ∈ ps → copy_rooms ps e !! p = enc !! p.
Proof.
  intros Hps Hp.
  assert (∀ e', (p ∈ ps ∨ e' !! p = enc !! p) → copy_rooms ps e' !! p = enc !! p) as Hgen;
    [|by apply Hgen; left].
  clear Hp e. unfold copy_rooms.
  induction ps as [|q ps IH]; intros e' Hor; simpl; [set_solver|].
  apply IH; [set_solver|]. rewrite lookup_insert. case_decide; [|set_solver]. subst q.
  right. destruct (Hps p) as [h ->]; [set_solver|]. done.
Qed.
End ReadBack.

Lemma concat_grid_rows num_rows num_cols :
  concat (grid_rows num_rows num_cols) = grid num_rows num_cols.
Proof.
  unfold grid_rows, grid. generalize (seqZ 0 num_rows) as l. intros l.
  induction l as [|i l IH]; csimpl; [done|]. by rewrite IH.
Qed.

(** ** The two programs *)

Definition good_io (io : file_io) : Prop :=
  fopen_ok io = true ∧ fclose_ok io = true ∧ ∀ n, fprintf_ok io n = true.

(** The storage of a [num_rows] by [num_cols] array: any contents. *)
Definition storage (num_rows num_cols : Z) (uninit : maze_t) : Prop :=
  ∀ p, is_Some (uninit !! p) → in_grid num_rows num_cols p.

Lemma generator_run rand gio prog fname rows cols uninit uninit_enc :
  (∀ n, 0 ≤ rand n) → good_io gio → 0 < atoi rows → 0 < atoi cols →
  storage (atoi rows) (atoi cols) uninit →
  ∃ m k enc n,
    generate_maze rand (atoi rows) (atoi cols) uninit = Ok (tt, GenState m k) ∧
    carved (atoi rows) (atoi cols) m ∧
    (∀ p, in_grid (atoi rows) (atoi cols) p → enc !! p = encode_room <$> m !! p) ∧
    generator_main rand gio [prog; fname; rows; cols] uninit uninit_enc (OutFile [] 0)
      = Ok (0, OutFile (maze_text (atoi rows) (atoi cols) enc) n).
Proof.
  intros Hrand (Hopen & Hclose & Hio) HR HC Hun.
  destruct (generate_maze_spec rand Hrand _ _ uninit HR HC Hun) as (m & k & Hgen & Hfin).
  destruct (encode_maze_spec (atoi rows) (atoi cols) m uninit_enc) as (enc & Henc & Hlook).
  { intros p Hp. by apply (wf_dom _ _ _ (pm_wf _ _ _ Hfin)). }
  assert (∀ p, in_grid (atoi rows) (atoi cols) p → ∃ d, enc !! p = Some d ∧ 0 ≤ d < 16) as Hdig.
  { intros p Hp. destruct (proj2 (wf_dom _ _ _ (pm_wf _ _ _ Hfin) p) Hp) as [r Hr].
    exists (encode_room r). rewrite Hlook, Hr by done. split; [done|]. apply encode_room_bound. }
  destruct (write_encoded_maze_Ok gio (atoi rows) (atoi cols) enc) as [n Hn]; [done..|].
  exists m, k, enc, n. split_and!; [done..|].
  unfold generator_main. cbv zeta. rewrite !(proj2 (Z.gtb_lt _ 0)) by lia. cbn [andb].
  rewrite Hgen. cbn [gmaze]. rewrite Henc. unfold mbind at 1, ST_bind at 1.
  cbn [deref mret ST_ret]. by run Hn.
Qed.

(** Reading the written text gives back the encoded maze. *)
Lemma read_written junk num_rows num_cols enc e0 :
  (∀ p, in_grid num_rows num_cols p → ∃ d, enc !! p = Some d ∧ 0 ≤ d < 16) →
  ∃ enc', read_encoded_maze_from_file junk num_rows num_cols
            (Some (maze_text num_rows num_cols enc)) true e0 = (0, enc') ∧
          ∀ p, in_grid num_rows num_cols p → enc' !! p = enc !! p.
Proof.
  intros Hdig. exists (copy_rooms enc (grid num_rows num_cols) e0). split.
  - unfold read_encoded_maze_from_file, maze_text.
    rewrite <-concat_grid_rows, read_rooms_rows; [done|].
    eapply Forall_impl; [apply grid_rows_in_grid|]. intros row Hrow.
    eapply Forall_impl; [done|]. apply Hdig.
  - intros p Hp. apply lookup_copy_rooms; [|by apply elem_of_grid].
    intros q Hq%elem_of_grid. destruct (Hdig q Hq) as (d & -> & _). done.
Qed.

(** Two mazes with the same connections have the same openings. *)
Lemma opening_ext num_rows num_cols M D p q :
  (∀ x r d, in_grid num_rows num_cols x → M !! x = Some r →
     ∃ r', D !! x = Some r' ∧ wall r' d = wall r d) →
  in_grid num_rows num_cols p →
  opening num_rows num_cols M p q → opening num_rows num_cols D p q.
Proof.
  intros Hw Hp (r & d & Hr & Hd & -> & Hg).
  destruct (Hw p r d Hp Hr) as (r' & Hr' & Hwd). exists r', d. split_and!; [done|congruence|done..].
Qed.

(** In a carved maze every two rooms are connected. *)
Lemma carved_connected num_rows num_cols m p q :
  carved num_rows num_cols m → in_grid num_rows num_cols p → in_grid num_rows num_cols q →
  rtc (opening num_rows num_cols m) p q.
Proof.
  intros Hfin Hp Hq. transitivity (0, 0); [|by apply Hfin].
  assert (∀ x y, opening num_rows num_cols m x y → opening num_rows num_cols m y x) as Hsym.
  { intros x y (r & d & Hr & Hw & -> & Hg).
    destruct (proj2 (wf_dom _ _ _ (pm_wf _ _ _ Hfin) _) Hg) as [r' Hr'].
    exists r', (get_opposite_dir d). rewrite step_opposite. split_and!; [done| |done|].
    - by rewrite <-(pm_symmetric _ _ _ Hfin x r d r').
    - apply (wf_dom _ _ _ (pm_wf _ _ _ Hfin)). by exists r. }
  pose proof (pm_connected _ _ _ Hfin p Hp) as Hpath. revert Hpath. clear -Hsym.
  induction 1 as [|x y z Hxy _ IH]; [done|]. eapply rtc_r; [done|]. by apply Hsym.
Qed.

(** A path given by all its rooms, as one given by the rooms after the first. *)
Lemma open_path_path num_rows num_cols m p l q :
  open_path num_rows num_cols m p l → last l = Some q →
  ∃ l', l = p :: l' ∧ path (opening num_rows num_cols m) p l' q.
Proof.
  intros [Hh Hs] Hlast. destruct l as [|x l]; [done|]. injection Hh as ->.
  exists l. split; [done|]. revert p Hs Hlast.
  induction l as [|y l IH]; intros p Hs Hlast; simpl; [by injection Hlast|].
  split; [by apply (Hs O)|]. apply IH; [|done]. intros i a b ??. by apply (Hs (S i)).
Qed.

(** In a carved maze there is one path without repetition between two rooms. *)
Lemma carved_open_path_unique num_rows num_cols m p q l l' :
  carved num_rows num_cols m →
  open_path num_rows num_cols m p l → open_path num_rows num_cols m p l' →
  last l = Some q → last l' = Some q → NoDup l → NoDup l' → l = l'.
Proof.
  intros Hc Hp Hp' Hl Hl' Hn Hn'.
  destruct (open_path_path _ _ _ _ _ _ Hp Hl) as (k & -> & Hk).
  destruct (open_path_path _ _ _ _ _ _ Hp' Hl') as (k' & -> & Hk').
  f_equal. by eapply (pm_unique _ _ _ Hc).
Qed.

Section SolverRun.
Context (sio : file_io) (Hgood : good_io sio).
Context (prog mfile rows cols pfile srow scol grow gcol : bytes).

Local Abbreviation R := (atoi rows).
Local Abbreviation C := (atoi cols).
Local Abbreviation start := (atoi srow, atoi scol).
Local Abbreviation goal := (atoi grow, atoi gcol).
Local Abbreviation argv := [prog; mfile; rows; cols; pfile; srow; scol; grow; gcol].

Context (Hstart : in_grid R C start) (Hgoal : in_grid R C goal).

Lemma solver_guard :
  (atoi srow <? 0) || (atoi srow >=? R) || (atoi scol <? 0) || (atoi scol >=? C)
  || (atoi grow <? 0) || (atoi grow >=? R) || (atoi gcol <? 0) || (atoi gcol >=? C) = false.
Proof. unfold in_grid in *; simpl in *. lia. Qed.

(** Solving a well-formed file in PRUNED mode: the program succeeds; what it
    prints after the header is a simple path through openings of the decoded
    maze [D] that starts at the start, and ends at the goal whenever the goal
    can be reached. *)
Lemma solver_run junk enc e0 uninit :
  (∀ p, in_grid R C p → ∃ d, enc !! p = Some d ∧ 0 ≤ d < 16) →
  storage R C uninit →
  ∃ D out l,
    (∀ p r h, D !! p = Some r → enc !! p = Some h →
       ∀ d, wall r d = wall (create_room_connections (init_room p.1 p.2) h) d) ∧
    maze_wf R C D ∧
    solver_main false sio (Some (maze_text R C enc)) true junk argv e0 uninit = Ok (0, out) ∧
    text out = PRUNED_header ++ path_text l ∧
    open_path R C D start l ∧ NoDup l ∧
    (rtc (opening R C D) start goal ↔ last l = Some goal).
Proof.
  intros Hdig Hun. destruct Hgood as (Hopen & Hclose & Hio).
  destruct (read_written junk R C enc e0 Hdig) as (enc' & Hread & Henc').
  destruct (decode_maze_spec R C uninit enc') as (D & HD & Hwf & Hfresh & Hwalls); [done|..].
  { intros p Hp. rewrite Henc' by done. destruct (Hdig p Hp) as (d & -> & _). done. }
  destruct (search_complete sio false ltac:(done) R C start goal D Hwf Hfresh Hstart)
    with (f := OutFile PRUNED_header 1) as (found & m & f & Hrun & Hmwf & Hfound & l & Hc & Hnd & Hlast).
  { unfold in_grid in Hstart; simpl in Hstart; lia. }
  { unfold in_grid in Hstart; simpl in Hstart; lia. }
  apply dfs_silent in Hrun as Hf. simpl in Hf. subst f.
  destruct (print_chain sio Hio R C D m start l (Z.to_nat (R * C)) (OutFile PRUNED_header 1))
    as [n Hprint]; [done..| |].
  { eapply chain_length; try done; unfold in_grid in Hstart; simpl in Hstart; lia. }
  exists D, (OutFile (PRUNED_header ++ path_text l) n), l. split_and!; try done.
  - intros p r h Hr Hh. apply Hwalls; [done|]. rewrite Henc'; [done|].
    apply (wf_dom _ _ _ Hwf). by exists r.
  - unfold solver_main. cbv zeta. rewrite solver_guard, Hread. cbn [Z.eqb].
    rewrite HD, Hopen. cbn [negb]. unfold mbind at 1, ST_bind at 1, path_fprintf, fprintf.
    cbn [sfile nwrites smaze text app]. rewrite Hio. rewrite (proj2 (Z.ltb_ge _ 0)) by lia.
    cbn [fst snd] in Hrun, Hprint. run Hrun.
    run Hprint. cbn [Z.eqb mret ST_ret]. by rewrite Hclose.
  - by eapply chain_open_path.
  - split; intros Hl.
    + apply Hlast. by destruct Hfound as [[??]|[??]].
    + by eapply chain_rtc.
Qed.
End SolverRun.

Lemma decoded_opening (num_rows num_cols : Z) (m D : maze_t) (enc : gmap pos Z) (p q : pos) :
  carved num_rows num_cols m → maze_wf num_rows num_cols D →
  (∀ x, in_grid num_rows num_cols x → enc !! x = encode_room <$> m !! x) →
  (∀ x r h, D !! x = Some r → enc !! x = Some h →
     ∀ d, wall r d = wall (create_room_connections (init_room x.1 x.2) h) d) →
  opening num_rows num_cols D p q ↔ opening num_rows num_cols m p q.
Proof.
  intros Hfin Hwf Henc Hdec.
  assert (∀ x r r' d, m !! x = Some r → D !! x = Some r' → wall r' d = wall r d) as Hsame.
  { intros x r r' d Hr Hr'. rewrite (Hdec x r' (encode_room r)); [|done|].
    - apply decode_encode_room. by eapply pm_determined.
    - rewrite Henc, Hr; [done|]. apply (wf_dom _ _ _ Hwf). by exists r'. }
  assert (∀ M, maze_wf num_rows num_cols M → opening num_rows num_cols M p q →
            in_grid num_rows num_cols p) as Hin.
  { intros M HM (r & d & Hr & _). apply (wf_dom _ _ _ HM). by exists r. }
  split; intros Ho; eapply opening_ext; try done; eauto using pm_wf.
  - intros x r' d Hx Hr'. destruct (proj2 (wf_dom _ _ _ (pm_wf _ _ _ Hfin) x) Hx) as [r Hr].
    exists r. split; [done|]. symmetry. by eapply Hsame.
  - intros x r d Hx Hr. destruct (proj2 (wf_dom _ _ _ Hwf x) Hx) as [r' Hr'].
    exists r'. split; [done|]. by eapply Hsame.
Qed.
