(* ===== verification/MazeClaims.v ===== *)
(** * The maze programs: properties.

    Generation, the encoded file, and the search, each on its own and composed. *)

From Stdlib Require Import ZArith Lia Ascii.
From stdpp Require Import base gmap numbers option relations list.
From S2P Require Import Prelude Stdio MazeCommon MazeGenerator MazeEncode MazeSolver MazeEndToEnd.

Open Scope Z_scope.

(** C4: the generator and the solver compose.  Whatever [rand()] returns, the
    generator run on a positive number of rows and columns succeeds; the solver
    run on the file it wrote, with a start and a goal inside the maze, succeeds
    too, and what it prints after the [PRUNED] line is a path of rooms without
    repetition, each step through an opening of the generated maze, from the
    start to the goal; it is the only such path. *)
Theorem maze_end_to_end rand gio sio prog fname rows cols pfile srow scol grow gcol
    uninit uninit' uninit_enc uninit_enc' junk :
  (∀ n, 0 ≤ rand n) → good_io gio → good_io sio →
  0 < atoi rows → 0 < atoi cols →
  storage (atoi rows) (atoi cols) uninit → storage (atoi rows) (atoi cols) uninit' →
  in_grid (atoi rows) (atoi cols) (atoi srow, atoi scol) →
  in_grid (atoi rows) (atoi cols) (atoi grow, atoi gcol) →
  ∃ m k file out l,
    generate_maze rand (atoi rows) (atoi cols) uninit = Ok (tt, GenState m k) ∧
    generator_main rand gio [prog; fname; rows; cols] uninit uninit_enc (OutFile [] 0)
      = Ok (0, file) ∧
    solver_main false sio (Some (text file)) true junk
      [prog; fname; rows; cols; pfile; srow; scol; grow; gcol] uninit_enc' uninit'
      = Ok (0, out) ∧
    text out = PRUNED_header ++ path_text l ∧
    open_path (atoi rows) (atoi cols) m (atoi srow, atoi scol) l ∧
    last l = Some (atoi grow, atoi gcol) ∧ NoDup l ∧
    ∀ l', open_path (atoi rows) (atoi cols) m (atoi srow, atoi scol) l' →
      last l' = Some (atoi grow, atoi gcol) → NoDup l' → l' = l.
Proof.
  intros Hrand Hgio Hsio HR HC Hun Hun' Hs Hg.
  destruct (generator_run rand gio prog fname rows cols uninit uninit_enc)
    as (m & k & enc & n & Hgen & Hfin & Henc & Hmain); [done..|].
  destruct (solver_run sio Hsio prog fname rows cols pfile srow scol grow gcol Hs Hg
    junk enc uninit_enc' uninit') as (D & out & l & Hdec & Hwf & Hsol & Htext & Hpath & Hnd & Hlast).
  { intros p Hp. rewrite Henc by done.
    destruct (proj2 (wf_dom _ _ _ (pm_wf _ _ _ Hfin) p) Hp) as [r ->].
    eexists. split; [done|]. apply encode_room_bound. }
  { done. }
  pose proof (λ p q, decoded_opening _ _ m D enc p q Hfin Hwf Henc Hdec) as Hopen.
  exists m, k, (OutFile (maze_text (atoi rows) (atoi cols) enc) n), out, l.
  assert (open_path (atoi rows) (atoi cols) m (atoi srow, atoi scol) l) as Hl.
  { destruct Hpath as [Hh Hsteps]. split; [done|]. intros i p q Hp Hq. apply Hopen. eauto. }
  assert (last l = Some (atoi grow, atoi gcol)) as Hend.
  { apply Hlast. eapply rtc_subrel; [|by apply (carved_connected (atoi rows) (atoi cols) m)].
    intros p q. by apply Hopen. }
  split_and!; try done. intros l' Hl' Hend' Hnd'.
  by apply (carved_open_path_unique (atoi rows) (atoi cols) m
    (atoi srow, atoi scol) (atoi grow, atoi gcol)).
Qed.

Definition num (z : Z) : bytes := print_dec z.
Definition all_io : file_io := FileIO true (λ _, true) true.

Lemma maze_end_to_end_witness :
  ∃ m k file out l,
    generate_maze (λ n, Z.of_nat n * 7) 3 4 ∅ = Ok (tt, GenState m k) ∧
    generator_main (λ n, Z.of_nat n * 7) all_io [[]; []; num 3; num 4] ∅ ∅ (OutFile [] 0)
      = Ok (0, file) ∧
    solver_main false all_io (Some (text file)) true 0
      [[]; []; num 3; num 4; []; num 0; num 0; num 2; num 3] ∅ ∅ = Ok (0, out) ∧
    text out = PRUNED_header ++ path_text l ∧
    open_path 3 4 m (0, 0) l ∧ last l = Some (2, 3) ∧ NoDup l ∧
    ∀ l', open_path 3 4 m (0, 0) l' → last l' = Some (2, 3) → NoDup l' → l' = l.
Proof.
  apply (maze_end_to_end (λ n, Z.of_nat n * 7) all_io all_io [] [] (num 3) (num 4) []
    (num 0) (num 0) (num 2) (num 3) ∅ ∅ ∅ ∅ 0).
  - intros n. lia.
  - done.
  - done.
  - done.
  - done.
  - intros p [r Hr]. by rewrite lookup_empty in Hr.
  - intros p [r Hr]. by rewrite lookup_empty in Hr.
  - done.
  - done.
Defined.

(** C29: what the generator writes, the solver reads: for a maze whose
    connections are all determined, encoding, writing the file, reading it back
    and decoding into a fresh array restores the four connections of every
    room. *)
Theorem maze_file_roundtrip io junk num_rows num_cols m e0 e1 uninit :
  good_io io → maze_wf num_rows num_cols m → storage num_rows num_cols uninit →
  (∀ p r d, m !! p = Some r → wall r d = 0 ∨ wall r d = 1) →
  ∃ enc file enc' D,
    encode_maze num_rows num_cols m e0 = Some enc ∧
    write_encoded_maze_to_file io num_rows num_cols enc (OutFile [] 0) = Ok (0, file) ∧
    read_encoded_maze_from_file junk num_rows num_cols (Some (text file)) true e1 = (0, enc') ∧
    decode_maze num_rows num_cols (initialize_maze num_rows num_cols uninit) enc' = Some D ∧
    ∀ p r r' d, m !! p = Some r → D !! p = Some r' → wall r' d = wall r d.
Proof.
  intros (Hopen & Hclose & Hio) Hwf Hun Hdet.
  destruct (encode_maze_spec num_rows num_cols m e0) as (enc & Henc & Hlook).
  { intros p Hp. by apply (wf_dom _ _ _ Hwf). }
  assert (∀ p, in_grid num_rows num_cols p → ∃ d, enc !! p = Some d ∧ 0 ≤ d < 16) as Hdig.
  { intros p Hp. destruct (proj2 (wf_dom _ _ _ Hwf p) Hp) as [r Hr]. rewrite Hlook, Hr by done.
    eexists. split; [done|]. apply encode_room_bound. }
  destruct (write_encoded_maze_Ok io num_rows num_cols enc) as [n Hn]; [done..|].
  destruct (read_written junk num_rows num_cols enc e1 Hdig) as (enc' & Hread & Henc').
  destruct (decode_maze_spec num_rows num_cols uninit enc') as (D & HD & HDwf & _ & Hwalls); [done|..].
  { intros p Hp. rewrite Henc' by done. destruct (Hdig p Hp) as (d & -> & _). done. }
  exists enc, (OutFile (maze_text num_rows num_cols enc) n), enc', D. split_and!; try done.
  intros p r r' d Hr Hr'. rewrite (Hwalls p r' (encode_room r)); [|done|].
  - apply decode_encode_room. by eapply Hdet.
  - assert (in_grid num_rows num_cols p) by (apply (wf_dom _ _ _ Hwf); by exists r).
    by rewrite Henc', Hlook, Hr.
Qed.

(** Two rooms with an opening between them. *)
Definition two_rooms : maze_t :=
  <[(0, 0) := set_wall NORTH 1 (set_wall SOUTH 1 (set_wall WEST 1 (set_wall EAST 0 (init_room 0 0))))]>
  {[ (0, 1) := set_wall NORTH 1 (set_wall SOUTH 1 (set_wall WEST 0 (set_wall EAST 1 (init_room 0 1)))) ]}.

Lemma two_rooms_lookup p r :
  two_rooms !! p = Some r → (p = (0, 0) ∨ p = (0, 1)) ∧ p = (row r, col r) ∧
    ∀ d, wall r d = 0 ∨ wall r d = 1.
Proof.
  unfold two_rooms. rewrite lookup_insert_Some, lookup_singleton_Some.
  intros [[<- <-]|(_ & <- & <-)]; (split; [auto|]); split; [done| |done|]; intros []; auto.
Qed.

Lemma two_rooms_wf : maze_wf 1 2 two_rooms.
Proof.
  split; [|intros p r Hr; symmetry; by apply two_rooms_lookup].
  intros p. split.
  - intros [r [[-> | ->] _]%two_rooms_lookup]; done.
  - destruct p as [i j]. unfold in_grid. simpl. intros Hp.
    assert (i = 0) as -> by lia. assert (j = 0 ∨ j = 1) as [-> | ->] by lia; by eexists.
Qed.

Lemma maze_file_roundtrip_witness :
  ∃ enc file enc' D,
    encode_maze 1 2 two_rooms ∅ = Some enc ∧
    write_encoded_maze_to_file all_io 1 2 enc (OutFile [] 0) = Ok (0, file) ∧
    read_encoded_maze_from_file 0 1 2 (Some (text file)) true ∅ = (0, enc') ∧
    decode_maze 1 2 (initialize_maze 1 2 ∅) enc' = Some D ∧
    ∀ p r r' d, two_rooms !! p = Some r → D !! p = Some r' → wall r' d = wall r d.
Proof.
  apply (maze_file_roundtrip all_io 0 1 2 two_rooms ∅ ∅ ∅).
  - done.
  - apply two_rooms_wf.
  - intros p [r Hr]. by rewrite lookup_empty in Hr.
  - intros p r d Hr. by apply (two_rooms_lookup p r Hr).
Defined.

(** C21: whatever [rand()] returns, the walk of the generator ends within the
    recursion depth of one call per room and leaves a carved maze: every room
    visited, every connection decided and the same from both sides, a wall all
    along the border, every room reachable from the corner, and between two
    rooms at most one path that enters no room twice. *)
Theorem generate_maze_carved rand num_rows num_cols uninit :
  (∀ n, 0 ≤ rand n) → 0 < num_rows → 0 < num_cols → storage num_rows num_cols uninit →
  ∃ m k, generate_maze rand num_rows num_cols uninit = Ok (tt, GenState m k) ∧
         carved num_rows num_cols m.
Proof. intros Hrand HR HC Hun. by apply generate_maze_spec. Qed.

Lemma generate_maze_carved_witness :
  ∃ m k, generate_maze (λ n, Z.of_nat n * 5 + 2) 3 3 ∅ = Ok (tt, GenState m k) ∧ carved 3 3 m.
Proof.
  apply (generate_maze_carved (λ n, Z.of_nat n * 5 + 2) 3 3 ∅); [lia|done|done|].
  intros p [r Hr]. by rewrite lookup_empty in Hr.
Defined.

(** C22: the solver, on any file of hexadecimal digits and any start and goal
    inside the maze, succeeds and prints a path without repetition that starts
    at the start and goes through openings of the maze that the digits
    describe; it ends at the goal exactly when the goal can be reached. *)
Theorem solver_correct sio prog mfile rows cols pfile srow scol grow gcol junk enc e0 uninit :
  good_io sio →
  in_grid (atoi rows) (atoi cols) (atoi srow, atoi scol) →
  in_grid (atoi rows) (atoi cols) (atoi grow, atoi gcol) →
  (∀ p, in_grid (atoi rows) (atoi cols) p → ∃ d, enc !! p = Some d ∧ 0 ≤ d < 16) →
  storage (atoi rows) (atoi cols) uninit →
  ∃ D out l,
    (∀ p r h d, D !! p = Some r → enc !! p = Some h →
       wall r d = if Z.testbit h (dir_bit d) then 1 else 0) ∧
    maze_wf (atoi rows) (atoi cols) D ∧
    solver_main false sio (Some (maze_text (atoi rows) (atoi cols) enc)) true junk
      [prog; mfile; rows; cols; pfile; srow; scol; grow; gcol] e0 uninit = Ok (0, out) ∧
    text out = PRUNED_header ++ path_text l ∧
    open_path (atoi rows) (atoi cols) D (atoi srow, atoi scol) l ∧ NoDup l ∧
    (rtc (opening (atoi rows) (atoi cols) D) (atoi srow, atoi scol) (atoi grow, atoi gcol)
       ↔ last l = Some (atoi grow, atoi gcol)).
Proof.
  intros Hio Hs Hg Hdig Hun.
  destruct (solver_run sio Hio prog mfile rows cols pfile srow scol grow gcol Hs Hg junk enc e0
    uninit Hdig Hun) as (D & out & l & Hdec & Hwf & Hrest).
  exists D, out, l. split_and!; try apply Hrest; [|done].
  intros p r h d Hr Hh. by rewrite (Hdec p r h), create_room_connections_wall.
Qed.

(** Two rooms, a wall between them: the goal is not reached. *)
Definition walled : gmap pos Z := <[(0, 0) := 15]> {[ (0, 1) := 15 ]}.

Lemma solver_correct_witness :
  ∃ D out l,
    (∀ p r h d, D !! p = Some r → walled !! p = Some h →
       wall r d = if Z.testbit h (dir_bit d) then 1 else 0) ∧
    maze_wf 1 2 D ∧
    solver_main false all_io (Some (maze_text 1 2 walled)) true 0
      [[]; []; num 1; num 2; []; num 0; num 0; num 0; num 1] ∅ ∅ = Ok (0, out) ∧
    text out = PRUNED_header ++ path_text l ∧
    open_path 1 2 D (0, 0) l ∧ NoDup l ∧
    (rtc (opening 1 2 D) (0, 0) (0, 1) ↔ last l = Some (0, 1)).
Proof.
  apply (solver_correct all_io [] [] (num 1) (num 2) [] (num 0) (num 0) (num 0) (num 1) 0
    walled ∅ ∅).
  - done.
  - done.
  - done.
  - intros [i j]. change (atoi (num 1)) with 1. change (atoi (num 2)) with 2.
    unfold in_grid. simpl. intros Hp.
    assert (i = 0) as -> by lia. assert (j = 0 ∨ j = 1) as [-> | ->] by lia; by eexists.
  - intros p [r Hr]. by rewrite lookup_empty in Hr.
Defined.

(** The generator reports success although nothing was written: when the
    output file cannot be opened, [main] still returns 0, for it compares the
    result of [write_encoded_maze_to_file], 1 on an error, with -1. *)
Theorem generator_hides_write_error rand io prog fname rows cols uninit uninit_enc f :
  (∀ n, 0 ≤ rand n) → 0 < atoi rows → 0 < atoi cols →
  storage (atoi rows) (atoi cols) uninit → fopen_ok io = false →
  (∀ enc, write_encoded_maze_to_file io (atoi rows) (atoi cols) enc f = Ok (1, f)) ∧
  generator_main rand io [prog; fname; rows; cols] uninit uninit_enc f = Ok (0, f).
Proof.
  intros Hrand HR HC Hun Hopen.
  assert (∀ enc, write_encoded_maze_to_file io (atoi rows) (atoi cols) enc f = Ok (1, f)) as Hw.
  { intros enc. unfold write_encoded_maze_to_file. by rewrite Hopen. }
  split; [done|].
  destruct (generate_maze_spec rand Hrand _ _ uninit HR HC Hun) as (m & k & Hgen & Hfin).
  destruct (encode_maze_spec (atoi rows) (atoi cols) m uninit_enc) as (enc & Henc & _).
  { intros p Hp. by apply (wf_dom _ _ _ (pm_wf _ _ _ Hfin)). }
  unfold generator_main. cbv zeta. rewrite !(proj2 (Z.gtb_lt _ 0)) by lia. cbn [andb].
  rewrite Hgen. cbn [gmaze]. rewrite Henc. unfold mbind at 1, ST_bind at 1.
  cbn [deref mret ST_ret]. by run (Hw enc).
Qed.

Lemma generator_hides_write_error_witness :
  (∀ enc, write_encoded_maze_to_file (FileIO false (λ _, true) true) 2 2 enc (OutFile [] 0)
            = Ok (1, OutFile [] 0)) ∧
  generator_main (λ _, 1) (FileIO false (λ _, true) true) [[]; []; num 2; num 2] ∅ ∅ (OutFile [] 0)
    = Ok (0, OutFile [] 0).
Proof.
  apply (generator_hides_write_error (λ _, 1) (FileIO false (λ _, true) true) [] [] (num 2) (num 2)
    ∅ ∅ (OutFile [] 0)); [done|done|done| |done].
  intros p [r Hr]. by rewrite lookup_empty in Hr.
Defined.

(** The digits of a file: hexadecimal digits and white space only. *)
Definition maze_char (c : ascii) : Prop := isspace c = true ∨ is_Some (hex_value c).

Lemma skip_spaces_digits input :
  filter (λ c, isspace c = false) (skip_spaces input) = filter (λ c, isspace c = false) input.
Proof.
  induction input as [|c input IH]; [done|]. simpl. destruct (isspace c) eqn:Hc; [|done].
  by rewrite filter_cons_False by (rewrite Hc; done).
Qed.

Lemma skip_spaces_head input c rest : skip_spaces input = c :: rest → isspace c = false.
Proof.
  induction input as [|x input IH]; simpl; [done|]. destruct (isspace x) eqn:Hx; [done|].
  by intros [= <- <-].
Qed.

Lemma skip_spaces_chars input : Forall maze_char input → Forall maze_char (skip_spaces input).
Proof. induction 1; simpl; [done|]. by destruct (isspace _); [|constructor]. Qed.

(** A file with fewer digits than rooms runs out while it is read. *)
Lemma read_rooms_short junk ps input e :
  Forall maze_char input →
  (length (filter (λ c, isspace c = false) input) < length ps)%nat →
  (read_rooms junk ps input e).1 = 1.
Proof.
  revert input e. induction ps as [|p ps IH]; intros input e Hchars Hshort; [simpl in *; lia|].
  cbn [read_rooms]. unfold fscanf_1x.
  apply skip_spaces_chars in Hchars. rewrite <-skip_spaces_digits in Hshort.
  destruct (skip_spaces input) as [|c rest] eqn:Hskip; [done|].
  pose proof (skip_spaces_head _ _ _ Hskip) as Hc.
  apply Forall_cons in Hchars as [[?|[v Hv]] Hrest]; [congruence|]. rewrite Hv. simpl.
  apply IH; [done|]. rewrite filter_cons_True in Hshort by done. simpl in Hshort. lia.
Qed.

(** A maze file with too few digits is rejected: the solver stops with
    status 1 before it searches or opens the output file, whatever the array it
    reads into holds. *)
Theorem solver_rejects_short_file full sio input fclose junk prog mfile rows cols pfile
    srow scol grow gcol e0 uninit :
  Forall maze_char input →
  (length (filter (λ c, isspace c = false) input) < Z.to_nat (atoi rows * atoi cols))%nat →
  0 ≤ atoi rows → 0 ≤ atoi cols →
  solver_main full sio (Some input) fclose junk
    [prog; mfile; rows; cols; pfile; srow; scol; grow; gcol] e0 uninit = Err (Exit 1).
Proof.
  intros Hchars Hshort HR HC. unfold solver_main. cbv zeta. case_match; [done|].
  unfold read_encoded_maze_from_file.
  rewrite <-length_grid in Hshort by done.
  pose proof (read_rooms_short junk _ _ e0 Hchars Hshort) as Hread.
  destruct (read_rooms _ _ _ _) as [ret enc]. simpl in Hread. by subst ret.
Qed.

Lemma solver_rejects_short_file_witness :
  solver_main false all_io (Some [hex_char 9; newline; hex_char 3]) true 0
    [[]; []; num 1; num 3; []; num 0; num 0; num 0; num 2] ∅ ∅ = Err (Exit 1).
Proof.
  apply (solver_rejects_short_file false all_io [hex_char 9; newline; hex_char 3] true 0
    [] [] (num 1) (num 3) [] (num 0) (num 0) (num 0) (num 2) ∅ ∅).
  - repeat (apply Forall_cons; split); [right; by eexists | by left | right; by eexists | apply Forall_nil].
    done.
  - vm_compute. lia.
  - done.
  - done.
Defined.
