(* ===== verification/Memlib.v ===== *)
(** * The simulated memory system and the word memory:
    [6-malloc-haininz/memlib.c], [mm.h].

    The allocator works on one arena of [MAX_HEAP] bytes.  Its memory is a map
    from word addresses to the 64-bit words stored there; an access must be
    8-byte aligned and inside the arena, and a word that was never written
    reads as whatever the arena held when it was obtained.  NULL is 0. *)

From Stdlib Require Import ZArith Lia.
From stdpp Require Import base gmap numbers option list.
From S2P Require Import Prelude.

Open Scope Z_scope.

(** [mm.h] and [config.h] *)
Definition ALIGNMENT : Z := 8.
Definition WORD_SIZE : Z := 8.
Definition TAGS_SIZE : Z := 2 * WORD_SIZE.
Definition MINBLOCKSIZE : Z := 4 * WORD_SIZE.
Definition MAX_HEAP : Z := 20 * Z.shiftl 1 20.

(** All the static data of [memlib.c], [mminline.h] and [mm.c]. *)
Record mm_state := MM {
  words : gmap Z Z;
  mem_start_brk : Z;
  mem_brk : Z;
  mem_max_addr : Z;
  flist_first : Z;
  prologue : Z;
  epilogue : Z;
}.

Definition set_words (w : gmap Z Z) (s : mm_state) : mm_state :=
  MM w (mem_start_brk s) (mem_brk s) (mem_max_addr s) (flist_first s) (prologue s) (epilogue s).
Definition set_brk (b : Z) (s : mm_state) : mm_state :=
  MM (words s) (mem_start_brk s) b (mem_max_addr s) (flist_first s) (prologue s) (epilogue s).
Definition set_first (f : Z) (s : mm_state) : mm_state :=
  MM (words s) (mem_start_brk s) (mem_brk s) (mem_max_addr s) f (prologue s) (epilogue s).
Definition set_prologue (b : Z) (s : mm_state) : mm_state :=
  MM (words s) (mem_start_brk s) (mem_brk s) (mem_max_addr s) (flist_first s) b (epilogue s).
Definition set_epilogue (b : Z) (s : mm_state) : mm_state :=
  MM (words s) (mem_start_brk s) (mem_brk s) (mem_max_addr s) (flist_first s) (prologue s) b.

(** ** Words of the arena *)

Definition word_ok (s : mm_state) (a : Z) : bool :=
  (a mod 8 =? 0) && (mem_start_brk s <=? a) && (a + 8 <=? mem_max_addr s).

(** The value of a word: 0 stands for the initial contents of a word that has
    not been written. *)
Definition word (w : gmap Z Z) (a : Z) : Z := default 0 (w !! a).

(** [*(long * )a] *)
Definition load (a : Z) : ST mm_state Z := λ s,
  if word_ok s a then Ok (word (words s) a, s) else Err BadAccess.

(** [*(long * )a = v] *)
Definition store (a v : Z) : ST mm_state unit := λ s,
  if word_ok s a then Ok (tt, set_words (<[a := v]> (words s)) s) else Err BadAccess.

(** ** memlib.c *)

(** Conversion of a [long] argument to the [int] parameter of [mem_sbrk]. *)
Definition to_int (v : Z) : Z := (v + 2 ^ 31) mod 2 ^ 32 - 2 ^ 31.

(** [mem_init]: [arena] is what [malloc(MAX_HEAP)] returns, and [contents] what
    the new storage holds. *)
Definition mem_init (arena : Z) (contents : gmap Z Z) : ST mm_state unit :=
  if arena =? NULL then fail (Exit 1)
  else modify (λ s, MM contents arena arena (arena + MAX_HEAP)
                       (flist_first s) (prologue s) (epilogue s)).

(** [mem_reset_brk] *)
Definition mem_reset_brk : ST mm_state unit := modify (λ s, set_brk (mem_start_brk s) s).

(** [mem_sbrk]: the old break, or (void * )-1. *)
Definition mem_sbrk (incr : Z) : ST mm_state Z := λ s,
  if (incr <? 0) || (mem_brk s + incr >? mem_max_addr s) then Ok (-1, s)
  else Ok (mem_brk s, set_brk (mem_brk s + incr) s).

Definition mem_heap_lo (s : mm_state) : Z := mem_start_brk s.
Definition mem_heap_hi (s : mm_state) : Z := mem_brk s - 1.
Definition mem_heapsize (s : mm_state) : Z := mem_brk s - mem_start_brk s.

(** ** Lemmas on the word memory *)

Lemma word_insert w a v b : word (<[a := v]> w) b = if decide (a = b) then v else word w b.
Proof. unfold word. rewrite lookup_insert. by case_decide. Qed.

Lemma word_insert_eq w a v : word (<[a := v]> w) a = v.
Proof. by rewrite word_insert, decide_True. Qed.

Lemma word_insert_ne w a v b : a ≠ b → word (<[a := v]> w) b = word w b.
Proof. intros. by rewrite word_insert, decide_False. Qed.

Lemma word_ok_spec s a :
  word_ok s a = true ↔ a mod 8 = 0 ∧ mem_start_brk s ≤ a ∧ a + 8 ≤ mem_max_addr s.
Proof. unfold word_ok. rewrite !andb_true_iff, Z.eqb_eq, !Z.leb_le. tauto. Qed.

Lemma load_Ok s a : word_ok s a = true → load a s = Ok (word (words s) a, s).
Proof. unfold load. by intros ->. Qed.

Lemma store_Ok s a v :
  word_ok s a = true → store a v s = Ok (tt, set_words (<[a := v]> (words s)) s).
Proof. unfold store. by intros ->. Qed.

(** ** Tags

    The size word of a block: its size, a multiple of 8, with the lowest bit
    set for an allocated block. *)
Definition tag (size : Z) (allocated : bool) : Z := size + Z.b2z allocated.

Lemma tag_land_1 size al : size mod 8 = 0 → Z.land (tag size al) 1 = Z.b2z al.
Proof.
  intros Hsz. change 1 with (Z.ones 1). rewrite Z.land_ones by lia. unfold tag.
  change (2 ^ 1) with 2. destruct al; cbn [Z.b2z]; Z.to_euclidean_division_equations; lia.
Qed.

Lemma tag_land_m2 size al : size mod 8 = 0 → Z.land (tag size al) (-2) = size.
Proof.
  intros Hsz. change (-2) with (Z.lnot (Z.ones 1)).
  rewrite <-Z.ldiff_land, Z.ldiff_ones_r by lia. unfold tag.
  rewrite Z.shiftr_div_pow2, Z.shiftl_mul_pow2 by lia. change (2 ^ 1) with 2.
  destruct al; cbn [Z.b2z]; Z.to_euclidean_division_equations; lia.
Qed.

Lemma lor_bit size b : size mod 8 = 0 → b = 0 ∨ b = 1 → Z.lor size b = size + b.
Proof.
  intros Hsz Hb. rewrite <-Z.add_lor_land.
  assert (Z.land size b = 0) as ->; [|lia].
  destruct Hb as [->| ->]; [apply Z.land_0_r|].
  rewrite <-(Z.add_0_r size). by apply (tag_land_1 size false).
Qed.

Lemma tag_lor_1 size al : size mod 8 = 0 → Z.lor (tag size al) 1 = tag size true.
Proof.
  intros Hsz. unfold tag. rewrite <-(lor_bit size (Z.b2z al)) by (done || destruct al; simpl; lia).
  rewrite <-Z.lor_assoc. transitivity (Z.lor size 1); [by destruct al|].
  apply lor_bit; [done|by right].
Qed.

Lemma land_1_cases v : Z.land v 1 = 0 ∨ Z.land v 1 = 1.
Proof.
  assert (Z.land v 1 = v mod 2) as -> by (change 1 with (Z.ones 1); by rewrite Z.land_ones).
  Z.to_euclidean_division_equations; lia.
Qed.
