(* ===== verification/MmInline.v ===== *)
(** * Blocks and the free list: [6-malloc-haininz/mminline.h].

    Every inline function over the word memory, with its assertions, and the
    exact effect of each on memory. *)

From Stdlib Require Import ZArith Lia.
From stdpp Require Import base gmap numbers option list.
From S2P Require Import Prelude Memlib.

Open Scope Z_scope.

(** A block is its address; [b->size] is the word there, [b->payload[i]] the
    word at [b + 8 + 8 * i]. *)
Definition get_size (b : Z) : ST mm_state Z := load b.
Definition payload (b : Z) : Z := b + WORD_SIZE.

(** [block_end_tag]: the address of the end tag. *)
Definition block_end_tag (b : Z) : ST mm_state Z :=
  size ← get_size b;
  assertb (size >=? WORD_SIZE * 2);;
  mret (b + Z.land size (-2) - WORD_SIZE).

(** [block_allocated] *)
Definition block_allocated (b : Z) : ST mm_state Z :=
  size ← get_size b;
  mret (Z.land size 1).

(** [block_end_allocated] *)
Definition block_end_allocated (b : Z) : ST mm_state Z :=
  t ← block_end_tag b;
  v ← load t;
  mret (Z.land v 1).

(** [block_size] *)
Definition block_size (b : Z) : ST mm_state Z :=
  size ← get_size b;
  mret (Z.land size (-2)).

(** [block_end_size] *)
Definition block_end_size (b : Z) : ST mm_state Z :=
  t ← block_end_tag b;
  v ← load t;
  mret (Z.land v (-2)).

(** [block_set_size] *)
Definition block_set_size (b size : Z) : ST mm_state unit :=
  assertb (Z.land size (ALIGNMENT - 1) =? 0);;
  al ← block_allocated b;
  let size := Z.lor size al in
  store b size;;
  t ← block_end_tag b;
  store t size.

(** [block_set_allocated] *)
Definition block_set_allocated (b allocated : Z) : ST mm_state unit :=
  assertb ((allocated =? 0) || (allocated =? 1));;
  if negb (allocated =? 0) then
    v ← load b;
    store b (Z.lor v 1);;
    t ← block_end_tag b;
    e ← load t;
    store t (Z.lor e 1)
  else
    v ← load b;
    store b (Z.land v (-2));;
    t ← block_end_tag b;
    e ← load t;
    store t (Z.land e (-2)).

(** [block_set_size_and_allocated] *)
Definition block_set_size_and_allocated (b size allocated : Z) : ST mm_state unit :=
  block_set_size b size;;
  block_set_allocated b allocated.

(** [block_prev_allocated] *)
Definition block_prev_allocated (b : Z) : ST mm_state Z :=
  v ← load (b - WORD_SIZE);
  mret (Z.land v 1).

(** [block_prev_size] *)
Definition block_prev_size (b : Z) : ST mm_state Z :=
  v ← load (b - WORD_SIZE);
  mret (Z.land v (-2)).

(** [block_prev] *)
Definition block_prev (b : Z) : ST mm_state Z :=
  sz ← block_prev_size b;
  mret (b - sz).

(** [block_next] *)
Definition block_next (b : Z) : ST mm_state Z :=
  sz ← block_size b;
  mret (b + sz).

(** [block_next_allocated] *)
Definition block_next_allocated (b : Z) : ST mm_state Z :=
  next ← block_next b;
  block_allocated next.

(** [block_next_size] *)
Definition block_next_size (b : Z) : ST mm_state Z :=
  next ← block_next b;
  block_size next.

(** [payload_to_block] *)
Definition payload_to_block (p : Z) : Z := p - WORD_SIZE.

(** [block_flink] *)
Definition block_flink (b : Z) : ST mm_state Z :=
  al ← block_allocated b;
  assertb (al =? 0);;
  load (payload b).

(** [block_set_flink] *)
Definition block_set_flink (b new_flink : Z) : ST mm_state unit :=
  al ← block_allocated b;
  al' ← block_allocated new_flink;
  assertb ((al =? 0) && (al' =? 0));;
  store (payload b) new_flink.

(** [block_blink] *)
Definition block_blink (b : Z) : ST mm_state Z :=
  al ← block_allocated b;
  assertb (al =? 0);;
  load (payload b + WORD_SIZE).

(** [block_set_blink] *)
Definition block_set_blink (b new_blink : Z) : ST mm_state unit :=
  al ← block_allocated b;
  al' ← block_allocated new_blink;
  assertb ((al =? 0) && (al' =? 0));;
  store (payload b + WORD_SIZE) new_blink.

Definition get_first : ST mm_state Z := λ s, Ok (flist_first s, s).

(** [pull_free_block] *)
Definition pull_free_block (fb : Z) : ST mm_state unit :=
  al ← block_allocated fb;
  assertb (al =? 0);;
  prev ← block_blink fb;
  next ← block_flink fb;
  block_set_flink prev next;;
  block_set_blink next prev;;
  first ← get_first;
  if fb =? first then modify (set_first (if fb =? next then NULL else next))
  else mret tt.

(** [insert_free_block] *)
Definition insert_free_block (fb : Z) : ST mm_state unit :=
  al ← block_allocated fb;
  assertb (al =? 0);;
  first ← get_first;
  if first =? NULL then
    modify (set_first fb);;
    block_set_flink fb fb;;
    block_set_blink fb fb
  else
    block_set_flink fb first;;
    last ← block_blink first;
    block_set_blink fb last;;
    last ← block_blink first;
    block_set_flink last fb;;
    block_set_blink first fb;;
    modify (set_first fb).

(** ** Running the operations

    [step_ST] evaluates the next primitive of a computation whose state is
    known, given that the words it touches are accessible. *)

(** The word at [b] is the tag of a block. *)
Definition tagged (s : mm_state) (b size : Z) (al : bool) : Prop :=
  word_ok s b = true ∧ word (words s) b = tag size al ∧ size mod 8 = 0.

Section Reads.
Context (s : mm_state) (b size : Z) (al : bool) (Ht : tagged s b size al).

Lemma get_size_tagged : get_size b s = Ok (tag size al, s).
Proof. destruct Ht as (Hok & Hw & _). unfold get_size. by rewrite load_Ok, Hw. Qed.

Lemma block_allocated_tagged : block_allocated b s = Ok (Z.b2z al, s).
Proof.
  unfold block_allocated. run get_size_tagged.
  by rewrite tag_land_1 by apply Ht.
Qed.

Lemma block_size_tagged : block_size b s = Ok (size, s).
Proof.
  unfold block_size. run get_size_tagged.
  by rewrite tag_land_m2 by apply Ht.
Qed.

Lemma block_next_tagged : block_next b s = Ok (b + size, s).
Proof. unfold block_next. by run block_size_tagged. Qed.

Lemma block_end_tag_tagged : 16 ≤ size → block_end_tag b s = Ok (b + size - 8, s).
Proof.
  intros Hsz. unfold block_end_tag. run get_size_tagged.
  unfold assertb. rewrite (proj2 (Z.geb_le _ _)) by (unfold tag, WORD_SIZE; destruct al; simpl; lia).
  unfold mbind, ST_bind. simpl. by rewrite tag_land_m2 by apply Ht.
Qed.
End Reads.

Lemma tagged_set_words s w b size al :
  tagged (set_words w s) b size al ↔
    word_ok s b = true ∧ word w b = tag size al ∧ size mod 8 = 0.
Proof. done. Qed.

(** The tag at [b] may be written and read back. *)
Lemma tagged_insert s b size al e v :
  word_ok s b = true → size mod 8 = 0 → e ≠ b →
  tagged (set_words (<[e := v]> (<[b := tag size al]> (words s))) s) b size al.
Proof.
  intros Hb H8 Hne. split_and!; [done| |done]. simpl.
  by rewrite word_insert_ne, word_insert_eq.
Qed.

Lemma tagged_insert_1 s b size al :
  word_ok s b = true → size mod 8 = 0 →
  tagged (set_words (<[b := tag size al]> (words s)) s) b size al.
Proof. intros Hb H8. split_and!; [done| |done]. simpl. by rewrite word_insert_eq. Qed.

Section Writes.
Context (s : mm_state) (b size : Z).
Context (Hb : word_ok s b = true) (He : word_ok s (b + size - 8) = true).
Context (Hsz : 16 ≤ size) (H8 : size mod 8 = 0).

(** Memory after both tags are set. *)
Definition with_tags (w : gmap Z Z) (al : bool) : gmap Z Z :=
  <[b + size - 8 := tag size al]> (<[b := tag size al]> w).

Lemma with_tags_idem w al al' : with_tags (with_tags w al) al' = with_tags w al'.
Proof.
  apply map_eq. intros i. unfold with_tags. rewrite !lookup_insert.
  by repeat case_decide.
Qed.

Lemma block_set_size_Ok al :
  Z.land (word (words s) b) 1 = Z.b2z al →
  block_set_size b size s = Ok (tt, set_words (with_tags (words s) al) s).
Proof.
  intros Hal. unfold block_set_size.
  assert ((Z.land size (ALIGNMENT - 1) =? 0) = true) as Hassert.
  { apply Z.eqb_eq. change (ALIGNMENT - 1) with (Z.ones 3). by rewrite Z.land_ones. }
  run (assertb_true _ s Hassert).
  assert (block_allocated b s = Ok (Z.b2z al, s)) as Hread.
  { unfold block_allocated, get_size. run (load_Ok s b Hb). by rewrite Hal. }
  run Hread. rewrite lor_bit by (done || destruct al; simpl; lia). fold (tag size al).
  run (store_Ok s b (tag size al) Hb).
  run (block_end_tag_tagged _ b size al (tagged_insert_1 s b size al Hb H8) Hsz).
  by rewrite store_Ok.
Qed.

Lemma block_set_allocated_Ok al al' :
  tagged s b size al → word (words s) (b + size - 8) = tag size al →
  block_set_allocated b (Z.b2z al') s = Ok (tt, set_words (with_tags (words s) al') s).
Proof.
  intros (_ & Hw & _) Hwe. unfold block_set_allocated.
  run (assertb_true ((Z.b2z al' =? 0) || (Z.b2z al' =? 1)) s ltac:(by destruct al')).
  assert (∀ v, v = tag size al' →
    (store b v;; t ← block_end_tag b; e ← load t; store t (if al' then Z.lor e 1 else Z.land e (-2))) s
    = Ok (tt, set_words (with_tags (words s) al') s)) as Hrest.
  { intros v ->. run (store_Ok s b (tag size al') Hb).
    run (block_end_tag_tagged _ b size al' (tagged_insert_1 s b size al' Hb H8) Hsz).
    run (load_Ok (set_words (<[b := tag size al']> (words s)) s) (b + size - 8) He).
    rewrite store_Ok by done. simpl. rewrite word_insert_ne, Hwe by lia.
    assert ((if al' then Z.lor (tag size al) 1 else Z.land (tag size al) (-2)) = tag size al')
      as ->; [|done].
    destruct al'; [by apply tag_lor_1|]. rewrite tag_land_m2 by done. unfold tag. simpl. lia. }
  destruct al'; simpl; run (load_Ok s b Hb); rewrite Hw; apply Hrest.
  - by apply tag_lor_1.
  - rewrite tag_land_m2 by done. unfold tag. simpl. lia.
Qed.

End Writes.

Lemma block_set_size_and_allocated_Ok s b size al :
  word_ok s b = true → word_ok s (b + size - 8) = true → 16 ≤ size → size mod 8 = 0 →
  block_set_size_and_allocated b size (Z.b2z al) s =
    Ok (tt, set_words (with_tags b size (words s) al) s).
Proof.
  intros Hb He Hsz H8. unfold block_set_size_and_allocated.
  assert (∃ al0, Z.land (word (words s) b) 1 = Z.b2z al0) as [al0 Hal0].
  { destruct (land_1_cases (word (words s) b)) as [->| ->]; [by exists false|by exists true]. }
  run (block_set_size_Ok s b size Hb He Hsz H8 al0 Hal0).
  pose proof (tagged_insert s b size al0 (b + size - 8) (tag size al0) Hb H8 ltac:(lia)) as Ht.
  rewrite (block_set_allocated_Ok (set_words (with_tags b size (words s) al0) s)
    b size Hb He Hsz H8 al0 al Ht).
  - simpl. by rewrite with_tags_idem.
  - unfold with_tags. simpl. by rewrite word_insert_eq.
Qed.

(** ** The free list operations *)

(** A free block whose links are accessible. *)
Definition free_at (s : mm_state) (b : Z) : Prop :=
  (∃ size, tagged s b size false) ∧ word_ok s (b + 8) = true ∧ word_ok s (b + 16) = true.

(** Two block addresses: equal, or far enough apart not to share header and
    links. *)
Definition apart (x y : Z) : Prop := x = y ∨ x + 32 ≤ y ∨ y + 32 ≤ x.

Lemma free_at_allocated s b : free_at s b → block_allocated b s = Ok (0, s).
Proof. intros [[size Ht] _]. by apply (block_allocated_tagged s b size false). Qed.

(** Writing a link of one block leaves the headers of all blocks. *)
Lemma free_at_link s b x off v :
  free_at s b → apart b x → off = 8 ∨ off = 16 →
  free_at (set_words (<[x + off := v]> (words s)) s) b.
Proof.
  intros [(size & Hok & Hw & H8) Hl] Hap Hoff. split; [|done]. exists size.
  split_and!; [done| |done]. simpl. rewrite word_insert_ne; [done|].
  unfold apart in Hap. lia.
Qed.

Lemma block_flink_Ok s b : free_at s b → block_flink b s = Ok (word (words s) (b + 8), s).
Proof.
  intros Hf. unfold block_flink. run (free_at_allocated s b Hf). run (assertb_true _ s eq_refl).
  apply load_Ok, Hf.
Qed.

Lemma block_blink_Ok s b : free_at s b → block_blink b s = Ok (word (words s) (b + 16), s).
Proof.
  intros Hf. unfold block_blink. run (free_at_allocated s b Hf). run (assertb_true _ s eq_refl).
  unfold payload, WORD_SIZE. replace (b + 8 + 8) with (b + 16) by lia. apply load_Ok, Hf.
Qed.

Lemma block_set_flink_Ok s b f :
  free_at s b → free_at s f →
  block_set_flink b f s = Ok (tt, set_words (<[b + 8 := f]> (words s)) s).
Proof.
  intros Hb Hf. unfold block_set_flink.
  run (free_at_allocated s b Hb). run (free_at_allocated s f Hf).
  run (assertb_true _ s eq_refl). apply store_Ok, Hb.
Qed.

Lemma block_set_blink_Ok s b f :
  free_at s b → free_at s f →
  block_set_blink b f s = Ok (tt, set_words (<[b + 16 := f]> (words s)) s).
Proof.
  intros Hb Hf. unfold block_set_blink.
  run (free_at_allocated s b Hb). run (free_at_allocated s f Hf).
  run (assertb_true _ s eq_refl).
  unfold payload, WORD_SIZE. replace (b + 8 + 8) with (b + 16) by lia. apply store_Ok, Hb.
Qed.

(** Memory after a block between [prev] and [next] is unlinked. *)
Definition unlinked (w : gmap Z Z) (prev next : Z) : gmap Z Z :=
  <[next + 16 := prev]> (<[prev + 8 := next]> w).

Lemma pull_free_block_Ok s fb prev next :
  free_at s fb → free_at s prev → free_at s next →
  word (words s) (fb + 16) = prev → word (words s) (fb + 8) = next → apart prev next →
  pull_free_block fb s =
    Ok (tt, set_first (if fb =? flist_first s then (if fb =? next then NULL else next)
                       else flist_first s)
              (set_words (unlinked (words s) prev next) s)).
Proof.
  intros Hfb Hprev Hnext Hblink Hflink Hap. unfold pull_free_block.
  run (free_at_allocated s fb Hfb). run (assertb_true _ s eq_refl).
  run (block_blink_Ok s fb Hfb). run (block_flink_Ok s fb Hfb). rewrite Hblink, Hflink.
  run (block_set_flink_Ok s prev next Hprev Hnext).
  run (block_set_blink_Ok (set_words (<[prev + 8 := next]> (words s)) s) next prev
    (free_at_link s next prev 8 next Hnext ltac:(unfold apart in *; lia) ltac:(by left))
    (free_at_link s prev prev 8 next Hprev ltac:(by left) ltac:(by left))).
  unfold get_first, mbind, ST_bind. simpl. by destruct (fb =? flist_first s).
Qed.

(** Memory after a block is linked between [last] and [first]. *)
Definition linked (w : gmap Z Z) (fb last first : Z) : gmap Z Z :=
  <[first + 16 := fb]> (<[last + 8 := fb]> (<[fb + 16 := last]> (<[fb + 8 := first]> w))).

Lemma insert_free_block_nil s fb :
  free_at s fb → flist_first s = NULL →
  insert_free_block fb s =
    Ok (tt, set_first fb (set_words (<[fb + 16 := fb]> (<[fb + 8 := fb]> (words s))) s)).
Proof.
  intros Hfb Hnil. unfold insert_free_block.
  run (free_at_allocated s fb Hfb). run (assertb_true _ s eq_refl).
  assert (free_at (set_first fb s) fb) as Hfb' by done.
  unfold get_first, mbind at 1, ST_bind at 1. rewrite Hnil. simpl.
  run (eq_refl : modify (set_first fb) s = Ok (tt, set_first fb s)).
  run (block_set_flink_Ok _ fb fb Hfb' Hfb').
  pose proof (free_at_link (set_first fb s) fb fb 8 fb Hfb' ltac:(by left) ltac:(by left)) as H1.
  by rewrite (block_set_blink_Ok _ fb fb H1 H1).
Qed.

Lemma insert_free_block_cons s fb last first :
  free_at s fb → free_at s first → free_at s last →
  flist_first s = first → first ≠ NULL → word (words s) (first + 16) = last →
  fb ≠ first → fb ≠ last → apart fb first → apart fb last → apart last first →
  insert_free_block fb s =
    Ok (tt, set_first fb (set_words (linked (words s) fb last first) s)).
Proof.
  intros Hfb Hfirst Hlast Hf Hnn Hbl Hne1 Hne2 Hap1 Hap2 Hap3. unfold insert_free_block.
  run (free_at_allocated s fb Hfb). run (assertb_true _ s eq_refl).
  run (eq_refl : get_first s = Ok (flist_first s, s)). rewrite Hf.
  rewrite (proj2 (Z.eqb_neq _ _) Hnn).
  run (block_set_flink_Ok s fb first Hfb Hfirst).
  set (s1 := set_words (<[fb + 8 := first]> (words s)) s).
  assert (∀ b, free_at s b → apart b fb → free_at s1 b) as Hs1.
  { intros b Hb Hap. apply free_at_link; auto. }
  assert (free_at s1 fb ∧ free_at s1 first ∧ free_at s1 last) as (Hfb1 & Hfirst1 & Hlast1).
  { split_and!; apply Hs1; try done; unfold apart in *; lia. }
  assert (word (words s1) (first + 16) = last) as Hbl1.
  { simpl. rewrite word_insert_ne; [done|]. unfold apart in *; lia. }
  run (block_blink_Ok s1 first Hfirst1). rewrite Hbl1.
  run (block_set_blink_Ok s1 fb last Hfb1 Hlast1).
  set (s2 := set_words (<[fb + 16 := last]> (words s1)) s1).
  assert (∀ b, free_at s1 b → apart b fb → free_at s2 b) as Hs2.
  { intros b Hb Hap. apply free_at_link; auto. }
  assert (free_at s2 fb ∧ free_at s2 first ∧ free_at s2 last) as (Hfb2 & Hfirst2 & Hlast2).
  { split_and!; apply Hs2; try done; unfold apart in *; lia. }
  assert (word (words s2) (first + 16) = last) as Hbl2.
  { simpl. rewrite word_insert_ne; [done|]. unfold apart in *; lia. }
  run (block_blink_Ok s2 first Hfirst2). rewrite Hbl2.
  run (block_set_flink_Ok s2 last fb Hlast2 Hfb2).
  set (s3 := set_words (<[last + 8 := fb]> (words s2)) s2).
  assert (free_at s3 fb ∧ free_at s3 first) as (Hfb3 & Hfirst3).
  { split; apply free_at_link; try done; unfold apart in *; lia. }
  run (block_set_blink_Ok s3 first fb Hfirst3 Hfb3). done.
Qed.
