(* ===== verification/Mm.v ===== *)
(** * The allocator: [6-malloc-haininz/mm.c].

    [mm_init], [mm_malloc], [coalesce], [mm_free] and [mm_realloc] over the
    word memory. *)

From Stdlib Require Import ZArith Lia.
From stdpp Require Import base gmap numbers option list.
From S2P Require Import Prelude Memlib MmInline.

Open Scope Z_scope.

(** A [long] result: undefined beyond 64 bits. *)
Definition as_long (v : Z) : ST mm_state Z :=
  if (- 2 ^ 63 <=? v) && (v <? 2 ^ 63) then mret v else fail SignedOverflow.

(** [align] *)
Definition align (size : Z) : ST mm_state Z :=
  v ← as_long (size + (WORD_SIZE - 1));
  mret (Z.land v (Z.lnot (WORD_SIZE - 1))).

(** [mm_init]; [arena] and [contents] are what [malloc] gives to [mem_init]. *)
Definition mm_init (arena : Z) (contents : gmap Z Z) : ST mm_state Z :=
  mem_init arena contents;;
  let initial_heap_size := 2 * TAGS_SIZE in
  p ← mem_sbrk (to_int initial_heap_size);
  modify (set_prologue p);;
  if p =? -1 then mret (-1)
  else
    block_set_size_and_allocated p TAGS_SIZE 1;;
    modify (set_epilogue (p + TAGS_SIZE));;
    block_set_size_and_allocated (p + TAGS_SIZE) TAGS_SIZE 1;;
    modify (set_first NULL);;
    mret 0.

(** The size of the block that serves a request. *)
Definition adjusted (size : Z) : ST mm_state Z :=
  n ← as_long (size + TAGS_SIZE);
  a ← align n;
  if a <? MINBLOCKSIZE then mret MINBLOCKSIZE else align n.

(** The body of [mm_malloc] once the free block [cur] fits. *)
Definition take_block (cur adjusted_size : Z) : ST mm_state Z :=
  sz ← block_size cur;
  let remaining_size := sz - adjusted_size in
  if remaining_size >=? MINBLOCKSIZE then
    pull_free_block cur;;
    block_set_size_and_allocated cur remaining_size 0;;
    insert_free_block cur;;
    new_block ← block_next cur;
    block_set_size_and_allocated new_block adjusted_size 1;;
    mret (payload new_block)
  else
    pull_free_block cur;;
    block_set_allocated cur 1;;
    mret (payload cur).

(** The [do ... while (cur != flist_first)] loop: the payload returned, if a
    block fits. *)
Fixpoint malloc_scan (fuel : nat) (adjusted_size cur : Z) : ST mm_state (option Z) :=
  match fuel with
  | O => fail NoFuel
  | S fuel' =>
      al ← block_allocated cur;
      sz ← block_size cur;
      if (al =? 0) && (sz >=? adjusted_size) then
        p ← take_block cur adjusted_size;
        mret (Some p)
      else
        next ← block_flink cur;
        first ← get_first;
        if next =? first then mret None else malloc_scan fuel' adjusted_size next
  end.

(** More iterations than there are blocks of the minimum size in the heap. *)
Definition scan_fuel (s : mm_state) : nat := S (Z.to_nat (mem_heapsize s / MINBLOCKSIZE)).

(** The end of [mm_malloc]: a new block at the end of the heap. *)
Definition extend_heap (adjusted_size : Z) : ST mm_state Z :=
  cur ← mem_sbrk (to_int adjusted_size);
  if cur =? -1 then mret NULL
  else
    s ← get;
    let cur := epilogue s in
    block_set_size_and_allocated cur adjusted_size 1;;
    e ← block_next cur;
    modify (set_epilogue e);;
    block_set_size_and_allocated e TAGS_SIZE 1;;
    mret (payload cur).

(** [mm_malloc] *)
Definition mm_malloc (size : Z) : ST mm_state Z :=
  if size =? 0 then mret NULL
  else
    adjusted_size ← adjusted size;
    s ← get;
    found ← (if negb (flist_first s =? NULL)
             then malloc_scan (scan_fuel s) adjusted_size (flist_first s)
             else mret None);
    match found with
    | Some p => mret p
    | None => extend_heap adjusted_size
    end.

(** [coalesce] *)
Definition coalesce (block : Z) : ST mm_state unit :=
  prev_block ← block_prev block;
  next_block ← block_next block;
  prev_al ← block_allocated prev_block;
  (if prev_al =? 0 then
     pull_free_block block;;
     sp ← block_size prev_block;
     sb ← block_size block;
     block_set_size prev_block (sp + sb)
   else mret tt);;
  let prev_block_free := prev_al =? 0 in
  next_al ← block_allocated next_block;
  if next_al =? 0 then
    pull_free_block next_block;;
    if prev_block_free then
      sp ← block_size prev_block;
      sn ← block_size next_block;
      block_set_size prev_block (sp + sn)
    else
      sb ← block_size block;
      sn ← block_size next_block;
      block_set_size block (sb + sn)
  else mret tt.

(** [mm_free] *)
Definition mm_free (ptr : Z) : ST mm_state unit :=
  if ptr =? NULL then mret tt
  else
    let block := payload_to_block ptr in
    block_set_allocated block 0;;
    insert_free_block block;;
    coalesce block.

(** [memcpy] of [n] words: undefined when the regions overlap. *)
Fixpoint copy_words (n : nat) (dst src : Z) : ST mm_state unit :=
  match n with
  | O => mret tt
  | S n' =>
      v ← load src;
      store dst v;;
      copy_words n' (dst + 8) (src + 8)
  end.

Definition overlap (dst src len : Z) : bool := (dst <? src + len) && (src <? dst + len).

Definition memcpy (dst src len : Z) : ST mm_state unit :=
  if overlap dst src len then fail BadAccess
  else copy_words (Z.to_nat (len / 8)) dst src.

(** [mm_realloc] *)
Definition mm_realloc (ptr size : Z) : ST mm_state Z :=
  if ptr =? NULL then mm_malloc size
  else if size =? 0 then mm_free ptr;; mret NULL
  else
    let current_block := payload_to_block ptr in
    current_size ← block_size current_block;
    new_size ← adjusted size;
    if new_size <=? current_size then mret ptr
    else
      next_block ← block_next current_block;
      next_al ← block_allocated next_block;
      next_size ← block_size next_block;
      if (next_al =? 0) && (current_size + next_size >=? new_size) then
        pull_free_block next_block;;
        next_size ← block_size next_block;
        block_set_size_and_allocated current_block (current_size + next_size) 1;;
        mret ptr
      else
        new_ptr ← mm_malloc size;
        if new_ptr =? NULL then mret NULL
        else
          len ← align size;
          memcpy new_ptr ptr len;;
          mm_free ptr;;
          mret new_ptr.
