(* ===== verification/MmHeap.v ===== *)
(** * The heap of the allocator, abstractly.

    A heap is seen as a map from block addresses to sizes and allocation flags
    and a circular list of its free blocks.  This file relates that view to the
    words of memory and proves what the operations of [mminline.h] do to it. *)

From Stdlib Require Import ZArith Lia.
From stdpp Require Import base gmap numbers option list.
From S2P Require Import Prelude Memlib MmInline.

Open Scope Z_scope.

(** Address to size and allocation flag. *)
Abbreviation blocks := (gmap Z (Z * bool)).

(** ** Circular doubly linked lists *)
Module Ring.
(** The pairs of neighbours of a circular list. *)
Definition pairs (l : list Z) : list (Z * Z) :=
  match l with [] => [] | x :: l' => zip l (l' ++ [x]) end.

(** [flink] of each element is the next one, [blink] the previous one. *)
Definition ring (w : gmap Z Z) (l : list Z) : Prop :=
  ∀ x y, (x, y) ∈ pairs l → word w (x + 8) = y ∧ word w (y + 16) = x.

(** The pairs of a list by its first and last element. *)
Lemma pairs_snoc n l l' p :
  n :: l = l' ++ [p] → pairs (n :: l) = zip l' l ++ [(p, n)].
Proof.
  intros Heq. change (pairs (n :: l)) with (zip (n :: l) (l ++ [n])). rewrite Heq.
  change ([(p, n)]) with (zip [p] [n]).
  apply zip_with_app. apply (f_equal length) in Heq. rewrite length_app in Heq. simpl in Heq. lia.
Qed.

Lemma pairs_rot1 x l : pairs (x :: l) ≡ₚ pairs (l ++ [x]).
Proof.
  destruct l as [|n l]; [done|].
  change ((n :: l) ++ [x]) with (n :: (l ++ [x])) at 1.
  rewrite (pairs_snoc n (l ++ [x]) (n :: l) x eq_refl).
  rewrite (Permutation_app_comm _ [(x, n)]). done.
Qed.

Lemma pairs_rot l1 l2 : pairs (l1 ++ l2) ≡ₚ pairs (l2 ++ l1).
Proof.
  revert l2. induction l1 as [|a l1 IH]; intros l2; [by rewrite app_nil_r|].
  simpl app at 1. rewrite pairs_rot1, <-app_assoc, IH. by rewrite <-app_assoc.
Qed.

Lemma ring_rot w l1 l2 : ring w (l1 ++ l2) → ring w (l2 ++ l1).
Proof. intros Hr x y Hxy. apply Hr. by rewrite pairs_rot. Qed.

Lemma pairs_cons x n l l' p :
  n :: l = l' ++ [p] → pairs (x :: n :: l) = (x, n) :: zip l' l ++ [(p, x)].
Proof.
  intros Heq. change (pairs (x :: n :: l)) with ((x, n) :: zip (n :: l) (l ++ [x])). rewrite Heq.
  f_equal. change ([(p, x)]) with (zip [p] [x]).
  apply zip_with_app. apply (f_equal length) in Heq. rewrite length_app in Heq. simpl in Heq. lia.
Qed.

Lemma elem_of_zip_fst (l l' : list Z) x y : (x, y) ∈ zip l l' → x ∈ l ∧ y ∈ l'.
Proof. intros Hxy. split; [by eapply elem_of_zip_l|by eapply elem_of_zip_r]. Qed.

Lemma pairs_elem l x y : (x, y) ∈ pairs l → x ∈ l ∧ y ∈ l.
Proof.
  destruct l as [|z l]; [set_solver|]. intros [Hx Hy]%elem_of_zip_fst. set_solver.
Qed.

(** The list depends only on the links of its elements. *)
Lemma ring_frame w w' l :
  (∀ z, z ∈ l → word w' (z + 8) = word w (z + 8) ∧ word w' (z + 16) = word w (z + 16)) →
  ring w l → ring w' l.
Proof.
  intros Hf Hr x y Hxy. destruct (pairs_elem l x y Hxy) as [Hx Hy].
  destruct (Hf x Hx) as [-> _]. destruct (Hf y Hy) as [_ ->]. by apply Hr.
Qed.

(** Distinct blocks are far apart. *)
Definition spread (l : list Z) : Prop := ∀ x y, x ∈ l → y ∈ l → apart x y.

Section Middle.
Context (n : Z) (l l' : list Z) (p : Z) (Heq : n :: l = l' ++ [p]).
Context (Hnd : NoDup (n :: l)) (Hsp : spread (n :: l)).

Lemma middle_elem a b :
  (a, b) ∈ zip l' l → a ∈ n :: l ∧ b ∈ n :: l ∧ a ≠ p ∧ b ≠ n.
Proof.
  intros [Ha Hb]%elem_of_zip_fst. rewrite Heq at 1. split_and!; [set_solver|set_solver|..].
  - intros ->. pose proof Hnd as Hnd'. rewrite Heq in Hnd'.
    apply NoDup_app in Hnd' as (_ & Hd & _). apply (Hd p); [done|set_solver].
  - intros ->. pose proof Hnd as [??]%NoDup_cons. done.
Qed.

Lemma last_elem : p ∈ n :: l.
Proof. rewrite Heq. set_solver. Qed.

Lemma ring_pull w x : ring w (x :: n :: l) → ring (unlinked w p n) (n :: l).
Proof.
  unfold ring. rewrite (pairs_cons x n l l' p Heq), (pairs_snoc n l l' p Heq).
  intros Hr a b [Hab|Hab%list_elem_of_singleton]%elem_of_app.
  - destruct (middle_elem a b Hab) as (Ha & Hb & Hap & Hbn).
    destruct (Hr a b) as [H1 H2]; [set_solver|]. unfold unlinked.
    pose proof (Hsp a n Ha ltac:(set_solver)). pose proof (Hsp b p Hb last_elem).
    unfold apart in *. rewrite !word_insert_ne by lia. done.
  - injection Hab as -> ->. pose proof (Hsp p n last_elem ltac:(set_solver)).
    unfold unlinked, apart in *. by rewrite word_insert_ne, !word_insert_eq by lia.
Qed.

Lemma ring_insert w x :
  (∀ y, y ∈ n :: l → apart x y) → x ∉ n :: l →
  ring w (n :: l) → ring (linked w x p n) (x :: n :: l).
Proof.
  intros Hx Hnx. unfold ring.
  rewrite (pairs_cons x n l l' p Heq), (pairs_snoc n l l' p Heq).
  pose proof (Hsp p n last_elem ltac:(set_solver)) as Hpn.
  pose proof (Hx p last_elem) as Hxp. pose proof (Hx n ltac:(set_solver)) as Hxn.
  assert (x ≠ p) by (intros ->; by apply Hnx, last_elem).
  assert (x ≠ n) by set_solver.
  intros Hr a b [Hab|[Hab|Hab%list_elem_of_singleton]%elem_of_app]%elem_of_cons.
  - injection Hab as -> ->. unfold linked, apart in *.
    by rewrite !word_insert_ne, !word_insert_eq by lia.
  - destruct (middle_elem a b Hab) as (Ha & Hb & Hap & Hbn).
    destruct (Hr a b) as [H1 H2]; [set_solver|]. unfold linked.
    pose proof (Hsp a n Ha ltac:(set_solver)). pose proof (Hsp b p Hb last_elem).
    pose proof (Hx a Ha). pose proof (Hx b Hb).
    assert (x ≠ a) by set_solver. assert (x ≠ b) by set_solver.
    unfold apart in *. rewrite !word_insert_ne by lia. done.
  - injection Hab as -> ->. unfold linked, apart in *. split.
    + by rewrite word_insert_ne, word_insert_eq by lia.
    + by rewrite !word_insert_ne, word_insert_eq by lia.
Qed.
End Middle.
End Ring.
Import Ring.

(** ** Blocks in memory *)

(** Blocks are aligned, inside the arena, disjoint, and large enough for their
    tags, and for their links when they are free. *)
Record sep (lo hi : Z) (B : blocks) : Prop := {
  sep_lo : 0 < lo;
  sep_block a sz al :
    B !! a = Some (sz, al) →
    a mod 8 = 0 ∧ sz mod 8 = 0 ∧ 16 ≤ sz ∧ lo ≤ a ∧ a + sz ≤ hi ∧ (al = false → 32 ≤ sz);
  sep_disj a sz al b szb alb :
    B !! a = Some (sz, al) → B !! b = Some (szb, alb) → a ≠ b →
    a + sz ≤ b ∨ b + szb ≤ a;
}.

(** Both tags of every block are in memory. *)
Definition tags_ok (w : gmap Z Z) (B : blocks) : Prop :=
  ∀ a sz al, B !! a = Some (sz, al) →
    word w a = tag sz al ∧ word w (a + sz - 8) = tag sz al.

Definition all_free (B : blocks) (fl : list Z) : Prop :=
  ∀ a, a ∈ fl → ∃ sz, B !! a = Some (sz, false).

(** A heap in memory with its free list. *)
Record linked_heap (s : mm_state) (B : blocks) (fl : list Z) : Prop := {
  lh_sep : sep (mem_start_brk s) (mem_max_addr s) B;
  lh_tags : tags_ok (words s) B;
  lh_free : all_free B fl;
  lh_nodup : NoDup fl;
  lh_ring : ring (words s) fl;
  lh_first : flist_first s = default NULL (head fl);
}.

Section Heap.
Context (s : mm_state) (B : blocks) (fl : list Z) (H : linked_heap s B fl).

Lemma heap_word_ok a sz al off :
  B !! a = Some (sz, al) → 0 ≤ off → off + 8 ≤ sz → off mod 8 = 0 →
  word_ok s (a + off) = true.
Proof.
  intros Ha Hoff Hsz H8. apply word_ok_spec.
  destruct (sep_block _ _ _ (lh_sep _ _ _ H) a sz al Ha) as (? & ? & ? & ? & ? & _).
  split_and!; [|lia..]. Z.to_euclidean_division_equations; lia.
Qed.

Lemma heap_tagged a sz al : B !! a = Some (sz, al) → tagged s a sz al.
Proof.
  intros Ha. destruct (sep_block _ _ _ (lh_sep _ _ _ H) a sz al Ha) as (? & ? & ? & _).
  split_and!; [|apply (lh_tags _ _ _ H a sz al Ha)|done].
  rewrite <-(Z.add_0_r a). apply (heap_word_ok a sz al); done || lia.
Qed.

Lemma heap_end_ok a sz al : B !! a = Some (sz, al) → word_ok s (a + sz - 8) = true.
Proof.
  intros Ha. destruct (sep_block _ _ _ (lh_sep _ _ _ H) a sz al Ha) as (? & ? & ? & _).
  replace (a + sz - 8) with (a + (sz - 8)) by lia.
  apply (heap_word_ok a sz al); [done|lia..|]. Z.to_euclidean_division_equations; lia.
Qed.

Lemma heap_free_at a sz : B !! a = Some (sz, false) → free_at s a.
Proof.
  intros Ha. destruct (sep_block _ _ _ (lh_sep _ _ _ H) a sz false Ha) as (? & ? & ? & _ & _ & Hsz).
  specialize (Hsz eq_refl).
  split; [by exists sz; apply heap_tagged|]. split; apply (heap_word_ok a sz false); done || lia.
Qed.

Lemma heap_apart a sz b szb :
  B !! a = Some (sz, false) → B !! b = Some (szb, false) → apart a b.
Proof.
  intros Ha Hb. unfold apart. destruct (decide (a = b)) as [->|Hne]; [by left|right].
  pose proof (sep_disj _ _ _ (lh_sep _ _ _ H) _ _ _ _ _ _ Ha Hb Hne).
  destruct (sep_block _ _ _ (lh_sep _ _ _ H) _ _ _ Ha) as (_ & _ & _ & _ & _ & Hsa).
  destruct (sep_block _ _ _ (lh_sep _ _ _ H) _ _ _ Hb) as (_ & _ & _ & _ & _ & Hsb).
  specialize (Hsa eq_refl). specialize (Hsb eq_refl). lia.
Qed.

Lemma heap_spread l : all_free B l → spread l.
Proof.
  intros Hl x y Hx Hy. destruct (Hl x Hx) as [szx Hbx]. destruct (Hl y Hy) as [szy Hby].
  by eapply heap_apart.
Qed.
End Heap.

(** The words that hold the links of some blocks. *)
Definition link_of (l : list Z) (y : Z) : Prop := ∃ z, z ∈ l ∧ (y = z + 8 ∨ y = z + 16).

(** The tags of a heap are not links of its free blocks. *)
Lemma tag_not_link lo hi B l a sz al :
  sep lo hi B → all_free B l → B !! a = Some (sz, al) →
  ¬ link_of l a ∧ ¬ link_of l (a + sz - 8).
Proof.
  intros Hs Hl Ha.
  assert (∀ y, link_of l y → y ≠ a ∧ y ≠ a + sz - 8) as Hne.
  { intros y (z & Hz & Hy). destruct (Hl z Hz) as [szz Hbz].
    destruct (sep_block _ _ _ Hs a sz al Ha) as (? & ? & ? & ? & ? & Hsa).
    destruct (sep_block _ _ _ Hs z szz false Hbz) as (? & ? & ? & ? & ? & Hsz).
    specialize (Hsz eq_refl). destruct (decide (z = a)) as [->|Hza].
    - assert (szz = sz) as -> by congruence. lia.
    - pose proof (sep_disj _ _ _ Hs _ _ _ _ _ _ Hbz Ha Hza). lia. }
  split; intros Hlink; by apply Hne in Hlink as [??].
Qed.

(** Memory that changes only in links keeps the tags. *)
Lemma tags_ok_links lo hi w w' B l :
  sep lo hi B → all_free B l → (∀ y, ¬ link_of l y → word w' y = word w y) →
  tags_ok w B → tags_ok w' B.
Proof.
  intros Hs Hl Hw Ht a sz al Ha. destruct (tag_not_link _ _ _ _ _ _ _ Hs Hl Ha) as [H1 H2].
  rewrite !Hw by done. by apply Ht.
Qed.

Lemma all_free_app B l1 l2 : all_free B (l1 ++ l2) ↔ all_free B l1 ∧ all_free B l2.
Proof. unfold all_free. setoid_rewrite elem_of_app. naive_solver. Qed.

Lemma unlinked_frame w prev next l y :
  prev ∈ l → next ∈ l → ¬ link_of l y → word (unlinked w prev next) y = word w y.
Proof.
  intros Hp Hn Hy. unfold unlinked. rewrite !word_insert_ne; [done|..]; intros <-; apply Hy.
  - exists prev. auto.
  - exists next. auto.
Qed.

Lemma linked_frame w fb last first l y :
  fb ∈ l → last ∈ l → first ∈ l → ¬ link_of l y → word (linked w fb last first) y = word w y.
Proof.
  intros Hf Hl Hn Hy. unfold linked. rewrite !word_insert_ne; [done|..]; intros <-; apply Hy;
    [exists fb|exists fb|exists last|exists first]; auto.
Qed.

(** ** The free-list operations on a heap *)

(** The words changed are links of free blocks, so that the payload of every
    allocated block stays: [keeps s s' B]. *)
Definition keeps (s s' : mm_state) (B : blocks) : Prop :=
  ∀ b sz y, B !! b = Some (sz, true) → b + 8 ≤ y < b + sz - 8 →
    word (words s') y = word (words s) y.

(** Only memory and the head of the list differ. *)
Definition same_frame (s s' : mm_state) : Prop :=
  mem_start_brk s' = mem_start_brk s ∧ mem_brk s' = mem_brk s ∧
  mem_max_addr s' = mem_max_addr s ∧ prologue s' = prologue s ∧ epilogue s' = epilogue s.

Lemma keeps_links lo hi (s s' : mm_state) B l :
  sep lo hi B → all_free B l →
  (∀ y, ¬ link_of l y → word (words s') y = word (words s) y) → keeps s s' B.
Proof.
  intros Hs Hl Hw b sz y Hb Hy. apply Hw. intros (z & Hz & Hyz).
  destruct (Hl z Hz) as [szz Hbz].
  pose proof (sep_block _ _ _ Hs _ _ _ Hbz) as (_ & _ & _ & _ & _ & Hszz).
  specialize (Hszz eq_refl).
  assert (z ≠ b) as Hne by (intros ->; congruence).
  pose proof (sep_disj _ _ _ Hs _ _ _ _ _ _ Hbz Hb Hne). lia.
Qed.

(** A state that differs in links and in the head only. *)
Lemma linked_heap_links s s' B l fl fl' :
  linked_heap s B fl → all_free B l →
  (∀ y, ¬ link_of l y → word (words s') y = word (words s) y) → same_frame s s' →
  all_free B fl' → NoDup fl' → ring (words s') fl' → flist_first s' = default NULL (head fl') →
  linked_heap s' B fl'.
Proof.
  intros H Hl Hw (Hlo & _ & Hhi & _) Hfl' Hnd Hr Hfirst. split; try done.
  - rewrite Hlo, Hhi. apply H.
  - eapply tags_ok_links; [apply H|apply Hl|done|apply H].
Qed.

(** The neighbours of an element of the free list. *)
Lemma split_last (n : Z) l : ∃ l' p, n :: l = l' ++ [p].
Proof.
  destruct (exists_last (l := n :: l)) as (l' & p & Heq); [done|]. by exists l', p.
Qed.

(** Taking the only block off the list. *)
Lemma linked_heap_pull_only s B x :
  linked_heap s B [x] →
  ∃ s', pull_free_block x s = Ok (tt, s') ∧ linked_heap s' B [] ∧ keeps s s' B ∧ same_frame s s'.
Proof.
  intros H. pose proof (lh_free _ _ _ H) as Hfree. pose proof (lh_first _ _ _ H) as Hfirst.
  assert (free_at s x) as Hat.
  { destruct (Hfree x) as [sz Hx]; [set_solver|]. by eapply heap_free_at. }
  destruct (lh_ring _ _ _ H x x) as [Hfx Hbx]; [set_solver|].
  eexists. split; [apply (pull_free_block_Ok s x x x); first [done|by left]|].
  assert (∀ y, ¬ link_of [x] y → word (unlinked (words s) x x) y = word (words s) y) as Hw.
  { intros y. apply unlinked_frame; set_solver. }
  split_and!; [|eapply keeps_links; [apply H|apply Hfree|done]|done].
  eapply (linked_heap_links s _ B [x] [x]); try done.
  - by intros ? ?%not_elem_of_nil.
  - constructor.
  - by intros ? ? ?%not_elem_of_nil.
  - simpl. by rewrite Hfirst, !Z.eqb_refl.
Qed.

Lemma linked_heap_pull s B l1 x l2 :
  linked_heap s B (l1 ++ x :: l2) →
  ∃ s', pull_free_block x s = Ok (tt, s') ∧ linked_heap s' B (l1 ++ l2) ∧
        keeps s s' B ∧ same_frame s s'.
Proof.
  intros H. pose proof (lh_free _ _ _ H) as Hfree. pose proof (lh_ring _ _ _ H) as Hring.
  pose proof (lh_nodup _ _ _ H) as Hnd. apply (ring_rot _ l1) in Hring. simpl in Hring.
  assert (∀ a, a ∈ l1 ++ x :: l2 → free_at s a) as Hat.
  { intros a [sz Ha]%Hfree. by eapply heap_free_at. }
  assert (all_free B (l2 ++ l1)) as Hfree'.
  { intros a Ha. apply Hfree. set_solver. }
  assert (NoDup (l2 ++ l1)) as Hnd'.
  { rewrite <-Permutation_middle in Hnd. apply NoDup_cons in Hnd as [_ Hnd].
    by rewrite Permutation_app_comm. }
  assert (x ∉ l1) as Hx1.
  { rewrite <-Permutation_middle in Hnd. apply NoDup_cons in Hnd as [Hnd _]. set_solver. }
  pose proof (lh_first _ _ _ H) as Hfirst.
  destruct (l2 ++ l1) as [|n l] eqn:Hrest.
  - apply app_eq_nil in Hrest as [-> ->]. by apply linked_heap_pull_only.
  - destruct (split_last n l) as (l' & p & Heq).
    unfold ring in Hring. rewrite (pairs_cons x n l l' p Heq) in Hring.
    destruct (Hring x n) as [Hfx _]; [set_solver|].
    destruct (Hring p x) as [_ Hbx]; [set_solver|].
    assert (n ∈ l2 ++ l1 ∧ p ∈ l2 ++ l1) as [Hn Hp].
    { rewrite Hrest. split; [set_solver|]. rewrite Heq. set_solver. }
    pose proof (heap_spread s B _ H (n :: l) Hfree') as Hsp.
    eexists. split; [apply (pull_free_block_Ok s x p n); first [done|apply Hat; set_solver|idtac]|].
    { apply Hsp; rewrite <-Hrest; done. }
    assert (∀ y, ¬ link_of (n :: l) y → word (unlinked (words s) p n) y = word (words s) y) as Hw.
    { intros y. apply unlinked_frame; rewrite <-Hrest; done. }
    split_and!; [|eapply keeps_links; [apply H|apply Hfree'|done]|done].
    eapply (linked_heap_links s _ B (n :: l)); try done.
    + intros a Ha. apply Hfree. set_solver.
    + by rewrite Permutation_app_comm, Hrest.
    + simpl. apply ring_rot. rewrite Hrest. apply (ring_pull n l l' p Heq Hnd' Hsp _ x).
      unfold ring. by rewrite (pairs_cons x n l l' p Heq).
    + simpl. rewrite Hfirst. destruct l1 as [|y l1]; simpl.
      * rewrite app_nil_r in Hrest. subst l2. rewrite Z.eqb_refl. simpl.
        rewrite (proj2 (Z.eqb_neq _ _)); [done|]. intros ->.
        apply NoDup_cons in Hnd as [Hnd _]. set_solver.
      * rewrite (proj2 (Z.eqb_neq _ _)); [done|]. set_solver.
Qed.

Lemma linked_heap_insert s B fl x sz :
  linked_heap s B fl → B !! x = Some (sz, false) → x ∉ fl →
  ∃ s', insert_free_block x s = Ok (tt, s') ∧ linked_heap s' B (x :: fl) ∧
        keeps s s' B ∧ same_frame s s'.
Proof.
  intros H Hx Hnx. pose proof (lh_first _ _ _ H) as Hfirst.
  assert (all_free B (x :: fl)) as Hfree.
  { intros a [->|Ha]%elem_of_cons; [by exists sz|by apply (lh_free _ _ _ H)]. }
  assert (∀ a, a ∈ x :: fl → free_at s a) as Hat.
  { intros a [sza Ha]%Hfree. by eapply heap_free_at. }
  assert (NoDup (x :: fl)) as Hnd by (constructor; [done|apply H]).
  pose proof (heap_spread s B fl H (x :: fl) Hfree) as Hsp.
  destruct fl as [|n l].
  - eexists. split; [apply (insert_free_block_nil s x); [apply Hat; set_solver|done]|].
    assert (∀ y, ¬ link_of [x] y →
      word (<[x + 16 := x]> (<[x + 8 := x]> (words s))) y = word (words s) y) as Hw.
    { intros y Hy. rewrite !word_insert_ne; [done|..]; intros <-; apply Hy; exists x; set_solver. }
    split_and!; [|eapply keeps_links; [apply H|apply Hfree|done]|done].
    eapply (linked_heap_links s _ B [x] []); try done.
    intros a b [= -> ->]%list_elem_of_singleton. simpl.
    by rewrite word_insert_ne, !word_insert_eq by lia.
  - destruct (split_last n l) as (l' & p & Heq).
    assert (p ∈ n :: l) as Hp by (rewrite Heq; set_solver).
    pose proof (lh_ring _ _ _ H) as Hring.
    destruct (Hring p n) as [_ Hbn]; [rewrite (pairs_snoc n l l' p Heq); set_solver|].
    assert (n ≠ NULL) as Hn0.
    { destruct (lh_free _ _ _ H n) as [szn Hn]; [set_solver|].
      pose proof (sep_block _ _ _ (lh_sep _ _ _ H) _ _ _ Hn) as (_ & _ & _ & ? & _).
      pose proof (sep_lo _ _ _ (lh_sep _ _ _ H)). unfold NULL. lia. }
    eexists. split.
    { apply (insert_free_block_cons s x p n); first [done|apply Hat; set_solver|apply Hsp; set_solver|set_solver]. }
    assert (∀ y, ¬ link_of (x :: n :: l) y → word (linked (words s) x p n) y = word (words s) y) as Hw.
    { intros y. apply linked_frame; set_solver. }
    split_and!; [|eapply keeps_links; [apply H|apply Hfree|done]|done].
    eapply (linked_heap_links s _ B (x :: n :: l) (n :: l)); try done.
    apply (ring_insert n l l' p Heq); try done; [by apply NoDup_cons in Hnd as [_ ?]|..].
    + intros a b Ha Hb. apply Hsp; set_solver.
    + intros y Hy. apply Hsp; set_solver.
Qed.

(** ** Rewriting the tags of a block

    The heap [B] becomes [B'], whose block at [a] is new or resized and whose
    other blocks are blocks of [B]. *)
Section Retag.
Context (s : mm_state) (B B' : blocks) (fl : list Z) (a sz : Z) (al : bool).
Context (H : linked_heap s B fl).
Context (Hsep : sep (mem_start_brk s) (mem_max_addr s) B').
Context (Ha : B' !! a = Some (sz, al)).
Context (Hother : ∀ b x, b ≠ a → B' !! b = Some x → B !! b = Some x).
Context (Hfl : all_free B' fl).

Let s' := set_words (with_tags a sz (words s) al) s.

Lemma word_retag y : y ≠ a → y ≠ a + sz - 8 → word (words s') y = word (words s) y.
Proof. intros. simpl. unfold with_tags. by rewrite !word_insert_ne by done. Qed.

Lemma linked_heap_retag : linked_heap s' B' fl.
Proof.
  pose proof (sep_block _ _ _ Hsep _ _ _ Ha) as (_ & _ & Hsz & _).
  split; [done| |done|apply H| |apply H].
  - intros b szb alb Hb. destruct (decide (b = a)) as [->|Hne].
    + simplify_eq. simpl. unfold with_tags. by rewrite word_insert_ne, !word_insert_eq by lia.
    + pose proof (sep_disj _ _ _ Hsep _ _ _ _ _ _ Hb Ha Hne).
      pose proof (sep_block _ _ _ Hsep _ _ _ Hb) as (_ & _ & ? & _).
      rewrite !word_retag by lia. by apply (lh_tags _ _ _ H), Hother.
  - eapply ring_frame; [|apply H]. intros z Hz.
    destruct (tag_not_link _ _ _ _ _ _ _ Hsep Hfl Ha) as [H1 H2].
    rewrite !word_retag; [done|..]; intros Heq;
      first [apply H1; exists z; split; [done|lia]|apply H2; exists z; split; [done|lia]].
Qed.

Lemma keeps_retag : keeps s s' B'.
Proof.
  intros b szb y Hb Hy.
  pose proof (sep_block _ _ _ Hsep _ _ _ Ha) as (_ & _ & Hsz & _).
  destruct (decide (b = a)) as [->|Hne].
  { assert (szb = sz) as -> by congruence. apply word_retag; lia. }
  pose proof (sep_disj _ _ _ Hsep _ _ _ _ _ _ Hb Ha Hne). apply word_retag; lia.
Qed.

Lemma retag_words_ok : word_ok s a = true ∧ word_ok s (a + sz - 8) = true.
Proof.
  pose proof (sep_block _ _ _ Hsep _ _ _ Ha) as (? & ? & ? & ? & ? & _).
  split; apply word_ok_spec; split_and!; try lia. Z.to_euclidean_division_equations; lia.
Qed.

(** [block_set_size_and_allocated] on a heap *)
Lemma linked_heap_set_both :
  block_set_size_and_allocated a sz (Z.b2z al) s = Ok (tt, s') ∧
  linked_heap s' B' fl ∧ keeps s s' B'.
Proof.
  pose proof (sep_block _ _ _ Hsep _ _ _ Ha) as (? & ? & ? & _).
  destruct retag_words_ok. split_and!; [|apply linked_heap_retag|apply keeps_retag].
  by apply block_set_size_and_allocated_Ok.
Qed.

(** [block_set_size] on a heap: the flag stays *)
Lemma linked_heap_set_size sz0 :
  B !! a = Some (sz0, al) →
  block_set_size a sz s = Ok (tt, s') ∧ linked_heap s' B' fl ∧ keeps s s' B'.
Proof.
  intros Ha0. pose proof (sep_block _ _ _ Hsep _ _ _ Ha) as (? & ? & ? & _).
  pose proof (sep_block _ _ _ (lh_sep _ _ _ H) _ _ _ Ha0) as (_ & ? & _).
  destruct retag_words_ok. split_and!; [|apply linked_heap_retag|apply keeps_retag].
  apply block_set_size_Ok; try done. rewrite (proj1 (lh_tags _ _ _ H _ _ _ Ha0)).
  by apply tag_land_1.
Qed.

(** [block_set_allocated] on a heap: the size stays *)
Lemma linked_heap_set_allocated al0 :
  B !! a = Some (sz, al0) →
  block_set_allocated a (Z.b2z al) s = Ok (tt, s') ∧ linked_heap s' B' fl ∧ keeps s s' B'.
Proof.
  intros Ha0. pose proof (sep_block _ _ _ Hsep _ _ _ Ha) as (? & ? & ? & _).
  destruct retag_words_ok. split_and!; [|apply linked_heap_retag|apply keeps_retag].
  apply (block_set_allocated_Ok s a sz) with (al := al0); try done; [by eapply heap_tagged|].
  by apply (lh_tags _ _ _ H).
Qed.
End Retag.

Lemma linked_heap_frame s s' B fl :
  linked_heap s B fl → words s' = words s → mem_start_brk s' = mem_start_brk s →
  mem_max_addr s' = mem_max_addr s → flist_first s' = flist_first s → linked_heap s' B fl.
Proof. intros [] Hw Hlo Hhi Hf. split; rewrite ?Hw, ?Hlo, ?Hhi, ?Hf; done. Qed.
