(* ===== verification/MmLayout.v ===== *)
(** * The blocks of the heap in address order.

    The heap is a row of adjacent blocks from the prologue to the epilogue.
    [layout] turns such a row into the map of [MmHeap]; the lemmas here say how
    splitting, merging and retagging a block of the row changes that map.  The
    invariant of the allocator, [heap_ok], is stated on rows. *)

From Stdlib Require Import ZArith Lia.
From stdpp Require Import base gmap numbers option list.
From S2P Require Import Prelude Memlib MmInline MmHeap.

Open Scope Z_scope.

(** A block of a row: size and allocation flag. *)
Abbreviation row := (list (Z * bool)).

Fixpoint total (L : row) : Z :=
  match L with [] => 0 | b :: L' => fst b + total L' end.

(** The blocks of a row that starts at [a]. *)
Fixpoint layout (a : Z) (L : row) : blocks :=
  match L with
  | [] => ∅
  | b :: L' => <[a := b]> (layout (a + fst b) L')
  end.

Definition block_ok (b : Z * bool) : Prop :=
  fst b mod 8 = 0 ∧ 16 ≤ fst b ∧ (snd b = false → 32 ≤ fst b).

Lemma total_app L1 L2 : total (L1 ++ L2) = total L1 + total L2.
Proof. induction L1; simpl; lia. Qed.

Lemma total_nonneg L : Forall block_ok L → 0 ≤ total L.
Proof. induction 1 as [|b L (_ & ? & _) _ IH]; simpl; lia. Qed.

Lemma total_mod8 L : Forall block_ok L → total L mod 8 = 0.
Proof.
  induction 1 as [|b L (? & _ & _) _ IH]; simpl; [done|].
  Z.to_euclidean_division_equations; lia.
Qed.

Lemma layout_Some a L x b :
  Forall block_ok L → layout a L !! x = Some b →
  ∃ L1 L2, L = L1 ++ b :: L2 ∧ x = a + total L1.
Proof.
  intros HL. revert a. induction HL as [|c L _ _ IH]; intros a; simpl; [set_solver|].
  rewrite lookup_insert. case_decide as Hax.
  - intros [= ->]. exists [], L. split; [done|simpl; lia].
  - intros (L1 & L2 & -> & ->)%IH. exists (c :: L1), L2. split; [done|simpl; lia].
Qed.

(** The addresses of a row are between its ends. *)
Lemma layout_bounds a L x b :
  Forall block_ok L → layout a L !! x = Some b → a ≤ x ∧ x + fst b ≤ a + total L ∧ 16 ≤ fst b.
Proof.
  intros HL (L1 & L2 & -> & ->)%layout_Some; [|done].
  apply Forall_app in HL as [H1 [(_ & Hb & _) H2]%Forall_cons].
  apply total_nonneg in H1, H2. rewrite total_app. simpl. lia.
Qed.

Lemma layout_app_lookup a L1 L2 x :
  Forall block_ok L1 → Forall block_ok L2 →
  layout a (L1 ++ L2) !! x =
    if decide (x < a + total L1) then layout a L1 !! x else layout (a + total L1) L2 !! x.
Proof.
  intros H1 H2. revert a. induction H1 as [|b L1 Hb HL1 IH]; intros a; simpl.
  - rewrite Z.add_0_r. case_decide; [|done].
    destruct (layout a L2 !! x) as [c|] eqn:Hc; [|done].
    apply layout_bounds in Hc; [lia|done].
  - rewrite !lookup_insert, IH. replace (a + fst b + total L1) with (a + (fst b + total L1)) by lia.
    apply total_nonneg in HL1. destruct Hb as (_ & ? & _).
    repeat case_decide; try done; lia.
Qed.

Lemma layout_mid a L1 b L2 :
  Forall block_ok (L1 ++ b :: L2) → layout a (L1 ++ b :: L2) !! (a + total L1) = Some b.
Proof.
  intros [H1 H2]%Forall_app. rewrite layout_app_lookup, decide_False by (done || lia).
  simpl. by rewrite lookup_insert_eq.
Qed.

(** A row inside the arena is a heap of separate blocks. *)
Lemma sep_layout lo hi L :
  0 < lo → lo mod 8 = 0 → lo + total L ≤ hi → Forall block_ok L → sep lo hi (layout lo L).
Proof.
  intros Hlo Hlo8 Hhi HL. split; [done|..].
  - intros a sz al Ha. pose proof (layout_bounds _ _ _ _ HL Ha) as (? & ? & ?).
    apply layout_Some in Ha as (L1 & L2 & -> & ->); [|done].
    apply Forall_app in HL as [HL1 [(? & ? & ?) _]%Forall_cons]. apply total_mod8 in HL1.
    simpl in *. split_and!; try done; try lia. Z.to_euclidean_division_equations; lia.
  - intros a sz al b szb alb Ha Hb Hne.
    apply layout_Some in Ha as (L1 & L2 & -> & ->); [|done].
    apply Forall_app in HL as [H1 [Hc H2]%Forall_cons].
    rewrite layout_app_lookup in Hb by (done || by constructor).
    case_decide; [apply layout_bounds in Hb; [simpl in *; lia|done]|].
    simpl in Hb. rewrite lookup_insert_ne in Hb by done.
    apply layout_bounds in Hb; [simpl in *; lia|done].
Qed.

(** ** The free blocks of a row *)

(** No two neighbours are free. *)
Fixpoint no_adj (L : row) : Prop :=
  match L with
  | [] => True
  | b :: L' => (snd b = false → ∀ c, head L' = Some c → snd c = true) ∧ no_adj L'
  end.

Lemma no_adj_app L1 b L2 : no_adj (L1 ++ b :: L2) ↔ no_adj (L1 ++ [b]) ∧ no_adj (b :: L2).
Proof.
  induction L1 as [|c L1 IH]; [simpl; naive_solver|].
  change (no_adj ((c :: L1) ++ b :: L2)) with
    ((snd c = false → ∀ d, head (L1 ++ b :: L2) = Some d → snd d = true) ∧ no_adj (L1 ++ b :: L2)).
  change (no_adj ((c :: L1) ++ [b])) with
    ((snd c = false → ∀ d, head (L1 ++ [b]) = Some d → snd d = true) ∧ no_adj (L1 ++ [b])).
  rewrite IH. assert (head (L1 ++ b :: L2) = head (L1 ++ [b])) as -> by (by destruct L1). tauto.
Qed.

(** An allocated block separates the two sides. *)
Lemma no_adj_snoc_true L sz : no_adj (L ++ [(sz, true)]) ↔ no_adj L.
Proof.
  induction L as [|c L IH]; [simpl; naive_solver|].
  change (no_adj ((c :: L) ++ [(sz, true)])) with
    ((snd c = false → ∀ d, head (L ++ [(sz, true)]) = Some d → snd d = true) ∧
     no_adj (L ++ [(sz, true)])).
  rewrite IH. destruct L; simpl; naive_solver.
Qed.

Lemma no_adj_true L1 sz L2 : no_adj (L1 ++ (sz, true) :: L2) ↔ no_adj L1 ∧ no_adj L2.
Proof. rewrite no_adj_app, no_adj_snoc_true. simpl. intuition discriminate. Qed.

Lemma no_adj_size L1 s1 s2 al L2 :
  no_adj (L1 ++ (s1, al) :: L2) → no_adj (L1 ++ (s2, al) :: L2).
Proof.
  rewrite (no_adj_app L1 (s1, al)), (no_adj_app L1 (s2, al)). intros [H1 H2]. split; [|done]. clear H2.
  induction L1 as [|c L1 IH]; [done|]. destruct H1 as [Hc H1]. split; [|by apply IH].
  intros Hf d Hd. specialize (Hc Hf). destruct L1 as [|e L1]; simpl in *; [|by apply Hc].
  simplify_eq. by apply (Hc (s1, al)).
Qed.

(** ** Replacing a run of blocks by one block *)
Section Merge.
Context (s : mm_state) (L1 M L2 : row) (sz : Z) (al : bool) (fl : list Z).
Let lo := mem_start_brk s.
Let a := lo + total L1.
Context (Hlo8 : lo mod 8 = 0).
Context (HL : Forall block_ok (L1 ++ M ++ L2)) (Hb : block_ok (sz, al)).
Context (Hsz : sz = total M).
Context (Hhi : lo + total (L1 ++ M ++ L2) ≤ mem_max_addr s).
Context (H : linked_heap s (layout lo (L1 ++ M ++ L2)) fl).
Context (Hfl : ∀ z, z ∈ fl → z < a ∨ a + sz ≤ z ∨ (z = a ∧ al = false)).

Let L' := L1 ++ (sz, al) :: L2.

Lemma merge_ok : Forall block_ok L'.
Proof. unfold L'. rewrite !Forall_app in *. rewrite Forall_cons. tauto. Qed.

Lemma merge_total : total L' = total (L1 ++ M ++ L2).
Proof. unfold L'. rewrite !total_app. simpl. lia. Qed.

Lemma merge_sep : sep (mem_start_brk s) (mem_max_addr s) (layout lo L').
Proof.
  apply sep_layout; [apply (lh_sep _ _ _ H)|done|by rewrite merge_total|apply merge_ok].
Qed.

Lemma merge_here : layout lo L' !! a = Some (sz, al).
Proof. apply layout_mid, merge_ok. Qed.

Lemma merge_outside x :
  x < a ∨ a + sz ≤ x → layout lo L' !! x = layout lo (L1 ++ M ++ L2) !! x.
Proof.
  intros Hx. pose proof HL as [H1 [HM H2]%Forall_app]%Forall_app. unfold L'.
  assert (0 ≤ total M) by (by apply total_nonneg).
  rewrite !(layout_app_lookup _ L1) by (rewrite ?Forall_app, ?Forall_cons; done).
  destruct (decide _) as [|Hge]; [done|]. fold a in Hge |- *. rewrite layout_app_lookup by done.
  rewrite decide_False by lia. destruct Hb as (_ & ? & _). simpl in *.
  rewrite lookup_insert_ne by lia. by rewrite Hsz.
Qed.

Lemma merge_other b x :
  b ≠ a → layout lo L' !! b = Some x → layout lo (L1 ++ M ++ L2) !! b = Some x.
Proof.
  intros Hne Hx. rewrite <-merge_outside; [done|]. destruct x as [szb alb].
  pose proof (sep_disj _ _ _ merge_sep _ _ _ _ _ _ Hx merge_here Hne).
  pose proof (sep_block _ _ _ merge_sep _ _ _ Hx) as (_ & _ & ? & _). lia.
Qed.

Lemma merge_free : all_free (layout lo L') fl.
Proof.
  intros z Hz. pose proof (lh_free _ _ _ H z Hz) as Hfree.
  destruct (Hfl z Hz) as [?|[?|[Hza Hal]]].
  - rewrite merge_outside by auto. done.
  - rewrite merge_outside by auto. done.
  - exists sz. rewrite Hza, <-Hal. apply merge_here.
Qed.
End Merge.

(** ** The free list of a row *)

(** The addresses of the free blocks of a row, in order. *)
Fixpoint free_addrs (a : Z) (L : row) : list Z :=
  match L with
  | [] => []
  | b :: L' => (if snd b then [] else [a]) ++ free_addrs (a + fst b) L'
  end.

Lemma free_addrs_app a L1 L2 :
  free_addrs a (L1 ++ L2) = free_addrs a L1 ++ free_addrs (a + total L1) L2.
Proof.
  revert a. induction L1 as [|b L1 IH]; intros a; simpl; [by rewrite Z.add_0_r|].
  by rewrite IH, <-app_assoc, Z.add_assoc.
Qed.

Lemma free_addrs_bounds a L z : Forall block_ok L → z ∈ free_addrs a L → a ≤ z < a + total L.
Proof.
  intros HL. revert a. induction HL as [|b L (_ & ? & _) HL IH]; intros a; simpl; [set_solver|].
  apply total_nonneg in HL. intros [Hz|Hz%IH]%elem_of_app; [|lia].
  destruct (snd b); [set_solver|]. apply list_elem_of_singleton in Hz. lia.
Qed.

Lemma free_addrs_lookup a L z :
  Forall block_ok L → z ∈ free_addrs a L ↔ ∃ sz, layout a L !! z = Some (sz, false).
Proof.
  intros HL. revert a. induction HL as [|[sz al] L (_ & Hsz & _) HL IH]; intros a; simpl.
  { split; [by intros ?%not_elem_of_nil|]. intros [? ?]. done. }
  rewrite elem_of_app, IH. split.
  - intros [Hz|[szz Hz]].
    + destruct al; [by apply not_elem_of_nil in Hz|]. apply list_elem_of_singleton in Hz as ->.
      exists sz. by rewrite lookup_insert_eq.
    + exists szz. rewrite lookup_insert_ne; [done|]. apply layout_bounds in Hz; [simpl in *; lia|done].
  - intros [szz Hz]. rewrite lookup_insert in Hz. case_decide; [|by eauto].
    simplify_eq. left. set_solver.
Qed.

(** A row in memory with a list of free blocks. *)
Record row_heap (s : mm_state) (L : row) (fl : list Z) : Prop := {
  rh_blocks : Forall block_ok L;
  rh_lo8 : mem_start_brk s mod 8 = 0;
  rh_hi : mem_start_brk s + total L ≤ mem_max_addr s;
  rh_heap : linked_heap s (layout (mem_start_brk s) L) fl;
}.

(** The list holds all the free blocks. *)
Definition row_ok (s : mm_state) (L : row) (fl : list Z) : Prop :=
  row_heap s L fl ∧ fl ≡ₚ free_addrs (mem_start_brk s) L.

(** What is allocated: block address to block size. *)
Definition live (B : blocks) : gmap Z Z :=
  omap (λ b : Z * bool, if snd b then Some (fst b) else None) B.

Lemma live_lookup B a sz : live B !! a = Some sz ↔ B !! a = Some (sz, true).
Proof.
  unfold live. rewrite lookup_omap. destruct (B !! a) as [[sz' []]|]; simpl; naive_solver.
Qed.

(** The payload words of the blocks [K] are the same. *)
Definition preserves (K : gmap Z Z) (s s' : mm_state) : Prop :=
  ∀ b sz y, K !! b = Some sz → b + 8 ≤ y < b + sz - 8 →
    word (words s') y = word (words s) y.

Lemma preserves_refl K s : preserves K s s.
Proof. done. Qed.

Lemma preserves_trans K s1 s2 s3 : preserves K s1 s2 → preserves K s2 s3 → preserves K s1 s3.
Proof. intros H1 H2 b sz y Hb Hy. rewrite (H2 b sz y Hb Hy). by apply (H1 b sz). Qed.

Lemma preserves_keeps K s s' B : keeps s s' B → K ⊆ live B → preserves K s s'.
Proof.
  intros HB HK b sz y Hb Hy. eapply HB; [|done]. apply live_lookup.
  by eapply lookup_weaken.
Qed.

Lemma same_frame_refl s : same_frame s s.
Proof. done. Qed.

Lemma same_frame_trans s1 s2 s3 : same_frame s1 s2 → same_frame s2 s3 → same_frame s1 s3.
Proof. unfold same_frame. intuition congruence. Qed.

(** Rows with the same allocated blocks. *)
Lemma live_layout_app a L1 L2 x :
  Forall block_ok L1 → Forall block_ok L2 →
  live (layout a (L1 ++ L2)) !! x =
    if decide (x < a + total L1) then live (layout a L1) !! x
    else live (layout (a + total L1) L2) !! x.
Proof.
  intros. unfold live. rewrite !lookup_omap, layout_app_lookup by done. by case_decide.
Qed.

Lemma live_layout_cons a b L :
  live (layout a (b :: L)) =
    if snd b then <[a := fst b]> (live (layout (a + fst b) L))
    else delete a (live (layout (a + fst b) L)).
Proof.
  unfold live. simpl. destruct b as [sz al]. simpl. apply map_eq. intros i.
  rewrite lookup_omap. destruct al; simpl.
  - rewrite !lookup_insert, lookup_omap. by case_decide.
  - rewrite lookup_delete, lookup_insert, lookup_omap. by case_decide.
Qed.

Lemma live_below a L x : Forall block_ok L → x < a → live (layout a L) !! x = None.
Proof.
  intros HL Hx. apply eq_None_not_Some. intros [sz Hsz%live_lookup].
  apply layout_bounds in Hsz; [lia|done].
Qed.

Lemma live_cons_free a sz L :
  block_ok (sz, false) → Forall block_ok L →
  live (layout a ((sz, false) :: L)) = live (layout (a + sz) L).
Proof.
  intros (_ & ? & _) HL. rewrite live_layout_cons. simpl in *.
  apply delete_id, live_below; [done|lia].
Qed.

(** Equal tails and equal totals give equal maps of allocated blocks. *)
Lemma live_app_congr a L1 L2 L3 :
  Forall block_ok L1 → Forall block_ok L2 → Forall block_ok L3 →
  live (layout (a + total L1) L2) = live (layout (a + total L1) L3) →
  live (layout a (L1 ++ L2)) = live (layout a (L1 ++ L3)).
Proof.
  intros H1 H2 H3 Heq. apply map_eq. intros x. rewrite !live_layout_app by done.
  by rewrite Heq.
Qed.

(** Allocating a block of a row. *)
Lemma live_mid_true a L1 sz L2 :
  Forall block_ok L1 → Forall block_ok L2 → block_ok (sz, true) → block_ok (sz, false) →
  live (layout a (L1 ++ (sz, true) :: L2)) =
    <[a + total L1 := sz]> (live (layout a (L1 ++ (sz, false) :: L2))).
Proof.
  intros H1 H2 Ht Hf. apply map_eq. intros x.
  rewrite live_layout_app by (rewrite ?Forall_cons; done).
  rewrite lookup_insert, live_layout_app by (rewrite ?Forall_cons; done).
  rewrite live_cons_free, live_layout_cons by done. simpl. rewrite lookup_insert.
  repeat case_decide; try done; lia.
Qed.

Lemma live_mid_None a L1 sz L2 :
  Forall block_ok (L1 ++ (sz, false) :: L2) →
  live (layout a (L1 ++ (sz, false) :: L2)) !! (a + total L1) = None.
Proof.
  intros HL. apply eq_None_not_Some. intros [szz Hz%live_lookup].
  rewrite layout_mid in Hz by done. done.
Qed.

Lemma live_mid_false a L1 sz L2 :
  Forall block_ok L1 → Forall block_ok L2 → block_ok (sz, true) → block_ok (sz, false) →
  live (layout a (L1 ++ (sz, false) :: L2)) =
    delete (a + total L1) (live (layout a (L1 ++ (sz, true) :: L2))).
Proof.
  intros H1 H2 Ht Hf. rewrite live_mid_true, delete_insert_id; [done|..]; try done.
  apply live_mid_None. rewrite Forall_app, Forall_cons. done.
Qed.
