(* ===== verification/MmProofs.v ===== *)
(** * Correctness of the allocator: [6-malloc-haininz/mm.c].

    The operations of [Mm] on rows of blocks: each runs without a failing
    assertion or a bad access, keeps the invariant [heap_ok], and changes the
    allocated blocks as the interface promises. *)

From Stdlib Require Import ZArith Lia.
From stdpp Require Import base gmap numbers option list.
From S2P Require Import Prelude Memlib MmInline Mm MmHeap MmLayout.

Open Scope Z_scope.

(** ** Steps on rows *)

Section Rows.
Context (s : mm_state) (L1 : row) (sz : Z) (al : bool) (L2 : row) (fl : list Z).
Context (H : row_heap s (L1 ++ (sz, al) :: L2) fl).
Let lo := mem_start_brk s.

Lemma row_split : Forall block_ok L1 ∧ block_ok (sz, al) ∧ Forall block_ok L2.
Proof. pose proof (rh_blocks _ _ _ H) as HL. by rewrite Forall_app, Forall_cons in HL. Qed.

Lemma row_block : layout lo (L1 ++ (sz, al) :: L2) !! (lo + total L1) = Some (sz, al).
Proof. apply layout_mid, H. Qed.

Lemma row_tagged : tagged s (lo + total L1) sz al.
Proof. eapply heap_tagged; [apply H|apply row_block]. Qed.

(** The end tag. *)
Lemma row_end :
  word_ok s (lo + total L1 + sz - 8) = true ∧
  word (words s) (lo + total L1 + sz - 8) = tag sz al.
Proof.
  split; [by eapply heap_end_ok; [apply H|apply row_block]|].
  by apply (lh_tags _ _ _ (rh_heap _ _ _ H)), row_block.
Qed.
End Rows.

Lemma row_heap_frame s s' L fl fl' :
  row_heap s L fl → same_frame s s' → linked_heap s' (layout (mem_start_brk s) L) fl' →
  row_heap s' L fl'.
Proof. intros [H1 H2 H3 H4] (Hlo & _ & Hhi & _) H'. split; by rewrite ?Hlo, ?Hhi. Qed.

(** [pull_free_block] of the block after [L1]. *)
Lemma row_pull s L1 sz L2 fl :
  row_ok s (L1 ++ (sz, false) :: L2) fl →
  let lo := mem_start_brk s in
  ∃ s' fl', pull_free_block (lo + total L1) s = Ok (tt, s') ∧
    row_heap s' (L1 ++ (sz, false) :: L2) fl' ∧ same_frame s s' ∧
    fl' ≡ₚ free_addrs lo L1 ++ free_addrs (lo + total L1 + sz) L2 ∧
    preserves (live (layout lo (L1 ++ (sz, false) :: L2))) s s'.
Proof.
  intros [H Hfl] lo. rewrite free_addrs_app in Hfl. simpl in Hfl. fold lo in Hfl.
  assert (lo + total L1 ∈ fl) as (l1 & l2 & ->)%list_elem_of_split
    by (rewrite Hfl; set_solver).
  destruct (linked_heap_pull s _ l1 _ l2 (rh_heap _ _ _ H)) as (s' & Hrun & Hlh & Hk & Hfr).
  exists s', (l1 ++ l2). split_and!; try done.
  - by eapply row_heap_frame.
  - apply (Permutation_cons_inv (a := lo + total L1)). by rewrite !Permutation_middle.
  - by eapply preserves_keeps.
Qed.

(** [insert_free_block] of the block after [L1], which is free and unlisted. *)
Lemma row_insert s L1 sz L2 fl :
  row_heap s (L1 ++ (sz, false) :: L2) fl →
  let lo := mem_start_brk s in
  fl ≡ₚ free_addrs lo L1 ++ free_addrs (lo + total L1 + sz) L2 →
  ∃ s', insert_free_block (lo + total L1) s = Ok (tt, s') ∧
    row_ok s' (L1 ++ (sz, false) :: L2) (lo + total L1 :: fl) ∧ same_frame s s' ∧
    preserves (live (layout lo (L1 ++ (sz, false) :: L2))) s s'.
Proof.
  intros H lo Hfl. pose proof (row_split _ _ _ _ _ _ H) as (H1 & (_ & Hsz & _) & H2).
  simpl in Hsz.
  assert (lo + total L1 ∉ fl) as Hnx.
  { rewrite Hfl. intros [Hz|Hz]%elem_of_app; apply free_addrs_bounds in Hz; done || lia. }
  destruct (linked_heap_insert s _ fl _ sz (rh_heap _ _ _ H) (row_block _ _ _ _ _ _ H) Hnx)
    as (s' & Hrun & Hlh & Hk & Hfr).
  exists s'. split_and!; try done; [|by eapply preserves_keeps].
  split; [by eapply row_heap_frame|]. destruct Hfr as (-> & _). fold lo.
  rewrite free_addrs_app. simpl. by rewrite <-Permutation_middle, Hfl.
Qed.

(** ** Writing the tags of one block over a run of blocks *)
Section RetagRun.
Context (s : mm_state) (L1 M L2 : row) (al : bool) (fl : list Z).
Let lo := mem_start_brk s.
Let a := lo + total L1.
Let L' := L1 ++ (total M, al) :: L2.
Let s' := set_words (with_tags a (total M) (words s) al) s.
Context (H : row_heap s (L1 ++ M ++ L2) fl) (Hb : block_ok (total M, al)).
Context (Hfl : ∀ z, z ∈ fl → z ∈ free_addrs lo L').

Lemma run_blocks : Forall block_ok L'.
Proof.
  pose proof (rh_blocks _ _ _ H) as HL. unfold L'. rewrite !Forall_app in *.
  rewrite Forall_cons. tauto.
Qed.

Lemma run_sep : sep (mem_start_brk s) (mem_max_addr s) (layout lo L').
Proof. by apply (merge_sep s L1 M L2 _ al fl); try apply H. Qed.

Lemma run_here : layout lo L' !! a = Some (total M, al).
Proof. apply layout_mid, run_blocks. Qed.

Lemma run_other b x :
  b ≠ a → layout lo L' !! b = Some x → layout lo (L1 ++ M ++ L2) !! b = Some x.
Proof. by apply (merge_other s L1 M L2 _ al fl); try apply H. Qed.

Lemma run_free : all_free (layout lo L') fl.
Proof.
  intros z Hz. apply free_addrs_lookup; [apply run_blocks|]. by apply Hfl.
Qed.

Lemma run_row_heap : linked_heap s' (layout lo L') fl → row_heap s' L' fl.
Proof.
  intros Hlh. split; [apply run_blocks|apply H| |done].
  pose proof (rh_hi _ _ _ H) as Hhi. unfold L'. simpl. rewrite !total_app in *. simpl. lia.
Qed.

Lemma row_set_both :
  block_set_size_and_allocated a (total M) (Z.b2z al) s = Ok (tt, s') ∧
  row_heap s' L' fl ∧ keeps s s' (layout lo L').
Proof.
  destruct (linked_heap_set_both s _ _ fl a (total M) al
    (rh_heap _ _ _ H) run_sep run_here run_other run_free) as (Hrun & Hlh & Hk).
  split_and!; [done|by apply run_row_heap|done].
Qed.

Lemma row_set_size s1 M' :
  M = (s1, al) :: M' →
  block_set_size a (total M) s = Ok (tt, s') ∧
  row_heap s' L' fl ∧ keeps s s' (layout lo L').
Proof.
  intros HM.
  destruct (linked_heap_set_size s _ _ fl a (total M) al
    (rh_heap _ _ _ H) run_sep run_here run_other run_free s1) as (Hrun & Hlh & Hk).
  { pose proof (rh_blocks _ _ _ H) as HL. rewrite HM in HL |- *. by apply layout_mid. }
  split_and!; [done|by apply run_row_heap|done].
Qed.

Lemma row_set_allocated al0 :
  M = [(total M, al0)] →
  block_set_allocated a (Z.b2z al) s = Ok (tt, s') ∧
  row_heap s' L' fl ∧ keeps s s' (layout lo L').
Proof.
  intros HM.
  destruct (linked_heap_set_allocated s _ _ fl a (total M) al
    (rh_heap _ _ _ H) run_sep run_here run_other run_free al0) as (Hrun & Hlh & Hk).
  { pose proof (rh_blocks _ _ _ H) as HL. rewrite HM in HL |- *. simpl. rewrite Z.add_0_r.
    by apply layout_mid. }
  split_and!; [done|by apply run_row_heap|done].
Qed.
End RetagRun.

(** A change of the row that leaves the allocated blocks and their payloads. *)
Record quiet (s s' : mm_state) (L L' : row) : Prop := {
  q_frame : same_frame s s';
  q_total : total L' = total L;
  q_live : live (layout (mem_start_brk s) L') = live (layout (mem_start_brk s) L);
  q_keep : preserves (live (layout (mem_start_brk s) L)) s s';
}.

Lemma quiet_refl s L : quiet s s L L.
Proof. done. Qed.

Lemma quiet_trans s1 s2 s3 L1 L2 L3 : quiet s1 s2 L1 L2 → quiet s2 s3 L2 L3 → quiet s1 s3 L1 L3.
Proof.
  intros [F1 T1 V1 K1] [F2 T2 V2 K2]. pose proof F1 as (Hlo & _). rewrite Hlo in V2, K2.
  split; [by eapply same_frame_trans|lia|congruence|].
  eapply preserves_trans; [done|]. by rewrite <-V1.
Qed.

(** ** Merging two free neighbours

    The sequence of [coalesce]: pull the second block, then add its size to the
    first. *)
Lemma fuse s L1 s1 s2 L2 fl :
  row_ok s (L1 ++ (s1, false) :: (s2, false) :: L2) fl →
  let a := mem_start_brk s + total L1 in
  ∃ s' fl',
    (pull_free_block (a + s1);; v1 ← block_size a; v2 ← block_size (a + s1);
     block_set_size a (v1 + v2)) s = Ok (tt, s') ∧
    row_ok s' (L1 ++ (s1 + s2, false) :: L2) fl' ∧
    quiet s s' (L1 ++ (s1, false) :: (s2, false) :: L2) (L1 ++ (s1 + s2, false) :: L2).
Proof.
  intros H a. set (L := L1 ++ (s1, false) :: (s2, false) :: L2) in *.
  assert (L = (L1 ++ [(s1, false)]) ++ (s2, false) :: L2) as HL by (by rewrite <-app_assoc).
  destruct (row_pull s (L1 ++ [(s1, false)]) s2 L2 fl) as (sp & fl' & Hpull & Hrow & Hfr & Hperm & Hk);
    [by rewrite <-HL|]. rewrite <-HL in Hrow, Hk.
  rewrite free_addrs_app, !total_app, <-app_assoc in Hperm. rewrite total_app in Hpull.
  simpl in Hpull, Hperm. rewrite Z.add_0_r, Z.add_assoc in Hpull, Hperm.
  fold a in Hpull, Hperm |- *. pose proof Hfr as (Hlo & _).
  destruct (row_split _ _ _ _ _ _ Hrow) as (H1 & Hb1 & [Hb2 H2]%Forall_cons).
  assert (block_ok (s1 + s2, false)) as Hb.
  { destruct Hb1 as (? & ? & Hb1), Hb2 as (? & ? & _). specialize (Hb1 eq_refl). simpl in *.
    split; simpl; [Z.to_euclidean_division_equations; lia|lia]. }
  run Hpull.
  pose proof (row_tagged sp L1 _ _ _ _ Hrow) as Hta. rewrite Hlo in Hta. fold a in Hta.
  run (block_size_tagged _ _ _ _ Hta).
  pose proof Hrow as Hrow'. rewrite HL in Hrow'.
  pose proof (row_tagged sp _ _ _ _ _ Hrow') as Hty.
  rewrite Hlo, total_app in Hty. simpl in Hty. rewrite Z.add_0_r, Z.add_assoc in Hty. fold a in Hty.
  run (block_size_tagged _ _ _ _ Hty).
  destruct (row_set_size sp L1 [(s1, false); (s2, false)] L2 false fl' Hrow) with
    (s1 := s1) (M' := [(s2, false)]) as (Hset & Hok & Hk'); try done; simpl; rewrite ?Z.add_0_r; try done.
  { intros z. rewrite Hlo, free_addrs_app. simpl. by rewrite Hperm, Z.add_assoc. }
  simpl in *. rewrite Hlo, Z.add_0_r in *. fold a in Hset. eexists _, fl'. split; [exact Hset|].
  split; [split; [done|by rewrite free_addrs_app, Hperm; simpl; rewrite Hlo, Z.add_assoc]|].
  assert (live (layout (mem_start_brk s) (L1 ++ (s1 + s2, false) :: L2)) =
          live (layout (mem_start_brk s) L)) as Hlive.
  { apply live_app_congr; rewrite ?Forall_cons; try done.
    rewrite !live_cons_free by (rewrite ?Forall_cons; done). by rewrite Z.add_assoc. }
  split; [|unfold L; rewrite !total_app; simpl; lia|done|].
  - eapply same_frame_trans; [apply Hfr|done].
  - eapply preserves_trans; [apply Hk|]. eapply preserves_keeps; [apply Hk'|by rewrite Hlive].
Qed.

(** The row [coalesce] leaves: a free block with its free neighbours. *)
Definition join_next (sz : Z) (L2 : row) : row :=
  match L2 with
  | (sn, false) :: L3 => (sz + sn, false) :: L3
  | _ => (sz, false) :: L2
  end.

Definition coalesced (L0 : row) (sp : Z) (ap : bool) (sz : Z) (L2 : row) : row :=
  if ap then L0 ++ (sp, true) :: join_next sz L2 else L0 ++ join_next (sp + sz) L2.

(** The second half of [coalesce], after the block at [a] is final on its left. *)
Lemma coalesce_next s L1 sz sn an L3 fl :
  row_ok s (L1 ++ (sz, false) :: (sn, an) :: L3) fl →
  let a := mem_start_brk s + total L1 in
  ∃ s' fl',
    (next_al ← block_allocated (a + sz);
     if next_al =? 0 then
       pull_free_block (a + sz);; v1 ← block_size a; v2 ← block_size (a + sz);
       block_set_size a (v1 + v2)
     else mret tt) s = Ok (tt, s') ∧
    row_ok s' (L1 ++ join_next sz ((sn, an) :: L3)) fl' ∧
    quiet s s' (L1 ++ (sz, false) :: (sn, an) :: L3) (L1 ++ join_next sz ((sn, an) :: L3)).
Proof.
  intros H a.
  assert (tagged s (a + sz) sn an) as Ht.
  { pose proof (row_tagged s (L1 ++ [(sz, false)]) sn an L3 fl) as Ht.
    rewrite <-app_assoc, total_app in Ht. simpl in Ht. rewrite Z.add_0_r, Z.add_assoc in Ht.
    apply Ht, H. }
  run (block_allocated_tagged _ _ _ _ Ht). destruct an; simpl.
  - eexists s, fl. split; [done|]. split; [done|apply quiet_refl].
  - by eapply fuse.
Qed.

(** [block_prev] reads the end tag of the block before. *)
Lemma row_prev s L0 sp ap L fl :
  row_heap s (L0 ++ (sp, ap) :: L) fl →
  block_prev (mem_start_brk s + total (L0 ++ [(sp, ap)])) s =
    Ok (mem_start_brk s + total L0, s).
Proof.
  intros H. destruct (row_end _ _ _ _ _ _ H) as [Hok Hw].
  destruct (row_split _ _ _ _ _ _ H) as (_ & (Hsp & _) & _). simpl in Hsp.
  unfold block_prev, block_prev_size, WORD_SIZE. rewrite total_app. simpl. rewrite Z.add_0_r.
  replace (mem_start_brk s + (total L0 + sp) - 8) with (mem_start_brk s + total L0 + sp - 8) by lia.
  unfold mbind, ST_bind. rewrite (load_Ok _ _ Hok), Hw, tag_land_m2 by done.
  unfold mret, ST_ret. do 2 f_equal. lia.
Qed.

Lemma coalesce_spec s L0 sp ap sz sn an L3 fl :
  row_ok s (L0 ++ (sp, ap) :: (sz, false) :: (sn, an) :: L3) fl →
  let L := L0 ++ (sp, ap) :: (sz, false) :: (sn, an) :: L3 in
  let L' := coalesced L0 sp ap sz ((sn, an) :: L3) in
  ∃ s' fl', coalesce (mem_start_brk s + total (L0 ++ [(sp, ap)])) s = Ok (tt, s') ∧
    row_ok s' L' fl' ∧ quiet s s' L L'.
Proof.
  intros H L L'. unfold coalesce. set (lo := mem_start_brk s) in *.
  assert (L = (L0 ++ [(sp, ap)]) ++ (sz, false) :: (sn, an) :: L3) as HL by (by rewrite <-app_assoc).
  run (row_prev _ _ _ _ _ _ (proj1 H)). fold lo.
  pose proof H as H'. fold L in H'. rewrite HL in H'.
  run (block_next_tagged _ _ _ _ (row_tagged _ _ _ _ _ _ (proj1 H'))). fold lo.
  run (block_allocated_tagged _ _ _ _ (row_tagged _ _ _ _ _ _ (proj1 H))).
  destruct ap; simpl (_ =? _); cbv iota zeta.
  - run (eq_refl : (mret tt : ST mm_state unit) s = Ok (tt, s)).
    destruct (coalesce_next s (L0 ++ [(sp, true)]) sz sn an L3 fl H') as (s' & fl' & Hrun & Hok & Hq).
    exists s', fl'. split; [exact Hrun|]. unfold L', coalesced. rewrite HL.
    by rewrite <-!app_assoc in *.
  - destruct (fuse s L0 sp sz ((sn, an) :: L3) fl H) as (s1 & fl1 & Hrun & Hok & Hq).
    rewrite total_app. simpl. rewrite Z.add_0_r, Z.add_assoc. fold lo in Hrun.
    run Hrun. destruct (q_frame _ _ _ _ Hq) as (Hlo & _).
    destruct (coalesce_next s1 L0 (sp + sz) sn an L3 fl1 Hok) as (s' & fl' & Hrun' & Hok' & Hq').
    rewrite Hlo in Hrun'. fold lo in Hrun'. rewrite Z.add_assoc in Hrun'.
    exists s', fl'. split; [exact Hrun'|]. split; [done|]. by eapply quiet_trans.
Qed.

(** The first two steps of [mm_free]: the block becomes free and joins the list. *)
Lemma release s L1 sz L2 fl :
  row_ok s (L1 ++ (sz, true) :: L2) fl → 32 ≤ sz →
  let lo := mem_start_brk s in
  let a := lo + total L1 in
  ∃ s' fl', (block_set_allocated a 0;; insert_free_block a) s = Ok (tt, s') ∧
    row_ok s' (L1 ++ (sz, false) :: L2) fl' ∧ same_frame s s' ∧
    live (layout lo (L1 ++ (sz, false) :: L2)) = delete a (live (layout lo (L1 ++ (sz, true) :: L2))) ∧
    preserves (delete a (live (layout lo (L1 ++ (sz, true) :: L2)))) s s'.
Proof.
  intros [H Hperm] Hsz lo a. pose proof (row_split _ _ _ _ _ _ H) as (HL1 & Hbt & HL2).
  assert (block_ok (sz, false)) as Hbf by (destruct Hbt as (? & _); split_and!; simpl in *; lia).
  rewrite free_addrs_app in Hperm. simpl in Hperm. fold lo in Hperm.
  destruct (row_set_allocated s L1 [(sz, true)] L2 false fl H)
    with (al0 := true) as (Hrun1 & Hok1 & Hk1); simpl; rewrite ?Z.add_0_r; try done.
  { intros z. rewrite free_addrs_app. simpl. rewrite Hperm. set_solver. }
  simpl in Hrun1, Hok1, Hk1. rewrite Z.add_0_r in Hrun1, Hok1, Hk1. fold lo a in Hrun1, Hok1, Hk1.
  run Hrun1. destruct (row_insert _ _ _ _ _ Hok1 Hperm) as (s' & Hrun2 & Hok2 & Hfr2 & Hk2).
  simpl in Hrun2, Hk2. fold lo a in Hrun2, Hk2. exists s', (a :: fl).
  pose proof (live_mid_false lo L1 sz L2 HL1 HL2 Hbt Hbf) as Hlive.
  split_and!; try done. fold a in Hlive. rewrite <-Hlive.
  eapply preserves_trans; [|apply Hk2]. by eapply preserves_keeps.
Qed.

(** The row after [mm_free]. *)
Lemma mm_free_row s L0 sp ap sz sn an L3 fl :
  row_ok s (L0 ++ (sp, ap) :: (sz, true) :: (sn, an) :: L3) fl → 32 ≤ sz →
  let lo := mem_start_brk s in
  let a := lo + total (L0 ++ [(sp, ap)]) in
  let L := L0 ++ (sp, ap) :: (sz, true) :: (sn, an) :: L3 in
  let L' := coalesced L0 sp ap sz ((sn, an) :: L3) in
  ∃ s' fl', mm_free (payload a) s = Ok (tt, s') ∧ row_ok s' L' fl' ∧ same_frame s s' ∧
    total L' = total L ∧
    live (layout lo L') = delete a (live (layout lo L)) ∧
    preserves (delete a (live (layout lo L))) s s'.
Proof.
  intros H Hsz lo a L L'.
  assert (∀ al, L0 ++ (sp, ap) :: (sz, al) :: (sn, an) :: L3 =
    (L0 ++ [(sp, ap)]) ++ (sz, al) :: (sn, an) :: L3) as HL by (intros; by rewrite <-app_assoc).
  pose proof H as H0. rewrite HL in H0.
  assert (0 < a) as Ha0.
  { pose proof (row_split _ _ _ _ _ _ (proj1 H0)) as (HL1 & _).
    pose proof (sep_lo _ _ _ (lh_sep _ _ _ (rh_heap _ _ _ (proj1 H)))).
    apply total_nonneg in HL1. unfold a, lo. lia. }
  unfold mm_free. rewrite (proj2 (Z.eqb_neq _ _)) by (unfold payload, WORD_SIZE, NULL; lia).
  cbv zeta. unfold payload_to_block, payload. replace (a + WORD_SIZE - WORD_SIZE) with a by lia.
  destruct (release s _ sz _ fl H0 Hsz) as (s1 & fl1 & Hrun1 & Hok1 & Hfr1 & Hlive1 & Hk1).
  rewrite <-HL in Hok1, Hlive1. fold lo a in Hrun1, Hlive1, Hk1.
  destruct (coalesce_spec _ _ _ _ _ _ _ _ _ Hok1) as (s' & fl' & Hrun2 & Hok2 & [Hfr2 Ht2 Hlive2 Hk2]).
  destruct Hfr1 as (Hlo & Hrest). rewrite Hlo in Hrun2, Hlive2, Hk2. fold lo a in Hrun2, Hlive2, Hk2.
  exists s', fl'. split.
  { apply ST_bind_inv in Hrun1 as ([] & s0 & Hr0 & Hr1). run Hr0. run Hr1. exact Hrun2. }
  split_and!; try done.
  - eapply same_frame_trans; [split; [exact Hlo|exact Hrest]|done].
  - unfold L'. rewrite Ht2. unfold L. rewrite !HL, !total_app. done.
  - unfold L', L. by rewrite Hlive2, Hlive1, HL.
  - unfold L. rewrite HL. eapply preserves_trans; [apply Hk1|]. by rewrite <-Hlive1.
Qed.

(** ** Taking a free block *)

(** Shortening a block keeps the blocks apart. *)
Lemma sep_shrink lo hi B a sz al sz' :
  sep lo hi B → B !! a = Some (sz, al) → block_ok (sz', al) → sz' ≤ sz →
  sep lo hi (<[a := (sz', al)]> B).
Proof.
  intros [Hlo Hblk Hdisj] Ha (H8 & H16 & H32) Hle. simpl in *. split; [done|..].
  - intros b szb alb. rewrite lookup_insert_Some. intros [[<- [= <- <-]]|[Hne Hb]]; [|by apply Hblk].
    destruct (Hblk _ _ _ Ha) as (? & ? & ? & ? & ? & _). split_and!; done || lia.
  - intros b szb alb c szc alc. rewrite !lookup_insert_Some.
    intros [[<- [= <- <-]]|[Hne Hb]] [[<- [= <- <-]]|[Hne' Hc]] Hbc; [done|..].
    + destruct (Hdisj _ _ _ _ _ _ Ha Hc Hbc); lia.
    + destruct (Hdisj _ _ _ _ _ _ Hb Ha Hbc); lia.
    + by destruct (Hdisj _ _ _ _ _ _ Hb Hc Hbc); lia.
Qed.

Section Split.
Context (s : mm_state) (L1 : row) (sz adj : Z) (L2 : row) (fl : list Z).
Context (H : row_ok s (L1 ++ (sz, false) :: L2) fl).
Context (Hadj8 : adj mod 8 = 0) (Hadj : 32 ≤ adj) (Hrem : 32 ≤ sz - adj).
Let lo := mem_start_brk s.
Let a := lo + total L1.
Let L := L1 ++ (sz, false) :: L2.
Let L' := L1 ++ (sz - adj, false) :: (adj, true) :: L2.

Lemma split_parts : Forall block_ok L1 ∧ block_ok (sz - adj, false) ∧ block_ok (adj, true) ∧
  Forall block_ok L2.
Proof.
  destruct (row_split _ _ _ _ _ _ (proj1 H)) as (? & (Hsz & _) & ?). simpl in Hsz.
  split_and!; try done; unfold block_ok; simpl; split_and!; try done; try lia.
  Z.to_euclidean_division_equations; lia.
Qed.

Lemma split_blocks : Forall block_ok L'.
Proof. unfold L'. rewrite Forall_app, !Forall_cons. apply split_parts. Qed.

Lemma split_sep : sep (mem_start_brk s) (mem_max_addr s) (layout lo L').
Proof.
  destruct H as [Hr _]. apply sep_layout; [apply (lh_sep _ _ _ (rh_heap _ _ _ Hr))|apply Hr| |apply split_blocks].
  pose proof (rh_hi _ _ _ Hr) as Hhi. unfold L'. rewrite total_app in *. simpl in *. lia.
Qed.

Lemma split_second : layout lo L' !! (a + (sz - adj)) = Some (adj, true).
Proof.
  pose proof (layout_mid lo (L1 ++ [(sz - adj, false)]) (adj, true) L2) as Hm.
  rewrite <-app_assoc, total_app in Hm. simpl in Hm. rewrite Z.add_0_r, Z.add_assoc in Hm.
  apply Hm, split_blocks.
Qed.

(** The other blocks of the new row. *)
Lemma split_other b x :
  b ≠ a + (sz - adj) → layout lo L' !! b = Some x →
  <[a := (sz - adj, false)]> (layout lo L) !! b = Some x.
Proof.
  destruct split_parts as (H1 & Hr & Ht & H2). destruct (row_split _ _ _ _ _ _ (proj1 H)) as (_ & Hb & _).
  intros Hne. unfold L', L. rewrite layout_app_lookup by (rewrite ?Forall_cons; done).
  rewrite lookup_insert, layout_app_lookup by (rewrite ?Forall_cons; done). fold a.
  case_decide; [by rewrite decide_False by lia|]. simpl.
  rewrite !lookup_insert. repeat case_decide; try done; try lia.
  by replace (a + (sz - adj) + adj) with (a + sz) by lia.
Qed.

Lemma split_live : live (layout lo L') = <[a + (sz - adj) := adj]> (live (layout lo L)).
Proof.
  destruct split_parts as (H1 & Hr & Ht & H2). destruct (row_split _ _ _ _ _ _ (proj1 H)) as (_ & Hb & _).
  apply map_eq. intros x. unfold L', L.
  rewrite live_layout_app by (rewrite ?Forall_cons; done).
  rewrite lookup_insert, live_layout_app by (rewrite ?Forall_cons; done). fold a.
  rewrite !live_cons_free by (rewrite ?Forall_cons; done).
  rewrite live_layout_cons. simpl. rewrite lookup_insert.
  replace (a + (sz - adj) + adj) with (a + sz) by lia.
  repeat case_decide; try done; lia.
Qed.

(** The new block starts inside a free block. *)
Lemma split_fresh : live (layout lo L) !! (a + (sz - adj)) = None.
Proof.
  apply eq_None_not_Some. intros [szz Hz%live_lookup]. destruct H as [Hrow _].
  pose proof (sep_disj _ _ _ (lh_sep _ _ _ (rh_heap _ _ _ Hrow)) _ _ _ _ _ _
    (row_block _ _ _ _ _ _ Hrow) Hz) as Hd.
  apply layout_bounds in Hz; [|apply Hrow]. fold lo a in Hd. simpl in Hz. lia.
Qed.

(** The heap between the two halves of the split: the tail is in no block. *)
Let B1 := <[a := (sz - adj, false)]> (layout lo L).

Lemma split_keep : live (layout lo L) ⊆ live B1.
Proof.
  apply map_subseteq_spec. intros b szb Hb. apply live_lookup.
  unfold B1. rewrite lookup_insert_ne; [by apply live_lookup|].
  intros Hab. rewrite <-Hab in Hb. unfold L, a in Hb.
  by rewrite live_mid_None in Hb by apply (proj1 H).
Qed.

(** Cutting the tail off the free block. *)
Lemma split_shrink s1 fl1 :
  linked_heap s1 (layout lo L) fl1 → mem_start_brk s1 = lo →
  ∃ s2, block_set_size_and_allocated a (sz - adj) 0 s1 = Ok (tt, s2) ∧
    linked_heap s2 B1 fl1 ∧ same_frame s1 s2 ∧ preserves (live (layout lo L)) s1 s2.
Proof.
  intros Hlh1 Hlo1. destruct split_parts as (H1 & Hr & _).
  pose proof (row_block _ _ _ _ _ _ (proj1 H)) as Ha. fold lo a L in Ha.
  destruct (linked_heap_set_both s1 (layout lo L) B1 fl1 a (sz - adj) false Hlh1)
    as (Hrun2 & Hlh2 & Hk2).
  - eapply sep_shrink; [apply Hlh1|done..|lia].
  - apply lookup_insert_eq.
  - intros b x Hne. unfold B1. by rewrite lookup_insert_ne.
  - intros z Hz. destruct (lh_free _ _ _ Hlh1 z Hz) as [szz Hz']. unfold B1.
    destruct (decide (z = a)) as [->|Hne]; [rewrite lookup_insert_eq; eauto|].
    rewrite lookup_insert_ne by done. eauto.
  - eexists. split_and!; [exact Hrun2|done|done|].
    eapply preserves_keeps; [done|apply split_keep].
Qed.

(** The first half: the free part is listed again. *)
Lemma split_first_half :
  ∃ s3 fl1,
    (pull_free_block a;; block_set_size_and_allocated a (sz - adj) 0;; insert_free_block a) s
      = Ok (tt, s3) ∧
    linked_heap s3 B1 (a :: fl1) ∧ same_frame s s3 ∧
    fl1 ≡ₚ free_addrs lo L1 ++ free_addrs (a + sz) L2 ∧ preserves (live (layout lo L)) s s3.
Proof.
  destruct split_parts as (H1 & Hr & Ht & H2).
  destruct (row_pull _ _ _ _ _ H) as (s1 & fl1 & Hrun1 & Hrow1 & Hfr1 & Hperm1 & Hk1).
  fold lo a L in Hrun1, Hperm1, Hk1, Hrow1. run Hrun1. pose proof Hfr1 as (Hlo1 & _).
  pose proof (rh_heap _ _ _ Hrow1) as Hlh1. rewrite Hlo1 in Hlh1. fold lo in Hlh1.
  destruct (split_shrink s1 fl1 Hlh1 Hlo1) as (s2 & Hrun2 & Hlh2 & Hfr2 & Hk2). run Hrun2.
  destruct (linked_heap_insert _ _ _ a (sz - adj) Hlh2) as (s3 & Hrun3 & Hlh3 & Hk3 & Hfr3).
  { apply lookup_insert_eq. }
  { rewrite Hperm1. intros [Hz|Hz]%elem_of_app; apply free_addrs_bounds in Hz; done || lia. }
  exists s3, fl1. split_and!; try done.
  - eapply same_frame_trans; [done|]. by eapply same_frame_trans.
  - eapply preserves_trans; [apply Hk1|]. eapply preserves_trans; [apply Hk2|].
    eapply preserves_keeps; [done|apply split_keep].
Qed.

Lemma split_row :
  ∃ s' fl', take_block a adj s = Ok (payload (a + (sz - adj)), s') ∧
    row_ok s' L' fl' ∧ same_frame s s' ∧ preserves (live (layout lo L)) s s'.
Proof.
  destruct split_first_half as (s3 & fl1 & Hrun & Hlh3 & Hfr & Hperm & Hk).
  pose proof Hfr as (Hlo3 & _ & Hhi3 & _).
  unfold take_block. run (block_size_tagged _ _ _ _ (row_tagged _ _ _ _ _ _ (proj1 H))).
  cbv zeta. rewrite (proj2 (Z.geb_le _ _)) by (unfold MINBLOCKSIZE, WORD_SIZE; lia).
  apply ST_bind_inv in Hrun as ([] & s1 & Hrun1 & Hrun).
  apply ST_bind_inv in Hrun as ([] & s2 & Hrun2 & Hrun3).
  fold lo a. run Hrun1. run Hrun2. run Hrun3.
  run (block_next_tagged _ _ _ _ (heap_tagged _ _ _ Hlh3 a _ _ (lookup_insert_eq _ _ _))).
  assert (a :: fl1 ≡ₚ free_addrs lo L') as Hperm'.
  { unfold L'. rewrite free_addrs_app. simpl. fold a. rewrite Hperm, Permutation_middle.
    by replace (a + (sz - adj) + adj) with (a + sz) by lia. }
  destruct (linked_heap_set_both s3 B1 (layout lo L') (a :: fl1) (a + (sz - adj)) adj true Hlh3)
    as (Hrun4 & Hlh4 & Hk4).
  - rewrite Hlo3, Hhi3. apply split_sep.
  - apply split_second.
  - apply split_other.
  - intros z Hz. apply free_addrs_lookup; [apply split_blocks|]. by rewrite <-Hperm'.
  - simpl in Hrun4. run Hrun4. eexists _, (a :: fl1). split; [done|]. split_and!; [|done|].
    + destruct H as [Hrow _]. split; simpl; rewrite ?Hlo3; [|done].
      split; simpl; rewrite ?Hlo3, ?Hhi3; [apply split_blocks|apply Hrow| |done].
      pose proof (rh_hi _ _ _ Hrow) as Hhi. unfold L'. rewrite total_app in *. simpl in *. lia.
    + eapply preserves_trans; [apply Hk|]. eapply preserves_keeps; [done|].
      rewrite split_live. apply insert_subseteq, split_fresh.
Qed.
End Split.

(** Taking a block whose rest would be too small to be a block. *)
Lemma whole_row s L1 sz adj L2 fl :
  row_ok s (L1 ++ (sz, false) :: L2) fl → sz - adj < 32 →
  let lo := mem_start_brk s in
  ∃ s' fl', take_block (lo + total L1) adj s = Ok (payload (lo + total L1), s') ∧
    row_ok s' (L1 ++ (sz, true) :: L2) fl' ∧ same_frame s s' ∧
    live (layout lo (L1 ++ (sz, true) :: L2)) =
      <[lo + total L1 := sz]> (live (layout lo (L1 ++ (sz, false) :: L2))) ∧
    preserves (live (layout lo (L1 ++ (sz, false) :: L2))) s s'.
Proof.
  intros H Hrem lo. pose proof (row_split _ _ _ _ _ _ (proj1 H)) as (H1 & Hb & H2).
  assert (block_ok (sz, true)) as Hbt by (destruct Hb as (? & ? & _); split_and!; done).
  pose proof (live_mid_true lo L1 sz L2 H1 H2 Hbt Hb) as Hlive.
  unfold take_block. run (block_size_tagged _ _ _ _ (row_tagged _ _ _ _ _ _ (proj1 H))).
  cbv zeta. assert ((sz - adj >=? MINBLOCKSIZE) = false) as ->.
  { unfold MINBLOCKSIZE, WORD_SIZE. rewrite Z.geb_leb, Z.leb_gt. lia. }
  destruct (row_pull _ _ _ _ _ H) as (s1 & fl1 & Hrun1 & Hrow1 & Hfr1 & Hperm1 & Hk1).
  fold lo in Hrun1, Hperm1, Hk1 |- *. run Hrun1. pose proof Hfr1 as (Hlo1 & _).
  destruct (row_set_allocated s1 L1 [(sz, false)] L2 true fl1 Hrow1)
    with (al0 := false) as (Hrun2 & Hok2 & Hk2); simpl; rewrite ?Z.add_0_r; try done.
  { intros z. rewrite Hlo1, free_addrs_app. simpl. by rewrite Hperm1. }
  simpl in Hrun2, Hok2, Hk2. rewrite Hlo1, Z.add_0_r in Hrun2, Hok2, Hk2.
  fold lo in Hrun2, Hok2, Hk2.
  run Hrun2. eexists _, fl1. split; [done|]. split_and!; try done.
  - split; [done|]. simpl. rewrite Hlo1, free_addrs_app. simpl. by rewrite Hperm1.
  - eapply preserves_trans; [apply Hk1|]. eapply preserves_keeps; [done|].
    rewrite Hlive. apply insert_subseteq, live_mid_None. rewrite Forall_app, Forall_cons. done.
Qed.

(** [take_block] on a row: either split or taken whole. *)
Definition taken (L1 : row) (sz adj : Z) (L2 : row) : row :=
  if 32 <=? sz - adj then L1 ++ (sz - adj, false) :: (adj, true) :: L2
  else L1 ++ (sz, true) :: L2.

Lemma take_block_row s L1 sz adj L2 fl :
  row_ok s (L1 ++ (sz, false) :: L2) fl → adj mod 8 = 0 → 32 ≤ adj ≤ sz →
  ∃ s' fl' b cap, take_block (mem_start_brk s + total L1) adj s = Ok (payload b, s') ∧
    row_ok s' (taken L1 sz adj L2) fl' ∧ same_frame s s' ∧ adj ≤ cap ∧
    mem_start_brk s + total L1 ≤ b ∧ b + cap = mem_start_brk s + total L1 + sz ∧
    live (layout (mem_start_brk s) (L1 ++ (sz, false) :: L2)) !! b = None ∧
    live (layout (mem_start_brk s) (taken L1 sz adj L2)) =
      <[b := cap]> (live (layout (mem_start_brk s) (L1 ++ (sz, false) :: L2))) ∧
    preserves (live (layout (mem_start_brk s) (L1 ++ (sz, false) :: L2))) s s'.
Proof.
  intros H H8 Hadj. unfold taken. case_eq (32 <=? sz - adj).
  - intros Hle%Z.leb_le. destruct (split_row s L1 sz adj L2 fl H H8 ltac:(lia) Hle)
      as (s' & fl' & Hrun & Hok & Hfr & Hk).
    exists s', fl', (mem_start_brk s + total L1 + (sz - adj)), adj.
    split_and!; try done; try lia; [apply (split_fresh s L1 sz adj L2 fl H)|
      apply (split_live s L1 sz adj L2 fl H)]; lia.
  - intros Hle%Z.leb_gt. destruct (whole_row s L1 sz adj L2 fl H Hle)
      as (s' & fl' & Hrun & Hok & Hfr & Hlive & Hk).
    exists s', fl', (mem_start_brk s + total L1), sz.
    split_and!; try done; try lia. apply live_mid_None, (proj1 H).
Qed.

(** ** Growing the heap *)
Section Extend.
Context (s : mm_state) (L1 : row) (adj : Z) (fl : list Z).
Context (H : row_ok s (L1 ++ [(16, true)]) fl).
Context (Hadj8 : adj mod 8 = 0) (Hadj : 16 ≤ adj).
Let lo := mem_start_brk s.
Let a := lo + total L1.
Let B := layout lo (L1 ++ [(16, true)]).
Let B1 := layout lo (L1 ++ [(adj, true)]).
Let B2 := layout lo (L1 ++ [(adj, true); (16, true)]).
Context (Hhi : lo + total L1 + adj + 16 ≤ mem_max_addr s).

Lemma extend_parts : Forall block_ok L1 ∧ block_ok (adj, true) ∧ block_ok (16, true).
Proof. destruct (row_split _ _ _ _ _ _ (proj1 H)) as (? & _ & _). split_and!; done. Qed.

Lemma extend_other1 b x : b ≠ a → B1 !! b = Some x → B !! b = Some x.
Proof.
  destruct extend_parts as (? & ? & ?). intros Hne. unfold B, B1.
  rewrite !(layout_app_lookup _ L1) by (rewrite ?Forall_cons; done). fold a. simpl.
  by rewrite !lookup_insert_ne by done.
Qed.

Lemma extend_other2 b x : b ≠ a + adj → B2 !! b = Some x → B1 !! b = Some x.
Proof.
  destruct extend_parts as (? & ? & ?). intros Hne. unfold B2, B1.
  rewrite !(layout_app_lookup _ L1) by (rewrite ?Forall_cons; done). fold a. simpl.
  rewrite !lookup_insert. repeat case_decide; congruence.
Qed.

Lemma extend_all_free L : Forall block_ok (L1 ++ L) → free_addrs a L = [] →
  fl ≡ₚ free_addrs lo (L1 ++ L) ∧ all_free (layout lo (L1 ++ L)) fl.
Proof.
  intros HL Hnil. assert (fl ≡ₚ free_addrs lo (L1 ++ L)) as Hp.
  { destruct H as [_ ->]. fold lo. rewrite !free_addrs_app. fold a. by rewrite Hnil. }
  split; [done|]. intros z Hz. apply free_addrs_lookup; [done|]. by rewrite <-Hp.
Qed.

Lemma extend_base : 0 < lo ∧ lo mod 8 = 0.
Proof. destruct H as [Hr _]. split; [apply (lh_sep _ _ _ (rh_heap _ _ _ Hr))|apply Hr]. Qed.

(** The old epilogue becomes the new block. *)
Lemma extend_block s0 :
  linked_heap s0 B fl → mem_start_brk s0 = lo → mem_max_addr s0 = mem_max_addr s →
  ∃ s1, block_set_size_and_allocated a adj 1 s0 = Ok (tt, s1) ∧ linked_heap s1 B1 fl ∧
    same_frame s0 s1 ∧ keeps s0 s1 B1 ∧ tagged s1 a adj true.
Proof.
  intros Hlh0 Hlo0 Hhi0. destruct extend_parts as (H1 & Hb1 & Hb2). destruct extend_base.
  assert (B1 !! a = Some (adj, true)) as Ha.
  { apply layout_mid. rewrite Forall_app, Forall_cons. done. }
  destruct (linked_heap_set_both s0 B B1 fl a adj true Hlh0) as (Hrun1 & Hlh1 & Hk1); try done.
  - rewrite Hlo0, Hhi0. apply sep_layout; rewrite ?Forall_app, ?Forall_cons, ?total_app; try done.
    simpl. lia.
  - apply extend_other1.
  - by apply extend_all_free; rewrite ?Forall_app, ?Forall_cons.
  - eexists. split; [exact Hrun1|]. split_and!; try done. by eapply heap_tagged.
Qed.

(** The new epilogue. *)
Lemma extend_epilogue s1 :
  linked_heap s1 B1 fl → mem_start_brk s1 = lo → mem_max_addr s1 = mem_max_addr s →
  ∃ s2, block_set_size_and_allocated (a + adj) 16 1 s1 = Ok (tt, s2) ∧
    row_ok s2 (L1 ++ [(adj, true); (16, true)]) fl ∧ same_frame s1 s2 ∧ keeps s1 s2 B2.
Proof.
  intros Hlh1 Hlo1 Hhi1. destruct extend_parts as (H1 & Hb1 & Hb2). destruct extend_base.
  destruct (extend_all_free [(adj, true); (16, true)]) as [Hperm Hfree];
    rewrite ?Forall_app, ?Forall_cons; try done.
  destruct (linked_heap_set_both s1 B1 B2 fl (a + adj) 16 true Hlh1) as (Hrun & Hlh2 & Hk); try done.
  - rewrite Hlo1, Hhi1. apply sep_layout; rewrite ?Forall_app, ?Forall_cons, ?total_app; try done.
    simpl. lia.
  - pose proof (layout_mid lo (L1 ++ [(adj, true)]) (16, true) []) as Hm.
    rewrite <-app_assoc, total_app in Hm. simpl in Hm. rewrite Z.add_0_r, Z.add_assoc in Hm.
    apply Hm. by rewrite Forall_app, !Forall_cons.
  - apply extend_other2.
  - eexists. split; [exact Hrun|]. split_and!; try done. split; simpl; [|by rewrite Hlo1].
    split; simpl; rewrite ?Hlo1, ?Hhi1; rewrite ?Forall_app, ?Forall_cons, ?total_app; try done.
    simpl. lia.
Qed.
End Extend.

(** ** Searching the free list *)

Lemma ring_next w l1 cur l2 :
  Ring.ring w (l1 ++ cur :: l2) → word w (cur + 8) = default cur (head (l2 ++ l1)).
Proof.
  intros Hr. apply (Ring.ring_rot w l1) in Hr. simpl in Hr.
  destruct (l2 ++ l1) as [|n l] eqn:Heq; apply Hr; simpl; set_solver.
Qed.

(** No block of [l] is large enough. *)
Definition too_small (B : blocks) (adj : Z) (l : list Z) : Prop :=
  ∀ z sz, z ∈ l → B !! z = Some (sz, false) → sz < adj.

(** One iteration at the block [cur] of the list. *)
Lemma malloc_scan_step s L fl adj fuel l1 cur l2 :
  row_heap s L fl → fl = l1 ++ cur :: l2 →
  let lo := mem_start_brk s in
  (∃ L1 sz L2, L = L1 ++ (sz, false) :: L2 ∧ adj ≤ sz ∧
     malloc_scan (S fuel) adj cur s = (p ← take_block (lo + total L1) adj; mret (Some p)) s) ∨
  (too_small (layout lo L) adj [cur] ∧
   malloc_scan (S fuel) adj cur s =
     match l2 with [] => Ok (None, s) | n :: _ => malloc_scan fuel adj n s end).
Proof.
  intros H -> lo. pose proof (rh_heap _ _ _ H) as Hlh. cbn [malloc_scan].
  destruct (lh_free _ _ _ Hlh cur) as [sz Hcur]; [set_solver|].
  pose proof (heap_tagged _ _ _ Hlh _ _ _ Hcur) as Ht.
  run (block_allocated_tagged _ _ _ _ Ht). run (block_size_tagged _ _ _ _ Ht). simpl.
  rewrite Z.geb_leb. destruct (Z.leb_spec adj sz) as [Hge|Hlt].
  - left. apply layout_Some in Hcur as (L1 & L2 & -> & ->); [|apply H]. by exists L1, sz, L2.
  - right. split.
    { intros z szz ->%list_elem_of_singleton Hz. unfold lo in Hz. assert (szz = sz) as -> by congruence. done. }
    run (block_flink_Ok _ _ (heap_free_at _ _ _ Hlh _ _ Hcur)).
    rewrite (ring_next _ _ _ _ (lh_ring _ _ _ Hlh)).
    run (eq_refl : get_first s = Ok (flist_first s, s)). rewrite (lh_first _ _ _ Hlh).
    destruct l2 as [|n l2]; simpl.
    + by destruct l1; simpl; rewrite Z.eqb_refl.
    + rewrite (proj2 (Z.eqb_neq _ _)); [done|]. pose proof (lh_nodup _ _ _ Hlh) as Hnd.
      intros Hn. destruct l1 as [|c l1]; simpl in Hn, Hnd; subst n;
        apply NoDup_cons in Hnd as [Hnd _]; set_solver.
Qed.

Lemma malloc_scan_spec s L fl adj l2 :
  row_heap s L fl →
  let lo := mem_start_brk s in
  ∀ cur l1 fuel,
  fl = l1 ++ cur :: l2 → (length l2 < fuel)%nat → too_small (layout lo L) adj l1 →
  (∃ L1 sz L2, L = L1 ++ (sz, false) :: L2 ∧ adj ≤ sz ∧
     malloc_scan fuel adj cur s = (p ← take_block (lo + total L1) adj; mret (Some p)) s) ∨
  (malloc_scan fuel adj cur s = Ok (None, s) ∧ too_small (layout lo L) adj fl).
Proof.
  intros H lo. induction l2 as [|n l2 IH]; intros cur l1 fuel Hfl Hfuel Hsmall.
  all: destruct fuel as [|fuel]; simpl in Hfuel; [lia|].
  all: destruct (malloc_scan_step s L fl adj fuel l1 cur _ H Hfl) as [Hfit|[Hsmall' Heq]]; [by left|].
  all: assert (too_small (layout lo L) adj (l1 ++ [cur])) as Hsmall''
    by (intros z sz [Hz|Hz]%elem_of_app; [by apply Hsmall|by apply Hsmall']).
  - right. by rewrite Heq, Hfl.
  - rewrite Heq. apply (IH n (l1 ++ [cur])); [by rewrite <-app_assoc|lia|done].
Qed.

(** There are fewer free blocks than [scan_fuel]. *)
Lemma free_addrs_length a L :
  Forall block_ok L → 32 * Z.of_nat (length (free_addrs a L)) ≤ total L.
Proof.
  intros HL. revert a. induction HL as [|[sz al] L (_ & ? & Hb) HL IH]; intros a; simpl; [lia|].
  specialize (IH (a + sz)). simpl in *. destruct al; simpl; [lia|]. specialize (Hb eq_refl). lia.
Qed.

Lemma scan_fuel_enough s L fl :
  row_ok s L fl → mem_brk s = mem_start_brk s + total L → (length fl < scan_fuel s)%nat.
Proof.
  intros [H Hp] Hbrk. unfold scan_fuel, mem_heapsize, MINBLOCKSIZE, WORD_SIZE.
  rewrite Hbrk, (Permutation_length Hp).
  pose proof (free_addrs_length (mem_start_brk s) L (rh_blocks _ _ _ H)) as Hlen.
  replace (mem_start_brk s + total L - mem_start_brk s) with (total L) by lia.
  Z.to_euclidean_division_equations; lia.
Qed.
