(* ===== verification/MmSpec.v ===== *)
(** * The contract of the allocator and its refinement.

    [heap_ok] is the invariant of [mm.c] between calls; [view] is what a client
    sees of a heap: for each pointer it owns, the words of its payload.  The
    operations of [mm.c] keep the invariant and act on the view as an
    allocator should. *)

From Stdlib Require Import ZArith Lia.
From stdpp Require Import base gmap numbers option list.
From S2P Require Import Prelude Memlib MmInline Mm MmHeap MmLayout MmProofs.

Open Scope Z_scope.

(** The row with its prologue and epilogue. *)
Definition full (M : row) : row := (16, true) :: M ++ [(16, true)].

Record heap_ok (s : mm_state) (M : row) (fl : list Z) : Prop := {
  ho_row : row_ok s (full M) fl;
  ho_inner : Forall (λ b : Z * bool, 32 ≤ fst b) M;
  ho_adj : no_adj M;
  ho_brk : mem_brk s = mem_start_brk s + total (full M);
  ho_prologue : prologue s = mem_start_brk s;
  ho_epilogue : epilogue s = mem_brk s - 16;
}.

(** The blocks the client owns. *)
Definition owned (lo : Z) (M : row) : gmap Z Z := live (layout (lo + 16) M).

Lemma full_mid M1 b M2 : full (M1 ++ b :: M2) = ((16, true) :: M1) ++ b :: M2 ++ [(16, true)].
Proof. unfold full. simpl. by rewrite <-app_assoc. Qed.

Lemma total_full M : total (full M) = total M + 32.
Proof. unfold full. simpl. rewrite total_app. simpl. lia. Qed.

Lemma no_adj_full M : no_adj (full M) ↔ no_adj M.
Proof.
  unfold full. change ((16, true) :: M ++ [(16, true)]) with ([] ++ (16, true) :: M ++ [(16, true)]).
  rewrite no_adj_true, no_adj_snoc_true. simpl. tauto.
Qed.

Lemma full_blocks M : Forall block_ok (full M) ↔ Forall block_ok M.
Proof.
  unfold full. rewrite Forall_cons, Forall_app, Forall_singleton. unfold block_ok at 1 3. simpl.
  intuition (done || lia).
Qed.

(** The client's blocks are the allocated ones between the sentinels. *)
Lemma owned_lookup lo M x :
  Forall block_ok M →
  owned lo M !! x =
    if decide (lo + 16 ≤ x < lo + 16 + total M) then live (layout lo (full M)) !! x else None.
Proof.
  intros HM. unfold owned, full.
  destruct (decide (x < lo + 16)) as [Hlt|Hge].
  { rewrite decide_False by lia. by apply live_below. }
  rewrite live_layout_cons. simpl. rewrite lookup_insert_ne by lia.
  rewrite live_layout_app by (rewrite ?Forall_singleton; done).
  destruct (decide (x < lo + 16 + total M)) as [Hlt|Hge'].
  { rewrite decide_True by lia. done. }
  rewrite decide_False by lia. apply eq_None_not_Some. intros [sz Hsz%live_lookup].
  apply layout_bounds in Hsz; [simpl in Hsz; lia|done].
Qed.

Lemma owned_subseteq lo M : Forall block_ok M → owned lo M ⊆ live (layout lo (full M)).
Proof.
  intros HM. apply map_subseteq_spec. intros x sz. rewrite owned_lookup by done.
  by case_decide.
Qed.

Lemma owned_delete lo M M' b :
  Forall block_ok M → Forall block_ok M' → total M' = total M →
  live (layout lo (full M')) = delete b (live (layout lo (full M))) →
  owned lo M' = delete b (owned lo M).
Proof.
  intros HM HM' Ht Hl. apply map_eq. intros x.
  rewrite lookup_delete, !owned_lookup, Hl, Ht, lookup_delete by done.
  by repeat case_decide.
Qed.

Lemma owned_insert lo M M' b sz :
  Forall block_ok M → Forall block_ok M' → total M' = total M →
  lo + 16 ≤ b < lo + 16 + total M →
  live (layout lo (full M')) = <[b := sz]> (live (layout lo (full M))) →
  owned lo M' = <[b := sz]> (owned lo M).
Proof.
  intros HM HM' Ht Hb Hl. apply map_eq. intros x.
  rewrite lookup_insert, !owned_lookup, Hl, Ht, lookup_insert by done.
  repeat case_decide; subst; try done; lia.
Qed.

(** An owned block is a block of the row. *)
Lemma owned_split lo M b sz :
  Forall block_ok M → owned lo M !! b = Some sz →
  ∃ M1 M2, M = M1 ++ (sz, true) :: M2 ∧ b = lo + 16 + total M1.
Proof. intros HM (M1 & M2 & -> & ->)%live_lookup%layout_Some; [|done]. by exists M1, M2. Qed.

Lemma heap_blocks s M fl : heap_ok s M fl → Forall block_ok M.
Proof. intros H. apply full_blocks, (ho_row _ _ _ H). Qed.

Lemma heap_lo s M fl : heap_ok s M fl → 0 < mem_start_brk s ∧ mem_start_brk s mod 8 = 0.
Proof.
  intros [[H _] _ _ _ _ _]. split; [apply (lh_sep _ _ _ (rh_heap _ _ _ H))|apply H].
Qed.

(** ** [mm_free] *)

(** The row after the block between [M1] and [M2] is freed. *)
Definition freed (M1 : row) (sz : Z) (M2 : row) : row :=
  match rev M1 with
  | (sp, false) :: M0 => rev M0 ++ join_next (sp + sz) M2
  | _ => M1 ++ join_next sz M2
  end.

Lemma freed_nil sz M2 : freed [] sz M2 = join_next sz M2.
Proof. done. Qed.

Lemma freed_snoc M0 sp ap sz M2 :
  freed (M0 ++ [(sp, ap)]) sz M2 =
    if ap then M0 ++ (sp, true) :: join_next sz M2 else M0 ++ join_next (sp + sz) M2.
Proof.
  unfold freed. rewrite rev_app_distr. simpl. destruct ap; [by rewrite <-app_assoc|].
  by rewrite rev_involutive.
Qed.

(** The sentinels are never merged. *)
Lemma join_next_full sz M2 : join_next sz (M2 ++ [(16, true)]) = join_next sz M2 ++ [(16, true)].
Proof. by destruct M2 as [|[sn []] M2]. Qed.

Lemma freed_full M1 sz M2 :
  ∃ L0 sp ap sn an L3,
    full (M1 ++ (sz, true) :: M2) = L0 ++ (sp, ap) :: (sz, true) :: (sn, an) :: L3 ∧
    16 + total M1 = total (L0 ++ [(sp, ap)]) ∧
    full (freed M1 sz M2) = coalesced L0 sp ap sz ((sn, an) :: L3).
Proof.
  assert (∃ sn an L3, M2 ++ [(16, true)] = (sn, an) :: L3) as (sn & an & L3 & HM2).
  { destruct M2 as [|[sn an] M2]; [by exists 16, true, []|by exists sn, an, (M2 ++ [(16, true)])]. }
  rewrite full_mid, HM2. destruct M1 as [|[sp ap] M1 _] using rev_ind.
  - exists [], 16, true, sn, an, L3. split; [done|]. split; [simpl; lia|].
    rewrite freed_nil. unfold coalesced, full. rewrite <-HM2, join_next_full. done.
  - exists ((16, true) :: M1), sp, ap, sn, an, L3.
    split; [by rewrite app_comm_cons, <-app_assoc|]. split; [simpl; lia|].
    rewrite freed_snoc. unfold coalesced, full. rewrite <-HM2, join_next_full.
    destruct ap; simpl; rewrite <-app_assoc; [done|]. by rewrite join_next_full.
Qed.

Lemma join_next_no_adj sz M2 : no_adj M2 → no_adj (join_next sz M2).
Proof.
  destruct M2 as [|[sn []] M2]; simpl; intros HM.
  - done.
  - split; [|done]. by intros _ c [= <-].
  - destruct HM as [Hn HM]. split; [|done]. intros _. by apply Hn.
Qed.

Lemma freed_no_adj M1 sz M2 : no_adj (M1 ++ (sz, true) :: M2) → no_adj (freed M1 sz M2).
Proof.
  intros [H1 H2]%no_adj_true. destruct M1 as [|[sp ap] M1 _] using rev_ind.
  - by apply join_next_no_adj.
  - rewrite freed_snoc. destruct ap.
    + apply no_adj_true. split; [by apply no_adj_snoc_true in H1|by apply join_next_no_adj].
    + (* the merged block stands where the free block stood *)
      assert (∃ m M3, join_next (sp + sz) M2 = (m, false) :: M3) as (m & M3 & Heq).
      { destruct M2 as [|[sn []] M2]; simpl; eauto. }
      pose proof (join_next_no_adj (sp + sz) M2 H2) as Hj. rewrite Heq in *.
      apply no_adj_app. split; [|done]. by eapply no_adj_size.
Qed.

Lemma freed_inner M1 sz M2 :
  Forall (λ b : Z * bool, 32 ≤ fst b) (M1 ++ (sz, true) :: M2) →
  Forall (λ b : Z * bool, 32 ≤ fst b) (freed M1 sz M2).
Proof.
  intros [H1 [Hsz H2]%Forall_cons]%Forall_app. simpl in Hsz.
  assert (∀ m, 32 ≤ m → Forall (λ b : Z * bool, 32 ≤ fst b) (join_next m M2)) as Hj.
  { intros m Hm. destruct M2 as [|[sn []] M2]; simpl; rewrite ?Forall_cons in *; simpl in *;
      intuition (done || lia). }
  destruct M1 as [|[sp ap] M1 _] using rev_ind; [by apply Hj|].
  rewrite freed_snoc. rewrite Forall_app, Forall_singleton in H1. destruct H1 as [H1 Hsp]. simpl in Hsp.
  destruct ap; rewrite Forall_app, ?Forall_cons; split_and!; try done; apply Hj; simpl; lia.
Qed.

(** What a call leaves unchanged of the memory system. *)
Definition same_arena (s s' : mm_state) : Prop :=
  mem_start_brk s' = mem_start_brk s ∧ mem_max_addr s' = mem_max_addr s.

Lemma mm_free_heap s M1 sz M2 fl :
  heap_ok s (M1 ++ (sz, true) :: M2) fl →
  let lo := mem_start_brk s in
  let M := M1 ++ (sz, true) :: M2 in
  let b := lo + 16 + total M1 in
  ∃ s' fl', mm_free (payload b) s = Ok (tt, s') ∧ heap_ok s' (freed M1 sz M2) fl' ∧
    same_frame s s' ∧ owned lo (freed M1 sz M2) = delete b (owned lo M) ∧
    preserves (owned lo (freed M1 sz M2)) s s'.
Proof.
  intros H lo M b. pose proof (heap_blocks _ _ _ H) as HM.
  pose proof (ho_inner _ _ _ H) as Hin. pose proof Hin as [_ [Hsz _]%Forall_cons]%Forall_app.
  destruct (freed_full M1 sz M2) as (L0 & sp & ap & sn & an & L3 & Hfull & Htot & Hfreed).
  pose proof (ho_row _ _ _ H) as Hrow. rewrite Hfull in Hrow.
  destruct (mm_free_row _ _ _ _ _ _ _ _ _ Hrow Hsz)
    as (s' & fl' & Hrun & Hok & Hfr & Ht & Hlive & Hk).
  rewrite <-Htot in Hrun, Hlive, Hk. fold lo in Hrun, Hlive, Hk.
  rewrite <-Hfreed, <-Hfull in Hlive, Ht. rewrite <-Hfreed in Hok. rewrite <-Hfull in Hk.
  rewrite Z.add_assoc in Hrun, Hlive, Hk. fold b in Hrun, Hlive, Hk. fold M in Hlive, Ht, Hk.
  assert (Forall block_ok (freed M1 sz M2)) as HM'.
  { apply full_blocks, (rh_blocks _ _ _ (proj1 Hok)). }
  assert (owned lo (freed M1 sz M2) = delete b (owned lo M)) as Hown.
  { apply owned_delete; try done. rewrite !total_full in Ht. lia. }
  exists s', fl'. split_and!; try done.
  - destruct Hfr as (Hlo & Hbrk & _ & Hpro & Hepi). split; try done.
    + by apply freed_inner.
    + apply freed_no_adj, H.
    + rewrite Hlo, Hbrk, Ht. apply H.
    + rewrite Hpro, Hlo. apply H.
    + rewrite Hepi, Hbrk. apply H.
  - rewrite Hown. intros c szc y Hc Hy. eapply Hk; [|done].
    apply lookup_delete_Some in Hc as [Hne Hc]. apply lookup_delete_Some. split; [done|].
    by eapply lookup_weaken; [|by apply owned_subseteq].
Qed.

(** ** [mm_malloc] *)

(** The size of the block that serves a request of [size] bytes. *)
Definition request (size : Z) : Z := Z.max 32 (8 * ((size + 23) / 8)).

Lemma align_Ok s n : 0 ≤ n → n + 7 < 2 ^ 63 → align n s = Ok (8 * ((n + 7) / 8), s).
Proof.
  intros Hn Hmax. unfold align, as_long, WORD_SIZE.
  rewrite (proj2 (Z.leb_le _ _)), (proj2 (Z.ltb_lt _ _)) by lia. simpl.
  unfold mbind, ST_bind, mret, ST_ret. do 2 f_equal.
  change (Z.lnot (8 - 1)) with (Z.lnot (Z.ones 3)). rewrite <-Z.ldiff_land, Z.ldiff_ones_r by lia.
  rewrite Z.shiftr_div_pow2, Z.shiftl_mul_pow2 by lia. change (2 ^ 3) with 8. change (8 - 1) with 7. lia.
Qed.

Lemma adjusted_Ok s size :
  0 < size → size < 2 ^ 62 → adjusted size s = Ok (request size, s).
Proof.
  intros Hpos Hmax. unfold adjusted, as_long, TAGS_SIZE, WORD_SIZE, MINBLOCKSIZE, WORD_SIZE.
  rewrite (proj2 (Z.leb_le _ _)), (proj2 (Z.ltb_lt _ _)) by lia. simpl.
  change (2 * 8) with 16. change (4 * 8) with 32.
  rewrite ST_ret_bind. run (align_Ok s (size + 16) ltac:(lia) ltac:(lia)).
  unfold request. replace (size + 16 + 7) with (size + 23) by lia.
  destruct (Z.ltb_spec (8 * ((size + 23) / 8)) 32).
  - rewrite Z.max_l by lia. done.
  - rewrite Z.max_r by lia. rewrite (align_Ok s (size + 16)) by lia.
    by replace (size + 16 + 7) with (size + 23) by lia.
Qed.

Lemma request_spec size :
  0 < size →
  request size mod 8 = 0 ∧ 32 ≤ request size ∧ size + 16 ≤ request size ∧ request size ≤ size + 32.
Proof.
  intros Hpos. unfold request. split_and!; [|Z.to_euclidean_division_equations; lia..].
  destruct (Z.max_spec 32 (8 * ((size + 23) / 8))) as [[_ ->]|[_ ->]]; [|done].
  rewrite Z.mul_comm. by apply Z.mod_mul.
Qed.

Lemma to_int_small v : 0 ≤ v < 2 ^ 31 → to_int v = v.
Proof. intros Hv. unfold to_int. rewrite Z.mod_small; lia. Qed.

Lemma taken_full M1 sz adj M2 :
  full (taken M1 sz adj M2) = taken ((16, true) :: M1) sz adj (M2 ++ [(16, true)]).
Proof. unfold taken, full. case_match; simpl; by rewrite <-app_assoc. Qed.

Lemma taken_no_adj M1 sz adj M2 : no_adj (M1 ++ (sz, false) :: M2) → no_adj (taken M1 sz adj M2).
Proof.
  intros [H1 H2]%no_adj_app. unfold taken. case_match.
  - apply no_adj_app. split; [by eapply (no_adj_size M1 sz _ _ [])|].
    change ((sz - adj, false) :: (adj, true) :: M2) with ([(sz - adj, false)] ++ (adj, true) :: M2).
    apply no_adj_true. split; [done|apply H2].
  - apply no_adj_true. split; [|apply H2]. clear -H1.
    induction M1 as [|c M1 IH]; [done|]. destruct H1 as [Hc H1]. split; [|by apply IH].
    intros Hf d Hd. apply Hc; [done|]. destruct M1; [done|apply Hd].
Qed.

Lemma taken_inner M1 sz adj M2 :
  32 ≤ adj → Forall (λ b : Z * bool, 32 ≤ fst b) (M1 ++ (sz, false) :: M2) →
  Forall (λ b : Z * bool, 32 ≤ fst b) (taken M1 sz adj M2).
Proof.
  intros Hadj [H1 [Hsz H2]%Forall_cons]%Forall_app. unfold taken.
  destruct (Z.leb_spec 32 (sz - adj)); rewrite Forall_app, ?Forall_cons; done.
Qed.

Lemma taken_total M1 sz adj M2 : total (taken M1 sz adj M2) = total (M1 ++ (sz, false) :: M2).
Proof. unfold taken. case_match; rewrite !total_app; simpl; lia. Qed.

(** What a successful allocation achieves. *)
Record allocated (s : mm_state) (M : row) (adj : Z) (b : Z) (s' : mm_state) (M' : row) (cap : Z)
  : Prop := {
  al_arena : same_arena s s';
  al_cap : adj ≤ cap;
  al_fresh : owned (mem_start_brk s) M !! b = None;
  al_owned : owned (mem_start_brk s) M' = <[b := cap]> (owned (mem_start_brk s) M);
  al_keep : preserves (owned (mem_start_brk s) M) s s';
}.

(** A free block that fits is found and taken. *)
Lemma take_block_heap s M1 sz adj M2 fl :
  heap_ok s (M1 ++ (sz, false) :: M2) fl → adj mod 8 = 0 → 32 ≤ adj ≤ sz →
  ∃ s' fl' b cap,
    take_block (mem_start_brk s + total ((16, true) :: M1)) adj s = Ok (payload b, s') ∧
    heap_ok s' (taken M1 sz adj M2) fl' ∧ mem_brk s' = mem_brk s ∧
    allocated s (M1 ++ (sz, false) :: M2) adj b s' (taken M1 sz adj M2) cap.
Proof.
  intros H H8 Hadj. pose proof (ho_row _ _ _ H) as Hrow. rewrite full_mid in Hrow.
  destruct (take_block_row _ _ _ _ _ _ Hrow H8 Hadj)
    as (s' & fl' & b & cap & Hrun & Hok & Hfr & Hcap & Hb1 & Hb2 & Hfresh & Hlive & Hk).
  pose proof (heap_blocks _ _ _ H) as HM. pose proof (taken_total M1 sz adj M2) as Ht.
  rewrite <-taken_full in Hok, Hlive. rewrite <-full_mid in Hlive, Hfresh, Hk.
  assert (Forall block_ok (taken M1 sz adj M2)) as HM' by apply full_blocks, (proj1 Hok).
  exists s', fl', b, cap. split_and!; [done| |apply Hfr|].
  - pose proof Hfr as (Hlo & Hbrk & _ & Hpro & Hepi). split; try done.
    + apply taken_inner; [lia|apply H].
    + apply taken_no_adj, H.
    + rewrite Hlo, Hbrk, total_full, Ht, <-total_full. apply H.
    + rewrite Hpro, Hlo. apply H.
    + rewrite Hepi, Hbrk. apply H.
  - pose proof HM as [Hn1 [_ Hn2]%Forall_cons]%Forall_app. apply total_nonneg in Hn1, Hn2.
    simpl in Hb1, Hb2. split; [split; apply Hfr|done|..].
    + rewrite owned_lookup by done. by case_decide.
    + apply owned_insert; try done. rewrite total_app. simpl. lia.
    + intros c szc y Hc. apply Hk. by eapply lookup_weaken; [|by apply owned_subseteq].
Qed.

(** The heap grows by one allocated block. *)
Section ExtendHeap.
Context (s : mm_state) (M : row) (fl : list Z) (adj : Z) (H : heap_ok s M fl).
Context (H8 : adj mod 8 = 0) (Hadj : 32 ≤ adj) (Hint : adj < 2 ^ 31).
Let lo := mem_start_brk s.
Let b := lo + 16 + total M.

Lemma epilogue_here : epilogue s = b.
Proof. rewrite (ho_epilogue _ _ _ H), (ho_brk _ _ _ H), total_full. unfold b, lo. lia. Qed.

Lemma extend_owned : owned lo (M ++ [(adj, true)]) = <[b := adj]> (owned lo M).
Proof.
  pose proof (heap_blocks _ _ _ H) as HM. apply map_eq. intros x. unfold owned.
  assert (block_ok (adj, true)) by (split_and!; simpl; done || lia).
  rewrite live_layout_app by (rewrite ?Forall_singleton; done). fold b.
  rewrite live_layout_cons. simpl. rewrite !lookup_insert.
  repeat case_decide; subst; try done; try lia. simpl.
  symmetry. apply eq_None_not_Some. intros [sz Hsz%live_lookup].
  apply layout_bounds in Hsz; [|done]. simpl in Hsz. unfold b in *. lia.
Qed.

Lemma extend_heap_fail : mem_max_addr s < mem_brk s + adj → extend_heap adj s = Ok (NULL, s).
Proof.
  intros Hmax. unfold extend_heap, mem_sbrk, mbind at 1, ST_bind at 1. rewrite to_int_small by lia.
  rewrite (proj2 (Z.ltb_ge adj 0)) by lia. simpl.
  rewrite Z.gtb_ltb, (proj2 (Z.ltb_lt _ _)) by lia. done.
Qed.

(** The two new tags, once the break has moved. *)
Lemma extend_tags :
  mem_brk s + adj ≤ mem_max_addr s →
  ∃ s2,
    (block_set_size_and_allocated b adj 1;; e ← block_next b; modify (set_epilogue e);;
     block_set_size_and_allocated e TAGS_SIZE 1) (set_brk (mem_brk s + adj) s) = Ok (tt, s2) ∧
    row_ok s2 (full (M ++ [(adj, true)])) fl ∧
    same_frame (set_epilogue (b + adj) (set_brk (mem_brk s + adj) s)) s2 ∧
    preserves (owned lo M) s s2.
Proof.
  intros Hmax. pose proof (ho_brk _ _ _ H) as Hbrk. rewrite total_full in Hbrk. fold lo in Hbrk.
  assert (row_ok s (((16, true) :: M) ++ [(16, true)]) fl) as Hrow by apply H.
  assert (lo + total ((16, true) :: M) = b) as Hb by (unfold b; simpl; lia).
  set (s0 := set_brk (mem_brk s + adj) s).
  assert (linked_heap s0 (layout lo (((16, true) :: M) ++ [(16, true)])) fl) as Hlh0.
  { by eapply linked_heap_frame; [apply (proj1 Hrow)|..]. }
  destruct (extend_block s _ adj fl Hrow H8 ltac:(lia) ltac:(fold lo; lia) s0 Hlh0 eq_refl eq_refl)
    as (s1 & Hrun1 & Hlh1 & Hfr1 & Hk1 & Htag1).
  fold lo in Hrun1, Hlh1, Hk1, Htag1. rewrite Hb in Hrun1, Htag1.
  run Hrun1. run (block_next_tagged _ _ _ _ Htag1). rewrite ST_modify.
  pose proof Hfr1 as (Hlo1 & Hbrk1 & Hmax1 & Hpro1 & _). simpl in Hlo1, Hbrk1, Hmax1, Hpro1.
  destruct (extend_epilogue s _ adj fl Hrow H8 ltac:(lia) ltac:(fold lo; lia)
    (set_epilogue (b + adj) s1)) as (s2 & Hrun2 & Hok2 & Hfr2 & Hk2); try done.
  { by eapply linked_heap_frame; [apply Hlh1|..]. }
  fold lo in Hrun2, Hk2. rewrite Hb in Hrun2. exists s2. split; [exact Hrun2|].
  split_and!; [by unfold full; rewrite <-app_assoc| |].
  - destruct Hfr2 as (E1 & E2 & E3 & E4 & E5). simpl in E1, E2, E3, E4, E5.
    unfold same_frame. simpl. rewrite E1, E2, E3, E4, E5. done.
  - (* the client's blocks are blocks of both intermediate rows *)
    pose proof (heap_blocks _ _ _ H) as HM.
    assert (∀ L, Forall block_ok L → owned lo M ⊆ live (layout lo (((16, true) :: M) ++ L))) as Hsub.
    { intros L HL. apply map_subseteq_spec. intros x sz Hx.
      pose proof (proj1 (live_lookup _ _ _) Hx) as Hbd. apply layout_bounds in Hbd; [|done].
      simpl in Hbd. rewrite live_layout_app by (rewrite ?Forall_cons; done).
      rewrite decide_True by (simpl; lia). rewrite live_layout_cons. simpl.
      rewrite lookup_insert_ne by lia. exact Hx. }
    assert (block_ok (adj, true) ∧ block_ok (16, true)) as [Hb1 Hb2]
      by (unfold block_ok; simpl; split_and!; done || lia).
    eapply (preserves_trans _ s0); [done|]. eapply preserves_trans; eapply preserves_keeps;
      [exact Hk1| |exact Hk2|]; apply Hsub; by rewrite ?Forall_cons.
Qed.

Lemma extend_heap_Ok :
  mem_brk s + adj ≤ mem_max_addr s →
  ∃ s', extend_heap adj s = Ok (payload b, s') ∧ heap_ok s' (M ++ [(adj, true)]) fl ∧
    mem_brk s' = mem_brk s + adj ∧ allocated s M adj b s' (M ++ [(adj, true)]) adj.
Proof.
  intros Hmax. unfold extend_heap, mem_sbrk, mbind at 1, ST_bind at 1. rewrite to_int_small by lia.
  rewrite (proj2 (Z.ltb_ge adj 0)) by lia. simpl.
  rewrite Z.gtb_ltb, (proj2 (Z.ltb_ge _ _)) by lia.
  destruct (heap_lo _ _ _ H) as [Hlo0 Hlo8]. pose proof (heap_blocks _ _ _ H) as HM.
  pose proof (ho_brk _ _ _ H) as Hbrk. rewrite total_full in Hbrk. pose proof (total_nonneg _ HM).
  rewrite (proj2 (Z.eqb_neq _ _)) by lia. rewrite ST_get. simpl. rewrite epilogue_here.
  destruct (extend_tags Hmax) as (s2 & Hrun & Hok & (Hlo & Hbrk2 & Hmax2 & Hpro & Hepi) & Hk).
  apply ST_bind_inv in Hrun as ([] & s1 & Hr1 & Hrun). run Hr1.
  apply ST_bind_inv in Hrun as (e & s3 & Hr2 & Hrun). run Hr2.
  apply ST_bind_inv in Hrun as ([] & s4 & Hr3 & Hrun). run Hr3. run Hrun. simpl in Hlo, Hbrk2, Hmax2, Hpro, Hepi.
  exists s2. split; [done|]. split_and!; [|done|].
  - split; try done.
    + apply Forall_app. split; [apply H|]. by apply Forall_singleton.
    + apply no_adj_snoc_true, H.
    + rewrite Hlo, Hbrk2, total_full, total_app. simpl. lia.
    + rewrite Hpro, Hlo. apply H.
    + rewrite Hepi, Hbrk2. unfold b, lo. lia.
  - split; [by split|lia| |apply extend_owned|done].
    rewrite owned_lookup by done. rewrite decide_False; [done|]. unfold b, lo. lia.
Qed.
End ExtendHeap.

(** No free block can serve the request. *)
Definition no_fit (M : row) (adj : Z) : Prop := ∀ sz, (sz, false) ∈ M → sz < adj.

Lemma no_fit_scan s M fl adj :
  heap_ok s M fl → too_small (layout (mem_start_brk s) (full M)) adj fl → no_fit M adj.
Proof.
  intros H Hsmall sz (M1 & M2 & ->)%list_elem_of_split.
  destruct (ho_row _ _ _ H) as [Hrow Hperm].
  assert (layout (mem_start_brk s) (full (M1 ++ (sz, false) :: M2)) !!
    (mem_start_brk s + total ((16, true) :: M1)) = Some (sz, false)) as Hl.
  { rewrite full_mid in *. apply layout_mid, Hrow. }
  eapply Hsmall; [|exact Hl]. rewrite Hperm. apply free_addrs_lookup; [apply Hrow|eauto].
Qed.

(** A free block of the full row is not a sentinel. *)
Lemma full_free_split M L1 sz L2 :
  full M = L1 ++ (sz, false) :: L2 →
  ∃ M1 M2, M = M1 ++ (sz, false) :: M2 ∧ L1 = (16, true) :: M1.
Proof.
  unfold full. destruct L1 as [|c L1]; simpl; [done|]. intros [= <- Heq].
  destruct L2 as [|c L2 _] using rev_ind.
  - apply app_inj_tail in Heq as [_ [=]].
  - rewrite app_comm_cons, app_assoc in Heq. apply app_inj_tail in Heq as [-> _].
    by exists L1, L2.
Qed.

(** The search of [mm_malloc]: the first block that fits is taken, or no block
    fits. *)
Definition malloc_search (adj : Z) (s : mm_state) : result (option Z * mm_state) :=
  (if negb (flist_first s =? NULL)
   then malloc_scan (scan_fuel s) adj (flist_first s) else mret None) s.

Lemma malloc_search_spec s M fl adj :
  heap_ok s M fl →
  (∃ M1 sz M2, M = M1 ++ (sz, false) :: M2 ∧ adj ≤ sz ∧
     malloc_search adj s =
       (p ← take_block (mem_start_brk s + total ((16, true) :: M1)) adj; mret (Some p)) s) ∨
  (malloc_search adj s = Ok (None, s) ∧ no_fit M adj).
Proof.
  intros H. pose proof (ho_row _ _ _ H) as [Hrow Hperm]. pose proof (rh_heap _ _ _ Hrow) as Hlh.
  pose proof (no_fit_scan s M fl adj H) as Hnofit. unfold malloc_search. rewrite (lh_first _ _ _ Hlh).
  pose proof (scan_fuel_enough s (full M) fl (ho_row _ _ _ H) (ho_brk _ _ _ H)) as Hfuel.
  destruct fl as [|cur l]; simpl.
  - right. split; [done|]. apply Hnofit. by intros ?? ?%not_elem_of_nil.
  - assert (cur ≠ NULL) as Hcur.
    { destruct (lh_free _ _ _ Hlh cur) as [sz Hsz]; [set_solver|].
      apply layout_bounds in Hsz; [|apply Hrow]. destruct (heap_lo _ _ _ H). unfold NULL. lia. }
    rewrite (proj2 (Z.eqb_neq _ _) Hcur). simpl.
    destruct (malloc_scan_spec s (full M) (cur :: l) adj l Hrow cur [] (scan_fuel s))
      as [(L1 & sz & L2 & Heq & Hsz & Hscan)|[Hscan Hsmall]].
    + done.
    + simpl in Hfuel. lia.
    + by intros ?? ?%not_elem_of_nil.
    + left. apply full_free_split in Heq as (M1 & M2 & -> & ->). by exists M1, sz, M2.
    + right. split; [done|by apply Hnofit].
Qed.

(** [mm_malloc]: the free list is searched, then the heap grows. *)
Lemma mm_malloc_heap s M fl size :
  heap_ok s M fl → 0 < size → request size < 2 ^ 31 →
  (∃ s' M' fl' b cap, mm_malloc size s = Ok (payload b, s') ∧ heap_ok s' M' fl' ∧
     allocated s M (request size) b s' M' cap) ∨
  (mm_malloc size s = Ok (NULL, s) ∧ no_fit M (request size) ∧
     mem_max_addr s < mem_brk s + request size).
Proof.
  intros H Hpos Hint. destruct (request_spec size Hpos) as (H8 & H32 & Hge & Hle).
  unfold mm_malloc. rewrite (proj2 (Z.eqb_neq _ _)) by lia.
  run (adjusted_Ok s size Hpos ltac:(lia)). rewrite ST_get.
  set (adj := request size) in *.
  destruct (malloc_search_spec s M fl adj H) as [(M1 & sz & M2 & -> & Hsz & Hscan)|[Hscan Hnofit]].
  - left. destruct (take_block_heap s M1 sz adj M2 fl H H8 ltac:(lia))
      as (s' & fl' & b & cap & Hrun & Hok & _ & Hal).
    exists s', (taken M1 sz adj M2), fl', b, cap. split; [|done].
    rewrite (ST_bind_Ok _ _ _ (Some (payload b)) s'); [done|].
    unfold malloc_search in Hscan. rewrite Hscan. by run Hrun.
  - unfold malloc_search in Hscan. run Hscan. destruct (decide (mem_brk s + adj ≤ mem_max_addr s)) as [Hfit|Hfull].
    + left. destruct (extend_heap_Ok s M fl adj H H8 ltac:(lia) Hint Hfit) as (s' & Hrun & Hok & _ & Hal).
      by exists s', (M ++ [(adj, true)]), fl, (mem_start_brk s + 16 + total M), adj.
    + right. split_and!; [by eapply extend_heap_fail; first [done|lia]|done|lia].
Qed.

(** ** [mm_init] *)
Lemma mm_init_heap arena contents s :
  0 < arena → arena mod 8 = 0 →
  ∃ s', mm_init arena contents s = Ok (0, s') ∧ heap_ok s' [] [] ∧
    mem_start_brk s' = arena ∧ mem_max_addr s' = arena + MAX_HEAP.
Proof.
  intros Ha H8. assert (MAX_HEAP = 20971520) as HM by reflexivity.
  unfold mm_init, mem_init. rewrite (proj2 (Z.eqb_neq _ _)) by (unfold NULL; lia).
  rewrite ST_modify. unfold mem_sbrk, mbind at 1, ST_bind at 1.
  change (to_int (2 * TAGS_SIZE)) with 32. simpl (mem_brk _). simpl (mem_max_addr _). simpl (32 <? 0).
  rewrite orb_false_l, Z.gtb_ltb, (proj2 (Z.ltb_ge _ _)) by lia. rewrite ST_modify.
  rewrite (proj2 (Z.eqb_neq _ _)) by lia. change TAGS_SIZE with 16. simpl.
  assert (∀ st, mem_start_brk st = arena → mem_max_addr st = arena + MAX_HEAP →
    ∀ x k, x = arena + 8 * k → 0 ≤ k ≤ 3 → word_ok st x = true) as Hok.
  { intros st H1 H2 x k -> Hk. apply word_ok_spec. rewrite H1, H2. split_and!; [|lia..].
    Z.to_euclidean_division_equations; lia. }
  match goal with |- context [(block_set_size_and_allocated _ _ _ ≫= _) ?st] =>
    run (block_set_size_and_allocated_Ok st arena 16 true
      (Hok st eq_refl eq_refl arena 0 ltac:(lia) ltac:(lia))
      (Hok st eq_refl eq_refl (arena + 16 - 8) 1 ltac:(lia) ltac:(lia)) ltac:(lia) eq_refl) end.
  rewrite ST_modify.
  match goal with |- context [(block_set_size_and_allocated _ _ _ ≫= _) ?st] =>
    run (block_set_size_and_allocated_Ok st (arena + 16) 16 true
      (Hok st eq_refl eq_refl (arena + 16) 2 ltac:(lia) ltac:(lia))
      (Hok st eq_refl eq_refl (arena + 16 + 16 - 8) 3 ltac:(lia) ltac:(lia)) ltac:(lia) eq_refl) end.
  rewrite ST_modify. eexists. split; [done|]. split_and!; [|done..].
  assert (Forall block_ok (full [])) as Hb by (by repeat constructor).
  split; simpl; [|by constructor|done|lia|done|lia].
  split; [|done]. split; simpl; [done|done|lia|].
  split; simpl; [apply (sep_layout _ _ (full [])); simpl; done || lia| | |by constructor| |done].
  - intros a sz al. rewrite !lookup_insert. unfold with_tags.
    repeat case_decide; intros [= <- <-]; subst; rewrite !word_insert; repeat case_decide; done || lia.
  - by intros ? ?%not_elem_of_nil.
  - by intros ? ? ?%not_elem_of_nil.
Qed.
