(* ===== verification/MmRealloc.v ===== *)
(** * [mm_realloc]: growing in place, moving, and client writes.

    Writing the payload of an owned block keeps the invariant, which covers the
    client's own stores as well as the copy that [mm_realloc] makes. *)

From Stdlib Require Import ZArith Lia.
From stdpp Require Import base gmap numbers option list.
From S2P Require Import Prelude Memlib MmInline Mm MmHeap MmLayout MmProofs MmSpec.

Open Scope Z_scope.

(** ** Writes to payloads *)

(** [y] is in the payload of an owned block. *)
Definition in_payload (O : gmap Z Z) (y : Z) : Prop :=
  ∃ b sz, O !! b = Some sz ∧ b + 8 ≤ y < b + sz - 8.

(** Owned blocks are disjoint. *)
Lemma owned_disjoint s M fl b sz c szc :
  heap_ok s M fl → owned (mem_start_brk s) M !! b = Some sz →
  owned (mem_start_brk s) M !! c = Some szc → b ≠ c → b + sz ≤ c ∨ c + szc ≤ b.
Proof.
  intros H Hb Hc. pose proof (owned_subseteq (mem_start_brk s) M (heap_blocks _ _ _ H)) as Hsub.
  eapply lookup_weaken in Hb; [|exact Hsub]. eapply lookup_weaken in Hc; [|exact Hsub].
  apply live_lookup in Hb, Hc. eapply sep_disj; [|done..].
  apply (lh_sep _ _ _ (rh_heap _ _ _ (proj1 (ho_row _ _ _ H)))).
Qed.

(** No tag and no link is in the payload of an owned block. *)
Lemma payload_not_tag s M fl y a sz al :
  heap_ok s M fl → in_payload (owned (mem_start_brk s) M) y →
  layout (mem_start_brk s) (full M) !! a = Some (sz, al) →
  y ≠ a ∧ y ≠ a + sz - 8 ∧ (al = false → y ≠ a + 8 ∧ y ≠ a + 16).
Proof.
  intros H (b & szb & Hb & Hy) Ha. pose proof (rh_heap _ _ _ (proj1 (ho_row _ _ _ H))) as Hlh.
  assert (layout (mem_start_brk s) (full M) !! b = Some (szb, true)) as Hb'.
  { apply live_lookup. by eapply lookup_weaken; [|by eapply owned_subseteq, heap_blocks]. }
  pose proof (sep_block _ _ _ (lh_sep _ _ _ Hlh) _ _ _ Ha) as (_ & _ & Hsz & _ & _ & Hf).
  destruct (decide (a = b)) as [->|Hne].
  - simplify_eq. split_and!; [lia..|done].
  - pose proof (sep_disj _ _ _ (lh_sep _ _ _ Hlh) _ _ _ _ _ _ Ha Hb' Hne).
    split_and!; [lia..|]. intros ->. specialize (Hf eq_refl). lia.
Qed.

Lemma heap_ok_payload s M fl w :
  heap_ok s M fl →
  (∀ y, ¬ in_payload (owned (mem_start_brk s) M) y → word w y = word (words s) y) →
  heap_ok (set_words w s) M fl.
Proof.
  intros H Hw. pose proof H as [[Hrow Hperm] Hin Hadj Hbrk Hpro Hepi].
  assert (∀ a sz al, layout (mem_start_brk s) (full M) !! a = Some (sz, al) →
    word w a = word (words s) a ∧ word w (a + sz - 8) = word (words s) (a + sz - 8) ∧
    (al = false → word w (a + 8) = word (words s) (a + 8) ∧
                  word w (a + 16) = word (words s) (a + 16))) as Hsame.
  { intros a sz al Ha. split_and!; [| |intros ->; split]; apply Hw; intros Hp;
      destruct (payload_not_tag _ _ _ _ _ _ _ H Hp Ha) as (? & ? & Hf); try done;
      by destruct (Hf eq_refl). }
  split; try done. split; [|done].
  destruct Hrow as [Hb H8 Hhi [Hsep Htags Hfree Hnd Hring Hfirst]]. split; try done. split; try done.
  - intros a sz al Ha. simpl. destruct (Hsame a sz al Ha) as (-> & -> & _). by apply Htags.
  - eapply Ring.ring_frame; [|exact Hring]. intros z Hz. destruct (Hfree z Hz) as [sz Hsz].
    destruct (Hsame _ _ _ Hsz) as (_ & _ & Hf). by apply Hf.
Qed.

(** The words of an owned payload are accessible. *)
Lemma payload_word_ok s M fl b sz off :
  heap_ok s M fl → owned (mem_start_brk s) M !! b = Some sz →
  0 ≤ off → off + 8 ≤ sz → off mod 8 = 0 → word_ok s (b + off) = true.
Proof.
  intros H Hb. eapply heap_word_ok; [apply (proj1 (ho_row _ _ _ H))|]. apply live_lookup.
  by eapply lookup_weaken; [|by eapply owned_subseteq, heap_blocks].
Qed.

(** A client's store to a word of a payload it owns. *)
Lemma client_store s M fl b sz i v :
  heap_ok s M fl → owned (mem_start_brk s) M !! b = Some sz → 0 ≤ i → 8 + 8 * i + 8 ≤ sz - 8 →
  ∃ s', store (payload b + 8 * i) v s = Ok (tt, s') ∧ heap_ok s' M fl ∧ same_frame s s' ∧
    s' = set_words (<[payload b + 8 * i := v]> (words s)) s.
Proof.
  intros H Hb Hi Hsz. eexists. split_and!; [apply store_Ok| |done|done].
  - unfold payload, WORD_SIZE. rewrite <-Z.add_assoc.
    eapply payload_word_ok; [done|done|lia..|]. Z.to_euclidean_division_equations; lia.
  - apply heap_ok_payload; [done|]. intros y Hy. apply word_insert_ne. intros <-. apply Hy.
    exists b, sz. unfold payload, WORD_SIZE. split; [done|lia].
Qed.

(** ** [memcpy] *)
Lemma copy_words_spec n dst src s :
  (∀ i, 0 ≤ i < Z.of_nat n → word_ok s (src + 8 * i) = true ∧ word_ok s (dst + 8 * i) = true) →
  (dst + 8 * Z.of_nat n ≤ src ∨ src + 8 * Z.of_nat n ≤ dst) →
  ∃ w, copy_words n dst src s = Ok (tt, set_words w s) ∧
    (∀ i, 0 ≤ i < Z.of_nat n → word w (dst + 8 * i) = word (words s) (src + 8 * i)) ∧
    (∀ y, y < dst ∨ dst + 8 * Z.of_nat n ≤ y → word w y = word (words s) y).
Proof.
  revert dst src s. induction n as [|n IH]; intros dst src s Hok Hdisj.
  { exists (words s). split_and!; [by destruct s|lia|done]. }
  rewrite Nat2Z.inj_succ in *. cbn [copy_words].
  destruct (Hok 0) as [Hs Hd]; [lia|]. rewrite Z.mul_0_r, Z.add_0_r in Hs, Hd.
  run (load_Ok s src Hs). run (store_Ok s dst (word (words s) src) Hd).
  set (s1 := set_words (<[dst := word (words s) src]> (words s)) s).
  destruct (IH (dst + 8) (src + 8) s1) as (w & Hrun & Hcopy & Hother).
  { intros i Hi. specialize (Hok (i + 1)). replace (src + 8 + 8 * i) with (src + 8 * (i + 1)) by lia.
    replace (dst + 8 + 8 * i) with (dst + 8 * (i + 1)) by lia. apply Hok. lia. }
  { lia. }
  exists w. split_and!; [exact Hrun| |].
  - intros i Hi. destruct (decide (i = 0)) as [->|Hne].
    + rewrite Z.mul_0_r, !Z.add_0_r, Hother by lia. simpl. apply word_insert_eq.
    + specialize (Hcopy (i - 1) ltac:(lia)).
      replace (dst + 8 + 8 * (i - 1)) with (dst + 8 * i) in Hcopy by lia. rewrite Hcopy. simpl.
      replace (src + 8 + 8 * (i - 1)) with (src + 8 * i) by lia. apply word_insert_ne. lia.
  - intros y Hy. rewrite Hother by lia. simpl. apply word_insert_ne. lia.
Qed.

(** ** Growing in place *)
Lemma grow_live lo L1 sz sn L2 :
  Forall block_ok (L1 ++ (sz, true) :: (sn, false) :: L2) → block_ok (sz + sn, true) →
  live (layout lo (L1 ++ (sz + sn, true) :: L2)) =
    <[lo + total L1 := sz + sn]> (live (layout lo (L1 ++ (sz, true) :: (sn, false) :: L2))).
Proof.
  intros (H1 & (Hbt & (Hbf & H2)%Forall_cons)%Forall_cons)%Forall_app Hb.
  apply map_eq. intros x. rewrite live_layout_app by (rewrite ?Forall_cons; done).
  rewrite lookup_insert, live_layout_app by (rewrite ?Forall_cons; done).
  rewrite !live_layout_cons. simpl. rewrite !lookup_insert, lookup_delete, Z.add_assoc.
  pose proof (live_below (lo + total L1 + sz + sn) L2 x H2) as Hbelow.
  destruct Hbf as (_ & ? & _), Hbt as (_ & ? & _). simpl in *.
  repeat case_decide; subst; try done; try lia. by rewrite Hbelow by lia.
Qed.

(** Pulling the free block after [L1 ++ [(sz, true)]] and retagging both. *)
Lemma grow_row s L1 sz sn L2 fl :
  row_ok s (L1 ++ (sz, true) :: (sn, false) :: L2) fl →
  let lo := mem_start_brk s in
  let b := lo + total L1 in
  let L' := L1 ++ (sz + sn, true) :: L2 in
  ∃ s' fl',
    (pull_free_block (b + sz);; next_size ← block_size (b + sz);
     block_set_size_and_allocated b (sz + next_size) 1) s = Ok (tt, s') ∧
    row_ok s' L' fl' ∧ same_frame s s' ∧
    (∀ K, K ⊆ live (layout lo (L1 ++ (sz, true) :: (sn, false) :: L2)) → preserves K s s').
Proof.
  intros H lo b L'. set (L := L1 ++ (sz, true) :: (sn, false) :: L2) in *.
  assert (L = (L1 ++ [(sz, true)]) ++ (sn, false) :: L2) as HL by (by rewrite <-app_assoc).
  destruct (row_pull s (L1 ++ [(sz, true)]) sn L2 fl) as (s1 & fl1 & Hrun1 & Hrow1 & Hfr1 & Hperm1 & Hk1);
    [by rewrite <-HL|].
  pose proof (row_split _ _ _ _ _ _ Hrow1) as ([HL1 [Hbt _]%Forall_cons]%Forall_app & Hbf & HL2).
  pose proof (row_tagged _ _ _ _ _ _ Hrow1) as Htag.
  pose proof Hfr1 as (Hlo1 & _). rewrite Hlo1 in Htag. fold lo in Htag.
  rewrite <-HL in Hrow1, Hk1. rewrite total_app in Hrun1, Hperm1, Htag.
  rewrite free_addrs_app in Hperm1.
  simpl in Hrun1, Hperm1, Htag. rewrite Z.add_0_r, Z.add_assoc in Hrun1, Htag, Hperm1.
  fold lo b in Hrun1, Hperm1, Hk1, Htag. run Hrun1. run (block_size_tagged _ _ _ _ Htag).
  assert (block_ok (sz + sn, true)) as Hb.
  { destruct Hbt as (? & ? & _), Hbf as (? & ? & _). simpl in *.
    split; simpl; [Z.to_euclidean_division_equations; lia|split; [lia|done]]. }
  assert (fl1 ≡ₚ free_addrs lo L') as Hperm'.
  { unfold L'. rewrite free_addrs_app, Hperm1. simpl. fold b. by rewrite app_nil_r, Z.add_assoc. }
  destruct (row_set_both s1 L1 [(sz, true); (sn, false)] L2 true fl1 Hrow1)
    as (Hrun2 & Hok2 & Hk2); simpl; rewrite ?Z.add_0_r; try done.
  { intros z. rewrite Hlo1. fold lo L'. by rewrite <-Hperm'. }
  simpl in Hrun2, Hok2, Hk2. rewrite Hlo1, Z.add_0_r in Hrun2, Hok2, Hk2.
  fold lo b L' in Hrun2, Hok2, Hk2. eexists _, fl1. split; [exact Hrun2|]. split_and!; [|done|].
  - split; [done|]. simpl. by rewrite Hlo1.
  - intros K HK. eapply preserves_trans; [intros c szc y Hc; apply Hk1; by eapply lookup_weaken|].
    intros c szc y Hc Hy. eapply lookup_weaken in Hc; [|exact HK].
    pose proof (grow_live lo L1 sz sn L2 (rh_blocks _ _ _ Hrow1) Hb) as Hlive. fold b L' L in Hlive.
    assert (b + sz ≤ b + (sz + sn)) as Hle by (destruct Hbf as (_ & ? & _); simpl in *; lia).
    destruct (decide (c = b)) as [->|Hne].
    + assert (szc = sz) as ->.
      { apply live_lookup in Hc. pose proof (layout_mid lo L1 (sz, true) ((sn, false) :: L2)
          (rh_blocks _ _ _ Hrow1)) as Hm. unfold L, b in Hc. congruence. }
      apply (Hk2 b (sz + sn)); [|lia]. apply live_lookup. by rewrite Hlive, lookup_insert_eq.
    + apply (Hk2 c szc); [|done]. apply live_lookup. by rewrite Hlive, lookup_insert_ne.
Qed.

Lemma grow_heap s M1 sz sn M2 fl :
  heap_ok s (M1 ++ (sz, true) :: (sn, false) :: M2) fl →
  let lo := mem_start_brk s in
  let b := lo + 16 + total M1 in
  let M := M1 ++ (sz, true) :: (sn, false) :: M2 in
  let M' := M1 ++ (sz + sn, true) :: M2 in
  ∃ s' fl',
    (pull_free_block (b + sz);; next_size ← block_size (b + sz);
     block_set_size_and_allocated b (sz + next_size) 1) s = Ok (tt, s') ∧
    heap_ok s' M' fl' ∧ same_frame s s' ∧
    owned lo M' = <[b := sz + sn]> (owned lo M) ∧ preserves (owned lo M) s s'.
Proof.
  intros H lo b M M'. pose proof (ho_row _ _ _ H) as Hrow. rewrite full_mid in Hrow. simpl in Hrow.
  destruct (grow_row s ((16, true) :: M1) sz sn (M2 ++ [(16, true)]) fl Hrow)
    as (s' & fl' & Hrun & Hok & Hfr & Hk). fold lo in Hrun, Hk.
  replace (lo + total ((16, true) :: M1)) with b in Hrun by (unfold b; simpl; lia).
  rewrite <-full_mid in Hok. fold M' in Hok.
  pose proof (heap_blocks _ _ _ H) as HM.
  assert (Forall block_ok M') as HM' by apply full_blocks, (proj1 Hok).
  assert (total M' = total M) as Ht by (unfold M, M'; rewrite !total_app; simpl; lia).
  exists s', fl'. split_and!; try done.
  - pose proof Hfr as (Hlo & Hbrk & _ & Hpro & Hepi).
    pose proof (ho_inner _ _ _ H) as Hin. pose proof (ho_adj _ _ _ H) as Hadj. split; try done.
    + unfold M'. rewrite Forall_app, !Forall_cons in *. simpl in *. intuition lia.
    + apply no_adj_true in Hadj as [? Hadj]. apply no_adj_true. split; [done|apply Hadj].
    + rewrite Hlo, Hbrk, total_full, Ht, <-total_full. apply H.
    + rewrite Hpro, Hlo. apply H.
    + rewrite Hepi, Hbrk. apply H.
  - pose proof HM as (H1 & (Hbt & (Hbf & H2)%Forall_cons)%Forall_cons)%Forall_app.
    apply total_nonneg in H1, H2. destruct Hbt as (_ & ? & _), Hbf as (_ & ? & _).
    apply owned_insert; try done.
    { unfold M, b. rewrite total_app. simpl in *. lia. }
    unfold M', M. rewrite !full_mid.
    replace b with (lo + total ((16, true) :: M1)) by (unfold b; simpl; lia).
    simpl ((_ :: _) ++ [_]). apply grow_live; [by apply full_blocks in HM; rewrite full_mid in HM|].
    by apply Forall_app in HM' as [_ [Hb _]%Forall_cons].
  - apply Hk. etrans; [by apply owned_subseteq|]. unfold M. rewrite full_mid. done.
Qed.

(** ** [mm_realloc] *)

(** The block after [b] allows growing in place. *)
Definition grows (sz adj : Z) (M2 : row) : bool :=
  match M2 with (sn, false) :: _ => adj <=? sz + sn | _ => false end.

Section Realloc.
Context (s : mm_state) (M1 M2 : row) (sz size : Z) (fl : list Z).
Let lo := mem_start_brk s.
Let b := lo + 16 + total M1.
Let M := M1 ++ (sz, true) :: M2.
Context (H : heap_ok s M fl) (Hpos : 0 < size) (Hint : request size < 2 ^ 31).

Lemma realloc_pos : 0 < b.
Proof.
  destruct (heap_lo _ _ _ H) as [Hlo _]. pose proof (heap_blocks _ _ _ H) as [HM _]%Forall_app.
  apply total_nonneg in HM. unfold b, lo. lia.
Qed.

Lemma realloc_row : row_heap s (((16, true) :: M1) ++ (sz, true) :: M2 ++ [(16, true)]) fl.
Proof. rewrite <-full_mid. apply (ho_row _ _ _ H). Qed.

Lemma realloc_at : lo + total ((16, true) :: M1) = b.
Proof. unfold b. simpl. lia. Qed.

Lemma realloc_tagged : tagged s b sz true.
Proof. rewrite <-realloc_at. apply (row_tagged _ _ _ _ _ _ realloc_row). Qed.

(** The block after it. *)
Lemma realloc_next : ∃ sn an L3, M2 ++ [(16, true)] = (sn, an) :: L3 ∧ tagged s (b + sz) sn an.
Proof.
  assert (∃ sn an L3, M2 ++ [(16, true)] = (sn, an) :: L3) as (sn & an & L3 & Heq).
  { destruct M2 as [|[sn an] M2']; [by exists 16, true, []|by exists sn, an, (M2' ++ [(16, true)])]. }
  exists sn, an, L3. split; [done|]. pose proof realloc_row as Hrow. rewrite Heq in Hrow.
  pose proof (row_tagged s (((16, true) :: M1) ++ [(sz, true)]) sn an L3 fl) as Ht.
  rewrite <-app_assoc, total_app in Ht. simpl in Ht. simpl in Hrow.
  replace (mem_start_brk s + (16 + total M1 + (sz + 0))) with (b + sz) in Ht
    by (unfold b, lo; lia). apply Ht, Hrow.
Qed.

Lemma realloc_enter :
  mm_realloc (payload b) size s =
    (if request size <=? sz then mret (payload b)
     else
       next_al ← block_allocated (b + sz);
       next_size ← block_size (b + sz);
       if (next_al =? 0) && (sz + next_size >=? request size) then
         pull_free_block (b + sz);; next_size ← block_size (b + sz);
         block_set_size_and_allocated b (sz + next_size) 1;; mret (payload b)
       else
         new_ptr ← mm_malloc size;
         if new_ptr =? NULL then mret NULL
         else len ← align size; memcpy new_ptr (payload b) len;; mm_free (payload b);; mret new_ptr) s.
Proof.
  pose proof realloc_pos as Hb. destruct (request_spec size Hpos) as (_ & _ & ? & ?).
  unfold mm_realloc.
  rewrite (proj2 (Z.eqb_neq (payload b) _)) by (unfold payload, WORD_SIZE, NULL; lia).
  rewrite (proj2 (Z.eqb_neq size _)) by lia. cbv zeta.
  unfold payload_to_block. replace (payload b - WORD_SIZE) with b by (unfold payload; lia).
  run (block_size_tagged _ _ _ _ realloc_tagged).
  run (adjusted_Ok s size Hpos ltac:(lia)).
  destruct (request size <=? sz); [done|].
  run (block_next_tagged _ _ _ _ realloc_tagged). done.
Qed.

(** The block is large enough already. *)
Lemma realloc_keep : request size ≤ sz → mm_realloc (payload b) size s = Ok (payload b, s).
Proof. intros Hle. rewrite realloc_enter, (proj2 (Z.leb_le _ _) Hle). done. Qed.

(** The request moves to a new block. *)
Lemma realloc_moves :
  sz < request size → grows sz (request size) M2 = false →
  mm_realloc (payload b) size s =
    (new_ptr ← mm_malloc size;
     if new_ptr =? NULL then mret NULL
     else len ← align size; memcpy new_ptr (payload b) len;; mm_free (payload b);; mret new_ptr) s.
Proof.
  intros Hlt Hg. rewrite realloc_enter, (proj2 (Z.leb_gt _ _) Hlt).
  destruct realloc_next as (sn & an & L3 & Heq & Ht).
  run (block_allocated_tagged _ _ _ _ Ht). run (block_size_tagged _ _ _ _ Ht).
  assert (((Z.b2z an =? 0) && (sz + sn >=? request size)) = false) as ->; [|done].
  destruct an; [done|]. destruct M2 as [|[sn' an'] M2']; [done|]. injection Heq as -> -> _.
  simpl in Hg |- *. by rewrite Z.geb_leb.
Qed.
End Realloc.

(** The next block is free and large enough. *)
Lemma realloc_grow s M1 sz sn M2 size fl :
  let lo := mem_start_brk s in
  let b := lo + 16 + total M1 in
  let M := M1 ++ (sz, true) :: (sn, false) :: M2 in
  let M' := M1 ++ (sz + sn, true) :: M2 in
  heap_ok s M fl → 0 < size → request size < 2 ^ 31 → sz < request size ≤ sz + sn →
  ∃ s' fl', mm_realloc (payload b) size s = Ok (payload b, s') ∧ heap_ok s' M' fl' ∧
    same_frame s s' ∧ owned lo M' = <[b := sz + sn]> (owned lo M) ∧ preserves (owned lo M) s s'.
Proof.
  intros lo b M M' H Hpos Hint [Hlt Hle].
  destruct (grow_heap s M1 sz sn M2 fl H) as (s' & fl' & Hrun & Hok & Hfr & Hown & Hk).
  fold lo b M M' in Hrun, Hok, Hown, Hk. exists s', fl'. split; [|done].
  unfold b, lo. rewrite (realloc_enter s M1 _ sz size fl H Hpos Hint). fold lo b.
  rewrite (proj2 (Z.leb_gt _ _) Hlt).
  destruct (realloc_next s M1 _ sz fl H) as (sn' & an & L3 & Heq & Ht).
  simpl in Heq. injection Heq as <- <- <-. fold lo b in Ht.
  run (block_allocated_tagged _ _ _ _ Ht). run (block_size_tagged _ _ _ _ Ht). simpl.
  rewrite Z.geb_leb, (proj2 (Z.leb_le _ _) Hle).
  apply ST_bind_inv in Hrun as ([] & s1 & Hr1 & Hrun). run Hr1.
  apply ST_bind_inv in Hrun as (v & s2 & Hr2 & Hrun). run Hr2. by run Hrun.
Qed.

(** The bytes [mm_realloc] copies: the new request, rounded up. *)
Definition copied (size : Z) : Z := 8 * ((size + 7) / 8).

Lemma copied_spec size :
  0 < size → copied size mod 8 = 0 ∧ 0 < copied size ∧ copied size + 16 ≤ request size ∧
    (∀ sz, sz mod 8 = 0 → 32 ≤ sz → sz < request size → sz - 16 ≤ copied size).
Proof.
  intros Hpos. unfold copied, request. split_and!.
  - rewrite Z.mul_comm. by apply Z.mod_mul.
  - Z.to_euclidean_division_equations; lia.
  - replace (size + 23) with (size + 7 + 2 * 8) by lia. rewrite Z.div_add by lia. lia.
  - intros sz _ H32 Hlt. replace (size + 23) with (size + 7 + 2 * 8) in Hlt by lia.
    rewrite Z.div_add in Hlt by lia. lia.
Qed.

Lemma memcpy_spec s dst src n :
  0 ≤ n → (∀ i, 0 ≤ i < n → word_ok s (src + 8 * i) = true ∧ word_ok s (dst + 8 * i) = true) →
  dst + 8 * n ≤ src ∨ src + 8 * n ≤ dst →
  ∃ w, memcpy dst src (8 * n) s = Ok (tt, set_words w s) ∧
    (∀ i, 0 ≤ i < n → word w (dst + 8 * i) = word (words s) (src + 8 * i)) ∧
    (∀ y, y < dst ∨ dst + 8 * n ≤ y → word w y = word (words s) y).
Proof.
  intros Hn Hok Hdisj. unfold memcpy.
  assert (overlap dst src (8 * n) = false) as ->.
  { unfold overlap. apply andb_false_iff. rewrite !Z.ltb_ge. lia. }
  rewrite (Z.mul_comm 8 n), Z.div_mul, (Z.mul_comm n 8) by lia.
  destruct (copy_words_spec (Z.to_nat n) dst src s) as (w & Hrun & Hc & Ho); rewrite ?Z2Nat.id in *; try lia.
  - done.
  - by exists w.
Qed.

Section Move.
Context (s : mm_state) (M1 M2 : row) (sz size : Z) (fl : list Z).
Let lo := mem_start_brk s.
Let b := lo + 16 + total M1.
Let M := M1 ++ (sz, true) :: M2.
Context (H : heap_ok s M fl) (Hpos : 0 < size) (Hint : request size < 2 ^ 31).
Context (Hlt : sz < request size) (Hgrows : grows sz (request size) M2 = false).
Context (s1 : mm_state) (M' : row) (fl1 : list Z) (b' cap : Z).
Context (Hrun : mm_malloc size s = Ok (payload b', s1)).
Context (Hok : heap_ok s1 M' fl1) (Hal : allocated s M (request size) b' s1 M' cap).

Lemma move_owned : owned lo M !! b = Some sz.
Proof. apply live_lookup, layout_mid. by eapply heap_blocks. Qed.

Lemma move_lo : mem_start_brk s1 = lo.
Proof. apply (al_arena _ _ _ _ _ _ _ Hal). Qed.

Lemma move_ne : b' ≠ b.
Proof.
  intros Heq. pose proof (al_fresh _ _ _ _ _ _ _ Hal) as Hf. rewrite Heq in Hf. fold lo in Hf.
  by rewrite move_owned in Hf.
Qed.

Lemma move_old : owned lo M' !! b = Some sz.
Proof.
  unfold lo. rewrite (al_owned _ _ _ _ _ _ _ Hal), lookup_insert_ne by apply move_ne.
  apply move_owned.
Qed.

Lemma move_new : owned lo M' !! b' = Some cap.
Proof. unfold lo. by rewrite (al_owned _ _ _ _ _ _ _ Hal), lookup_insert_eq. Qed.

Lemma move_sz : sz mod 8 = 0 ∧ 32 ≤ sz.
Proof.
  pose proof (heap_blocks _ _ _ H) as [_ [(? & _) _]%Forall_cons]%Forall_app.
  by pose proof (ho_inner _ _ _ H) as [_ [? _]%Forall_cons]%Forall_app.
Qed.

Lemma move_pos : 0 < b'.
Proof.
  pose proof move_new as Hb. apply live_lookup, layout_bounds in Hb; [|by eapply heap_blocks].
  pose proof (heap_lo _ _ _ H) as [Hlo _]. unfold lo in Hb. lia.
Qed.

Lemma move_run :
  mm_realloc (payload b) size s =
    (memcpy (payload b') (payload b) (copied size);; mm_free (payload b);; mret (payload b')) s1.
Proof.
  pose proof move_pos. destruct (request_spec size Hpos) as (_ & _ & ? & _).
  unfold b, lo. rewrite (realloc_moves s M1 M2 sz size fl H Hpos Hint Hlt Hgrows). fold lo b.
  run Hrun. rewrite (proj2 (Z.eqb_neq _ _)) by (unfold payload, WORD_SIZE, NULL; lia).
  run (align_Ok s1 size ltac:(lia) ltac:(lia)). done.
Qed.

(** The regions overlap: the copy is undefined. *)
Lemma move_overlap :
  overlap (payload b') (payload b) (copied size) = true →
  mm_realloc (payload b) size s = Err BadAccess.
Proof.
  intros Ho. rewrite move_run. apply ST_bind_Err. unfold memcpy. by rewrite Ho.
Qed.

Context (Hdisj : payload b' + copied size ≤ payload b ∨ payload b + copied size ≤ payload b').
Context (Harena : payload b + copied size ≤ mem_max_addr s).

Lemma move_src_ok i : 0 ≤ i < (size + 7) / 8 → word_ok s1 (payload b + 8 * i) = true.
Proof.
  intros Hi. pose proof move_old as Hold. rewrite <-move_lo in Hold.
  pose proof move_sz as [_ Hsz].
  pose proof (payload_word_ok _ _ _ _ _ 0 Hok Hold ltac:(lia) ltac:(lia) eq_refl) as Hw.
  rewrite Z.add_0_r in Hw. apply word_ok_spec in Hw as (H8 & Hl & _).
  unfold copied in Harena. unfold payload, WORD_SIZE in *. apply word_ok_spec.
  rewrite (proj2 (al_arena _ _ _ _ _ _ _ Hal)). split_and!; [|lia..].
  rewrite <-Z.add_assoc. replace (8 + 8 * i) with ((1 + i) * 8) by lia. by rewrite Z.mod_add.
Qed.

Lemma move_dst_ok i : 0 ≤ i < (size + 7) / 8 → word_ok s1 (payload b' + 8 * i) = true.
Proof.
  intros Hi. pose proof move_new as Hnew. rewrite <-move_lo in Hnew.
  destruct (copied_spec size Hpos) as (_ & _ & Hc16 & _). unfold copied in Hc16.
  pose proof (al_cap _ _ _ _ _ _ _ Hal). unfold payload, WORD_SIZE. rewrite <-Z.add_assoc.
  eapply payload_word_ok; [exact Hok|exact Hnew|lia..|].
  replace (8 + 8 * i) with ((1 + i) * 8) by lia. by apply Z.mod_mul.
Qed.

Lemma move_copy :
  ∃ w, memcpy (payload b') (payload b) (copied size) s1 = Ok (tt, set_words w s1) ∧
    heap_ok (set_words w s1) M' fl1 ∧
    (∀ i, 0 ≤ i → 8 * i < copied size →
       word w (payload b' + 8 * i) = word (words s1) (payload b + 8 * i)) ∧
    preserves (owned lo M) s1 (set_words w s1).
Proof.
  destruct (copied_spec size Hpos) as (_ & Hc0 & Hc16 & _).
  pose proof (al_cap _ _ _ _ _ _ _ Hal) as Hcap.
  unfold copied in *.
  destruct (memcpy_spec s1 (payload b') (payload b) ((size + 7) / 8)) as (w & Hr & Hc & Ho); try lia.
  { intros i Hi. split; [by apply move_src_ok|by apply move_dst_ok]. }
  exists w. split_and!; [done| |intros; apply Hc; lia|].
  - apply heap_ok_payload; [done|]. intros y Hy. apply Ho.
    destruct (decide (y < payload b' ∨ payload b' + 8 * ((size + 7) / 8) ≤ y)) as [|Hin]; [done|].
    exfalso. apply Hy. exists b', cap. rewrite move_lo. split; [apply move_new|].
    unfold payload, WORD_SIZE in *. lia.
  - intros c szc y Hc' Hy. simpl. apply Ho.
    assert (c ≠ b') as Hne.
    { intros ->. pose proof (al_fresh _ _ _ _ _ _ _ Hal) as Hf. fold lo in Hf. congruence. }
    assert (owned lo M' !! c = Some szc) as Hc2.
    { unfold lo. rewrite (al_owned _ _ _ _ _ _ _ Hal), lookup_insert_ne by done. done. }
    pose proof move_new as Hnew. pose proof (owned_disjoint _ _ _ c szc b' cap Hok) as Hd.
    rewrite move_lo in Hd. specialize (Hd Hc2 Hnew Hne).
    unfold payload, WORD_SIZE. lia.
Qed.

Lemma move_spec :
  ∃ s' M'' fl', mm_realloc (payload b) size s = Ok (payload b', s') ∧ heap_ok s' M'' fl' ∧
    same_arena s s' ∧ owned lo M'' = delete b (<[b' := cap]> (owned lo M)) ∧
    preserves (delete b (owned lo M)) s s' ∧
    (∀ i, 0 ≤ i → 8 * i < sz - 16 →
       word (words s') (payload b' + 8 * i) = word (words s) (payload b + 8 * i)).
Proof.
  destruct move_copy as (w & Hcopy & Hok2 & Hcp & Hk2). pose proof move_old as Hold.
  apply owned_split in Hold as (N1 & N2 & HM' & Hb); [|by eapply heap_blocks].
  destruct (copied_spec size Hpos) as (_ & _ & Hc16 & Hcsz). destruct move_sz as [H8 H32].
  specialize (Hcsz sz H8 H32 Hlt). pose proof (al_cap _ _ _ _ _ _ _ Hal) as Hcap.
  pose proof Hok2 as Hok2'. rewrite HM' in Hok2'.
  destruct (mm_free_heap _ _ _ _ _ Hok2') as (s' & fl' & Hfree & Hok' & Hfr & Hown & Hk').
  simpl in Hfree, Hown, Hk'. rewrite move_lo, <-HM' in Hown. rewrite move_lo in Hfree, Hk'.
  rewrite <-Hb in Hfree, Hown.
  assert (owned lo M' = <[b' := cap]> (owned lo M)) as HM'' by apply (al_owned _ _ _ _ _ _ _ Hal).
  rewrite HM'' in Hown.
  exists s', (freed N1 sz N2), fl'. split.
  { rewrite move_run. run Hcopy. by run Hfree. }
  split_and!; try done.
  - destruct Hfr as (E1 & _ & E2 & _). destruct (al_arena _ _ _ _ _ _ _ Hal) as [E3 E4].
    split; [by rewrite E1|by rewrite E2].
  - apply (preserves_trans _ s s1).
    { intros c szc y [_ Hc]%lookup_delete_Some. by apply (al_keep _ _ _ _ _ _ _ Hal). }
    eapply preserves_trans; [intros c szc y [_ Hc]%lookup_delete_Some; by apply Hk2|].
    intros c szc y [Hne Hc]%lookup_delete_Some. apply Hk'. rewrite Hown.
    apply lookup_delete_Some. split; [done|]. rewrite lookup_insert_ne; [done|].
    intros <-. pose proof (al_fresh _ _ _ _ _ _ _ Hal) as Hf. fold lo in Hf. congruence.
  - intros i Hi0 Hi. rewrite (Hk' b' cap).
    + simpl. rewrite Hcp by lia.
      apply (al_keep _ _ _ _ _ _ _ Hal b sz); [apply move_owned|unfold payload, WORD_SIZE; lia].
    + rewrite Hown. apply lookup_delete_Some. split; [exact (not_eq_sym move_ne)|].
      apply lookup_insert_eq.
    + unfold payload, WORD_SIZE. lia.
Qed.
End Move.
