(* ===== verification/MmRefine.v ===== *)
(** * What the allocator promises, and that [mm.c] keeps the promise.

    An abstract heap maps each pointer a client owns to the words of its
    payload.  [astep] is the contract of [mm_malloc], [mm_free], [mm_realloc]
    and of the client's own loads and stores; the class [Allocator] states that
    an implementation simulates it, and the traces of a client are run against
    the class. *)

From Stdlib Require Import ZArith Lia.
From stdpp Require Import base gmap numbers option list.
From S2P Require Import Prelude Memlib MmInline Mm MmHeap MmLayout MmProofs MmSpec MmRealloc.

Open Scope Z_scope.

(** Pointer to payload words. *)
Abbreviation aheap := (gmap Z (list Z)).

(** ** The contract *)

Inductive op :=
  | Malloc (n : Z)
  | Free (p : Z)
  | Realloc (p n : Z)
  | Load (p i : Z)
  | Store (p i v : Z).

(** The bytes of a payload. *)
Definition bytes_of (c : list Z) : Z := 8 * Z.of_nat (length c).

(** [p] with a payload of [len] bytes overlaps no other payload. *)
Definition clear_of (h : aheap) (p len : Z) : Prop :=
  ∀ q d, h !! q = Some d → q ≠ p → p + len ≤ q ∨ q + bytes_of d ≤ p.

Inductive astep (h : aheap) : op → Z → aheap → Prop :=
  | a_malloc_null n : astep h (Malloc n) NULL h
  | a_malloc n p c :
      p ≠ NULL → p mod 8 = 0 → h !! p = None → n ≤ bytes_of c → clear_of h p (bytes_of c) →
      astep h (Malloc n) p (<[p := c]> h)
  | a_free_null : astep h (Free NULL) 0 h
  | a_free p : is_Some (h !! p) → astep h (Free p) 0 (delete p h)
  | a_realloc_fail p n : is_Some (h !! p) → astep h (Realloc p n) NULL h
  | a_realloc_in_place p n c c' :
      h !! p = Some c → c `prefix_of` c' → n ≤ bytes_of c' → clear_of h p (bytes_of c') →
      astep h (Realloc p n) p (<[p := c']> h)
  | a_realloc_move p n c p' c' :
      h !! p = Some c → c `prefix_of` c' → n ≤ bytes_of c' →
      p' ≠ NULL → p' mod 8 = 0 → h !! p' = None → clear_of h p' (bytes_of c') →
      astep h (Realloc p n) p' (<[p' := c']> (delete p h))
  | a_load p i c v :
      h !! p = Some c → 0 ≤ i → c !! Z.to_nat i = Some v → astep h (Load p i) v h
  | a_store p i v c :
      h !! p = Some c → 0 ≤ i < Z.of_nat (length c) →
      astep h (Store p i v) 0 (<[p := <[Z.to_nat i := v]> c]> h).

(** What a client may ask for: its own pointers, positive sizes that [int]
    can hold, words inside a payload. *)
Definition allowed (h : aheap) (o : op) : Prop :=
  match o with
  | Malloc n => 0 < n < 2 ^ 31 - 64
  | Free p => p = NULL ∨ is_Some (h !! p)
  | Realloc p n => is_Some (h !! p) ∧ 0 < n < 2 ^ 31 - 64
  | Load p i | Store p i _ => ∃ c, h !! p = Some c ∧ 0 ≤ i < Z.of_nat (length c)
  end.

(** An implementation [run] over states [St] with an abstraction relation:
    every allowed call returns and does what the contract says.  A call of
    [safe] operations never fails. *)
Class Allocator {St : Type} (run : op → ST St Z) (safe : op → Prop) (rep : St → aheap → Prop) := {
  alloc_step s h o :
    rep s h → allowed h o → safe o →
    ∃ r s' h', run o s = Ok (r, s') ∧ astep h o r h' ∧ rep s' h';
}.

(** ** Clients *)

(** A client runs a list of calls; each may depend on what earlier ones
    returned. *)
Abbreviation client := (list (list Z → op)).

Fixpoint run_client {St} (run : op → ST St Z) (prog : client) (rs : list Z) : ST St (list Z) :=
  match prog with
  | [] => mret rs
  | o :: prog' => r ← run (o rs); run_client run prog' (rs ++ [r])
  end.

(** The abstract executions of a client. *)
Inductive aclient : aheap → client → list Z → list Z → aheap → Prop :=
  | ac_nil h rs : aclient h [] rs rs h
  | ac_cons h o prog rs r h' rs' h'' :
      astep h (o rs) r h' → aclient h' prog (rs ++ [r]) rs' h'' →
      aclient h (o :: prog) rs rs' h''.

(** Every call of the client is allowed and safe whatever the allocator
    answers. *)
Inductive behaves (safe : op → Prop) : aheap → client → list Z → Prop :=
  | b_nil h rs : behaves safe h [] rs
  | b_cons h o prog rs :
      allowed h (o rs) → safe (o rs) →
      (∀ r h', astep h (o rs) r h' → behaves safe h' prog (rs ++ [r])) →
      behaves safe h (o :: prog) rs.

Lemma run_client_sound {St} (run : op → ST St Z) safe rep `{!Allocator run safe rep} h prog rs s :
  rep s h → behaves safe h prog rs →
  ∃ rs' s' h', run_client run prog rs s = Ok (rs', s') ∧ aclient h prog rs rs' h' ∧ rep s' h'.
Proof.
  intros Hrep Hb. revert s Hrep. induction Hb as [h rs|h o prog rs Hall Hsafe Hnext IH]; intros s Hrep.
  - exists rs, s, h. split; [done|]. split; [constructor|done].
  - destruct (alloc_step s h (o rs) Hrep Hall Hsafe) as (r & s1 & h1 & Hrun & Hstep & Hrep1).
    destruct (IH r h1 Hstep s1 Hrep1) as (rs' & s' & h' & Hrun' & Hac & Hrep').
    exists rs', s', h'. split; [by simpl; run Hrun|]. split; [by econstructor|done].
Qed.

(** ** The view of a heap *)

Definition contents (w : gmap Z Z) (b sz : Z) : list Z :=
  (λ i, word w (payload b + 8 * i)) <$> seqZ 0 ((sz - 16) / 8).

#[export] Instance payload_inj : Inj (=) (=) payload.
Proof. intros x y. unfold payload. lia. Qed.

Definition view (w : gmap Z Z) (O : gmap Z Z) : aheap :=
  kmap payload (map_imap (λ b sz, Some (contents w b sz)) O).

(** The states that represent an abstract heap. *)
Definition mm_rep (s : mm_state) (h : aheap) : Prop :=
  ∃ M fl, heap_ok s M fl ∧ h = view (words s) (owned (mem_start_brk s) M).

Lemma view_lookup w O b : view w O !! payload b = contents w b <$> (O !! b).
Proof. unfold view. rewrite lookup_kmap, map_lookup_imap by apply _. by destruct (O !! b). Qed.

Lemma view_Some w O p c :
  view w O !! p = Some c → ∃ b sz, p = payload b ∧ O !! b = Some sz ∧ c = contents w b sz.
Proof.
  unfold view. intros (b & -> & Hb)%lookup_kmap_Some; [|apply _].
  rewrite map_lookup_imap in Hb. destruct (O !! b) as [sz|] eqn:Hsz; simplify_eq/=. eauto.
Qed.

Lemma view_insert w O b sz : view w (<[b := sz]> O) = <[payload b := contents w b sz]> (view w O).
Proof.
  unfold view. rewrite <-kmap_insert by apply _. f_equal. apply map_eq. intros c.
  rewrite map_lookup_imap, !lookup_insert. case_decide; [by subst|]. by rewrite map_lookup_imap.
Qed.

Lemma view_delete w O b : view w (delete b O) = delete (payload b) (view w O).
Proof.
  unfold view. rewrite <-kmap_delete by apply _. f_equal. apply map_eq. intros c.
  rewrite map_lookup_imap, !lookup_delete. case_decide; [done|]. by rewrite map_lookup_imap.
Qed.

Lemma contents_ext w w' b sz :
  (∀ y, b + 8 ≤ y < b + sz - 8 → word w' y = word w y) → contents w' b sz = contents w b sz.
Proof.
  intros Hw. apply list_fmap_ext. intros k i Hi%lookup_seqZ. apply Hw.
  unfold payload, WORD_SIZE. Z.to_euclidean_division_equations; lia.
Qed.

(** Preserved payloads are the same contents. *)
Lemma view_preserves O s s' : preserves O s s' → view (words s') O = view (words s) O.
Proof.
  intros Hp. unfold view. f_equal. apply map_eq. intros b. rewrite !map_lookup_imap.
  destruct (O !! b) as [sz|] eqn:Hb; [|done]. simpl. f_equal. apply contents_ext.
  intros y. by apply (Hp b sz).
Qed.

Lemma length_contents w b sz : length (contents w b sz) = Z.to_nat ((sz - 16) / 8).
Proof. unfold contents. by rewrite length_fmap, length_seqZ. Qed.

Lemma bytes_contents w b sz : sz mod 8 = 0 → 16 ≤ sz → bytes_of (contents w b sz) = sz - 16.
Proof.
  intros H8 Hsz. unfold bytes_of. rewrite length_contents.
  Z.to_euclidean_division_equations; lia.
Qed.

Lemma contents_lookup w b sz i :
  0 ≤ i < (sz - 16) / 8 → contents w b sz !! Z.to_nat i = Some (word w (payload b + 8 * i)).
Proof.
  intros Hi. unfold contents. rewrite list_lookup_fmap, lookup_seqZ_lt by lia. simpl.
  do 3 f_equal. lia.
Qed.

(** ** [mm.c] implements the contract *)

Definition mm_run (o : op) : ST mm_state Z :=
  match o with
  | Malloc n => mm_malloc n
  | Free p => mm_free p;; mret 0
  | Realloc p n => mm_realloc p n
  | Load p i => load (p + 8 * i)
  | Store p i v => store (p + 8 * i) v;; mret 0
  end.

(** Every call but [mm_realloc], whose copy may be undefined. *)
Definition mm_safe (o : op) : Prop := match o with Realloc _ _ => False | _ => True end.

Section Owned.
Context (s : mm_state) (M : row) (fl : list Z) (H : heap_ok s M fl).
Let O := owned (mem_start_brk s) M.

Lemma owned_facts b sz :
  O !! b = Some sz → sz mod 8 = 0 ∧ 32 ≤ sz ∧ payload b ≠ NULL ∧ payload b mod 8 = 0.
Proof.
  intros Hb. destruct (heap_lo _ _ _ H) as [Hlo Hlo8]. pose proof (heap_blocks _ _ _ H) as HM.
  destruct (owned_split _ _ _ _ HM Hb) as (M1 & M2 & HMeq & ->).
  pose proof (ho_inner _ _ _ H) as Hin. rewrite HMeq in HM, Hin.
  apply Forall_app in HM as [HM1 [(Hsz8 & _) _]%Forall_cons].
  apply Forall_app in Hin as [_ [Hsz _]%Forall_cons]. simpl in Hsz, Hsz8.
  pose proof (total_nonneg _ HM1). pose proof (total_mod8 _ HM1).
  unfold payload, WORD_SIZE, NULL. split_and!; try lia. Z.to_euclidean_division_equations; lia.
Qed.

(** An owned block is clear of the other owned ones. *)
Lemma owned_clear w O' b sz :
  O !! b = Some sz → (∀ c szc, O' !! c = Some szc → c ≠ b → O !! c = Some szc) →
  clear_of (view w O') (payload b) (sz - 16).
Proof.
  intros Hb Hsub q d (c & szc & -> & Hc & ->)%view_Some Hne.
  assert (c ≠ b) as Hcb by (by intros ->). specialize (Hsub c szc Hc Hcb).
  destruct (owned_facts c szc Hsub) as (H8 & H32 & _). rewrite bytes_contents by lia.
  pose proof (owned_disjoint s M fl b sz c szc H Hb Hsub (not_eq_sym Hcb)).
  unfold payload, WORD_SIZE. lia.
Qed.
End Owned.

(** [mm_malloc] *)
Lemma refine_malloc s h n :
  mm_rep s h → allowed h (Malloc n) →
  ∃ r s' h', mm_run (Malloc n) s = Ok (r, s') ∧ astep h (Malloc n) r h' ∧ mm_rep s' h'.
Proof.
  intros (M & fl & H & ->) [Hpos Hmax]. simpl. destruct (request_spec n Hpos) as (_ & _ & Hge & Hle).
  destruct (mm_malloc_heap s M fl n H Hpos ltac:(lia))
    as [(s' & M' & fl' & b & cap & Hrun & Hok & [[Hlo _] Hcap Hfresh Hown Hk])|(Hrun & _)].
  - assert (owned (mem_start_brk s') M' !! b = Some cap) as Hb
      by (by rewrite Hlo, Hown, lookup_insert_eq).
    destruct (owned_facts _ _ _ Hok _ _ Hb) as (H8 & H32 & Hnn & Hp8).
    exists (payload b), s', (view (words s') (owned (mem_start_brk s') M')). split_and!; [done| |by exists M', fl'].
    rewrite Hlo, Hown, view_insert, (view_preserves _ _ _ Hk).
    apply a_malloc; try done.
    + rewrite view_lookup, Hfresh. done.
    + rewrite bytes_contents by lia. lia.
    + rewrite bytes_contents by lia. apply (owned_clear _ _ _ Hok); [done|].
      intros c szc Hc Hne. by rewrite Hlo, Hown, lookup_insert_ne.
  - exists NULL, s, (view (words s) (owned (mem_start_brk s) M)). split_and!; [done|constructor|].
    by exists M, fl.
Qed.

(** [mm_free] *)
Lemma refine_free s h p :
  mm_rep s h → allowed h (Free p) →
  ∃ r s' h', mm_run (Free p) s = Ok (r, s') ∧ astep h (Free p) r h' ∧ mm_rep s' h'.
Proof.
  intros (M & fl & H & ->) [->|[c Hp]]; simpl.
  - exists 0, s, (view (words s) (owned (mem_start_brk s) M)). split_and!; [done|constructor|].
    by exists M, fl.
  - pose proof Hp as (b & sz & -> & Hb & ->)%view_Some.
    destruct (owned_split _ _ _ _ (heap_blocks _ _ _ H) Hb) as (M1 & M2 & -> & Hbeq).
    destruct (mm_free_heap s M1 sz M2 fl H) as (s' & fl' & Hrun & Hok & (Hlo & _) & Hown & Hk).
    rewrite <-Hbeq in Hrun, Hown. eexists 0, s', _.
    split_and!; [by run Hrun| |by exists (freed M1 sz M2), fl'].
    rewrite Hlo, (view_preserves _ _ _ Hk), Hown, view_delete. apply a_free. eauto.
Qed.

Lemma view_in_payload s M fl p c i :
  heap_ok s M fl → view (words s) (owned (mem_start_brk s) M) !! p = Some c →
  0 ≤ i < Z.of_nat (length c) →
  ∃ b sz, p = payload b ∧ owned (mem_start_brk s) M !! b = Some sz ∧
    c = contents (words s) b sz ∧ i < (sz - 16) / 8 ∧ 8 + 8 * i + 8 ≤ sz - 8.
Proof.
  intros H (b & sz & -> & Hb & ->)%view_Some. rewrite length_contents. intros Hi.
  exists b, sz. split_and!; try done; [lia|]. Z.to_euclidean_division_equations; lia.
Qed.

(** Loads and stores through owned pointers *)
Lemma refine_load s h p i :
  mm_rep s h → allowed h (Load p i) →
  ∃ r s' h', mm_run (Load p i) s = Ok (r, s') ∧ astep h (Load p i) r h' ∧ mm_rep s' h'.
Proof.
  intros (M & fl & H & ->) (c & Hp & Hi). simpl.
  destruct (view_in_payload _ _ _ _ _ _ H Hp Hi) as (b & sz & -> & Hb & -> & Hi' & Hi8).
  exists (word (words s) (payload b + 8 * i)), s, (view (words s) (owned (mem_start_brk s) M)).
  split_and!; [| |by exists M, fl].
  - apply load_Ok. unfold payload, WORD_SIZE. rewrite <-Z.add_assoc.
    eapply payload_word_ok; [done..|lia|lia|]. Z.to_euclidean_division_equations; lia.
  - eapply a_load; [done|lia|]. apply contents_lookup. lia.
Qed.

Lemma contents_insert w b sz i v :
  0 ≤ i < (sz - 16) / 8 →
  contents (<[payload b + 8 * i := v]> w) b sz = <[Z.to_nat i := v]> (contents w b sz).
Proof.
  intros Hi. apply list_eq. intros k. destruct (decide (k < Z.to_nat ((sz - 16) / 8))%nat) as [Hk|Hk].
  - replace k with (Z.to_nat (Z.of_nat k)) by lia. rewrite contents_lookup, word_insert by lia.
    rewrite list_lookup_insert, length_contents. repeat case_decide; try lia; try done.
    rewrite contents_lookup by lia. done.
  - rewrite !lookup_ge_None_2; [done|..]; rewrite ?length_insert, length_contents; lia.
Qed.

Lemma refine_store s h p i v :
  mm_rep s h → allowed h (Store p i v) →
  ∃ r s' h', mm_run (Store p i v) s = Ok (r, s') ∧ astep h (Store p i v) r h' ∧ mm_rep s' h'.
Proof.
  intros (M & fl & H & ->) (c & Hp & Hi). simpl.
  destruct (view_in_payload _ _ _ _ _ _ H Hp Hi) as (b & sz & -> & Hb & Hc & Hi' & Hi8).
  destruct (client_store s M fl b sz i v H Hb ltac:(lia) Hi8) as (s' & Hrun & Hok & (Hlo & _) & Hs').
  eexists 0, s', _. split_and!; [by run Hrun| |by exists M, fl].
  rewrite Hlo. set (O := owned (mem_start_brk s) M) in *.
  assert (view (words s') O =
    <[payload b := <[Z.to_nat i := v]> c]> (view (words s) O)) as ->; [|by eapply a_store].
  rewrite <-(insert_delete_id O b sz Hb). rewrite !view_insert.
  rewrite insert_insert_eq. rewrite Hc, Hs'. simpl. rewrite contents_insert by lia. f_equal.
  apply (view_preserves (delete b O) s (set_words _ s)). intros d szd y [Hne Hd]%lookup_delete_Some Hy.
  simpl. apply word_insert_ne. pose proof (owned_disjoint s M fl b sz d szd H Hb Hd Hne).
  unfold payload, WORD_SIZE. lia.
Qed.

#[export] Instance mm_allocator : Allocator mm_run mm_safe mm_rep.
Proof.
  split. intros s h [] Hrep Hall Hsafe; [by apply refine_malloc|by apply refine_free|done|
    by apply refine_load|by apply refine_store].
Qed.

(** ** [mm_realloc] *)

Lemma contents_prefix w b sz w' b' sz' :
  sz ≤ sz' →
  (∀ i, 0 ≤ i < (sz - 16) / 8 → word w' (payload b' + 8 * i) = word w (payload b + 8 * i)) →
  contents w b sz `prefix_of` contents w' b' sz'.
Proof.
  intros Hle Hw. exists (drop (length (contents w b sz)) (contents w' b' sz')).
  assert (take (length (contents w b sz)) (contents w' b' sz') = contents w b sz) as Ht.
  { apply list_eq. intros k. rewrite lookup_take, length_contents. case_decide as Hk.
    - assert ((sz - 16) / 8 ≤ (sz' - 16) / 8) by (apply Z.div_le_mono; lia).
      replace k with (Z.to_nat (Z.of_nat k)) by lia. rewrite !contents_lookup by lia.
      rewrite Hw by lia. done.
    - symmetry. apply lookup_ge_None_2. rewrite length_contents. lia. }
  rewrite <-Ht at 1. by rewrite take_drop.
Qed.

(** A copy either reads and writes only words of the arena, or is a bad
    access. *)
Lemma copy_words_cases n dst src s :
  copy_words n dst src s = Err BadAccess ∨
  ∃ s', copy_words n dst src s = Ok (tt, s') ∧
    ∀ i, 0 ≤ i < Z.of_nat n → word_ok s (src + 8 * i) = true.
Proof.
  revert dst src s. induction n as [|n IH]; intros dst src s; cbn [copy_words].
  { right. exists s. split; [done|lia]. }
  unfold load, store, mbind, ST_bind. destruct (word_ok s src) eqn:Hs; [|by left].
  destruct (word_ok s dst) eqn:Hd; [|by left].
  destruct (IH (dst + 8) (src + 8) (set_words (<[dst := word (words s) src]> (words s)) s))
    as [Herr|(s' & Hrun & Hall)]; [by left|].
  right. exists s'. split; [done|]. intros i Hi. destruct (decide (i = 0)) as [->|Hne].
  - by rewrite Z.mul_0_r, Z.add_0_r.
  - specialize (Hall (i - 1) ltac:(lia)). replace (src + 8 + 8 * (i - 1)) with (src + 8 * i) in Hall by lia.
    done.
Qed.

(** The move of [mm_realloc]: done when the regions are apart and inside the
    arena, undefined otherwise. *)
Lemma realloc_move_cases s M1 M2 sz n fl :
  let b := mem_start_brk s + 16 + total M1 in
  let M := M1 ++ (sz, true) :: M2 in
  heap_ok s M fl → 0 < n → request n < 2 ^ 31 → sz < request n → grows sz (request n) M2 = false →
  mm_realloc (payload b) n s = Ok (NULL, s) ∨
  (∃ s' b' cap M' fl', mm_realloc (payload b) n s = Ok (payload b', s') ∧ heap_ok s' M' fl' ∧
     same_arena s s' ∧ request n ≤ cap ∧ owned (mem_start_brk s) M !! b' = None ∧
     owned (mem_start_brk s) M' = delete b (<[b' := cap]> (owned (mem_start_brk s) M)) ∧
     (∃ s1 M1 fl1, heap_ok s1 M1 fl1 ∧ mem_start_brk s1 = mem_start_brk s ∧
        owned (mem_start_brk s) M1 = <[b' := cap]> (owned (mem_start_brk s) M)) ∧
     preserves (delete b (owned (mem_start_brk s) M)) s s' ∧
     (∀ i, 0 ≤ i → 8 * i < sz - 16 →
        word (words s') (payload b' + 8 * i) = word (words s) (payload b + 8 * i))) ∨
  mm_realloc (payload b) n s = Err BadAccess.
Proof.
  intros b M H Hpos Hint Hlt Hg.
  destruct (mm_malloc_heap s M fl n H Hpos Hint)
    as [(s1 & M' & fl1 & b' & cap & Hrun & Hok & Hal)|(Hrun & _)]; [right|left].
  - destruct (overlap (payload b') (payload b) (copied n)) eqn:Hov.
    { right. by apply (move_overlap s M1 M2 sz n fl H Hpos Hint Hlt Hg s1 M' fl1 b' cap Hrun Hok Hal). }
    assert (payload b' + copied n ≤ payload b ∨ payload b + copied n ≤ payload b') as Hdisj.
    { unfold overlap in Hov. apply andb_false_iff in Hov. rewrite !Z.ltb_ge in Hov. lia. }
    destruct (decide (payload b + copied n ≤ mem_max_addr s)) as [Harena|Harena].
    + left. destruct (move_spec s M1 M2 sz n fl H Hpos Hint Hlt Hg s1 M' fl1 b' cap Hrun Hok Hal Hdisj Harena)
        as (s' & M'' & fl' & Hre & Hok' & Har & Hown & Hk & Hc).
      exists s', b', cap, M'', fl'. split_and!; try done; try apply Hal.
      exists s1, M', fl1. split_and!; [done|apply Hal|apply Hal].
    + right. unfold b. rewrite (move_run s M1 M2 sz n fl H Hpos Hint Hlt Hg s1 M' fl1 b' cap Hrun Hok Hal).
      apply ST_bind_Err. unfold memcpy. fold b. rewrite Hov.
      destruct (copy_words_cases (Z.to_nat (copied n / 8)) (payload b') (payload b) s1)
        as [Herr|(s' & _ & Hall)]; [done|]. exfalso.
      destruct (copied_spec n Hpos) as (Hc8 & Hc0 & _).
      specialize (Hall (copied n / 8 - 1)). rewrite Z2Nat.id in Hall by (apply Z.div_pos; lia).
      rewrite word_ok_spec in Hall. destruct Hall as (_ & _ & Hhi).
      { Z.to_euclidean_division_equations; lia. }
      rewrite (proj2 (al_arena _ _ _ _ _ _ _ Hal)) in Hhi. Z.to_euclidean_division_equations; lia.
  - unfold b. rewrite (realloc_moves s M1 M2 sz n fl H Hpos Hint Hlt Hg). by run Hrun.
Qed.

(** The block is large enough. *)
Lemma refine_realloc_keep s M1 sz M2 n fl :
  let O := owned (mem_start_brk s) (M1 ++ (sz, true) :: M2) in
  let b := mem_start_brk s + 16 + total M1 in
  heap_ok s (M1 ++ (sz, true) :: M2) fl → 0 < n → request n < 2 ^ 31 → request n ≤ sz →
  mm_realloc (payload b) n s = Ok (payload b, s) ∧
  astep (view (words s) O) (Realloc (payload b) n) (payload b) (view (words s) O).
Proof.
  intros O b H Hpos Hint Hfit. destruct (request_spec n Hpos) as (_ & _ & Hge & _).
  assert (O !! b = Some sz) as Hb by (apply live_lookup, layout_mid; by eapply heap_blocks).
  destruct (owned_facts _ _ _ H _ _ Hb) as (H8 & H32 & _ & _).
  split; [by apply (realloc_keep s M1 M2 sz n fl H Hpos)|].
  assert (view (words s) O !! payload b = Some (contents (words s) b sz)) as Hp
    by (by rewrite view_lookup, Hb).
  rewrite <-(insert_id (view (words s) O) (payload b) _ Hp) at 2.
  apply a_realloc_in_place with (c := contents (words s) b sz); try done;
    rewrite bytes_contents by lia; [lia|]. by apply (owned_clear _ _ _ H).
Qed.

(** The next block is joined to it. *)
Lemma refine_realloc_grow s M1 sz sn M2 n fl :
  let O := owned (mem_start_brk s) (M1 ++ (sz, true) :: (sn, false) :: M2) in
  let b := mem_start_brk s + 16 + total M1 in
  heap_ok s (M1 ++ (sz, true) :: (sn, false) :: M2) fl → 0 < n → request n < 2 ^ 31 →
  sz < request n ≤ sz + sn →
  ∃ s' h', mm_realloc (payload b) n s = Ok (payload b, s') ∧
    astep (view (words s) O) (Realloc (payload b) n) (payload b) h' ∧ mm_rep s' h'.
Proof.
  intros O b H Hpos Hint Hfit. destruct (request_spec n Hpos) as (_ & _ & Hge & _).
  assert (O !! b = Some sz) as Hb by (apply live_lookup, layout_mid; by eapply heap_blocks).
  destruct (owned_facts _ _ _ H _ _ Hb) as (H8 & H32 & _ & _).
  destruct (realloc_grow s M1 sz sn M2 n fl H Hpos Hint Hfit)
    as (s' & fl' & Hrun & Hok & (Hlo & _) & Hown & Hk). fold b O in Hrun, Hown, Hk.
  eexists s', _. split_and!; [done| |by eexists _, fl'].
  assert (owned (mem_start_brk s') (M1 ++ (sz + sn, true) :: M2) !! b = Some (sz + sn)) as Hb'
    by (by rewrite Hlo, Hown, lookup_insert_eq).
  destruct (owned_facts _ _ _ Hok _ _ Hb') as (H8' & H32' & _ & _).
  rewrite Hlo, Hown, view_insert, (view_preserves _ _ _ Hk).
  apply a_realloc_in_place with (c := contents (words s) b sz).
  - by rewrite view_lookup, Hb.
  - apply contents_prefix; [lia|]. intros i Hi. apply (Hk b sz); [done|].
    unfold payload, WORD_SIZE. Z.to_euclidean_division_equations; lia.
  - rewrite bytes_contents by lia. lia.
  - rewrite bytes_contents by lia. apply (owned_clear _ _ _ Hok); [done|].
    intros c szc Hc Hne. by rewrite Hlo, Hown, lookup_insert_ne.
Qed.

(** It moves. *)
Lemma refine_realloc_move s M1 sz M2 n fl :
  let O := owned (mem_start_brk s) (M1 ++ (sz, true) :: M2) in
  let b := mem_start_brk s + 16 + total M1 in
  heap_ok s (M1 ++ (sz, true) :: M2) fl → 0 < n → request n < 2 ^ 31 →
  sz < request n → grows sz (request n) M2 = false →
  (∃ r s' h', mm_realloc (payload b) n s = Ok (r, s') ∧
     astep (view (words s) O) (Realloc (payload b) n) r h' ∧ mm_rep s' h') ∨
  mm_realloc (payload b) n s = Err BadAccess.
Proof.
  intros O b H Hpos Hint Hlt Hg. destruct (request_spec n Hpos) as (_ & _ & Hge & _).
  assert (O !! b = Some sz) as Hb by (apply live_lookup, layout_mid; by eapply heap_blocks).
  assert (view (words s) O !! payload b = Some (contents (words s) b sz)) as Hp
    by (by rewrite view_lookup, Hb).
  destruct (realloc_move_cases s M1 M2 sz n fl H Hpos Hint Hlt Hg) as [Hnull|[Hmove|Herr]];
    [left| |by right].
  { exists NULL, s, (view (words s) O). split_and!; [done|constructor; eauto|by eexists _, fl]. }
  left. destruct Hmove as (s' & b' & cap & M' & fl' & Hrun & Hok & (Hlo & _) & Hcap & Hfresh & Hown &
    (s1 & N & fl1 & Hok1 & Hlo1 & Hown1) & Hk & Hc). fold O b in Hrun, Hown, Hk, Hc, Hfresh, Hown1.
  assert (owned (mem_start_brk s1) N !! b' = Some cap) as Hb1
    by (by rewrite Hlo1, Hown1, lookup_insert_eq).
  destruct (owned_facts _ _ _ Hok1 _ _ Hb1) as (H8' & H32' & Hnn & Hp8).
  assert (b ≠ b') as Hne by (intros Heq; rewrite Heq in Hb; congruence).
  eexists (payload b'), s', _. split_and!; [done| |by exists M', fl'].
  rewrite Hlo, Hown. rewrite delete_insert_ne by done.
  rewrite view_insert, (view_preserves _ _ _ Hk), view_delete.
  apply a_realloc_move with (c := contents (words s) b sz); try done.
  - apply contents_prefix; [lia|]. intros i Hi. apply Hc; [lia|]. Z.to_euclidean_division_equations; lia.
  - rewrite bytes_contents by lia. lia.
  - by rewrite view_lookup, Hfresh.
  - rewrite bytes_contents by lia. apply (owned_clear _ _ _ Hok1); [done|].
    intros c szc Hc' Hne'. by rewrite Hlo1, Hown1, lookup_insert_ne.
Qed.

Lemma refine_realloc s h p n :
  mm_rep s h → allowed h (Realloc p n) →
  (∃ r s' h', mm_realloc p n s = Ok (r, s') ∧ astep h (Realloc p n) r h' ∧ mm_rep s' h') ∨
  mm_realloc p n s = Err BadAccess.
Proof.
  intros (M & fl & H & ->) ([c Hp] & Hpos & Hmax).
  destruct (request_spec n Hpos) as (_ & _ & Hge & Hle).
  assert (request n < 2 ^ 31) as Hint by lia.
  pose proof Hp as (b & sz & -> & Hb & Hc)%view_Some.
  destruct (owned_split _ _ _ _ (heap_blocks _ _ _ H) Hb) as (M1 & M2 & HM & ->). subst M.
  destruct (decide (request n ≤ sz)) as [Hfit|Hnofit].
  { left. destruct (refine_realloc_keep s M1 sz M2 n fl H Hpos Hint Hfit) as [Hrun Hstep].
    eexists _, s, _. split_and!; [done..|by eexists _, fl]. }
  destruct (grows sz (request n) M2) eqn:Hg; [|by apply (refine_realloc_move s M1 sz M2 n fl); lia || done].
  left. destruct M2 as [|[sn []] M2]; try done. simpl in Hg. apply Z.leb_le in Hg.
  destruct (refine_realloc_grow s M1 sz sn M2 n fl H Hpos Hint ltac:(lia)) as (s' & h' & Hrun & Hstep & Hrep).
  by exists (payload (mem_start_brk s + 16 + total M1)), s', h'.
Qed.
