(* ===== verification/MmGrow.v ===== *)
(** * The heap of [mm.c] only grows, and its payloads fit into it.

    Whatever the state, a call of the allocator keeps the arena and never moves
    the break down or past the end of the arena; in a heap that satisfies the
    invariant the payloads together are smaller than the heap. *)

From Stdlib Require Import ZArith Lia.
From stdpp Require Import base gmap numbers option list.
From S2P Require Import Prelude Memlib MmInline Mm MmHeap MmLayout MmProofs MmSpec MmRealloc MmRefine.

Open Scope Z_scope.

(** ** Growth *)

Record grown (s s' : mm_state) : Prop := {
  gr_start : mem_start_brk s' = mem_start_brk s;
  gr_max : mem_max_addr s' = mem_max_addr s;
  gr_brk : mem_brk s ≤ mem_brk s';
  gr_room : mem_brk s ≤ mem_max_addr s → mem_brk s' ≤ mem_max_addr s';
}.

#[export] Instance grown_preorder : PreOrder grown.
Proof.
  split; [by intros s; split|]. intros s1 s2 s3 [E1 E2 E3 E4] [F1 F2 F3 F4]. split; [congruence|congruence|lia|auto].
Qed.

Definition grows {A} (m : ST mm_state A) : Prop := ∀ s a s', m s = Ok (a, s') → grown s s'.

Lemma grows_bind {A B} (m : ST mm_state A) (f : A → ST mm_state B) :
  grows m → (∀ a, grows (f a)) → grows (m ≫= f).
Proof. intros Hm Hf s b s' (a & s1 & H1 & H2)%ST_bind_inv. etrans; [by eapply Hm|by eapply Hf]. Qed.

(** What leaves the break alone. *)
Lemma grows_still {A} (m : ST mm_state A) :
  (∀ s a s', m s = Ok (a, s') →
     mem_start_brk s' = mem_start_brk s ∧ mem_max_addr s' = mem_max_addr s ∧ mem_brk s' = mem_brk s) → grows m.
Proof. intros Hm s a s' (E1 & E2 & E3)%Hm. split; lia. Qed.

Lemma grows_ret {A} (a : A) : grows (mret a).
Proof. apply grows_still. by intros s b s' [= _ <-]. Qed.

Lemma grows_fail {A} f : grows (A := A) (fail f).
Proof. by intros s b s'. Qed.

Lemma grows_get : grows get.
Proof. apply grows_still. by intros s b s' [= _ <-]. Qed.

Lemma grows_get_first : grows get_first.
Proof. apply grows_still. by intros s b s' [= _ <-]. Qed.

Lemma grows_assertb b : grows (assertb b).
Proof. apply grows_still. unfold assertb. intros s a s'. destruct b; [by intros [= _ <-]|done]. Qed.

Lemma grows_load a : grows (load a).
Proof. apply grows_still. unfold load. intros s b s'. case_match; [by intros [= _ <-]|done]. Qed.

Lemma grows_store a v : grows (store a v).
Proof. apply grows_still. unfold store. intros s b s'. case_match; [by intros [= _ <-]|done]. Qed.

Lemma grows_modify f :
  (∀ s, mem_start_brk (f s) = mem_start_brk s ∧ mem_max_addr (f s) = mem_max_addr s ∧ mem_brk (f s) = mem_brk s) →
  grows (modify f).
Proof. intros Hf. apply grows_still. intros s b s' [= _ <-]. apply Hf. Qed.

Lemma grows_sbrk n : grows (mem_sbrk n).
Proof.
  unfold mem_sbrk. intros s a s'. destruct (_ || _) eqn:Hb; intros [= _ <-]; [done|].
  apply orb_false_elim in Hb as [H1 H2]. split; cbn; lia.
Qed.

Create HintDb grows.
#[export] Hint Resolve grows_ret grows_fail grows_get grows_get_first grows_assertb grows_load grows_store grows_sbrk : grows.

(** Goes through a computation down to operations of the database. *)
Ltac grow :=
  repeat first
    [ progress intros | solve [auto with grows] | apply grows_bind | case_match
    | solve [apply grows_modify; done] ].

Lemma grows_end_tag b : grows (block_end_tag b).
Proof. unfold block_end_tag, get_size. grow. Qed.
#[export] Hint Resolve grows_end_tag : grows.

Lemma grows_allocated b : grows (block_allocated b).
Proof. unfold block_allocated, get_size. grow. Qed.
Lemma grows_block_size b : grows (block_size b).
Proof. unfold block_size, get_size. grow. Qed.
#[export] Hint Resolve grows_allocated grows_block_size : grows.

Lemma grows_set_size b n : grows (block_set_size b n).
Proof. unfold block_set_size. grow. Qed.
Lemma grows_set_allocated b n : grows (block_set_allocated b n).
Proof. unfold block_set_allocated. grow. Qed.
#[export] Hint Resolve grows_set_size grows_set_allocated : grows.

Lemma grows_set_both b n a : grows (block_set_size_and_allocated b n a).
Proof. unfold block_set_size_and_allocated. grow. Qed.
Lemma grows_prev b : grows (block_prev b).
Proof. unfold block_prev, block_prev_size. grow. Qed.
Lemma grows_next b : grows (block_next b).
Proof. unfold block_next. grow. Qed.
Lemma grows_flink b : grows (block_flink b).
Proof. unfold block_flink. grow. Qed.
Lemma grows_set_flink b c : grows (block_set_flink b c).
Proof. unfold block_set_flink. grow. Qed.
Lemma grows_blink b : grows (block_blink b).
Proof. unfold block_blink. grow. Qed.
Lemma grows_set_blink b c : grows (block_set_blink b c).
Proof. unfold block_set_blink. grow. Qed.
#[export] Hint Resolve grows_set_both grows_prev grows_next grows_flink grows_set_flink grows_blink grows_set_blink : grows.

Lemma grows_pull b : grows (pull_free_block b).
Proof. unfold pull_free_block. grow. Qed.
Lemma grows_insert b : grows (insert_free_block b).
Proof. unfold insert_free_block. grow. Qed.
#[export] Hint Resolve grows_pull grows_insert : grows.

Lemma grows_align n : grows (align n).
Proof. unfold align, as_long. grow. Qed.
#[export] Hint Resolve grows_align : grows.

Lemma grows_adjusted n : grows (adjusted n).
Proof. unfold adjusted, as_long. grow. Qed.
Lemma grows_take cur n : grows (take_block cur n).
Proof. unfold take_block. grow. Qed.
#[export] Hint Resolve grows_adjusted grows_take : grows.

Lemma grows_scan fuel n : ∀ cur, grows (malloc_scan fuel n cur).
Proof. induction fuel as [|fuel IH]; intros cur; cbn [malloc_scan]; grow. Qed.
Lemma grows_extend n : grows (extend_heap n).
Proof. unfold extend_heap. grow. Qed.
#[export] Hint Resolve grows_scan grows_extend : grows.

Lemma grows_malloc n : grows (mm_malloc n).
Proof. unfold mm_malloc. grow. Qed.
Lemma grows_coalesce b : grows (coalesce b).
Proof. unfold coalesce. grow. Qed.
#[export] Hint Resolve grows_malloc grows_coalesce : grows.

Lemma grows_free p : grows (mm_free p).
Proof. unfold mm_free. grow. Qed.
Lemma grows_copy n : ∀ dst src, grows (copy_words n dst src).
Proof. induction n as [|n IH]; intros; cbn [copy_words]; grow. Qed.
#[export] Hint Resolve grows_free grows_copy : grows.

Lemma grows_realloc p n : grows (mm_realloc p n).
Proof. unfold mm_realloc, memcpy. grow. Qed.
#[export] Hint Resolve grows_realloc : grows.

(** Every call. *)
Lemma mm_run_grows o : grows (mm_run o).
Proof. unfold mm_run. grow. Qed.

(** ** The payloads fit *)

Lemma msum_owned w a M :
  Forall block_ok M → msum bytes_of (view w (live (layout a M))) ≤ total M.
Proof.
  revert a. induction M as [|[sz al] M IH]; intros a; [done|]. intros [(H8 & H16 & Hfree) HM]%Forall_cons.
  cbn [fst snd] in *. cbn [total]. pose proof (IH (a + sz) HM) as Hrest. destruct al.
  - rewrite live_layout_cons. cbn [fst snd]. rewrite view_insert.
    rewrite msum_insert by (rewrite view_lookup, live_below by (done || lia); done).
    rewrite bytes_contents by (done || lia). cbn [fst]. lia.
  - rewrite live_cons_free by (done || by repeat split). cbn [fst]. lia.
Qed.

Lemma mm_capacity s h : mm_rep s h → msum bytes_of h + 32 ≤ mem_heapsize s.
Proof.
  intros (M & fl & H & ->). pose proof (msum_owned (words s) (mem_start_brk s + 16) M (heap_blocks _ _ _ H)) as Hsum.
  pose proof (ho_brk _ _ _ H) as Hb. rewrite total_full in Hb. unfold owned, mem_heapsize. lia.
Qed.
