(* ===== verification/MmClaims.v ===== *)
(** * Properties of the allocator.

    The theorems about [6-malloc-haininz] that a reader should know, each with
    a concrete instance of its hypotheses. *)

From Stdlib Require Import ZArith Lia.
From stdpp Require Import base gmap numbers option list.
From S2P Require Import Prelude Memlib MmInline Mm MmHeap MmLayout MmProofs MmSpec MmRealloc MmRefine.

Open Scope Z_scope.

(** A state before [mm_init], and one after it. *)
Definition blank : mm_state := MM ∅ 0 0 0 0 0 0.

Definition fresh (arena : Z) : mm_state :=
  match mm_init arena ∅ blank with Ok (_, s) => s | Err _ => blank end.

Lemma fresh_heap arena : 0 < arena → arena mod 8 = 0 → heap_ok (fresh arena) [] [].
Proof.
  intros Ha H8. destruct (mm_init_heap arena ∅ blank Ha H8) as (s' & Hrun & Hok & _).
  unfold fresh. by rewrite Hrun.
Qed.

Lemma fresh_arena arena :
  0 < arena → arena mod 8 = 0 →
  mem_start_brk (fresh arena) = arena ∧ mem_max_addr (fresh arena) = arena + MAX_HEAP.
Proof.
  intros Ha H8. destruct (mm_init_heap arena ∅ blank Ha H8) as (s' & Hrun & _ & ? & ?).
  unfold fresh. by rewrite Hrun.
Qed.

(** C1: every client that calls [mm_malloc] and [mm_free] properly after
    [mm_init], and reads and writes only its own payloads, runs to its end
    without a failing assertion or a bad access, and what it observes is an
    execution of the abstract allocator: fresh disjoint aligned blocks that are
    large enough, and contents that only the client changes. *)
Theorem mm_client_correct (arena : Z) (contents : gmap Z Z) (s : mm_state) (prog : client) :
  0 < arena → arena mod 8 = 0 → behaves mm_safe ∅ prog [] →
  ∃ s0, mm_init arena contents s = Ok (0, s0) ∧
  ∃ rs s' h, run_client mm_run prog [] s0 = Ok (rs, s') ∧ aclient ∅ prog [] rs h ∧ mm_rep s' h.
Proof.
  intros Ha H8 Hb. destruct (mm_init_heap arena contents s Ha H8) as (s0 & Hrun & Hok & _).
  exists s0. split; [done|]. apply run_client_sound with (safe := mm_safe); [apply _| |done].
  by exists [], [].
Qed.

(** A client that allocates, writes, reads back and frees. *)
Definition demo : client :=
  [λ _, Malloc 16;
   λ rs, match rs with p :: _ => if p =? NULL then Free NULL else Store p 0 7 | _ => Free NULL end;
   λ rs, match rs with p :: _ => if p =? NULL then Free NULL else Free p | _ => Free NULL end].

Lemma demo_behaves : behaves mm_safe ∅ demo [].
Proof.
  constructor; [simpl; lia|done|]. intros r h Hstep.
  inversion Hstep as [|? ? c Hnn Hp8 Hnone Hlen Hclear| | | | | | |]; subst; simpl.
  - constructor; [by left|done|]. intros r' h' _. constructor; [by left|done|]. intros. constructor.
  - apply Z.eqb_neq in Hnn as Hnn'. unfold bytes_of in Hlen.
    constructor; simpl; rewrite ?Hnn'.
    + exists c. rewrite lookup_insert_eq. split; [done|lia].
    + done.
    + intros r' h' Hstep'. inversion Hstep' as [| | | | | | | |? ? ? c' Hc' Hi]; subst.
      constructor; simpl; rewrite ?Hnn'; [|done|intros; constructor].
      right. rewrite lookup_insert_eq. eauto.
Qed.

Lemma mm_client_correct_witness :
  ∃ s0, mm_init 4096 ∅ blank = Ok (0, s0) ∧
  ∃ rs s' h, run_client mm_run demo [] s0 = Ok (rs, s') ∧ aclient ∅ demo [] rs h ∧ mm_rep s' h.
Proof. apply (mm_client_correct 4096 ∅ blank demo); [lia|reflexivity|apply demo_behaves]. Defined.

(** C15: [mm_malloc] keeps the invariant of the heap (tags, circular free list of
    exactly the free blocks, no two free neighbours, sentinels) and returns a
    block of the requested size that was free, leaving every owned payload; it
    returns NULL, changing nothing, only when no free block is large enough and
    the arena has no room left. *)
Theorem mm_malloc_correct (s : mm_state) (M : row) (fl : list Z) (size : Z) :
  heap_ok s M fl → 0 < size → request size < 2 ^ 31 →
  (∃ s' M' fl' b cap, mm_malloc size s = Ok (payload b, s') ∧ heap_ok s' M' fl' ∧
     allocated s M (request size) b s' M' cap) ∨
  (mm_malloc size s = Ok (NULL, s) ∧ no_fit M (request size) ∧
     mem_max_addr s < mem_brk s + request size).
Proof. apply mm_malloc_heap. Qed.

Lemma mm_malloc_correct_witness :
  (∃ s' M' fl' b cap, mm_malloc 100 (fresh 4096) = Ok (payload b, s') ∧ heap_ok s' M' fl' ∧
     allocated (fresh 4096) [] (request 100) b s' M' cap) ∨
  (mm_malloc 100 (fresh 4096) = Ok (NULL, fresh 4096) ∧ no_fit [] (request 100) ∧
     mem_max_addr (fresh 4096) < mem_brk (fresh 4096) + request 100).
Proof.
  apply (mm_malloc_correct (fresh 4096) [] [] 100); [apply fresh_heap; done|lia|reflexivity].
Defined.

(** C16: [mm_free] of an owned block merges it with its free neighbours on both
    sides, keeps the invariant (in particular no two neighbours are free
    afterwards), and changes no other owned block and no other payload. *)
Theorem mm_free_correct (s : mm_state) (M1 M2 : row) (sz : Z) (fl : list Z) :
  heap_ok s (M1 ++ (sz, true) :: M2) fl →
  let lo := mem_start_brk s in
  let M := M1 ++ (sz, true) :: M2 in
  let b := lo + 16 + total M1 in
  ∃ s' fl', mm_free (payload b) s = Ok (tt, s') ∧ heap_ok s' (freed M1 sz M2) fl' ∧
    same_frame s s' ∧ owned lo (freed M1 sz M2) = delete b (owned lo M) ∧
    preserves (owned lo (freed M1 sz M2)) s s'.
Proof. apply mm_free_heap. Qed.

(** The heap with one block of 32 bytes. *)
Definition one_block : mm_state :=
  match mm_malloc 16 (fresh 4096) with Ok (_, s) => s | Err _ => blank end.

Lemma one_block_heap : heap_ok one_block ([] ++ (32, true) :: []) [].
Proof.
  destruct (extend_heap_Ok (fresh 4096) [] [] 32 (fresh_heap 4096 eq_refl eq_refl)
    eq_refl ltac:(lia) ltac:(lia)) as (s' & Hrun & Hok & _).
  { vm_compute. discriminate. }
  assert (one_block = s') as ->; [|exact Hok].
  assert (mm_malloc 16 (fresh 4096) = extend_heap 32 (fresh 4096)) as Heq by (vm_compute; reflexivity).
  unfold one_block. by rewrite Heq, Hrun.
Qed.

Lemma mm_free_correct_witness :
  let lo := mem_start_brk one_block in
  ∃ s' fl', mm_free (payload (lo + 16 + 0)) one_block = Ok (tt, s') ∧
    heap_ok s' (freed [] 32 []) fl' ∧
    same_frame one_block s' ∧
    owned lo (freed [] 32 []) = delete (lo + 16 + 0) (owned lo ([] ++ (32, true) :: [])) ∧
    preserves (owned lo (freed [] 32 [])) one_block s'.
Proof. exact (mm_free_correct one_block [] [] 32 [] one_block_heap). Defined.






