(* ===== verification/Mdriver.v ===== *)
(** * The trace driver of the allocator: [6-malloc-haininz/mdriver.c].

    The range list that detects overlapping payloads, and the two evaluations
    that run a trace of requests.  The driver calls the allocator through the
    operations of the interface [Allocator]. *)

From Stdlib Require Import ZArith Lia.
From stdpp Require Import base gmap numbers option list.
From S2P Require Import Prelude Memlib MmInline Mm MmHeap MmLayout MmProofs MmSpec MmRealloc MmRefine.

Open Scope Z_scope.

(** [traceop_t] and what the evaluations use of [trace_t]. *)
Inductive request_type := ALLOC | FREE | REALLOC.

Record traceop := TraceOp { type : request_type; index : Z; size : Z }.

Record trace := Trace { num_ids : Z; ops : list traceop }.

(** What [malloc_error] is called with. *)
Inductive complaint :=
  | NotAligned | OutsideHeap | Overlaps | InitFailed | MallocFailed | ReallocFailed | DataLost.

(** The heap, the range list (lowest and highest address of each payload, the
    newest first), the arrays of the trace, and the complaints with the number
    of the request. *)
Record driver (St : Type) := Driver {
  heap : St;
  ranges : list (Z * Z);
  blocks : gmap Z Z;
  block_sizes : gmap Z Z;
  complaints : list (Z * complaint);
}.
Arguments Driver {St} heap ranges blocks block_sizes complaints.
Arguments heap {St} d.
Arguments ranges {St} d.
Arguments blocks {St} d.
Arguments block_sizes {St} d.
Arguments complaints {St} d.

(** Byte [i] of a word, and the word with that byte replaced. *)
Definition get_byte (w i : Z) : Z := Z.land (Z.shiftr w (8 * i)) 255.

Definition put_byte (w i b : Z) : Z :=
  let v := Z.lor (Z.land w (Z.lnot (Z.shiftl 255 (8 * i)))) (Z.shiftl b (8 * i)) in
  (v + 2 ^ 63) mod 2 ^ 64 - 2 ^ 63.

(** A [char] read as an [int]: plain [char] is signed. *)
Definition char_value (b : Z) : Z := if b <? 128 then b else b - 256.

Section Driver.
Context {St : Type} (run : op → ST St Z) (heap_lo heap_hi : St → Z) (init : ST St Z).
(** Whether the C library has memory for the driver's own records. *)
Context (record_ok : bool).

Abbreviation dr := (ST (driver St)).

Definition on_heap {A} (m : ST St A) : dr A := λ d,
  match m (heap d) with
  | Ok (a, s) => Ok (a, Driver s (ranges d) (blocks d) (block_sizes d) (complaints d))
  | Err e => Err e
  end.

Definition call_mm (o : op) : dr Z := on_heap (run o).

(** [malloc_error] *)
Definition malloc_error (opnum : Z) (c : complaint) : dr unit :=
  modify (λ d, Driver (heap d) (ranges d) (blocks d) (block_sizes d) (complaints d ++ [(opnum, c)])).

(** The result of an operation on [int]s. *)
Definition as_int (v : Z) : dr Z :=
  if (- 2 ^ 31 <=? v) && (v <? 2 ^ 31) then mret v else fail SignedOverflow.

Definition set_ranges (r : list (Z * Z)) : dr unit :=
  modify (λ d, Driver (heap d) r (blocks d) (block_sizes d) (complaints d)).

(** The test of [add_range] against one recorded range. *)
Definition touches (lo hi : Z) (p : Z * Z) : bool :=
  ((lo >=? p.1) && (lo <=? p.2)) || ((hi >=? p.1) && (hi <=? p.2)).

(** [add_range] *)
Definition add_range (lo size opnum : Z) : dr Z :=
  if size =? 0 then mret 1
  else
    let hi := lo + size - 1 in
    assertb (size >? 0);;
    d ← get;
    if negb (lo mod ALIGNMENT =? 0) then malloc_error opnum NotAligned;; mret 0
    else if (lo <? heap_lo (heap d)) || (lo >? heap_hi (heap d))
            || (hi <? heap_lo (heap d)) || (hi >? heap_hi (heap d))
    then malloc_error opnum OutsideHeap;; mret 0
    else if existsb (touches lo hi) (ranges d) then malloc_error opnum Overlaps;; mret 0
    else if negb record_ok then fail (Exit 1)
    else set_ranges ((lo, hi) :: ranges d);; mret 1.

(** [remove_range]: the first range that starts at [lo]. *)
Fixpoint without (lo : Z) (l : list (Z * Z)) : list (Z * Z) :=
  match l with
  | [] => []
  | p :: l' => if p.1 =? lo then l' else p :: without lo l'
  end.

Definition remove_range (lo : Z) : dr unit := d ← get; set_ranges (without lo (ranges d)).

(** [clear_ranges] *)
Definition clear_ranges : dr unit := set_ranges [].

(** [memset(p, b, n)], a byte at a time from byte [j] on. *)
Fixpoint memset (n : nat) (p b j : Z) : dr unit :=
  match n with
  | O => mret tt
  | S n' =>
      w ← call_mm (Load p (j / 8));
      call_mm (Store p (j / 8) (put_byte w (j mod 8) b));;
      memset n' p b (j + 1)
  end.

(** The loop of [eval_mm_valid] that looks for the old data: whether bytes [j]
    to [j + n - 1] of the block are all [v]. *)
Fixpoint check_bytes (n : nat) (p v j : Z) : dr bool :=
  match n with
  | O => mret true
  | S n' =>
      w ← call_mm (Load p (j / 8));
      if negb (char_value (get_byte w (j mod 8)) =? v) then mret false
      else check_bytes n' p v (j + 1)
  end.

(** [trace->blocks[index] = p; trace->block_sizes[index] = size;] *)
Definition remember (t : trace) (index p size : Z) : dr unit := λ d,
  if (0 <=? index) && (index <? num_ids t) then
    Ok (tt, Driver (heap d) (ranges d) (<[index := p]> (blocks d)) (<[index := size]> (block_sizes d))
                   (complaints d))
  else Err BadAccess.

Definition block_at (index : Z) : dr Z := λ d, deref (blocks d !! index) d.
Definition block_size_at (index : Z) : dr Z := λ d, deref (block_sizes d !! index) d.

(** One request in [eval_mm_valid]: the value returned, if the function
    returns. *)
Definition valid_op (t : trace) (i : Z) (o : traceop) : dr (option Z) :=
  let index := index o in
  let size := size o in
  match type o with
  | ALLOC =>
      p ← call_mm (Malloc size);
      if (p =? NULL) && negb (size =? 0) then malloc_error i MallocFailed;; mret (Some 0)
      else if size =? 0 then mret None
      else
        r ← add_range p size i;
        if r =? 0 then mret (Some 0)
        else
          memset (Z.to_nat size) p (Z.land index 255) 0;;
          remember t index p size;;
          mret None
  | REALLOC =>
      oldp ← block_at index;
      newp ← call_mm (Realloc oldp size);
      if (newp =? NULL) && negb (size =? 0) then malloc_error i ReallocFailed;; mret (Some 0)
      else if size =? 0 then mret None
      else
        remove_range oldp;;
        r ← add_range newp size i;
        if r =? 0 then mret (Some 0)
        else
          oldsize ← block_size_at index;
          let oldsize := if size <? oldsize then size else oldsize in
          same ← check_bytes (Z.to_nat oldsize) newp (Z.land index 255) 0;
          if negb same then malloc_error i DataLost;; mret (Some 0)
          else
            memset (Z.to_nat size) newp (Z.land index 255) 0;;
            remember t index newp size;;
            mret None
  | FREE =>
      p ← block_at index;
      remove_range p;;
      call_mm (Free p);;
      mret None
  end.

Fixpoint valid_ops (t : trace) (i : Z) (os : list traceop) : dr Z :=
  match os with
  | [] => mret 1
  | o :: os' =>
      r ← valid_op t i o;
      match r with Some v => mret v | None => valid_ops t (i + 1) os' end
  end.

(** [eval_mm_valid] *)
Definition eval_mm_valid (t : trace) : dr Z :=
  clear_ranges;;
  r ← on_heap init;
  if r <? 0 then malloc_error 0 InitFailed;; mret 0
  else valid_ops t 0 (ops t).

(** One request in [eval_mm_util]: the total and the maximum afterwards, or
    [inl v] when the function returns [v]; [app_error] exits. *)
Definition util_op (t : trace) (i : Z) (o : traceop) (total_size max_total_size : Z) :
    dr (Z + (Z * Z)) :=
  let index := index o in
  let size := size o in
  match type o with
  | ALLOC =>
      p ← call_mm (Malloc size);
      if (p =? NULL) && negb (size =? 0) then fail (Exit 1)
      else if size =? 0 then mret (inr (total_size, max_total_size))
      else
        r ← add_range p size i;
        if r =? 0 then mret (inl 0)
        else
          memset (Z.to_nat size) p (Z.land index 255) 0;;
          remember t index p size;;
          total_size ← as_int (total_size + size);
          mret (inr (total_size, if total_size >? max_total_size then total_size else max_total_size))
  | REALLOC =>
      block_size_at index;;
      oldp ← block_at index;
      newp ← call_mm (Realloc oldp size);
      if (newp =? NULL) && negb (size =? 0) then fail (Exit 1)
      else if size =? 0 then mret (inr (total_size, max_total_size))
      else
        remove_range oldp;;
        r ← add_range newp size i;
        if r =? 0 then mret (inl 0)
        else
          memset (Z.to_nat size) newp (Z.land index 255) 0;;
          oldsize ← block_size_at index;
          remember t index newp size;;
          grown ← as_int (size - oldsize);
          total_size ← as_int (total_size + grown);
          mret (inr (total_size, if total_size >? max_total_size then total_size else max_total_size))
  | FREE =>
      size ← block_size_at index;
      p ← block_at index;
      remove_range p;;
      call_mm (Free p);;
      total_size ← as_int (total_size - size);
      mret (inr (total_size, max_total_size))
  end.

Fixpoint util_ops (t : trace) (i : Z) (os : list traceop) (total_size max_total_size : Z) : dr (Z + Z) :=
  match os with
  | [] => mret (inr max_total_size)
  | o :: os' =>
      r ← util_op t i o total_size max_total_size;
      match r with
      | inl v => mret (inl v)
      | inr (tot, mx) => util_ops t (i + 1) os' tot mx
      end
  end.

(** [eval_mm_util]: the numerator and the denominator of the ratio. *)
Definition eval_mm_util (t : trace) : dr (Z * Z) :=
  clear_ranges;;
  r ← on_heap init;
  if r <? 0 then fail (Exit 1)
  else
    m ← util_ops t 0 (ops t) 0 0;
    d ← get;
    match m with
    | inl v => mret (v, 1)
    | inr max_total_size => mret (max_total_size, heap_hi (heap d) - heap_lo (heap d) + 1)
    end.
End Driver.
