(* ===== verification/MdriverBytes.v ===== *)
(** * Bytes of words: what [memset] writes and the driver reads back.

    A payload is a list of words of eight bytes; [filled c n v] says that its
    first [n] bytes are [v]. *)

From Stdlib Require Import ZArith Lia.
From stdpp Require Import base gmap numbers option list.
From S2P Require Import Prelude Memlib MmInline Mm MmHeap MmLayout MmProofs MmSpec MmRealloc MmRefine Mdriver.

Open Scope Z_scope.

(** ** One word *)

Lemma testbit_255 k : 0 ≤ k → Z.testbit 255 k = (k <? 8).
Proof.
  intros Hk. change 255 with (Z.ones 8). destruct (Z.ltb_spec k 8).
  - by apply Z.ones_spec_low.
  - by apply Z.ones_spec_high.
Qed.

Lemma testbit_get_byte w i k :
  0 ≤ i → 0 ≤ k → Z.testbit (get_byte w i) k = (k <? 8) && Z.testbit w (8 * i + k).
Proof.
  intros Hi Hk. unfold get_byte. rewrite Z.land_spec, Z.shiftr_spec, testbit_255 by lia.
  rewrite andb_comm. do 2 f_equal. lia.
Qed.

Lemma testbit_put_byte w i b m :
  0 ≤ i < 8 → 0 ≤ b < 256 → 0 ≤ m < 64 →
  Z.testbit (put_byte w i b) m =
    if (8 * i <=? m) && (m <? 8 * i + 8) then Z.testbit b (m - 8 * i) else Z.testbit w m.
Proof.
  intros Hi Hb Hm. unfold put_byte.
  set (v := Z.lor (Z.land w (Z.lnot (Z.shiftl 255 (8 * i)))) (Z.shiftl b (8 * i))).
  assert (Z.testbit ((v + 2 ^ 63) mod 2 ^ 64 - 2 ^ 63) m = Z.testbit v m) as ->.
  { rewrite <-(Z.mod_pow2_bits_low _ 64 m), <-(Z.mod_pow2_bits_low v 64 m) by lia. f_equal.
    rewrite Zminus_mod_idemp_l. f_equal. lia. }
  unfold v. rewrite Z.lor_spec, Z.land_spec, Z.lnot_spec, !Z.shiftl_spec by lia.
  destruct (Z.leb_spec (8 * i) m) as [Hle|Hlt]; cbn [andb].
  - rewrite testbit_255 by lia. destruct (Z.ltb_spec m (8 * i + 8)) as [Hin|Hout].
    + rewrite (proj2 (Z.ltb_lt _ _)) by lia. by rewrite andb_false_r.
    + rewrite (proj2 (Z.ltb_ge _ _)) by lia. cbn [negb]. rewrite andb_true_r.
      assert (Z.testbit b (m - 8 * i) = false) as ->; [|by rewrite orb_false_r].
      destruct (decide (b = 0)) as [->|]; [apply Z.bits_0|].
      apply Z.bits_above_log2; [lia|]. assert (Z.log2 b < 8) by (apply Z.log2_lt_pow2; lia). lia.
  - rewrite !(Z.testbit_neg_r _ (m - 8 * i)) by lia. cbn [negb]. by rewrite andb_true_r, orb_false_r.
Qed.

Lemma get_byte_range w i : 0 ≤ get_byte w i < 256.
Proof.
  unfold get_byte. change 255 with (Z.ones 8). rewrite Z.land_ones by lia. change (2 ^ 8) with 256.
  apply Z.mod_pos_bound. lia.
Qed.

(** The byte written is read back, and the others are as they were. *)
Lemma get_put_byte w i j b :
  0 ≤ i < 8 → 0 ≤ j < 8 → 0 ≤ b < 256 → get_byte (put_byte w i b) j = if decide (i = j) then b else get_byte w j.
Proof.
  intros Hi Hj Hb. apply Z.bits_inj'. intros k Hk. rewrite testbit_get_byte by lia.
  destruct (Z.ltb_spec k 8) as [Hlt|Hge]; cbn [andb].
  - rewrite testbit_put_byte by lia. case_decide as Hij; subst.
    + rewrite (proj2 (Z.leb_le _ _)), (proj2 (Z.ltb_lt _ _)) by lia. cbn [andb]. f_equal. lia.
    + rewrite testbit_get_byte, (proj2 (Z.ltb_lt k 8)) by lia. cbn [andb].
      destruct (Z.leb_spec (8 * i) (8 * j + k)), (Z.ltb_spec (8 * j + k) (8 * i + 8)); cbn [andb]; done || lia.
  - case_decide; [|by rewrite testbit_get_byte, (proj2 (Z.ltb_ge k 8)) by lia].
    destruct (decide (b = 0)) as [->|]; [by rewrite Z.bits_0|].
    symmetry. apply Z.bits_above_log2; [lia|]. assert (Z.log2 b < 8) by (apply Z.log2_lt_pow2; lia). lia.
Qed.

(** ** A payload *)

(** Byte [j] of a payload. *)
Definition byte_at (c : list Z) (j : Z) : option Z :=
  (λ w, get_byte w (j mod 8)) <$> (c !! Z.to_nat (j / 8)).

Definition filled (c : list Z) (n v : Z) : Prop := ∀ j, 0 ≤ j < n → byte_at c j = Some v.

Lemma filled_fits c n v : filled c n v → n ≤ bytes_of c.
Proof.
  intros H. unfold bytes_of. destruct (decide (n ≤ 0)); [lia|].
  destruct (c !! Z.to_nat ((n - 1) / 8)) as [w|] eqn:Hw.
  - apply lookup_lt_Some in Hw. Z.to_euclidean_division_equations; lia.
  - specialize (H (n - 1) ltac:(lia)). unfold byte_at in H. by rewrite Hw in H.
Qed.

Lemma filled_prefix c c' n m v : filled c n v → c `prefix_of` c' → m ≤ n → filled c' m v.
Proof.
  intros H [k ->] Hm j Hj. specialize (H j ltac:(lia)). unfold byte_at in *.
  destruct (c !! Z.to_nat (j / 8)) as [w|] eqn:Hw; [|done]. by rewrite (lookup_app_l_Some _ _ _ _ Hw).
Qed.

(** Writing one byte. *)
Lemma byte_at_insert c w j k b :
  0 ≤ j → 0 ≤ k → 0 ≤ b < 256 → c !! Z.to_nat (j / 8) = Some w →
  byte_at (<[Z.to_nat (j / 8) := put_byte w (j mod 8) b]> c) k = if decide (j = k) then Some b else byte_at c k.
Proof.
  intros Hj Hk Hb Hw. unfold byte_at. destruct (decide (Z.to_nat (j / 8) = Z.to_nat (k / 8))) as [Heq|Hne].
  - rewrite <-Heq, list_lookup_insert_eq, Hw by (by eapply lookup_lt_Some). cbn.
    pose proof (Z.mod_pos_bound j 8). pose proof (Z.mod_pos_bound k 8).
    rewrite get_put_byte by lia.
    assert (j / 8 = k / 8) as Hdiv.
    { apply Z2Nat.inj; [apply Z.div_pos; lia|apply Z.div_pos; lia|done]. }
    destruct (decide (j = k)) as [->|Hjk]; [by rewrite decide_True|].
    rewrite decide_False; [done|]. intros Hmod. apply Hjk. rewrite (Z.div_mod j 8), (Z.div_mod k 8) by lia. lia.
  - rewrite list_lookup_insert_ne by done. rewrite decide_False; [done|congruence].
Qed.
