(* ===== verification/MdriverTables.v ===== *)
(** * The tables of the driver.

    What an allocator promises the driver, and the invariant that ties the range
    list and the arrays of a trace to the abstract heap; what allocating, giving
    back and reallocating a block do to it. *)

From Stdlib Require Import ZArith Lia.
From stdpp Require Import base gmap numbers option list.
From S2P Require Import Prelude Memlib MmInline Mm MmHeap MmLayout MmProofs MmSpec MmRealloc MmRefine MmGrow Mdriver MdriverBytes.

Open Scope Z_scope.

(** Payloads are aligned and lie between the bounds of the heap, and all of them
    fit. *)
Class Bounded {St : Type} (rep : St → aheap → Prop) (heap_lo heap_hi : St → Z) := {
  bounded s h p c :
    rep s h → h !! p = Some c → heap_lo s ≤ p ∧ p + bytes_of c ≤ heap_hi s + 1;
  aligned s h p : rep s h → is_Some (h !! p) → p mod 8 = 0 ∧ p ≠ NULL;
  capacity s h : rep s h → msum bytes_of h ≤ heap_hi s - heap_lo s + 1;
}.

(** Reallocation keeps its promise, or copies between regions that overlap. *)
Class Reallocator {St : Type} (run : op → ST St Z) (rep : St → aheap → Prop) := {
  realloc_step s h p n :
    rep s h → allowed h (Realloc p n) →
    (∃ r s' h', run (Realloc p n) s = Ok (r, s') ∧ astep h (Realloc p n) r h' ∧ rep s' h') ∨
    run (Realloc p n) s = Err BadAccess;
}.

(** The heap never shrinks. *)
Class Growing {St : Type} (run : op → ST St Z) (heap_lo heap_hi : St → Z) := {
  growing o s r s' : run o s = Ok (r, s') → heap_lo s' = heap_lo s ∧ heap_hi s ≤ heap_hi s';
}.

Abbreviation sum := (msum (λ n : Z, n)).

Section Tables.
Context {St : Type} (run : op → ST St Z) (safe : op → Prop) (rep : St → aheap → Prop).
Context (heap_lo heap_hi : St → Z).
Context `{!Allocator run safe rep} `{!Bounded rep heap_lo heap_hi}.
Context (Hsafe : ∀ o, (∀ p n, o ≠ Realloc p n) → safe o).

Definition with_heap (d : driver St) (s : St) : driver St :=
  Driver s (ranges d) (blocks d) (block_sizes d) (complaints d).

(** The range list and the arrays: [live] maps the indices in use to their sizes,
    and a block is full of the low byte of its index. *)
Record tables_ok (d : driver St) (h : aheap) (live : gmap Z Z) : Prop := {
  t_live i n : live !! i = Some n →
    ∃ p, blocks d !! i = Some p ∧ block_sizes d !! i = Some n ∧ is_Some (h !! p) ∧ p ≠ NULL;
  t_inj i j p : is_Some (live !! i) → is_Some (live !! j) →
    blocks d !! i = Some p → blocks d !! j = Some p → i = j;
  t_ranges lo hi : (lo, hi) ∈ ranges d → ∃ c, h !! lo = Some c ∧ lo ≤ hi < lo + bytes_of c;
  t_nodup : NoDup (ranges d).*1;
  t_data i n p c : live !! i = Some n → blocks d !! i = Some p → h !! p = Some c → filled c n (Z.land i 255);
  t_pos i n : live !! i = Some n → 0 < n;
}.

Record drv_ok (d : driver St) (h : aheap) (live : gmap Z Z) : Prop := {
  do_rep : rep (heap d) h;
  do_tables : tables_ok d h live;
}.

Lemma do_live d h live (H : drv_ok d h live) i n : live !! i = Some n →
  ∃ p, blocks d !! i = Some p ∧ block_sizes d !! i = Some n ∧ is_Some (h !! p) ∧ p ≠ NULL.
Proof. apply H. Qed.

Lemma do_inj d h live (H : drv_ok d h live) i j p : is_Some (live !! i) → is_Some (live !! j) →
  blocks d !! i = Some p → blocks d !! j = Some p → i = j.
Proof. apply H. Qed.

(** The heap itself is none of the tables' business. *)
Lemma tables_heap d s h live : tables_ok d h live → tables_ok (with_heap d s) h live.
Proof. by intros []. Qed.

(** An empty heap and no range: nothing is in use. *)
Lemma drv_ok_new d : rep (heap d) ∅ → ranges d = [] → drv_ok d ∅ ∅.
Proof.
  intros Hrep Hr. split; [done|]. split; rewrite ?Hr; [| | |apply NoDup_nil_2| |].
  - intros i n Hi. by rewrite lookup_empty in Hi.
  - intros i j p [? Hi]. by rewrite lookup_empty in Hi.
  - intros lo hi Hin. by apply elem_of_nil in Hin.
  - intros i n p c Hi. by rewrite lookup_empty in Hi.
  - intros i n Hi. by rewrite lookup_empty in Hi.
Qed.

Lemma call_step d h o :
  rep (heap d) h → allowed h o → (∀ p n, o ≠ Realloc p n) →
  ∃ r s' h', call_mm run o d = Ok (r, with_heap d s') ∧ astep h o r h' ∧ rep s' h'.
Proof.
  intros Hrep Hall Ho. destruct (alloc_step (heap d) h o Hrep Hall (Hsafe o Ho)) as (r & s' & h' & Hrun & Hstep).
  exists r, s', h'. split; [|done]. unfold call_mm, on_heap. by rewrite Hrun.
Qed.

(** [memset] fills the bytes from [j] on and leaves the others. *)
Lemma memset_Ok n d h p b j c :
  rep (heap d) h → h !! p = Some c → 0 ≤ j → j + Z.of_nat n ≤ bytes_of c → 0 ≤ b < 256 →
  ∃ s' c', memset run n p b j d = Ok (tt, with_heap d s') ∧ rep s' (<[p := c']> h) ∧
    length c' = length c ∧
    ∀ k, 0 ≤ k → byte_at c' k = if decide (j ≤ k < j + Z.of_nat n) then Some b else byte_at c k.
Proof.
  revert d h j c. induction n as [|n IH]; intros d h j c Hrep Hp Hj Hn Hb; cbn [memset].
  { exists (heap d), c. rewrite insert_id by done. split_and!; [by destruct d|done|done|].
    intros k _. by rewrite decide_False by lia. }
  unfold bytes_of in Hn.
  assert (0 ≤ j / 8 < Z.of_nat (length c)) as Hi by (Z.to_euclidean_division_equations; lia).
  destruct (call_step d h (Load p (j / 8)) Hrep) as (w & s1 & h1 & Hrun1 & Hstep1 & Hrep1);
    [by exists c|done|]. run Hrun1. inversion Hstep1 as [| | | | | | |? ? c1 ? Hc1 _ Hw|]; subst.
  assert (c1 = c) as -> by congruence.
  destruct (call_step (with_heap d s1) h1 (Store p (j / 8) (put_byte w (j mod 8) b)) Hrep1)
    as (r & s2 & h2 & Hrun2 & Hstep2 & Hrep2); [by exists c|done|]. run Hrun2.
  inversion Hstep2 as [| | | | | | | |? ? ? c2 Hc2 Hi2]; subst. assert (c2 = c) as -> by congruence.
  destruct (IH (with_heap (with_heap d s1) s2) _ (j + 1) (<[Z.to_nat (j / 8) := put_byte w (j mod 8) b]> c) Hrep2)
    as (s' & c' & Hrun & Hrep' & Hlen & Hbytes); [by rewrite lookup_insert_eq|lia| |done|].
  { unfold bytes_of. rewrite length_insert. lia. }
  exists s', c'. split; [done|]. rewrite insert_insert_eq in Hrep'. split; [done|].
  split; [by rewrite Hlen, length_insert|]. intros k Hk. rewrite Hbytes, (byte_at_insert c w j k b) by done.
  repeat case_decide; done || lia.
Qed.

(** A block set to one value from the start. *)
Lemma memset_filled n d h p b c :
  rep (heap d) h → h !! p = Some c → 0 ≤ n ≤ bytes_of c → 0 ≤ b < 256 →
  ∃ s' c', memset run (Z.to_nat n) p b 0 d = Ok (tt, with_heap d s') ∧ rep s' (<[p := c']> h) ∧
    length c' = length c ∧ filled c' n b.
Proof.
  intros Hrep Hp Hn Hb. destruct (memset_Ok (Z.to_nat n) d h p b 0 c Hrep Hp) as (s' & c' & Hrun & Hrep' & Hlen & Hbytes);
    [lia|lia|done|]. exists s', c'. split_and!; try done. intros j Hj. rewrite Hbytes by lia. by rewrite decide_True by lia.
Qed.

(** The comparison of the driver with what it wrote: a [char] is signed, so that
    it succeeds only for values below 128. *)
Lemma check_bytes_Ok n d h p v j c :
  rep (heap d) h → h !! p = Some c → 0 ≤ j → (∀ k, j ≤ k < j + Z.of_nat n → byte_at c k = Some v) →
  ∃ s', check_bytes run n p v j d = Ok (bool_decide (n = 0%nat ∨ v < 128), with_heap d s') ∧ rep s' h.
Proof.
  revert d j. induction n as [|n IH]; intros d j Hrep Hp Hj Hc; cbn [check_bytes].
  { exists (heap d). rewrite bool_decide_eq_true_2 by auto. by destruct d. }
  pose proof (Hc j ltac:(lia)) as Hv. unfold byte_at in Hv.
  destruct (c !! Z.to_nat (j / 8)) as [w0|] eqn:Hw0; [|done]. injection Hv as Hv.
  assert (0 ≤ j / 8 < Z.of_nat (length c)) as Hi.
  { apply lookup_lt_Some in Hw0. pose proof (Z.div_pos j 8). lia. }
  destruct (call_step d h (Load p (j / 8)) Hrep) as (w & s1 & h1 & Hrun1 & Hstep1 & Hrep1);
    [by exists c|done|]. run Hrun1. inversion Hstep1 as [| | | | | | |? ? c1 ? Hc1 _ Hw|]; subst.
  assert (c1 = c) as -> by congruence. assert (w = w0) as -> by congruence.
  pose proof (get_byte_range w0 (j mod 8)) as Hb. unfold char_value.
  destruct (Z.ltb_spec (get_byte w0 (j mod 8)) 128) as [Hlow|Hhigh].
  - rewrite Z.eqb_refl. cbn [negb].
    destruct (IH (with_heap d s1) (j + 1) Hrep1 Hp ltac:(lia)) as (s' & Hrun & Hrep'); [intros; apply Hc; lia|].
    exists s'. rewrite Hrun. split; [|done]. do 2 f_equal. rewrite !bool_decide_eq_true_2 by auto. done.
  - rewrite (proj2 (Z.eqb_neq _ _)) by lia. cbn [negb]. exists s1. split; [|done].
    rewrite bool_decide_eq_false_2; [done|]. intros [?|?]; [done|lia].
Qed.

Lemma low_byte_range i : 0 ≤ Z.land i 255 < 256.
Proof. change 255 with (Z.ones 8). rewrite Z.land_ones by lia. change (2 ^ 8) with 256. apply Z.mod_pos_bound. lia. Qed.

(** A fresh block clear of the others passes the checks of [add_range]. *)
Lemma add_range_fresh d h c p n i :
  rep (heap d) (<[p := c]> h) → p mod 8 = 0 → 0 < n ≤ bytes_of c → h !! p = None →
  clear_of h p (bytes_of c) →
  (∀ lo hi, (lo, hi) ∈ ranges d → ∃ c, h !! lo = Some c ∧ lo ≤ hi < lo + bytes_of c) →
  add_range heap_lo heap_hi true p n i d =
    Ok (1, Driver (heap d) ((p, p + n - 1) :: ranges d) (blocks d) (block_sizes d) (complaints d)).
Proof.
  intros Hrep Hp8 Hn Hnone Hclear Hranges.
  destruct (bounded (heap d) _ p c Hrep) as [Hlo Hhi]; [by rewrite lookup_insert_eq|].
  unfold add_range. rewrite (proj2 (Z.eqb_neq n 0)) by lia.
  assert (assertb (n >? 0) d = Ok (tt, d)) as Ha by (apply assertb_true; lia). run Ha. rewrite ST_get.
  unfold ALIGNMENT. rewrite Hp8. cbn [Z.eqb negb].
  assert ((p <? heap_lo (heap d)) || (p >? heap_hi (heap d)) || (p + n - 1 <? heap_lo (heap d))
    || (p + n - 1 >? heap_hi (heap d)) = false) as -> by lia.
  assert (existsb (touches p (p + n - 1)) (ranges d) = false) as ->; [|done].
  apply not_true_is_false. intros (r & Hr & Ht)%existsb_exists. destruct r as [lo hi].
  apply list_elem_of_In in Hr. destruct (Hranges lo hi Hr) as (cr & Hcr & Hb).
  assert (lo ≠ p) as Hne by (intros ->; congruence).
  destruct (Hclear lo cr Hcr Hne); unfold touches in Ht; simpl in Ht; lia.
Qed.

Lemma without_sublist lo l : sublist (without lo l) l.
Proof. induction l as [|p l IH]; simpl; [done|]. destruct (p.1 =? lo); by constructor. Qed.

Lemma without_gone lo l : NoDup l.*1 → lo ∉ (without lo l).*1.
Proof.
  induction l as [|[a b] l IH]; csimpl; [set_solver|]. intros [Ha Hnd]%NoDup_cons.
  destruct (Z.eqb_spec a lo); csimpl; [by subst|]. specialize (IH Hnd). set_solver.
Qed.

(** The state after [n] bytes at [p] have been handed out for index [i]. *)
Definition allocated (d : driver St) (s : St) (i p n : Z) : driver St :=
  Driver s ((p, p + n - 1) :: ranges d) (<[i := p]> (blocks d)) (<[i := n]> (block_sizes d)) (complaints d).

(** Recording a fresh block. *)
Lemma tables_alloc d h live i p n c s :
  tables_ok d h live → p ≠ NULL → h !! p = None → 0 < n → filled c n (Z.land i 255) → live !! i = None →
  tables_ok (allocated d s i p n) (<[p := c]> h) (<[i := n]> live).
Proof.
  intros H Hnn Hnone Hn Hfill Hnew. pose proof (filled_fits _ _ _ Hfill) as Hfits.
  assert (∀ q, is_Some (h !! q) → q ≠ p) as Hold by (intros q [? ?] ->; congruence).
  split; cbn [heap ranges blocks block_sizes allocated] in *.
  - intros j m. rewrite !lookup_insert. case_decide; subst.
    + intros [= <-]. exists p. rewrite lookup_insert_eq. by eauto.
    + intros Hj. destruct (t_live _ _ _ H j m Hj) as (q & Hq & Hm & Hsome & Hqn). exists q.
      rewrite lookup_insert_ne by (symmetry; by apply Hold). done.
  - intros j k q. rewrite !lookup_insert. do 2 case_decide; subst; try done.
    + intros _ [m Hm] [= <-] Hk. destruct (t_live _ _ _ H k m Hm) as (q & Hq & _ & Hs & _).
      destruct (Hold q Hs). congruence.
    + intros [m Hm] _ Hj [= <-]. destruct (t_live _ _ _ H j m Hm) as (q & Hq & _ & Hs & _).
      destruct (Hold q Hs). congruence.
    + apply (t_inj _ _ _ H).
  - intros lo hi [[= -> ->]|Hr]%elem_of_cons.
    + exists c. rewrite lookup_insert_eq. split; [done|lia].
    + destruct (t_ranges _ _ _ H lo hi Hr) as (cr & Hcr & Hb). exists cr.
      rewrite lookup_insert_ne by (symmetry; apply Hold; by eexists). done.
  - csimpl. apply NoDup_cons. split; [|apply H].
    intros ([lo hi] & Heq & Hr)%list_elem_of_fmap. simpl in Heq. subst lo.
    destruct (t_ranges _ _ _ H _ _ Hr) as (cr & Hcr & _). congruence.
  - intros j m q cq. rewrite !(lookup_insert _ i). case_decide; subst.
    + intros [= <-] [= <-]. rewrite lookup_insert_eq. by intros [= <-].
    + intros Hj Hq. destruct (t_live _ _ _ H j m Hj) as (q' & Hq' & _ & Hs & _). simplify_eq.
      rewrite lookup_insert_ne by (symmetry; by apply Hold). by apply (t_data _ _ _ H j).
  - intros j m. rewrite lookup_insert. case_decide; [by intros [= <-]|apply (t_pos _ _ _ H)].
Qed.

(** An allocation: what [mm_malloc], [add_range] and [memset] do. *)
Lemma alloc_steps d h live i n k :
  drv_ok d h live → live !! i = None → 0 < n < 2 ^ 31 - 64 →
  ∃ p s1, call_mm run (Malloc n) d = Ok (p, with_heap d s1) ∧
    (p = NULL ∧ drv_ok (with_heap d s1) h live ∨
     p ≠ NULL ∧ h !! p = None ∧ ∃ s2 c,
       add_range heap_lo heap_hi true p n k (with_heap d s1) =
         Ok (1, Driver s1 ((p, p + n - 1) :: ranges d) (blocks d) (block_sizes d) (complaints d)) ∧
       memset run (Z.to_nat n) p (Z.land i 255) 0
         (Driver s1 ((p, p + n - 1) :: ranges d) (blocks d) (block_sizes d) (complaints d)) =
         Ok (tt, Driver s2 ((p, p + n - 1) :: ranges d) (blocks d) (block_sizes d) (complaints d)) ∧
       drv_ok (allocated d s2 i p n) (<[p := c]> h) (<[i := n]> live)).
Proof.
  intros H Hnew Hn.
  destruct (call_step d h (Malloc n) (do_rep _ _ _ H)) as (p & s1 & h1 & Hrun & Hstep & Hrep1);
    [done|done|]. exists p, s1. split; [done|].
  inversion Hstep as [|? ? c Hnn Hp8 Hnone Hlen Hclear| | | | | | |]; subst.
  { left. split; [done|]. split; [done|apply tables_heap, H]. }
  right. split; [done|]. split; [done|].
  pose proof (add_range_fresh (with_heap d s1) h c p n k Hrep1 Hp8 ltac:(lia) Hnone Hclear
    (t_ranges _ _ _ (do_tables _ _ _ H))) as Hadd.
  destruct (memset_filled n (Driver s1 ((p, p + n - 1) :: ranges d) (blocks d) (block_sizes d) (complaints d))
    (<[p := c]> h) p (Z.land i 255) c) as (s2 & c2 & Hset & Hrep2 & Hlen2 & Hfill);
    [done|by rewrite lookup_insert_eq|lia|apply low_byte_range|].
  rewrite insert_insert_eq in Hrep2. exists s2, c2. split; [done|]. split; [done|].
  split; [done|]. apply tables_alloc; [apply H|done|done|lia|done|done].
Qed.

(** An allocation: the pieces that both evaluations run. *)
Lemma alloc_request t d h live o i :
  drv_ok d h live → 0 ≤ index o < num_ids t → live !! index o = None → 0 < size o < 2 ^ 31 - 64 →
  ∃ p s', call_mm run (Malloc (size o)) d = Ok (p, with_heap d s') ∧
    (p = NULL ∨
     p ≠ NULL ∧ ∃ d1 d2 d3 h3,
       add_range heap_lo heap_hi true p (size o) i (with_heap d s') = Ok (1, d1) ∧
       memset run (Z.to_nat (size o)) p (Z.land (index o) 255) 0 d1 = Ok (tt, d2) ∧
       remember t (index o) p (size o) d2 = Ok (tt, d3) ∧
       drv_ok d3 h3 (<[index o := size o]> live) ∧ complaints d3 = complaints d).
Proof.
  intros H Hidx Hnew Hsize.
  destruct (alloc_steps d h live (index o) (size o) i H Hnew Hsize)
    as (p & s1 & Hrun & [[-> _]|(Hnn & _ & s2 & c & Hadd & Hset & Hok)]); eauto 10.
  exists p, s1. split; [done|]. right. split; [done|]. do 4 eexists. split; [done|]. split; [done|].
  unfold remember. rewrite (proj2 (Z.leb_le 0 _)), (proj2 (Z.ltb_lt _ _)) by lia. by split_and!.
Qed.

(** The state after the block at [p] has been given back. *)
Definition released (d : driver St) (s : St) (p : Z) : driver St :=
  Driver s (without p (ranges d)) (blocks d) (block_sizes d) (complaints d).

(** Forgetting a block. *)
Lemma tables_free d h live i p s :
  tables_ok d h live → is_Some (live !! i) → blocks d !! i = Some p →
  tables_ok (released d s p) (delete p h) (delete i live).
Proof.
  intros H Hi Hp. split; cbn [heap ranges blocks block_sizes released].
  - intros j m Hj%lookup_delete_Some. destruct Hj as [Hne Hj].
    destruct (t_live _ _ _ H j m Hj) as (q & Hq & Hm & Hsq & Hqn). exists q. split_and!; try done.
    rewrite lookup_delete_ne; [done|]. intros ->. apply Hne. eapply (t_inj _ _ _ H); eauto.
  - intros j k q [? Hj%lookup_delete_Some] [? Hk%lookup_delete_Some].
    apply (t_inj _ _ _ H); [by exists x; apply Hj|by exists x0; apply Hk].
  - intros lo hi Hr. assert (lo ≠ p) as Hne.
    { intros ->. apply (without_gone p (ranges d) (t_nodup _ _ _ H)).
      apply list_elem_of_fmap. by exists (p, hi). }
    rewrite lookup_delete_ne by done. apply (t_ranges _ _ _ H).
    by eapply elem_of_sublist; [|apply without_sublist].
  - eapply sublist_NoDup; [apply H|]. apply fmap_sublist, without_sublist.
  - intros j m q c [_ Hj]%lookup_delete_Some Hq [_ Hc]%lookup_delete_Some. by apply (t_data _ _ _ H j m q).
  - intros j m [_ Hj]%lookup_delete_Some. by apply (t_pos _ _ _ H j).
Qed.

(** A free: what [remove_range] and [mm_free] do. *)
Lemma free_steps d h live i n :
  drv_ok d h live → live !! i = Some n →
  ∃ p s2 r, blocks d !! i = Some p ∧ block_sizes d !! i = Some n ∧
    remove_range p d = Ok (tt, released d (heap d) p) ∧
    call_mm run (Free p) (released d (heap d) p) = Ok (r, released d s2 p) ∧
    drv_ok (released d s2 p) (delete p h) (delete i live).
Proof.
  intros H Hi. destruct (do_live _ _ _ H i n Hi) as (p & Hp & Hn & Hs & Hpn).
  destruct (call_step (released d (heap d) p) h (Free p) (do_rep _ _ _ H)) as (r & s2 & h2 & Hrun & Hstep & Hrep2);
    [by right|done|].
  exists p, s2, r. split_and!; try done.
  assert (h2 = delete p h) as -> by (by inversion Hstep; subst).
  split; [done|]. apply tables_free; [apply H|by eexists|done].
Qed.

(** A free. *)
Lemma free_request d h live i n :
  drv_ok d h live → live !! i = Some n →
  ∃ p d1 d2 r h2, block_at i d = Ok (p, d) ∧ block_size_at i d = Ok (n, d) ∧
    remove_range p d = Ok (tt, d1) ∧ call_mm run (Free p) d1 = Ok (r, d2) ∧
    drv_ok d2 h2 (delete i live) ∧ complaints d2 = complaints d.
Proof.
  intros H Hi. destruct (free_steps d h live i n H Hi) as (p & s2 & r & Hp & Hn & Hrm & Hfree & Hok).
  unfold block_at, block_size_at. rewrite Hp, Hn. do 5 eexists. by split_and!.
Qed.

(** ** Reallocation *)

Section Realloc.
Context `{!Reallocator run rep}.

(** What [mm_realloc] gives: the old bytes in a payload of the new size, which
    takes the place of the old one in the heap. *)
Lemma realloc_call d h p n c :
  rep (heap d) h → h !! p = Some c → 0 < n < 2 ^ 31 - 64 →
  call_mm run (Realloc p n) d = Err BadAccess ∨
  ∃ q s1, call_mm run (Realloc p n) d = Ok (q, with_heap d s1) ∧
    (q = NULL ∨
     q ≠ NULL ∧ q mod 8 = 0 ∧ delete p h !! q = None ∧ ∃ c', c `prefix_of` c' ∧ n ≤ bytes_of c' ∧
       clear_of (delete p h) q (bytes_of c') ∧ rep s1 (<[q := c']> (delete p h))).
Proof.
  intros Hrep Hp Hn. unfold call_mm, on_heap.
  destruct (realloc_step (heap d) h p n Hrep) as [(q & s1 & h1 & Hrun & Hstep & Hrep1)| ->];
    [by split; [eexists|]| |by left].
  right. exists q, s1. rewrite Hrun. split; [done|].
  assert (∀ q len, clear_of h q len → clear_of (delete p h) q len) as Hclear.
  { intros a len Ha b e [_ Hb]%lookup_delete_Some. by apply Ha. }
  inversion Hstep as [| | | |? ? Hs|? ? c1 c' Hc Hpre Hle Hcl|? ? c1 q' c' Hc Hpre Hle Hnn H8 Hnone Hcl| |]; subst.
  - by left.
  - right. destruct (aligned (heap d) h q Hrep) as [H8 Hnn]; [by eexists|]. simplify_eq.
    split_and!; [done|done|apply lookup_delete_eq|]. exists c'. split_and!; try done; [by apply Hclear|].
    by rewrite insert_delete_eq.
  - right. simplify_eq. split_and!; [done|done| |].
    + rewrite lookup_delete_ne; [done|]. intros ->. congruence.
    + exists c'. split_and!; try done. by apply Hclear.
Qed.

(** The tables once the block has been filled again. *)
Lemma realloc_fill d h live i m p q n c s rs :
  tables_ok d h live → live !! i = Some m → blocks d !! i = Some p → q ≠ NULL → delete p h !! q = None →
  0 < n ≤ bytes_of c → rep s (<[q := c]> (delete p h)) →
  ∃ s' c', memset run (Z.to_nat n) q (Z.land i 255) 0 (Driver s rs (blocks d) (block_sizes d) (complaints d)) =
      Ok (tt, Driver s' rs (blocks d) (block_sizes d) (complaints d)) ∧
    drv_ok (allocated (released d s' p) s' i q n) (<[q := c']> (delete p h)) (<[i := n]> live).
Proof.
  intros H Hi Hp Hnn Hnone Hn Hrep.
  destruct (memset_filled n (Driver s rs (blocks d) (block_sizes d) (complaints d)) _ q (Z.land i 255) c Hrep)
    as (s' & c' & Hset & Hrep' & Hlen & Hfill); [by rewrite lookup_insert_eq|lia|apply low_byte_range|].
  rewrite insert_insert_eq in Hrep'. exists s', c'. split; [done|]. split; [done|].
  rewrite <-(insert_delete_eq live i n). apply tables_alloc; try done; [|lia|apply lookup_delete_eq].
  apply tables_free; [done|by eexists|done].
Qed.

(** A reallocation: the pieces that the evaluations run. *)
Lemma realloc_request t d h live o k m :
  drv_ok d h live → 0 ≤ index o < num_ids t → live !! index o = Some m → 0 < size o < 2 ^ 31 - 64 →
  ∃ p, block_at (index o) d = Ok (p, d) ∧ block_size_at (index o) d = Ok (m, d) ∧
    (call_mm run (Realloc p (size o)) d = Err BadAccess ∨
     ∃ q d1, call_mm run (Realloc p (size o)) d = Ok (q, d1) ∧ complaints d1 = complaints d ∧
       (q = NULL ∨
        q ≠ NULL ∧ ∃ d2 d3 d4, remove_range p d1 = Ok (tt, d2) ∧
          add_range heap_lo heap_hi true q (size o) k d2 = Ok (1, d3) ∧
          block_size_at (index o) d3 = Ok (m, d3) ∧
          check_bytes run (Z.to_nat (if size o <? m then size o else m)) q (Z.land (index o) 255) 0 d3 =
            Ok (bool_decide (Z.land (index o) 255 < 128), d4) ∧ complaints d4 = complaints d ∧
          ∀ e, e = d3 ∨ e = d4 → ∃ d5 d6 h6,
            memset run (Z.to_nat (size o)) q (Z.land (index o) 255) 0 e = Ok (tt, d5) ∧
            block_size_at (index o) d5 = Ok (m, d5) ∧ remember t (index o) q (size o) d5 = Ok (tt, d6) ∧
            drv_ok d6 h6 (<[index o := size o]> live) ∧ complaints d6 = complaints d)).
Proof.
  intros H Hidx Hi Hn. destruct (do_live _ _ _ H _ _ Hi) as (p & Hp & Hm & [c Hc] & Hpn). exists p.
  unfold block_at, block_size_at. rewrite Hp, Hm. split; [done|]. split; [done|].
  destruct (realloc_call d h p (size o) c (do_rep _ _ _ H) Hc Hn) as [He|(q & s1 & Hrun & Hq)]; [by left|right].
  exists q, (with_heap d s1). split; [done|]. split; [done|].
  destruct Hq as [->|(Hnn & H8 & Hnone & c' & Hpre & Hle & Hcl & Hrep)]; [by left|right]. split; [done|].
  set (rs := (q, q + size o - 1) :: without p (ranges d)).
  set (d3 := Driver s1 rs (blocks d) (block_sizes d) (complaints d)).
  pose proof (do_tables _ _ _ H) as Ht.
  assert (tables_ok (released d s1 p) (delete p h) (delete (index o) live)) as Hfree
    by (apply tables_free; [done|by eexists|done]).
  pose proof (add_range_fresh (released d s1 p) (delete p h) c' q (size o) k Hrep H8 ltac:(lia) Hnone Hcl
    (t_ranges _ _ _ Hfree)) as Hadd.
  pose proof (t_pos _ _ _ Ht _ _ Hi) as Hpos.
  destruct (check_bytes_Ok (Z.to_nat (if size o <? m then size o else m)) d3 _ q (Z.land (index o) 255) 0 c' Hrep)
    as (s2 & Hcheck & Hrep2); [by rewrite lookup_insert_eq|lia| |].
  { intros j Hj. apply (filled_prefix c c' m m _ (t_data _ _ _ Ht _ _ _ _ Hi Hp Hc) Hpre ltac:(lia)).
    destruct (Z.ltb_spec (size o) m); lia. }
  exists (released d s1 p), d3, (with_heap d3 s2). split_and!; try done.
  - cbn. by rewrite Hm.
  - rewrite Hcheck. do 2 f_equal. apply bool_decide_ext. destruct (Z.ltb_spec (size o) m); naive_solver lia.
  - intros e He. assert (∃ s, e = Driver s rs (blocks d) (block_sizes d) (complaints d) ∧
      rep s (<[q := c']> (delete p h))) as (s & -> & Hs) by (destruct He as [-> | ->]; eauto).
    destruct (realloc_fill d h live (index o) m p q (size o) c' s rs Ht Hi Hp Hnn Hnone ltac:(lia) Hs)
      as (s' & c3 & Hset & Hok).
    do 3 eexists. split; [done|]. split; [cbn; by rewrite Hm|]. unfold remember.
    rewrite (proj2 (Z.leb_le 0 _)), (proj2 (Z.ltb_lt _ _)) by lia. by split_and!.
Qed.
End Realloc.
End Tables.
