(* ===== verification/MdriverProofs.v ===== *)
(** * The trace driver on an allocator that keeps its promise.

    On a proper trace the driver finds nothing to complain about but a request
    that the allocator refuses, or the data of a block with a high index that it
    misreads itself; the utilisation it computes is the peak of the live bytes. *)

From Stdlib Require Import ZArith Lia.
From stdpp Require Import base gmap numbers option list.
From S2P Require Import Prelude Memlib MmInline Mm MmHeap MmLayout MmProofs MmSpec MmRealloc MmRefine MmGrow Mdriver MdriverBytes MdriverTables.

Open Scope Z_scope.

(** Traces that use each index properly. *)
Fixpoint proper (n : Z) (live : gset Z) (os : list traceop) : Prop :=
  match os with
  | [] => True
  | o :: os' =>
      match type o with
      | ALLOC => 0 ≤ index o < n ∧ (index o ∉ live) ∧ 0 < size o < 2 ^ 31 - 64 ∧
                 proper n ({[index o]} ∪ live) os'
      | FREE => index o ∈ live ∧ proper n (live ∖ {[index o]}) os'
      | REALLOC => 0 ≤ index o < n ∧ index o ∈ live ∧ 0 < size o < 2 ^ 31 - 64 ∧ proper n live os'
      end
  end.

(** The peak of the bytes allocated: [sizes] holds the sizes of the live
    indices. *)
Fixpoint peak (sizes : gmap Z Z) (total mx : Z) (os : list traceop) : Z :=
  match os with
  | [] => mx
  | o :: os' =>
      match type o with
      | ALLOC => peak (<[index o := size o]> sizes) (total + size o) (Z.max mx (total + size o)) os'
      | FREE => peak (delete (index o) sizes) (total - default 0 (sizes !! index o)) mx os'
      | REALLOC =>
          let total' := total + (size o - default 0 (sizes !! index o)) in
          peak (<[index o := size o]> sizes) total' (Z.max mx total') os'
      end
  end.

Lemma peak_above os : ∀ sizes total mx, mx ≤ peak sizes total mx os.
Proof.
  induction os as [|o os IH]; intros sizes total mx; cbn [peak]; [done|].
  destruct (type o); cbv zeta; [|apply IH|]; (etrans; [|apply IH]); lia.
Qed.

(** A trace that reallocates may end in a copy between blocks that overlap. *)
Definition reallocates (os : list traceop) : Prop := ∃ o, o ∈ os ∧ type o = REALLOC.

Lemma reallocates_cons o os : reallocates os → reallocates (o :: os).
Proof. intros (x & Hx & ?). exists x. split; [by right|done]. Qed.

(** Complaints for which the allocator is not to blame: a request that it refuses
    for want of memory, and data that the driver misreads because a [char] is
    signed. *)
Definition excused (o : traceop) (c : complaint) : Prop :=
  match type o, c with
  | ALLOC, MallocFailed | REALLOC, ReallocFailed => True
  | REALLOC, DataLost => 128 ≤ Z.land (index o) 255
  | _, _ => False
  end.

Definition excuse (os : list traceop) (c : complaint) : Prop := ∃ o, o ∈ os ∧ excused o c.

Lemma excuse_cons o os c : excuse os c → excuse (o :: os) c.
Proof. intros (x & Hx & ?). exists x. split; [by right|done]. Qed.

Section Proofs.
Context {St : Type} (run : op → ST St Z) (safe : op → Prop) (rep : St → aheap → Prop).
Context (heap_lo heap_hi : St → Z).
Context `{!Allocator run safe rep} `{!Bounded rep heap_lo heap_hi} `{!Reallocator run rep}.
Context (Hsafe : ∀ o, (∀ p n, o ≠ Realloc p n) → safe o).

Abbreviation drv_ok := (drv_ok rep).

(** A request of [eval_mm_valid]: the indices in use afterwards. *)
Definition live_after (o : traceop) (live : gmap Z Z) : gmap Z Z :=
  match type o with FREE => delete (index o) live | _ => <[index o := size o]> live end.

(** A live index may be written again. *)
Lemma dom_rewrite (live : gmap Z Z) i n : i ∈ dom live → dom (<[i := n]> live) = dom live.
Proof. intros H. rewrite dom_insert_L. set_solver. Qed.

Lemma proper_rest n live o os :
  proper n (dom live) (o :: os) → proper n (dom (live_after o live)) os.
Proof.
  cbn [proper]. unfold live_after. destruct (type o).
  - intros (_ & _ & _ & H). by rewrite dom_insert_L.
  - intros (_ & H). by rewrite dom_delete_L.
  - intros (_ & Hi & _ & H). by rewrite dom_rewrite.
Qed.

(** How a request of [eval_mm_valid] ends. *)
Definition valid_step (o : traceop) (i : Z) (d : driver St) (live : gmap Z Z) (r : result (option Z * driver St)) : Prop :=
  (∃ d' h', r = Ok (None, d') ∧ drv_ok d' h' (live_after o live) ∧ complaints d' = complaints d) ∨
  (∃ d' c, r = Ok (Some 0, d') ∧ excused o c ∧ complaints d' = complaints d ++ [(i, c)]) ∨
  type o = REALLOC ∧ r = Err BadAccess.

Lemma valid_realloc t os d h live o i :
  drv_ok d h live → type o = REALLOC → proper (num_ids t) (dom live) (o :: os) →
  valid_step o i d live (valid_op run heap_lo heap_hi true t i o d).
Proof.
  intros H Ht Hproper. cbn [proper] in Hproper. rewrite Ht in Hproper.
  destruct Hproper as (Hidx & [m Hi]%elem_of_dom & Hsize & _).
  destruct (realloc_request run safe rep heap_lo heap_hi Hsafe t d h live o i m H Hidx Hi Hsize) as (p & Hb & _ & Hcall).
  unfold valid_step, valid_op, live_after, excused. rewrite Ht. run Hb.
  destruct Hcall as [He|(q & d1 & Hrun & Hc1 & Hq)]; [right; right; split; [done|]; exact (ST_bind_Err _ _ _ _ He)|].
  run Hrun. rewrite (proj2 (Z.eqb_neq (size o) 0)) by lia. cbn [negb].
  destruct Hq as [->|(Hnn & d2 & d3 & d4 & Hrm & Hadd & Hbs & Hcheck & Hc4 & Hend)].
  { right. left. eexists _, ReallocFailed. split_and!; [done|done|]. cbn. by rewrite Hc1. }
  rewrite (proj2 (Z.eqb_neq q NULL) Hnn). cbn [andb]. run Hrm. run Hadd. cbn [Z.eqb]. run Hbs. run Hcheck.
  case_bool_decide as Hlow; cbn [negb].
  - destruct (Hend d4) as (d5 & d6 & h6 & Hset & _ & Hrem & H6 & Hc6); [by right|]. run Hset. run Hrem. left. by exists d6, h6.
  - right. left. eexists _, DataLost. split_and!; [done|lia|]. cbn. by rewrite Hc4.
Qed.

Lemma valid_op_Ok t os d h live o i :
  drv_ok d h live → proper (num_ids t) (dom live) (o :: os) →
  valid_step o i d live (valid_op run heap_lo heap_hi true t i o d).
Proof.
  intros H Hproper. destruct (type o) eqn:Ht; [| |by eapply valid_realloc].
  all: cbn [proper] in Hproper; unfold valid_step, valid_op, live_after, excused; rewrite Ht in *.
  - destruct Hproper as (Hidx & Hnew%not_elem_of_dom & Hsize & Hrest).
    destruct (alloc_request run safe rep heap_lo heap_hi Hsafe t d h live o i H Hidx Hnew Hsize)
      as (p & s1 & Hrun & [->|(Hnn & d1 & d2 & d3 & h3 & Hadd & Hset & Hrem & H3 & Hc)]); run Hrun;
      rewrite (proj2 (Z.eqb_neq (size o) 0)) by lia; cbn [negb].
    + right. left. by eexists _, MallocFailed.
    + left. rewrite (proj2 (Z.eqb_neq p NULL) Hnn). cbn [andb]. run Hadd. cbn [Z.eqb].
      run Hset. run Hrem. by exists d3, h3.
  - destruct Hproper as ([n Hi]%elem_of_dom & Hrest). left.
    destruct (free_request run safe rep heap_lo heap_hi Hsafe d h live (index o) n H Hi)
      as (p & d1 & d2 & r & h2 & Hb & _ & Hrm & Hfree & H2 & Hc).
    run Hb. run Hrm. run Hfree. by exists d2, h2.
Qed.

(** How [eval_mm_valid] ends on the requests [os]. *)
Definition valid_end (os : list traceop) (cs : list (Z * complaint)) (r : result (Z * driver St)) : Prop :=
  (∃ d', r = Ok (1, d') ∧ complaints d' = cs) ∨
  (∃ d' k c, r = Ok (0, d') ∧ excuse os c ∧ complaints d' = cs ++ [(k, c)]) ∨
  reallocates os ∧ r = Err BadAccess.

(** [eval_mm_valid] on the rest of a trace. *)
Lemma valid_ops_Ok t os : ∀ d h live i,
  drv_ok d h live → proper (num_ids t) (dom live) os →
  valid_end os (complaints d) (valid_ops run heap_lo heap_hi true t i os d).
Proof.
  unfold valid_end. induction os as [|o os IH]; intros d h live i H Hproper; cbn [valid_ops]; [left; by exists d|].
  destruct (valid_op_Ok t os d h live o i H Hproper) as [(d1 & h1 & Hrun & H1 & Hc)|[(d1 & c & Hrun & He & Hc)|[Ht He]]].
  - run Hrun. apply proper_rest in Hproper. rewrite <-Hc.
    destruct (IH d1 h1 _ (i + 1) H1 Hproper) as [Hr|[(d' & k & c & Hr & He & Hc')|[Hr He]]]; [by left|right..].
    + left. exists d', k, c. by auto using excuse_cons.
    + right. by auto using reallocates_cons.
  - run Hrun. right. left. exists d1, i, c. split_and!; try done. exists o. split; [by left|done].
  - right. right. split; [exists o; split; [by left|done]|]. exact (ST_bind_Err _ _ _ _ He).
Qed.

(** ** The size of the heap *)

(** The bytes in use fit into the payloads. *)
Lemma live_fits (bl : gmap Z Z) : ∀ (live : gmap Z Z) (h : aheap),
  (∀ i n, live !! i = Some n → ∃ p c, bl !! i = Some p ∧ h !! p = Some c ∧ n ≤ bytes_of c) →
  (∀ i j p, is_Some (live !! i) → is_Some (live !! j) → bl !! i = Some p → bl !! j = Some p → i = j) →
  sum live ≤ msum bytes_of h.
Proof.
  intros live. induction live as [|i n live Hi IH] using map_ind; intros h Hlive Hinj.
  { apply msum_nonneg. intros p c _. unfold bytes_of. lia. }
  destruct (Hlive i n) as (p & c & Hp & Hc & Hn); [by rewrite lookup_insert_eq|].
  rewrite msum_insert, (msum_delete _ h p c Hc) by done.
  enough (sum live ≤ msum bytes_of (delete p h)) by lia. apply IH.
  - intros j m Hj. assert (i ≠ j) as Hne by congruence.
    destruct (Hlive j m) as (q & cq & Hq & Hcq & Hm); [by rewrite lookup_insert_ne|].
    exists q, cq. rewrite lookup_delete_ne; [done|]. intros ->. apply Hne.
    apply (Hinj i j q); [by rewrite lookup_insert_eq|by rewrite lookup_insert_ne|done|done].
  - intros j k q [? Hj] [? Hk]. apply Hinj; (rewrite lookup_insert_ne by congruence); by eexists.
Qed.

Definition heap_bytes (s : St) : Z := heap_hi s - heap_lo s + 1.

Lemma live_capacity d h live : drv_ok d h live → sum live ≤ heap_bytes (heap d).
Proof.
  intros H. etrans; [|apply capacity, H]. apply (live_fits (blocks d)); [|apply (do_inj rep d h live H)].
  intros i n Hi. destruct (do_live rep d h live H i n Hi) as (p & Hp & _ & [c Hc] & _). exists p, c.
  split_and!; try done. eapply filled_fits, (t_data _ _ _ (do_tables _ _ _ _ H)); done.
Qed.

Section Growth.
Context `{!Growing run heap_lo heap_hi}.

(** The driver's operations on the heap let it grow. *)
Lemma call_mm_grows o (d d' : driver St) r : call_mm run o d = Ok (r, d') → heap_bytes (heap d) ≤ heap_bytes (heap d').
Proof.
  unfold call_mm, on_heap. destruct (run o (heap d)) as [[r' s']|] eqn:Hr; [|done]. intros [= <- <-].
  apply growing in Hr as [Hlo Hhi]. unfold heap_bytes. cbn. lia.
Qed.

Lemma memset_grows n p b : ∀ j (d d' : driver St),
  memset run n p b j d = Ok (tt, d') → heap_bytes (heap d) ≤ heap_bytes (heap d').
Proof.
  induction n as [|n IH]; intros j d d'; cbn [memset]; [by intros [= <-]|].
  intros (w & d1 & H1%call_mm_grows & (r & d2 & H2%call_mm_grows & H3%IH)%ST_bind_inv)%ST_bind_inv. lia.
Qed.

Lemma add_range_heap lo n i (d d' : driver St) r :
  add_range heap_lo heap_hi true lo n i d = Ok (r, d') → heap d' = heap d.
Proof.
  unfold add_range, assertb, malloc_error, set_ranges. destruct (n =? 0); [by intros [= _ <-]|].
  destruct (n >? 0); [|done]. rewrite ST_ret_bind, ST_get. repeat case_match; try done; by intros [= _ <-].
Qed.

(** What an allocation and a free of the evaluations do to the size. *)
Lemma alloc_grows t o i p d d0 d1 d2 d3 :
  call_mm run (Malloc (size o)) d = Ok (p, d0) → add_range heap_lo heap_hi true p (size o) i d0 = Ok (1, d1) →
  memset run (Z.to_nat (size o)) p (Z.land (index o) 255) 0 d1 = Ok (tt, d2) →
  remember t (index o) p (size o) d2 = Ok (tt, d3) → heap_bytes (heap d) ≤ heap_bytes (heap d3).
Proof.
  intros H1%call_mm_grows H2%add_range_heap H3%memset_grows. unfold remember. case_match; [|done].
  intros [= <-]. cbn. rewrite H2 in H3. lia.
Qed.

Lemma free_grows p r d d1 d2 :
  remove_range p d = Ok (tt, d1) → call_mm run (Free p) d1 = Ok (r, d2) → heap_bytes (heap d) ≤ heap_bytes (heap d2).
Proof. intros [= <-] H%call_mm_grows. done. Qed.

(** What a reallocation does to it. *)
Lemma realloc_grows t o i p q d d1 d2 d3 d5 d6 :
  call_mm run (Realloc p (size o)) d = Ok (q, d1) → remove_range p d1 = Ok (tt, d2) →
  add_range heap_lo heap_hi true q (size o) i d2 = Ok (1, d3) →
  memset run (Z.to_nat (size o)) q (Z.land (index o) 255) 0 d3 = Ok (tt, d5) →
  remember t (index o) q (size o) d5 = Ok (tt, d6) → heap_bytes (heap d) ≤ heap_bytes (heap d6).
Proof.
  intros H1%call_mm_grows [= <-] H2%add_range_heap H3%memset_grows. unfold remember. case_match; [|done].
  intros [= <-]. cbn in *. rewrite H2 in H3. lia.
Qed.

Lemma as_int_Ok v (d : driver St) : - 2 ^ 31 ≤ v < 2 ^ 31 → as_int v d = Ok (v, d).
Proof. intros H. unfold as_int. by rewrite (proj2 (Z.leb_le _ _)), (proj2 (Z.ltb_lt _ _)) by lia. Qed.

(** What the totals of [eval_mm_util] are: the sum of the live sizes and a maximum
    above it that the heap can hold. *)
Definition tallied (s : St) (live : gmap Z Z) (tot mx : Z) : Prop :=
  tot = sum live ∧ tot ≤ mx ≤ heap_bytes s.

Lemma live_nonneg d h live : drv_ok d h live → 0 ≤ sum live.
Proof. intros H. apply msum_nonneg. intros i n Hi. pose proof (t_pos _ _ _ (do_tables _ _ _ _ H) i n Hi). simpl. lia. Qed.

(** Recording [n] more bytes. *)
Lemma tallied_more d h live s tot mx n :
  drv_ok d h live → sum live = tot + n → mx ≤ heap_bytes s ≤ heap_bytes (heap d) →
  tallied (heap d) live (tot + n) (if tot + n >? mx then tot + n else mx).
Proof.
  intros H Hsum Hmx. pose proof (live_capacity _ _ _ H) as Hcap. split; [done|].
  destruct (tot + n >? mx) eqn:Hgt; lia.
Qed.

Lemma larger a b : (if a >? b then a else b) = Z.max b a.
Proof. destruct (a >? b) eqn:H; lia. Qed.

(** How a request of [eval_mm_util] ends. *)
Definition util_step (os : list traceop) (o : traceop) (live : gmap Z Z) (tot mx : Z) (d : driver St)
    (r : result ((Z + (Z * Z)) * driver St)) : Prop :=
  (∃ d' h' tot' mx', r = Ok (inr (tot', mx'), d') ∧ drv_ok d' h' (live_after o live) ∧
     tallied (heap d') (live_after o live) tot' mx' ∧ complaints d' = complaints d ∧
     peak live tot mx (o :: os) = peak (live_after o live) tot' mx' os) ∨
  r = Err (Exit 1) ∨ type o = REALLOC ∧ r = Err BadAccess.

Section Requests.
Context (t : trace) (os : list traceop) (d : driver St) (h : aheap) (live : gmap Z Z) (o : traceop) (i tot mx : Z).
Context (H : drv_ok d h live) (Hproper : proper (num_ids t) (dom live) (o :: os)).
Context (Htal : tallied (heap d) live tot mx) (Hpeak : peak live tot mx (o :: os) < 2 ^ 31).

Lemma util_alloc : type o = ALLOC → util_step os o live tot mx d (util_op run heap_lo heap_hi true t i o tot mx d).
Proof.
  intros Ht. destruct Htal as (-> & Hmx & Hcap). pose proof (live_nonneg _ _ _ H) as Hsum.
  unfold util_step, util_op, live_after. cbn [proper peak] in *. rewrite Ht in *.
  destruct Hproper as (Hidx & Hnew%not_elem_of_dom & Hsize & Hrest).
  pose proof (peak_above os (<[index o := size o]> live) (sum live + size o) (Z.max mx (sum live + size o))) as Habove.
  destruct (alloc_request run safe rep heap_lo heap_hi Hsafe t d h live o i H Hidx Hnew Hsize)
    as (p & s1 & Hrun & [->|(Hnn & d1 & d2 & d3 & h3 & Hadd & Hset & Hrem & H3 & Hc)]); run Hrun;
    rewrite (proj2 (Z.eqb_neq (size o) 0)) by lia; cbn [negb]; [by right; left|left].
  rewrite (proj2 (Z.eqb_neq p NULL) Hnn). cbn [andb]. run Hadd. cbn [Z.eqb]. run Hset. run Hrem.
  assert (as_int (sum live + size o) d3 = Ok (sum live + size o, d3)) as Hi by (apply as_int_Ok; lia).
  pose proof (alloc_grows _ _ _ _ _ _ _ _ _ Hrun Hadd Hset Hrem) as Hg.
  run Hi. exists d3, h3. do 2 eexists. split_and!; try done.
  - apply (tallied_more d3 h3 _ (heap d)); [done| |lia]. rewrite msum_insert by done. lia.
  - by rewrite larger.
Qed.

Lemma util_free : type o = FREE → util_step os o live tot mx d (util_op run heap_lo heap_hi true t i o tot mx d).
Proof.
  intros Ht. destruct Htal as (-> & Hmx & Hcap).
  unfold util_step, util_op, live_after. cbn [proper peak] in *. rewrite Ht in *.
  destruct Hproper as ([n Hi]%elem_of_dom & Hrest). left. rewrite Hi in *. cbn [default from_option id] in *.
  pose proof (t_pos _ _ _ (do_tables _ _ _ _ H) _ _ Hi) as Hn.
  pose proof (msum_delete (λ n : Z, n) live _ _ Hi) as Hdel. cbv beta in Hdel.
  pose proof (peak_above os (delete (index o) live) (sum live - n) mx) as Habove.
  destruct (free_request run safe rep heap_lo heap_hi Hsafe d h live (index o) n H Hi)
    as (p & d1 & d2 & r & h2 & Hb & Hbs & Hrm & Hfree & H2 & Hc).
  pose proof (live_nonneg _ _ _ H2) as Hrest0. run Hbs. run Hb. run Hrm. run Hfree.
  assert (as_int (sum live - n) d2 = Ok (sum live - n, d2)) as Hint by (apply as_int_Ok; simpl in *; lia).
  run Hint. exists d2, h2. do 2 eexists. pose proof (free_grows _ _ _ _ _ Hrm Hfree) as Hg.
  split_and!; try done. split; lia.
Qed.

Lemma util_realloc : type o = REALLOC → util_step os o live tot mx d (util_op run heap_lo heap_hi true t i o tot mx d).
Proof.
  intros Ht. destruct Htal as (-> & Hmx & Hcap).
  unfold util_step, util_op, live_after. cbn [proper peak] in *. rewrite Ht in *.
  destruct Hproper as (Hidx & [m Hi]%elem_of_dom & Hsize & Hrest). rewrite Hi in *. cbn [default from_option id] in *. cbv zeta in *.
  pose proof (t_pos _ _ _ (do_tables _ _ _ _ H) _ _ Hi) as Hm.
  pose proof (peak_above os (<[index o := size o]> live) (sum live + (size o - m)) (Z.max mx (sum live + (size o - m)))) as Habove.
  assert (sum (<[index o := size o]> live) = sum live + (size o - m)) as Hsum.
  { rewrite <-(insert_delete_eq live (index o) (size o)), msum_insert by apply lookup_delete_eq.
    pose proof (msum_delete (λ n : Z, n) live _ _ Hi) as Hdel. cbv beta in Hdel. lia. }
  assert (m ≤ sum live) as Hle.
  { rewrite (msum_delete (λ n : Z, n) live _ _ Hi). enough (0 ≤ sum (delete (index o) live)) by lia.
    apply msum_nonneg. intros j n [_ Hj]%lookup_delete_Some. pose proof (t_pos _ _ _ (do_tables _ _ _ _ H) _ _ Hj). simpl. lia. }
  destruct (realloc_request run safe rep heap_lo heap_hi Hsafe t d h live o i m H Hidx Hi Hsize) as (p & Hb & Hbs & Hcall).
  run Hbs. run Hb. destruct Hcall as [He|(q & d1 & Hrun & Hc1 & Hq)];
    [right; right; split; [done|]; exact (ST_bind_Err _ _ _ _ He)|].
  run Hrun. rewrite (proj2 (Z.eqb_neq (size o) 0)) by lia. cbn [negb].
  destruct Hq as [->|(Hnn & d2 & d3 & d4 & Hrm & Hadd & _ & _ & _ & Hend)]; [by right; left|left].
  rewrite (proj2 (Z.eqb_neq q NULL) Hnn). cbn [andb]. run Hrm. run Hadd. cbn [Z.eqb].
  destruct (Hend d3) as (d5 & d6 & h6 & Hset & Hbs5 & Hrem & H6 & Hc6); [by left|]. run Hset. run Hbs5. run Hrem.
  pose proof (live_nonneg _ _ _ H6) as Hnew. rewrite Hsum in Hnew.
  assert (as_int (size o - m) d6 = Ok (size o - m, d6)) as Hint by (apply as_int_Ok; lia). run Hint.
  assert (as_int (sum live + (size o - m)) d6 = Ok (sum live + (size o - m), d6)) as Hint2 by (apply as_int_Ok; lia).
  run Hint2. pose proof (realloc_grows _ _ _ _ _ _ _ _ _ _ _ Hrun Hrm Hadd Hset Hrem) as Hg.
  exists d6, h6. do 2 eexists. split_and!; try done.
  - by apply (tallied_more d6 h6 _ (heap d)).
  - by rewrite larger.
Qed.

Lemma util_op_Ok : util_step os o live tot mx d (util_op run heap_lo heap_hi true t i o tot mx d).
Proof. destruct (type o) eqn:Ht; [by apply util_alloc|by apply util_free|by apply util_realloc]. Qed.
End Requests.

(** How [eval_mm_util] ends: with the peak, or because a request is refused. *)
Definition util_end (os : list traceop) (v : Z) (cs : list (Z * complaint)) (r : result ((Z + Z) * driver St)) : Prop :=
  (∃ d' h' live', r = Ok (inr v, d') ∧ drv_ok d' h' live' ∧ complaints d' = cs ∧ v ≤ heap_bytes (heap d')) ∨
  r = Err (Exit 1) ∨ reallocates os ∧ r = Err BadAccess.

Lemma util_ops_Ok t os : ∀ d h live i tot mx,
  drv_ok d h live → proper (num_ids t) (dom live) os → tallied (heap d) live tot mx → peak live tot mx os < 2 ^ 31 →
  util_end os (peak live tot mx os) (complaints d) (util_ops run heap_lo heap_hi true t i os tot mx d).
Proof.
  unfold util_end. induction os as [|o os IH]; intros d h live i tot mx H Hproper Htal Hpk; cbn [util_ops].
  { left. exists d, h, live. split_and!; try done. apply Htal. }
  destruct (util_op_Ok t os d h live o i tot mx H Hproper Htal Hpk)
    as [(d1 & h1 & tot1 & mx1 & Hrun & H1 & Htal1 & Hc & Hpeak)|[Hrun|[Ht Hrun]]].
  - run Hrun. rewrite Hpeak in *. rewrite <-Hc. apply proper_rest in Hproper.
    destruct (IH d1 h1 _ (i + 1) tot1 mx1 H1 Hproper Htal1 Hpk) as [Hr|[Hr|[Hr He]]]; [by left|by right; left|].
    right. right. by auto using reallocates_cons.
  - right. left. by apply ST_bind_Err.
  - right. right. split; [exists o; split; [by left|done]|]. exact (ST_bind_Err _ _ _ _ Hrun).
Qed.
End Growth.
End Proofs.

(** ** [mm.c] *)

(** What the evaluations do first: [mem_reset_brk] and [mm_init]. *)
Definition mm_start (arena : Z) (contents : gmap Z Z) : ST mm_state Z :=
  mem_reset_brk;; mm_init arena contents.

#[export] Instance mm_bounded : Bounded mm_rep mem_heap_lo mem_heap_hi.
Proof.
  split; cycle 1.
  { intros s h p (M & fl & H & ->) [c Hp]. destruct (view_Some _ _ _ _ Hp) as (b & sz & -> & Hb & _).
    by destruct (owned_facts _ _ _ H _ _ Hb) as (_ & _ & Hnn & H8). }
  { intros s h H%mm_capacity. unfold mem_heap_lo, mem_heap_hi, mem_heapsize in *. lia. }
  intros s h p c (M & fl & H & ->) Hp. destruct (view_Some _ _ _ _ Hp) as (b & sz & -> & Hb & ->).
  pose proof (heap_blocks _ _ _ H) as HM. destruct (owned_split _ _ _ _ HM Hb) as (M1 & M2 & HMeq & ->).
  destruct (owned_facts _ _ _ H _ _ Hb) as (H8 & H32 & _ & _). rewrite HMeq in HM.
  apply Forall_app in HM as [HM1 [_ HM2]%Forall_cons].
  pose proof (total_nonneg _ HM1). pose proof (total_nonneg _ HM2). pose proof (ho_brk _ _ _ H) as Hbrk.
  rewrite total_full, HMeq, total_app in Hbrk. simpl in Hbrk.
  unfold mem_heap_lo, mem_heap_hi. rewrite bytes_contents by lia. unfold payload, WORD_SIZE. lia.
Qed.

#[export] Instance mm_reallocator : Reallocator mm_run mm_rep.
Proof. split. apply refine_realloc. Qed.

#[export] Instance mm_growing : Growing mm_run mem_heap_lo mem_heap_hi.
Proof.
  split. intros o s r s' [E1 _ E3 _]%mm_run_grows. unfold mem_heap_lo, mem_heap_hi. lia.
Qed.

Lemma mm_safe_all o : (∀ p n, o ≠ Realloc p n) → mm_safe o.
Proof. destruct o; try done. intros H. by destruct (H p n). Qed.

(** The heap is empty then. *)
Lemma mm_start_Ok arena contents s :
  0 < arena → arena mod 8 = 0 → ∃ s', mm_start arena contents s = Ok (0, s') ∧ mm_rep s' ∅.
Proof.
  intros Ha H8. unfold mm_start. change (mem_reset_brk s) with (Ok (tt, set_brk (mem_start_brk s) s)).
  unfold mem_reset_brk. rewrite ST_modify.
  destruct (mm_init_heap arena contents (set_brk (mem_start_brk s) s) Ha H8) as (s' & Hrun & Hok & _).
  exists s'. split; [done|]. by exists [], [].
Qed.

(** The evaluations of [mm.c]. *)
Definition valid_mm (arena : Z) (contents : gmap Z Z) (t : trace) : ST (driver mm_state) Z :=
  eval_mm_valid mm_run mem_heap_lo mem_heap_hi (mm_start arena contents) true t.

Definition util_mm (arena : Z) (contents : gmap Z Z) (t : trace) : ST (driver mm_state) (Z * Z) :=
  eval_mm_util mm_run mem_heap_lo mem_heap_hi (mm_start arena contents) true t.

(** A driver with an empty range list on a new heap. *)
Lemma started s (d : driver mm_state) :
  mm_rep s ∅ → drv_ok mm_rep (Driver s [] (blocks d) (block_sizes d) (complaints d)) ∅ ∅.
Proof. intros Hs. by apply drv_ok_new. Qed.

Lemma mdriver_valid_Ok (arena : Z) (contents : gmap Z Z) (t : trace) (d : driver mm_state) :
  0 < arena → arena mod 8 = 0 → proper (num_ids t) ∅ (ops t) →
  valid_end (ops t) (complaints d) (valid_mm arena contents t d).
Proof.
  intros Ha H8 Hp. destruct (mm_start_Ok arena contents (heap d) Ha H8) as (s' & Hrun & Hrep).
  unfold valid_mm, eval_mm_valid, clear_ranges, set_ranges. rewrite ST_modify.
  unfold mbind at 1, ST_bind at 1, on_heap. cbn [heap]. rewrite Hrun. cbn [Z.ltb Z.compare].
  cbn [ranges blocks block_sizes complaints].
  apply (valid_ops_Ok mm_run mm_safe mm_rep mem_heap_lo mem_heap_hi mm_safe_all t (ops t)
    (Driver s' [] (blocks d) (block_sizes d) (complaints d)) ∅ ∅).
  - by apply started.
  - by rewrite dom_empty_L.
Qed.

(** How [eval_mm_util] ends on [mm.c]: with the peak and the size of a heap that
    holds it. *)
Definition util_mm_end (os : list traceop) (cs : list (Z * complaint))
    (r : result ((Z * Z) * driver mm_state)) : Prop :=
  (∃ d', r = Ok ((peak ∅ 0 0 os, mem_heapsize (heap d')), d') ∧ complaints d' = cs ∧
     peak ∅ 0 0 os ≤ mem_heapsize (heap d') ∧ 0 < mem_heapsize (heap d')) ∨
  r = Err (Exit 1) ∨ reallocates os ∧ r = Err BadAccess.

Lemma mdriver_util_Ok (arena : Z) (contents : gmap Z Z) (t : trace) (d : driver mm_state) :
  0 < arena → arena mod 8 = 0 → proper (num_ids t) ∅ (ops t) → peak ∅ 0 0 (ops t) < 2 ^ 31 →
  util_mm_end (ops t) (complaints d) (util_mm arena contents t d).
Proof.
  intros Ha H8 Hp Hpk. destruct (mm_start_Ok arena contents (heap d) Ha H8) as (s' & Hrun & Hrep).
  assert (on_heap (mm_start arena contents) (Driver (heap d) [] (blocks d) (block_sizes d) (complaints d))
    = Ok (0, Driver s' [] (blocks d) (block_sizes d) (complaints d))) as Hstart
    by (unfold on_heap; cbn [heap]; by rewrite Hrun).
  unfold util_mm, eval_mm_util, clear_ranges, set_ranges. rewrite ST_modify. run Hstart. cbn [Z.ltb Z.compare].
  destruct (util_ops_Ok mm_run mm_safe mm_rep mem_heap_lo mem_heap_hi mm_safe_all t (ops t)
    (Driver s' [] (blocks d) (block_sizes d) (complaints d)) ∅ ∅ 0 0 0)
    as [(d' & h' & live' & Hops & Hok & Hc & Hcap)|[Hops|[Hr Hops]]].
  - by apply started.
  - by rewrite dom_empty_L.
  - apply mm_capacity in Hrep. split; [done|]. split; [done|]. unfold heap_bytes. cbn.
    unfold mem_heapsize, mem_heap_hi, mem_heap_lo in *. change (msum bytes_of ∅) with 0 in Hrep. lia.
  - done.
  - left. exists d'. assert (32 ≤ mem_heapsize (heap d')) as Hpos.
    { etrans; [|apply mm_capacity, (do_rep _ _ _ _ Hok)]. enough (0 ≤ msum bytes_of h') by lia.
      apply msum_nonneg. intros q c _. unfold bytes_of. lia. }
    split; [|split_and!; [done| |lia]; unfold heap_bytes, mem_heapsize, mem_heap_hi, mem_heap_lo in *; lia].
    run Hops. rewrite ST_get. cbn. unfold mem_heap_hi, mem_heap_lo, mem_heapsize.
    by replace (_ - 1 - _ + 1) with (mem_brk (heap d') - mem_start_brk (heap d')) by lia.
  - right. left. exact (ST_bind_Err _ _ _ _ Hops).
  - right. right. split; [done|]. exact (ST_bind_Err _ _ _ _ Hops).
Qed.
