(* ===== verification/MdriverTrace.v ===== *)
(** * Trace files: [read_trace] of [6-malloc-haininz/mdriver.c].

    A trace file is a header of four numbers and one request per line.  What
    [fscanf] does not store keeps its old value, which is indeterminate at first:
    using it then is a fault. *)

From Stdlib Require Import ZArith Lia Ascii.
From stdpp Require Import base gmap numbers option list.
From S2P Require Import Prelude Stdio Memlib MmInline Mm MmHeap MmLayout MmProofs MmSpec MmRealloc MmRefine Mdriver MdriverBytes MdriverTables MdriverProofs.

Open Scope Z_scope.
Open Scope list_scope.

Definition MAXLINE : Z := 1024.

(** ** [fscanf] *)

Fixpoint span_digits (l : bytes) : bytes * bytes :=
  match l with
  | [] => ([], [])
  | c :: l' => if isdigit c then let '(w, rest) := span_digits l' in (c :: w, rest) else ([], l)
  end.

Fixpoint span_word (l : bytes) : bytes * bytes :=
  match l with
  | [] => ([], [])
  | c :: l' => if isspace c then ([], l) else let '(w, rest) := span_word l' in (c :: w, rest)
  end.

(** A decimal number, if there is one, and the rest of the input. *)
Definition scan_number (input : bytes) : option Z * bytes :=
  match skip_spaces input with
  | [] => (None, [])
  | c :: l =>
      let signed := (ord c =? 43) || (ord c =? 45) in
      match span_digits (if signed then l else c :: l) with
      | ([], rest) => (None, rest)
      | (ds, rest) => (Some (if ord c =? 45 then - read_digits 0 ds else read_digits 0 ds), rest)
      end
  end.

(** ["%d"] and ["%u"]: a number that the type cannot hold is undefined, but a
    minus sign is allowed for an [unsigned]. *)
Definition fscanf_d (input : bytes) (old : option Z) : result (option Z * bytes) :=
  match scan_number input with
  | (None, rest) => Ok (old, rest)
  | (Some v, rest) => if (- 2 ^ 31 <=? v) && (v <? 2 ^ 31) then Ok (Some v, rest) else Err SignedOverflow
  end.

Definition fscanf_u (input : bytes) : result (option Z * bytes) :=
  match scan_number input with
  | (None, rest) => Ok (None, rest)
  | (Some v, rest) => if (- 2 ^ 32 <? v) && (v <? 2 ^ 32) then Ok (Some (v mod 2 ^ 32), rest) else Err SignedOverflow
  end.

(** ["%u %u"] into [index] and [size]. *)
Definition fscanf_u_u (input : bytes) (index : Z) (size : option Z) : result (Z * option Z * bytes) :=
  match fscanf_u input with
  | Err f => Err f
  | Ok (None, rest) => Ok (index, size, rest)
  | Ok (Some i, rest) =>
      match fscanf_u rest with
      | Err f => Err f
      | Ok (None, rest') => Ok (i, size, rest')
      | Ok (Some n, rest') => Ok (i, Some n, rest')
      end
  end.

(** ["%ud"] into [index]: a number, then the letter ['d']. *)
Definition fscanf_ud (input : bytes) (index : Z) : result (Z * bytes) :=
  match fscanf_u input with
  | Err f => Err f
  | Ok (None, rest) => Ok (index, rest)
  | Ok (Some i, rest) => Ok (i, match rest with c :: l => if ord c =? 100 then l else rest | [] => [] end)
  end.

Section Reading.
(** What the storage of a new array holds, and whether [malloc] has so many
    bytes. *)
Context (garbage : Z → Z) (malloc_ok : Z → bool).

(** The loop over the request lines: the largest index and the requests. *)
Fixpoint read_requests (fuel : nat) (num_ops : Z) (input : bytes) (index : Z) (size : option Z)
    (max_index : Z) (ops : list traceop) : result (Z * list traceop) :=
  match fuel with
  | O => Err NoFuel
  | S fuel' =>
      let '(type, rest) := span_word (skip_spaces input) in
      match type with
      | [] => Ok (max_index, ops)
      | c :: _ =>
          if MAXLINE <=? Z.of_nat (length type) then Err BadAccess
          else
            let request (k : request_type) : result (Z * list traceop) :=
              match fscanf_u_u rest index size with
              | Err f => Err f
              | Ok (index', size', rest') =>
                  if num_ops <=? Z.of_nat (length ops) then Err BadAccess
                  else match size' with
                  | None => Err BadAccess
                  | Some n =>
                      read_requests fuel' num_ops rest' index' size' (Z.max index' max_index)
                        (ops ++ [TraceOp k (to_int index') (to_int n)])
                  end
              end in
            if ord c =? 97 then request ALLOC
            else if ord c =? 114 then request REALLOC
            else if ord c =? 102 then
              match fscanf_ud rest index with
              | Err f => Err f
              | Ok (index', rest') =>
                  if num_ops <=? Z.of_nat (length ops) then Err BadAccess
                  else
                    read_requests fuel' num_ops rest' index' size max_index
                      (ops ++ [TraceOp FREE (to_int index') (garbage (Z.of_nat (length ops)))])
              end
            else Err (Exit 1)
      end
  end.

Definition sizeof_trace : Z := 1064.
Definition sizeof_traceop : Z := 12.

(** [read_trace]; [tracefile] is what the file holds, if it can be opened. *)
Definition read_trace (tracefile : option bytes) : result trace :=
  if negb (malloc_ok sizeof_trace) then Err (Exit 1) else
  match tracefile with
  | None => Err (Exit 1)
  | Some input =>
      match fscanf_d input None with Err f => Err f | Ok (_, input) =>
      match fscanf_d input None with Err f => Err f | Ok (ids, input) =>
      match fscanf_d input None with Err f => Err f | Ok (count, input) =>
      match fscanf_d input None with Err f => Err f | Ok (_, input) =>
      match ids, count with
      | Some num_ids, Some num_ops =>
          if negb (malloc_ok ((num_ops * sizeof_traceop) mod 2 ^ 64)) then Err (Exit 1)
          else if negb (malloc_ok ((num_ids * 8) mod 2 ^ 64)) then Err (Exit 1)
          else
            match read_requests (S (length input)) num_ops input 0 None 0 [] with
            | Err f => Err f
            | Ok (max_index, ops) =>
                if num_ids - 1 <? - 2 ^ 31 then Err SignedOverflow
                else if negb (to_int max_index =? num_ids - 1) then Err AssertFail
                else if negb (to_int (Z.of_nat (length ops)) =? num_ops) then Err AssertFail
                else Ok (Trace num_ids ops)
            end
      | _, _ => Err BadAccess
      end end end end end
  end.
End Reading.

(** ** Writing a trace file *)

Definition space : ascii := chr 32.

Definition show_number (v : Z) : bytes := print_dec v ++ [newline].

Definition show_request (o : traceop) : bytes :=
  match type o with
  | ALLOC => chr 97 :: space :: print_dec (index o) ++ space :: print_dec (size o) ++ [newline]
  | REALLOC => chr 114 :: space :: print_dec (index o) ++ space :: print_dec (size o) ++ [newline]
  | FREE => chr 102 :: space :: print_dec (index o) ++ [newline]
  end.

Definition show_trace (sugg weight : Z) (t : trace) : bytes :=
  show_number sugg ++ show_number (num_ids t) ++ show_number (Z.of_nat (length (ops t))) ++ show_number weight ++
  concat (map show_request (ops t)).

(** What is read back: the size of a request to free is never stored. *)
Fixpoint stored (garbage : Z → Z) (i : Z) (os : list traceop) : list traceop :=
  match os with
  | [] => []
  | o :: os' =>
      match type o with FREE => TraceOp FREE (index o) (garbage i) | _ => o end :: stored garbage (i + 1) os'
  end.

(** The largest index of an allocation, from [m] on. *)
Fixpoint largest (m : Z) (os : list traceop) : Z :=
  match os with
  | [] => m
  | o :: os' => largest (match type o with FREE => m | _ => Z.max (index o) m end) os'
  end.

(** Numbers that an [int] holds. *)
Definition small (v : Z) : Prop := 0 ≤ v < 2 ^ 31.

Definition small_request (o : traceop) : Prop :=
  small (index o) ∧ match type o with FREE => True | _ => small (size o) end.

(** ** Reading it back *)

Lemma ord_chr n : 0 ≤ n < 256 → ord (chr n) = n.
Proof. intros Hn. unfold ord, chr. rewrite N_ascii_embedding by lia. lia. Qed.

Lemma digit_chr d : 0 ≤ d < 10 → isdigit (chr (48 + d)) = true ∧ ord (chr (48 + d)) = 48 + d.
Proof. intros Hd. unfold isdigit. rewrite ord_chr by lia. split; lia. Qed.

Lemma read_digits_app ds d : ∀ a,
  Forall (λ c, isdigit c = true) (ds ++ [d]) →
  read_digits a (ds ++ [d]) = 10 * read_digits a ds + (ord d - 48).
Proof.
  induction ds as [|c ds IH]; intros a H; simpl in *; inversion_clear H as [|? ? Hc Hds]; rewrite Hc; [done|]. by apply IH.
Qed.

(** ["%d"] prints digits that are read as the number. *)
Lemma dec_digits_spec fuel : ∀ u acc,
  0 ≤ u < 10 ^ Z.of_nat (S fuel) →
  ∃ ds, dec_digits (S fuel) u acc = ds ++ acc ∧ ds ≠ [] ∧ Forall (λ c, isdigit c = true) ds ∧ read_digits 0 ds = u.
Proof.
  induction fuel as [|fuel IH]; intros u acc Hu; cbn [dec_digits];
    (destruct (digit_chr (u mod 10)) as [Hd Ho]; [apply Z.mod_pos_bound; lia|]); destruct (Z.eqb_spec (u / 10) 0) as [H0|H0].
  1,3: exists [chr (48 + u mod 10)]; (split_and!; [done|done|by repeat constructor|]); simpl; rewrite Hd, Ho;
    pose proof (Z.div_mod u 10); lia.
  - exfalso. simpl in Hu. apply H0. apply Z.div_small. lia.
  - destruct (IH (u / 10) (chr (48 + u mod 10) :: acc)) as (ds & Hs & Hne & Hds & Hv).
    { split; [apply Z.div_pos; lia|]. apply Z.div_lt_upper_bound; [lia|].
      rewrite (Nat2Z.inj_succ (S fuel)), Z.pow_succ_r in Hu by lia. lia. }
    exists (ds ++ [chr (48 + u mod 10)]). cbn [dec_digits] in Hs. rewrite Hs, <- app_assoc.
    assert (Forall (λ c, isdigit c = true) (ds ++ [chr (48 + u mod 10)])) as Hall by (apply Forall_app; split; [done|by repeat constructor]).
    split_and!; [done|by destruct ds|done|]. rewrite read_digits_app, Hv, Ho by done. pose proof (Z.div_mod u 10). lia.
Qed.

Lemma span_digits_app ds c rest :
  Forall (λ c, isdigit c = true) ds → isdigit c = false → span_digits (ds ++ c :: rest) = (ds, c :: rest).
Proof. intros Hds Hc. induction Hds as [|x ds Hx _ IH]; simpl; [by rewrite Hc|]. by rewrite Hx, IH. Qed.

Lemma scan_number_print v c rest :
  small v → isdigit c = false → scan_number (print_dec v ++ c :: rest) = (Some v, c :: rest).
Proof.
  intros [H0 H1] Hc. unfold print_dec. rewrite (proj2 (Z.ltb_ge _ _)) by lia.
  destruct (dec_digits_spec 9 v []) as (ds & -> & Hne & Hds & Hv); [simpl; lia|]. rewrite app_nil_r.
  destruct ds as [|d ds]; [done|]. pose proof (Forall_inv Hds) as Hd. unfold isdigit in Hd.
  unfold scan_number. cbn [app skip_spaces]. unfold isspace. rewrite (proj2 (Z.eqb_neq (ord d) 32)), (proj2 (Z.leb_gt (ord d) 13)) by lia.
  rewrite andb_false_r. cbn [orb]. rewrite (proj2 (Z.eqb_neq (ord d) 43)), (proj2 (Z.eqb_neq (ord d) 45)) by lia. cbn [orb].
  change (d :: ds ++ c :: rest) with ((d :: ds) ++ c :: rest). rewrite span_digits_app by done. by rewrite Hv.
Qed.

Lemma fscanf_d_print v c rest old :
  small v → isdigit c = false → fscanf_d (print_dec v ++ c :: rest) old = Ok (Some v, c :: rest).
Proof.
  intros Hv Hc. unfold fscanf_d. rewrite scan_number_print by done. destruct Hv.
  by rewrite (proj2 (Z.leb_le _ _)), (proj2 (Z.ltb_lt _ _)) by lia.
Qed.

Lemma fscanf_u_print v c rest :
  small v → isdigit c = false → fscanf_u (print_dec v ++ c :: rest) = Ok (Some v, c :: rest).
Proof.
  intros Hv Hc. unfold fscanf_u. rewrite scan_number_print by done. destruct Hv.
  rewrite (proj2 (Z.ltb_lt (- 2 ^ 32) v)), (proj2 (Z.ltb_lt v (2 ^ 32))) by lia. cbn [andb]. by rewrite Z.mod_small by lia.
Qed.

(** White space before a number is skipped. *)
Lemma fscanf_d_space c l old : isspace c = true → fscanf_d (c :: l) old = fscanf_d l old.
Proof. intros Hc. unfold fscanf_d, scan_number. cbn [skip_spaces]. by rewrite Hc. Qed.

Lemma fscanf_u_space c l : isspace c = true → fscanf_u (c :: l) = fscanf_u l.
Proof. intros Hc. unfold fscanf_u, scan_number. cbn [skip_spaces]. by rewrite Hc. Qed.

Lemma to_int_int v : small v → to_int v = v.
Proof. intros [H0 H1]. unfold to_int. rewrite Z.mod_small by lia. lia. Qed.

Lemma fscanf_u_u_print i n rest index size :
  small i → small n →
  fscanf_u_u (space :: print_dec i ++ space :: print_dec n ++ newline :: rest) index size =
    Ok (i, Some n, newline :: rest).
Proof.
  intros Hi Hn. unfold fscanf_u_u. rewrite fscanf_u_space by done. rewrite fscanf_u_print by done.
  rewrite fscanf_u_space by done. by rewrite fscanf_u_print.
Qed.

Lemma fscanf_ud_print i rest index :
  small i → fscanf_ud (space :: print_dec i ++ newline :: rest) index = Ok (i, newline :: rest).
Proof. intros Hi. unfold fscanf_ud. rewrite fscanf_u_space by done. by rewrite fscanf_u_print. Qed.

Lemma next_word c l : isspace c = false → span_word (skip_spaces (newline :: c :: space :: l)) = ([c], space :: l).
Proof.
  intros Hc. change (skip_spaces (newline :: c :: space :: l)) with (if isspace c then skip_spaces (space :: l) else c :: space :: l).
  rewrite Hc. cbn [span_word]. by rewrite Hc.
Qed.

Lemma show_request_app o rest :
  show_request o ++ rest =
    match type o with
    | FREE => chr 102 :: space :: print_dec (index o) ++ newline :: rest
    | k => chr (match k with ALLOC => 97 | _ => 114 end) :: space ::
             print_dec (index o) ++ space :: print_dec (size o) ++ newline :: rest
    end.
Proof. unfold show_request. destruct (type o); cbn [app]; rewrite <- ?app_assoc; cbn [app]; by rewrite <- ?app_assoc. Qed.

Lemma read_requests_show garbage num_ops os : ∀ fuel index size m acc,
  Forall small_request os → Z.of_nat (length acc + length os) ≤ num_ops → (length os < fuel)%nat →
  read_requests garbage fuel num_ops (newline :: concat (map show_request os)) index size m acc =
    Ok (largest m os, acc ++ stored garbage (Z.of_nat (length acc)) os).
Proof.
  induction os as [|o os IH]; intros fuel idx sz m acc Hos Hlen Hfuel; (destruct fuel as [|fuel]; [simpl in Hfuel; lia|]).
  { simpl. by rewrite app_nil_r. }
  inversion_clear Hos as [|? ? [Hi Hn] Hos']. cbn [length] in *.
  assert ((num_ops <=? Z.of_nat (length acc)) = false) as Hroom by lia.
  set (o' := match type o with FREE => TraceOp FREE (index o) (garbage (Z.of_nat (length acc))) | _ => o end).
  set (m' := match type o with FREE => m | _ => Z.max (index o) m end).
  assert (∀ sz', read_requests garbage fuel num_ops (newline :: concat (map show_request os)) (index o) sz' m' (acc ++ [o']) =
    Ok (largest m (o :: os), acc ++ stored garbage (Z.of_nat (length acc)) (o :: os))) as Hrec.
  { intros sz'. rewrite (IH fuel) by (done || (rewrite length_app; simpl; lia) || lia). cbn [largest stored]. fold o' m'.
    rewrite length_app, <- app_assoc. cbn [length app]. repeat f_equal. lia. }
  cbn [map concat]. rewrite show_request_app. cbn [read_requests]. destruct o as [k i n]. cbn [type index size] in *.
  destruct k; rewrite next_word by done.
  - change (MAXLINE <=? Z.of_nat (length [chr 97])) with false. change (ord (chr 97) =? 97) with true. cbv iota.
    rewrite fscanf_u_u_print by done. rewrite Hroom, !to_int_int by done. apply Hrec.
  - change (MAXLINE <=? Z.of_nat (length [chr 102])) with false. change (ord (chr 102) =? 97) with false.
    change (ord (chr 102) =? 114) with false. change (ord (chr 102) =? 102) with true. cbv iota.
    rewrite fscanf_ud_print by done. rewrite Hroom, to_int_int by done. apply Hrec.
  - change (MAXLINE <=? Z.of_nat (length [chr 114])) with false. change (ord (chr 114) =? 97) with false.
    change (ord (chr 114) =? 114) with true. cbv iota.
    rewrite fscanf_u_u_print by done. rewrite Hroom, !to_int_int by done. apply Hrec.
Qed.

Lemma stored_length garbage os : ∀ i, length (stored garbage i os) = length os.
Proof. induction os as [|o os IH]; intros i; [done|]. cbn [stored length]. by rewrite IH. Qed.

Lemma largest_nonneg os : ∀ m, 0 ≤ m → 0 ≤ largest m os.
Proof. induction os as [|o os IH]; intros m Hm; [done|]. cbn [largest]. apply IH. destruct (type o); lia. Qed.

(** The traces that a file can hold. *)
Definition readable (malloc_ok : Z → bool) (t : trace) : Prop :=
  Forall small_request (ops t) ∧ small (num_ids t) ∧ small (Z.of_nat (length (ops t))) ∧
  largest 0 (ops t) = num_ids t - 1 ∧
  malloc_ok sizeof_trace = true ∧ malloc_ok (Z.of_nat (length (ops t)) * sizeof_traceop) = true ∧
  malloc_ok (num_ids t * 8) = true.

Lemma read_trace_show garbage malloc_ok sugg weight t :
  readable malloc_ok t → small sugg → small weight →
  read_trace garbage malloc_ok (Some (show_trace sugg weight t)) = Ok (Trace (num_ids t) (stored garbage 0 (ops t))).
Proof.
  intros (Hops & Hids & Hlen & Hmax & Hm0 & Hm1 & Hm2) Hs Hw. unfold read_trace, show_trace, show_number. rewrite Hm0. cbn [negb].
  rewrite <- !app_assoc. cbn [app]. rewrite fscanf_d_print by done.
  rewrite fscanf_d_space, fscanf_d_print by done. rewrite fscanf_d_space, fscanf_d_print by done.
  rewrite fscanf_d_space, fscanf_d_print by done. destruct Hids, Hlen.
  rewrite !Z.mod_small by (unfold sizeof_traceop; lia). rewrite Hm1, Hm2. cbn [negb].
  assert (∀ l : bytes, length (newline :: l) = S (length l)) as -> by done.
  rewrite read_requests_show; [|done|simpl; lia|].
  2:{ enough (length (ops t) ≤ length (concat (map show_request (ops t))))%nat by lia. clear.
      induction (ops t) as [|o os IH]; [done|]. simpl. rewrite length_app. unfold show_request at 1. destruct (type o); simpl; lia. }
  cbn [length app]. change (Z.of_nat 0) with 0. rewrite Hmax.
  rewrite stored_length. pose proof (largest_nonneg (ops t) 0 ltac:(done)) as Hl0.
  rewrite !to_int_int by (split; lia). rewrite (proj2 (Z.ltb_ge _ _)), !Z.eqb_refl by lia. done.
Qed.

(** The sizes of requests to free do not matter. *)
Lemma proper_stored garbage n os : ∀ live i, proper n live os → proper n live (stored garbage i os).
Proof.
  induction os as [|[k idx sz] os IH]; intros live i; [done|]. cbn [proper stored type].
  destruct k; cbn [type index size]; [|intros (H1 & H2); by auto|]; intros (H1 & H2 & H3 & H4); auto.
Qed.

Lemma peak_stored garbage os : ∀ sizes tot mx i, peak sizes tot mx (stored garbage i os) = peak sizes tot mx os.
Proof. induction os as [|[k idx sz] os IH]; intros; [done|]. destruct k; cbn [peak stored type index size]; apply IH. Qed.

Lemma elem_of_stored garbage os : ∀ i o,
  o ∈ stored garbage i os → ∃ o', o' ∈ os ∧ type o' = type o ∧ index o' = index o.
Proof.
  induction os as [|x os IH]; intros i o; cbn [stored]; [by intros ?%elem_of_nil|].
  intros [->|(o' & Ho & Hx)%IH]%elem_of_cons.
  - exists x. split; [by left|]. by destruct x as [[] ? ?].
  - exists o'. split; [by right|done].
Qed.

Lemma reallocates_stored garbage os i : reallocates (stored garbage i os) → reallocates os.
Proof. intros (o & (o' & Ho & Ht & _)%elem_of_stored & Hr). exists o'. split; [done|congruence]. Qed.

Lemma excuse_stored garbage os i c : excuse (stored garbage i os) c → excuse os c.
Proof.
  intros (o & (o' & Ho & Ht & Hi)%elem_of_stored & He). exists o'. split; [done|].
  unfold excused in *. by rewrite Ht, Hi.
Qed.

Lemma length_stored garbage os : ∀ i, length (stored garbage i os) = length os.
Proof. induction os as [|o os IH]; intros i; [done|]. cbn [stored length]. by rewrite IH. Qed.
