(* ===== verification/MdriverRepl.v ===== *)
(** * The interactive mode of the driver: [6-malloc-haininz/mdriver.c].

    The read loop, its command table, and the command handlers, which keep an
    array of blocks by index and print the heap. *)

From Stdlib Require Import ZArith Lia Ascii String.
From stdpp Require Import base gmap numbers option list.
From S2P Require Import Prelude Stdio Memlib MmInline Mm MmHeap MmLayout MmProofs MmSpec MmRealloc MmRefine Mdriver MdriverTrace.

Open Scope Z_scope.
Open Scope list_scope.

(** ** [sscanf] with literals and ["%d"] *)

Inductive directive := Lit (c : ascii) | Blank | Num.

Definition lit (s : String.string) : bytes := String.list_ascii_of_string s.

(** A format: its literal characters, a space for any white space, and ['#']
    for ["%d"]. *)
Definition fmt (s : String.string) : list directive :=
  (λ c, if ord c =? 32 then Blank else if ord c =? 35 then Num else Lit c) <$> lit s.

(** The values stored, in order: their number is what [sscanf] returns, but for
    the end of the input. *)
Fixpoint sscanf (f : list directive) (input : bytes) : result (list Z) :=
  match f with
  | [] => Ok []
  | Lit c :: f' =>
      match input with
      | c' :: l => if bool_decide (c = c') then sscanf f' l else Ok []
      | [] => Ok []
      end
  | Blank :: f' => sscanf f' (skip_spaces input)
  | Num :: f' =>
      match scan_number input with
      | (None, _) => Ok []
      | (Some v, rest) =>
          if (- 2 ^ 31 <=? v) && (v <? 2 ^ 31) then
            match sscanf f' rest with Ok vs => Ok (v :: vs) | Err e => Err e end
          else Err SignedOverflow
      end
  end.

(** [sscanf(msg, f, ...) != n && sscanf(msg, g, ...) != n]: what the successful
    one stored. *)
Definition scan_either (n : nat) (f g : list directive) (msg : bytes) : result (option (list Z)) :=
  match sscanf f msg with
  | Err e => Err e
  | Ok vs =>
      if (length vs =? n)%nat then Ok (Some vs)
      else match sscanf g msg with
           | Err e => Err e
           | Ok vs => Ok (if (length vs =? n)%nat then Some vs else None)
           end
  end.

(** ** State *)

Definition MAX_REPL_SIZE : Z := 1024.

(** [repl_block_t] *)
Record repl_block := ReplBlock {
  is_valid : bool;
  ptr : Z;
  rsize : Z;
  rindex : Z;
}.

(** The lines printed, each with the values of its conversions; a block's index
    is shown when it is known. *)
Inductive message :=
  | Help | UsageMalloc | UsageFree | UsageRealloc | IndexRange (n : Z)
  | InUse | NotInUse | NotAllocated (i : Z) | BlockIs (i b size : Z)
  | HeapSize (n : Z) | PrologueAt (b size : Z) | EpilogueAt (b size : Z)
  | AllocatedBlock (i : option Z) (b size : Z) | FreeBlock (b size next prev : Z)
  | DifferingTags (i : option Z) (b s1 s2 : Z) | TooSmall (i : option Z) (b size : Z) | NextOutside
  | Welcome | Prompt | EndOfInput | SyntaxError | NoCommand.

(** [repl_t], with the allocator, the complaints of [malloc_error] and what has
    been printed.  Its fields [prologue_size], [epilogue_size] and [heap_start]
    are never used. *)
Record repl := Repl {
  rheap : mm_state;
  rranges : list (Z * Z);
  rcomplaints : list (Z * complaint);
  tracenum : Z;
  num_ops : Z;
  num_blocks : Z;
  rblocks : list repl_block;
  printed : list message;
}.

(** What the state is to the operations of the driver: [ptr] and [rsize] are
    its arrays. *)
Definition to_driver (r : repl) : driver mm_state :=
  Driver (rheap r) (rranges r) (map_seqZ 0 (ptr <$> rblocks r)) (map_seqZ 0 (rsize <$> rblocks r))
         (rcomplaints r).

Definition on_driver {A} (m : ST (driver mm_state) A) : ST repl A := λ r,
  match m (to_driver r) with
  | Ok (a, d) => Ok (a, Repl (heap d) (ranges d) (complaints d) (tracenum r) (num_ops r) (num_blocks r)
                            (rblocks r) (printed r))
  | Err e => Err e
  end.

Definition on_mm {A} (m : ST mm_state A) : ST repl A := on_driver (on_heap m).

Definition say (m : message) : ST repl unit :=
  modify (λ r, Repl (rheap r) (rranges r) (rcomplaints r) (tracenum r) (num_ops r) (num_blocks r)
                    (rblocks r) (printed r ++ [m])).

(** [repl_state->num_ops = n] *)
Definition set_num_ops (n : Z) : ST repl unit :=
  modify (λ r, Repl (rheap r) (rranges r) (rcomplaints r) (tracenum r) n (num_blocks r) (rblocks r) (printed r)).

Definition set_tracenum (n : Z) : ST repl unit :=
  modify (λ r, Repl (rheap r) (rranges r) (rcomplaints r) n (num_ops r) (num_blocks r) (rblocks r) (printed r)).

(** [&repl_state->blocks[i]] for an index that has been checked, and an
    assignment to it. *)
Definition repl_block_at (i : Z) : ST repl repl_block := λ r, deref (rblocks r !! Z.to_nat i) r.

Definition set_repl_block (i : Z) (b : repl_block) : ST repl unit :=
  modify (λ r, Repl (rheap r) (rranges r) (rcomplaints r) (tracenum r) (num_ops r) (num_blocks r)
                    (<[Z.to_nat i := b]> (rblocks r)) (printed r)).

Definition scan {A} (x : result A) : ST repl A := λ r,
  match x with Ok a => Ok (a, r) | Err e => Err e end.

(** Whether the loop goes on after a command. *)
Inductive flow := Continue | Exits (status : Z).

(** [make_repl_state]: the blocks; [malloc_ok] says whether there is memory. *)
Definition make_repl_state (malloc_ok : bool) (n : Z) (s : mm_state) : result repl :=
  if malloc_ok then
    Ok (Repl s [] [] 0 0 n ((λ i, ReplBlock false NULL 0 i) <$> seqZ 0 n) [])
  else Err (Exit 1).

(** [find_repl_block_from_block] from block [tentative] on. *)
Fixpoint find_repl_block_from_block (block_ptr : Z) (blocks : list repl_block)
    (tentative : option repl_block) : option repl_block :=
  match blocks with
  | [] => tentative
  | b :: bs =>
      if ptr b - 8 =? block_ptr then
        if is_valid b then Some b else find_repl_block_from_block block_ptr bs (Some b)
      else find_repl_block_from_block block_ptr bs tentative
  end.

(** The body of the loop of [mm_print_heap_repl]: the next block. *)
Definition print_block (blocks : list repl_block) (epilogue b : Z) : ST repl Z :=
  let i := rindex <$> find_repl_block_from_block b blocks None in
  al ← on_mm (block_allocated b);
  size ← on_mm (block_size b);
  (if negb (al =? 0) then say (AllocatedBlock i b (to_int size))
   else
     next ← on_mm (block_flink b);
     prev ← on_mm (block_blink b);
     say (FreeBlock b (to_int size) next prev));;
  s1 ← on_mm (block_size b);
  s2 ← on_mm (block_end_size b);
  (if negb (s1 =? s2) then say (DifferingTags i b (to_int s1) (to_int s2)) else mret tt);;
  (if s1 <? MINBLOCKSIZE then say (TooSmall i b (to_int s1)) else mret tt);;
  next ← on_mm (block_next b);
  (if next >? epilogue + 8 * MINBLOCKSIZE then say NextOutside else mret tt);;
  on_mm (block_next b).

(** The loop, for at most [fuel] blocks. *)
Fixpoint print_blocks (fuel : nat) (blocks : list repl_block) (epilogue b : Z) : ST repl unit :=
  if b =? epilogue then mret tt
  else match fuel with
       | O => fail NoFuel
       | S fuel' => b ← print_block blocks epilogue b; print_blocks fuel' blocks epilogue b
       end.

(** [mm_print_heap_repl] *)
Definition mm_print_heap_repl (blocks : list repl_block) : ST repl unit :=
  r ← get;
  let s := rheap r in
  let heap_start := mem_heap_lo s in
  say (HeapSize (to_int (mem_heapsize s)));;
  size ← on_mm (block_size heap_start);
  say (PrologueAt heap_start (to_int size));;
  b ← on_mm (block_next heap_start);
  let epilogue := mem_heap_hi s - TAGS_SIZE + 1 in
  print_blocks (scan_fuel s) blocks epilogue b;;
  size ← on_mm (block_size epilogue);
  say (EpilogueAt epilogue (to_int size)).

(** [help_cmd] *)
Definition help_cmd (msg : bytes) : ST repl flow := say Help;; mret Continue.

(** Whether the index is one of the array's. *)
Definition index_ok (i : Z) : ST repl bool :=
  r ← get;
  if (i <? 0) || (i >=? num_blocks r) then say (IndexRange (num_blocks r));; mret false
  else mret true.

(** [print_cmd] *)
Definition print_cmd (msg : bytes) : ST repl flow :=
  args ← scan (scan_either 1 (fmt "p -b #") (fmt "print -b #") msg);
  match args with
  | Some (i :: _) =>
      ok ← index_ok i;
      if negb ok then mret Continue
      else
        blk ← repl_block_at i;
        if negb (is_valid blk) then say (NotAllocated i);; mret Continue
        else
          let b := ptr blk - 8 in
          al ← on_mm (block_allocated b);
          if negb (al =? 0) then
            size ← on_mm (block_size b);
            say (BlockIs i b (to_int size));;
            mret Continue
          else mret Continue
  | _ => r ← get; mm_print_heap_repl (rblocks r);; mret Continue
  end.

Section Commands.
(** Whether the C library has memory for a range record, and what it gives to
    the [n]-th [mem_init]: the address and the contents of an arena. *)
Context (record_ok : bool) (arenas : Z → Z * gmap Z Z).

(** [reset_cmd] *)
Definition reset_cmd (msg : bytes) : ST repl flow :=
  on_mm mem_reset_brk;;
  on_driver clear_ranges;;
  r ← get;
  rc ← on_mm (mm_init (arenas (tracenum r)).1 (arenas (tracenum r)).2);
  if rc <? 0 then on_driver (malloc_error 0 InitFailed);; mret (Exits 1)
  else
    set_tracenum (tracenum r + 1);;
    set_num_ops 0;;
    mret Continue.

(** [quit_cmd]: the state is freed and the program ends. *)
Definition quit_cmd (msg : bytes) : ST repl flow :=
  on_mm mem_reset_brk;;
  on_driver clear_ranges;;
  mret (Exits 0).

(** The part of [malloc_cmd] from the call of [mm_malloc] on. *)
Definition malloc_block (i size num_ops : Z) (blk : repl_block) : ST repl flow :=
  p ← on_driver (call_mm mm_run (Malloc size));
  if (p =? NULL) && negb (size =? 0) then
    on_driver (malloc_error num_ops MallocFailed);; mret Continue
  else if size =? 0 then mret Continue
  else
    ok ← on_driver (add_range mem_heap_lo mem_heap_hi record_ok p size num_ops);
    if ok =? 0 then mret Continue
    else
      on_driver (memset mm_run (Z.to_nat size) p (Z.land i 255) 0);;
      set_repl_block i (ReplBlock true p size (rindex blk));;
      mret Continue.

(** [malloc_cmd] *)
Definition malloc_cmd (msg : bytes) : ST repl flow :=
  args ← scan (scan_either 2 (fmt "m # #") (fmt "malloc # #") msg);
  match args with
  | Some [i; size] =>
      ok ← index_ok i;
      if negb ok then mret Continue
      else
        blk ← repl_block_at i;
        if is_valid blk then say InUse;; mret Continue
        else
          r ← get;
          set_num_ops (num_ops r + 1);;
          malloc_block i size (num_ops r + 1) blk
  | _ => say UsageMalloc;; mret Continue
  end.

(** [free_cmd] *)
Definition free_cmd (msg : bytes) : ST repl flow :=
  args ← scan (scan_either 1 (fmt "f #") (fmt "free #") msg);
  match args with
  | Some (i :: _) =>
      ok ← index_ok i;
      if negb ok then mret Continue
      else
        blk ← repl_block_at i;
        if negb (is_valid blk) then say NotInUse;; mret Continue
        else
          r ← get;
          set_num_ops (num_ops r + 1);;
          on_driver (remove_range (ptr blk));;
          on_driver (call_mm mm_run (Free (ptr blk)));;
          set_repl_block i (ReplBlock false (ptr blk) (rsize blk) (rindex blk));;
          mret Continue
  | _ => say UsageFree;; mret Continue
  end.

(** [remalloc_cmd] *)
Definition remalloc_cmd (msg : bytes) : ST repl flow :=
  args ← scan (scan_either 2 (fmt "r # #") (fmt "realloc # #") msg);
  match args with
  | Some [i; size] =>
      ok ← index_ok i;
      if negb ok then mret Continue
      else
        blk ← repl_block_at i;
        r ← get;
        let oldp := ptr blk in
        newp ← on_driver (call_mm mm_run (Realloc oldp size));
        if (newp =? NULL) && negb (size =? 0) then
          on_driver (malloc_error (num_ops r) ReallocFailed);; mret Continue
        else if size =? 0 then mret Continue
        else
          on_driver (remove_range oldp);;
          ok ← on_driver (add_range mem_heap_lo mem_heap_hi record_ok newp size (num_ops r));
          if ok =? 0 then mret Continue
          else
            let oldsize := to_int (rsize blk) in
            let oldsize := if size <? oldsize then size else oldsize in
            same ← on_driver (check_bytes mm_run (Z.to_nat oldsize) newp (Z.land i 255) 0);
            if negb same then on_driver (malloc_error (num_ops r) DataLost);; mret Continue
            else
              on_driver (memset mm_run (Z.to_nat size) newp (Z.land i 255) 0);;
              set_repl_block i (ReplBlock (is_valid blk) newp size (rindex blk));;
              mret Continue
  | _ => say UsageRealloc;; mret Continue
  end.

(** [cmd_table] *)
Definition cmd_table : list (bytes * (bytes → ST repl flow)) :=
  [(lit "help", help_cmd); (lit "h", help_cmd); (lit "m", malloc_cmd);
   (lit "malloc", malloc_cmd); (lit "r", remalloc_cmd); (lit "realloc", remalloc_cmd);
   (lit "f", free_cmd); (lit "free", free_cmd); (lit "p", print_cmd);
   (lit "print", print_cmd); (lit "quit", quit_cmd); (lit "q", quit_cmd);
   (lit "reset", reset_cmd); (lit "r", reset_cmd)].

(** The loop over the table: the first entry of that name. *)
Fixpoint find_handler (cmd : bytes) (table : list (bytes * (bytes → ST repl flow))) :
    option (bytes → ST repl flow) :=
  match table with
  | [] => None
  | (name, handler) :: table' => if bool_decide (cmd = name) then Some handler else find_handler cmd table'
  end.

(** The body of the loop of [driver] after [fgets]. *)
Definition repl_line (line : bytes) : ST repl flow :=
  match (span_word (skip_spaces line)).1 with
  | [] => say SyntaxError;; mret Continue
  | cmd =>
      match find_handler cmd cmd_table with
      | Some handler => handler line
      | None => say NoCommand;; mret Continue
      end
  end.

(** The loop of [driver]; [fuel] bounds the number of lines. *)
Fixpoint repl_loop (fuel : nat) (stdin : bytes) : ST repl flow :=
  say Prompt;;
  match stdin with
  | [] => say EndOfInput;; mret Continue
  | _ =>
      match fuel with
      | O => fail NoFuel
      | S fuel' =>
          let '(line, rest) := fgets_chars (Z.to_nat (MAXLINE - 1)) stdin in
          f ← repl_line (cstr line);
          match f with
          | Continue => repl_loop fuel' rest
          | Exits status => mret (Exits status)
          end
      end
  end.

(** [driver]; [s] is the static data of the allocator and [arena] what the
    first [mem_init] is given. *)
Definition repl_driver (malloc_ok : bool) (arena : Z * gmap Z Z) (stdin : bytes) (s : mm_state) :
    result (flow * repl) :=
  match make_repl_state malloc_ok MAX_REPL_SIZE s with
  | Err e => Err e
  | Ok r =>
      (on_mm (mem_init arena.1 arena.2);;
       f ← reset_cmd [];
       match f with
       | Exits status => mret (Exits status)
       | Continue =>
           say Welcome;;
           f ← repl_loop (length stdin) stdin;
           match f with
           | Exits status => mret (Exits status)
           | Continue => on_driver clear_ranges;; mret Continue
           end
       end) r
  end.
End Commands.
