(* ===== verification/MdriverReplPrint.v ===== *)
(** * What the [print] command shows.

    On a heap that satisfies the invariant of [mm.c] the walk of
    [mm_print_heap_repl] visits every block in address order, ends at the
    epilogue and finds nothing to warn about. *)

From Stdlib Require Import ZArith Lia Ascii String.
From stdpp Require Import base gmap numbers option list.
From S2P Require Import Prelude Stdio Memlib MmInline Mm MmHeap MmLayout MmProofs MmSpec MmRealloc MmRefine Mdriver MdriverTrace MdriverRepl.

Open Scope Z_scope.
Open Scope list_scope.

(** ** Running the pieces of a handler *)

(** The state with more printed. *)
Definition said (ms : list message) (r : repl) : repl :=
  Repl (rheap r) (rranges r) (rcomplaints r) (tracenum r) (num_ops r) (num_blocks r) (rblocks r)
       (printed r ++ ms).

Lemma said_nil r : said [] r = r.
Proof. destruct r. unfold said. cbn. by rewrite app_nil_r. Qed.

Lemma said_app ms ms' r : said ms' (said ms r) = said (ms ++ ms') r.
Proof. unfold said. cbn. by rewrite app_assoc. Qed.

Lemma rheap_said ms r : rheap (said ms r) = rheap r.
Proof. done. Qed.

Lemma say_Ok m r : say m r = Ok (tt, said [m] r).
Proof. done. Qed.

(** Reading the heap changes nothing. *)
Lemma on_mm_read {A} (m : ST mm_state A) a r :
  m (rheap r) = Ok (a, rheap r) → on_mm m r = Ok (a, r).
Proof. intros H. unfold on_mm, on_driver, on_heap. cbn. rewrite H. by destruct r. Qed.

(** ** One block *)

(** The line for a block. *)
Definition block_line (blocks : list repl_block) (w : gmap Z Z) (a : Z) (blk : Z * bool) : message :=
  if blk.2 then AllocatedBlock (rindex <$> find_repl_block_from_block a blocks None) a (to_int blk.1)
  else FreeBlock a (to_int blk.1) (word w (a + 8)) (word w (a + 16)).

Fixpoint block_lines (blocks : list repl_block) (w : gmap Z Z) (a : Z) (M : row) : list message :=
  match M with
  | [] => []
  | blk :: M' => block_line blocks w a blk :: block_lines blocks w (a + blk.1) M'
  end.

Section Print.
Context (B : MmHeap.blocks) (fl : list Z).

Lemma block_end_size_heap s a sz al :
  linked_heap s B fl → B !! a = Some (sz, al) → block_end_size a s = Ok (sz, s).
Proof.
  intros H Ha. destruct (sep_block _ _ _ (lh_sep _ _ _ H) a sz al Ha) as (_ & H8 & H16 & _).
  unfold block_end_size. run (block_end_tag_tagged _ _ _ _ (heap_tagged s B fl H a sz al Ha) H16).
  run (load_Ok s _ (heap_end_ok s B fl H a sz al Ha)).
  destruct (lh_tags _ _ _ H a sz al Ha) as [_ ->]. by rewrite tag_land_m2.
Qed.

(** Printing a block shows its line and goes to the next. *)
Lemma print_block_Ok bs ep a sz al r :
  linked_heap (rheap r) B fl → B !! a = Some (sz, al) → 32 ≤ sz → a + sz ≤ ep →
  print_block bs ep a r = Ok (a + sz, said [block_line bs (words (rheap r)) a (sz, al)] r).
Proof.
  intros H Ha Hsz Hep. set (s := rheap r) in *.
  pose proof (heap_tagged s B fl H a sz al Ha) as Ht.
  assert (∀ ms, on_mm (block_allocated a) (said ms r) = Ok (Z.b2z al, said ms r)) as Hal
    by (intros ms; by apply on_mm_read, block_allocated_tagged with sz).
  assert (∀ ms, on_mm (block_size a) (said ms r) = Ok (sz, said ms r)) as Hbs
    by (intros ms; by apply on_mm_read, block_size_tagged with al).
  assert (∀ ms, on_mm (block_end_size a) (said ms r) = Ok (sz, said ms r)) as Hes
    by (intros ms; by eapply on_mm_read, block_end_size_heap).
  assert (∀ ms, on_mm (block_next a) (said ms r) = Ok (a + sz, said ms r)) as Hnx
    by (intros ms; by apply on_mm_read, block_next_tagged with al).
  set (line := block_line bs (words s) a (sz, al)).
  unfold print_block. rewrite <-(said_nil r) at 1. run (Hal []). run (Hbs []).
  match goal with |- ((?m ≫= _) _) = _ => assert (m (said [] r) = Ok (tt, said [line] r)) as Hline end.
  { destruct al; cbn [Z.b2z Z.eqb negb]; [by rewrite say_Ok, said_app|].
    pose proof (heap_free_at s B fl H a sz Ha) as Hf.
    assert (on_mm (block_flink a) (said [] r) = Ok (word (words s) (a + 8), said [] r)) as H1
      by (by apply on_mm_read, block_flink_Ok).
    assert (on_mm (block_blink a) (said [] r) = Ok (word (words s) (a + 16), said [] r)) as H2
      by (by apply on_mm_read, block_blink_Ok).
    run H1. run H2. by rewrite say_Ok, said_app. }
  run Hline. run (Hbs [line]). run (Hes [line]). rewrite Z.eqb_refl. cbn [negb].
  rewrite (proj2 (Z.ltb_ge sz MINBLOCKSIZE)) by (unfold MINBLOCKSIZE, WORD_SIZE; lia).
  do 2 (rewrite (ST_bind_Ok _ _ _ tt (said [line] r)) by done).
  run (Hnx [line]). rewrite Z.gtb_ltb, (proj2 (Z.ltb_ge _ _)) by (unfold MINBLOCKSIZE, WORD_SIZE; lia).
  rewrite (ST_bind_Ok _ _ _ tt (said [line] r)) by done. apply Hnx.
Qed.
End Print.

(** ** The whole heap *)

(** The loop over the blocks [M2] that are left. *)
Lemma print_blocks_Ok bs fuel s M fl : ∀ M1 M2 r,
  heap_ok s M fl → M = M1 ++ M2 → rheap r = s → (length M2 ≤ fuel)%nat →
  print_blocks fuel bs (mem_brk s - 16) (mem_start_brk s + 16 + total M1) r =
    Ok (tt, said (block_lines bs (words s) (mem_start_brk s + 16 + total M1) M2) r).
Proof.
  induction fuel as [|fuel IH]; intros M1 M2 r H HM Hr Hlen.
  all: pose proof (ho_brk _ _ _ H) as Hbrk; rewrite total_full, HM, total_app in Hbrk.
  all: destruct M2 as [|[sz al] M2]; [cbn in Hbrk |- *; rewrite (proj2 (Z.eqb_eq _ _)) by lia; by rewrite said_nil|].
  { simpl in Hlen. lia. }
  pose proof (heap_blocks _ _ _ H) as Hblocks. rewrite HM in Hblocks.
  apply Forall_app in Hblocks as [_ [_ HM2]%Forall_cons]. apply total_nonneg in HM2.
  pose proof (ho_inner _ _ _ H) as Hin. rewrite HM in Hin.
  apply Forall_app in Hin as [_ [Hsz _]%Forall_cons]. cbn [fst] in Hsz. cbn [total fst] in Hbrk.
  cbn [print_blocks]. rewrite (proj2 (Z.eqb_neq _ _)) by lia.
  assert (linked_heap (rheap r) (layout (mem_start_brk s) (full M)) fl) as Hl
    by (rewrite Hr; apply (ho_row _ _ _ H)).
  assert (layout (mem_start_brk s) (full M) !! (mem_start_brk s + 16 + total M1) = Some (sz, al)) as Ha.
  { rewrite HM, full_mid. rewrite <-(layout_mid (mem_start_brk s) ((16, true) :: M1) (sz, al) (M2 ++ [(16, true)])).
    - f_equal. simpl. lia.
    - rewrite <-full_mid, <-HM. apply (ho_row _ _ _ H). }
  run (print_block_Ok _ _ bs (mem_brk s - 16) _ _ _ r Hl Ha Hsz ltac:(lia)). rewrite Hr.
  specialize (IH (M1 ++ [(sz, al)]) M2 (said [block_line bs (words s) (mem_start_brk s + 16 + total M1) (sz, al)] r) H).
  rewrite total_app in IH. cbn [total fst] in IH.
  replace (mem_start_brk s + 16 + (total M1 + (sz + 0))) with (mem_start_brk s + 16 + total M1 + sz) in IH by lia.
  rewrite IH; [by rewrite said_app| |done|simpl in Hlen; lia].
  by rewrite <-app_assoc.
Qed.

(** The tags of the sentinels. *)
Lemma sentinels s M fl :
  heap_ok s M fl →
  tagged s (mem_start_brk s) 16 true ∧ tagged s (mem_brk s - 16) 16 true.
Proof.
  intros H. pose proof (proj1 (ho_row _ _ _ H)) as Hrow. pose proof (rh_blocks _ _ _ Hrow) as HL.
  pose proof (ho_brk _ _ _ H) as Hbrk. rewrite total_full in Hbrk.
  split; (eapply heap_tagged; [apply (rh_heap _ _ _ Hrow)|]).
  - unfold full. simpl. by rewrite lookup_insert_eq.
  - rewrite <-(layout_mid (mem_start_brk s) ((16, true) :: M) (16, true) []).
    + unfold full. f_equal. simpl. lia.
    + by rewrite <-app_comm_cons.
Qed.

Lemma length_row_bound s M fl :
  heap_ok s M fl → (length M ≤ scan_fuel s)%nat.
Proof.
  intros H. pose proof (ho_brk _ _ _ H) as Hbrk. rewrite total_full in Hbrk.
  assert (32 * Z.of_nat (length M) ≤ total M) as Hlen.
  { pose proof (ho_inner _ _ _ H) as Hin. clear -Hin. induction Hin as [|[sz al] M Hsz _ IH]; simpl in *; lia. }
  unfold scan_fuel, mem_heapsize, MINBLOCKSIZE, WORD_SIZE. Z.to_euclidean_division_equations; lia.
Qed.

(** What [mm_print_heap_repl] prints. *)
Definition heap_lines (blocks : list repl_block) (s : mm_state) (M : row) : list message :=
  [HeapSize (to_int (mem_heapsize s)); PrologueAt (mem_start_brk s) 16] ++
  block_lines blocks (words s) (mem_start_brk s + 16) M ++
  [EpilogueAt (mem_brk s - 16) 16].

Lemma mm_print_heap_repl_Ok bs r M fl :
  heap_ok (rheap r) M fl →
  mm_print_heap_repl bs r = Ok (tt, said (heap_lines bs (rheap r) M) r).
Proof.
  intros H. destruct (sentinels _ _ _ H) as [Hpro Hepi].
  unfold mm_print_heap_repl. rewrite ST_get. unfold mem_heap_lo, mem_heap_hi, TAGS_SIZE, WORD_SIZE.
  set (s := rheap r) in *.
  replace (mem_brk s - 1 - 2 * 8 + 1) with (mem_brk s - 16) by lia.
  rewrite (ST_bind_Ok _ _ _ _ _ (say_Ok _ r)).
  match goal with |- context [said ?ms r] => set (r1 := said ms r) end.
  run (on_mm_read _ _ r1 (block_size_tagged _ _ _ _ Hpro)).
  rewrite (ST_bind_Ok _ _ _ _ _ (say_Ok _ r1)).
  match goal with |- context [said ?ms r1] => set (r2 := said ms r1) end.
  run (on_mm_read _ _ r2 (block_next_tagged _ _ _ _ Hpro)).
  pose proof (print_blocks_Ok bs (scan_fuel s) s M fl [] M r2 H eq_refl eq_refl
    (length_row_bound s M fl H)) as Hloop.
  cbn [total] in Hloop. rewrite Z.add_0_r in Hloop. run Hloop.
  match goal with |- context [said ?ms r2] => set (r3 := said ms r2) end.
  run (on_mm_read _ _ r3 (block_size_tagged _ _ _ _ Hepi)). rewrite say_Ok.
  unfold r3, r2, r1. rewrite !said_app.
  done.
Qed.

(** A message that is no warning about the heap. *)
Definition healthy (m : message) : bool :=
  match m with DifferingTags _ _ _ _ | TooSmall _ _ _ | NextOutside => false | _ => true end.

Lemma heap_lines_healthy bs s M : Forall (λ m, healthy m = true) (heap_lines bs s M).
Proof.
  unfold heap_lines. rewrite !Forall_app. split; [by repeat constructor|]. split; [|by repeat constructor].
  generalize (mem_start_brk s + 16). induction M as [|[sz al] M IH]; intros a; simpl; constructor; [|apply IH].
  by destruct al.
Qed.
