(* ===== verification/MdriverReplProofs.v ===== *)
(** * Sessions of the interactive mode.

    The commands of a session mean operations on a map from indices to sizes;
    over [mm.c] every line that uses no [realloc] or [reset] runs to its end and
    does what it means, whatever else the lines hold. *)

From Stdlib Require Import ZArith Lia Ascii String.
From stdpp Require Import base gmap numbers option list.
From S2P Require Import Prelude Stdio Memlib MmInline Mm MmHeap MmLayout MmProofs MmSpec MmRealloc MmRefine Mdriver MdriverBytes MdriverTables MdriverProofs MdriverTrace MdriverRepl MdriverReplPrint.

Open Scope Z_scope.
Open Scope list_scope.

(** ** What a session means *)

Inductive command := CMalloc (i n : Z) | CFree (i : Z) | CShow | CQuit.

(** The meaning of a line, for the lines covered: any command but [realloc] and
    [reset], numbers that an [int] can hold, and sizes that [mm_malloc] can. *)
Definition parse_line (line : bytes) : option command :=
  let cmd := (span_word (skip_spaces line)).1 in
  if bool_decide (cmd = lit "m" ∨ cmd = lit "malloc") then
    match scan_either 2 (fmt "m # #") (fmt "malloc # #") line with
    | Ok (Some [i; n]) => if (0 <=? n) && (n <? 2 ^ 31 - 64) then Some (CMalloc i n) else None
    | Ok _ => Some CShow
    | Err _ => None
    end
  else if bool_decide (cmd = lit "f" ∨ cmd = lit "free") then
    match scan_either 1 (fmt "f #") (fmt "free #") line with
    | Ok (Some (i :: _)) => Some (CFree i)
    | Ok _ => Some CShow
    | Err _ => None
    end
  else if bool_decide (cmd = lit "p" ∨ cmd = lit "print") then
    match scan_either 1 (fmt "p -b #") (fmt "print -b #") line with Ok _ => Some CShow | Err _ => None end
  else if bool_decide (cmd = lit "q" ∨ cmd = lit "quit") then Some CQuit
  else if bool_decide (cmd = lit "r" ∨ cmd = lit "realloc" ∨ cmd = lit "reset") then None
  else Some CShow.

(** Its effect on the sizes of the indices in use; [granted] says whether an
    allocation succeeds. *)
Definition effect (granted : bool) (live : gmap Z Z) (c : command) : gmap Z Z :=
  match c with
  | CMalloc i n =>
      if bool_decide (0 ≤ i < MAX_REPL_SIZE ∧ live !! i = None ∧ n ≠ 0) && granted
      then <[i := n]> live else live
  | CFree i => delete i live
  | CShow | CQuit => live
  end.

(** The lines that [fgets] reads. *)
Fixpoint lines_of (fuel : nat) (stdin : bytes) : list bytes :=
  match stdin, fuel with
  | [], _ | _, O => []
  | _, S fuel' =>
      let '(line, rest) := fgets_chars (Z.to_nat (MAXLINE - 1)) stdin in
      cstr line :: lines_of fuel' rest
  end.

(** The commands of a session: those of its lines up to the first [quit]. *)
Fixpoint parse_lines (ls : list bytes) : option (list command) :=
  match ls with
  | [] => Some []
  | l :: ls' =>
      match parse_line l with
      | None => None
      | Some CQuit => Some [CQuit]
      | Some c => cons c <$> parse_lines ls'
      end
  end.

(** The sizes of the indices in use after a session; each command consumes an
    answer of the allocator. *)
Fixpoint run_commands (granted : list bool) (live : gmap Z Z) (cs : list command) : gmap Z Z :=
  match cs, granted with
  | c :: cs', g :: granted' => run_commands granted' (effect g live c) cs'
  | _, _ => live
  end.

(** How the program ends. *)
Fixpoint ends (cs : list command) : flow :=
  match cs with
  | [] => Continue
  | CQuit :: _ => Exits 0
  | _ :: cs' => ends cs'
  end.

(** ** The invariant *)

(** The sizes of the indices in use. *)
Definition in_use (bs : list repl_block) : gmap Z Z :=
  omap (λ b, if is_valid b then Some (rsize b) else None) (map_seqZ 0 bs : gmap Z repl_block).

Lemma in_use_Some bs i n :
  in_use bs !! i = Some n ↔
    ∃ b, 0 ≤ i ∧ bs !! Z.to_nat i = Some b ∧ is_valid b = true ∧ rsize b = n.
Proof.
  unfold in_use. rewrite lookup_omap_Some. setoid_rewrite lookup_map_seqZ_Some. setoid_rewrite Z.sub_0_r.
  split.
  - intros (b & Hb & Hi & Hl). destruct (is_valid b) eqn:Hv; [|done]. exists b. naive_solver.
  - intros (b & Hi & Hl & Hv & <-). exists b. by rewrite Hv.
Qed.

Lemma in_use_insert bs i b :
  0 ≤ i < Z.of_nat (length bs) →
  in_use (<[Z.to_nat i := b]> bs) =
    if is_valid b then <[i := rsize b]> (in_use bs) else delete i (in_use bs).
Proof.
  intros Hi. unfold in_use. rewrite map_seqZ_insert by lia. rewrite Z.add_0_l, Z2Nat.id by lia.
  destruct (is_valid b) eqn:Hv.
  - by rewrite (omap_insert_Some _ _ _ _ (rsize b)) by (by rewrite Hv).
  - by rewrite omap_insert_None by (by rewrite Hv).
Qed.

(** The blocks in use are the allocated ones, each owned by one index. *)
Record repl_inv (r : repl) (h : aheap) : Prop := {
  ri_driver : drv_ok mm_rep (to_driver r) h (in_use (rblocks r));
  ri_owned p : is_Some (h !! p) →
    ∃ b, b ∈ rblocks r ∧ is_valid b = true ∧ ptr b = p;
  ri_num : num_blocks r = MAX_REPL_SIZE;
  ri_len : Z.of_nat (length (rblocks r)) = MAX_REPL_SIZE;
  ri_index k b : rblocks r !! k = Some b → rindex b = Z.of_nat k;
  ri_said : Forall (λ m, healthy m = true) (printed r);
  ri_complaints : Forall (λ c, c.2 = MallocFailed) (rcomplaints r);
}.

Definition repl_ok (r : repl) : Prop := ∃ h, repl_inv r h.

Lemma repl_inv_said r h ms :
  repl_inv r h → Forall (λ m, healthy m = true) ms → repl_inv (said ms r) h.
Proof. intros [Hd Ho Hn Hl Hi Hs Hc] Hms. split; try done. apply Forall_app; done. Qed.

(** The state with the [n]-th operation counted. *)
Definition counted (n : Z) (r : repl) : repl :=
  Repl (rheap r) (rranges r) (rcomplaints r) (tracenum r) n (num_blocks r) (rblocks r) (printed r).

Lemma repl_inv_counted r h n : repl_inv r h → repl_inv (counted n r) h.
Proof. by intros []. Qed.

(** The state after an action of the driver. *)
Definition driven (d : driver mm_state) (r : repl) : repl :=
  Repl (heap d) (ranges d) (complaints d) (tracenum r) (num_ops r) (num_blocks r) (rblocks r) (printed r).

Lemma on_driver_Ok {A} (m : ST (driver mm_state) A) a d r :
  m (to_driver r) = Ok (a, d) → on_driver m r = Ok (a, driven d r).
Proof. unfold on_driver. by intros ->. Qed.

Definition with_block (i : Z) (b : repl_block) (r : repl) : repl :=
  Repl (rheap r) (rranges r) (rcomplaints r) (tracenum r) (num_ops r) (num_blocks r)
       (<[Z.to_nat i := b]> (rblocks r)) (printed r).

Lemma set_repl_block_Ok i b r : set_repl_block i b r = Ok (tt, with_block i b r).
Proof. done. Qed.

(** Assigning a block assigns to both arrays. *)
Lemma to_driver_with_block i b r :
  0 ≤ i < Z.of_nat (length (rblocks r)) →
  to_driver (with_block i b r) =
    Driver (rheap r) (rranges r) (<[i := ptr b]> (blocks (to_driver r)))
      (<[i := rsize b]> (block_sizes (to_driver r))) (rcomplaints r).
Proof.
  intros Hi. unfold to_driver. cbn [rheap rranges rblocks rcomplaints with_block blocks block_sizes].
  rewrite !list_fmap_insert, !map_seqZ_insert by (rewrite length_fmap; lia).
  by rewrite Z.add_0_l, Z2Nat.id by lia.
Qed.

Section Handlers.
Context (r : repl) (h : aheap) (H : repl_inv r h).

(** A handler goes on, keeps the invariant and leaves [live] in use. *)
Definition runs (m : ST repl flow) (live : gmap Z Z) : Prop :=
  ∃ r', m r = Ok (Continue, r') ∧ repl_ok r' ∧ in_use (rblocks r') = live.

Lemma runs_say m : healthy m = true → runs (say m;; mret Continue) (in_use (rblocks r)).
Proof.
  intros Hm. exists (said [m] r). split; [done|]. split; [|done]. exists h.
  apply repl_inv_said; [done|by repeat constructor].
Qed.

(** The check of an index, and the block it selects. *)
Lemma runs_index i (k : ST repl flow) live :
  (¬ 0 ≤ i < MAX_REPL_SIZE → live = in_use (rblocks r)) →
  (0 ≤ i < MAX_REPL_SIZE → runs k live) →
  runs (ok ← index_ok i; if negb ok then mret Continue else k) live.
Proof.
  intros Hout Hin. unfold runs, index_ok.
  destruct (decide (0 ≤ i < MAX_REPL_SIZE)) as [Hi|Hi].
  - rewrite (ST_bind_Ok _ _ _ true r); [by apply Hin|]. rewrite ST_get, (ri_num _ _ H).
    by rewrite (proj2 (Z.ltb_ge i 0)), Z.geb_leb, (proj2 (Z.leb_gt _ i)) by lia.
  - rewrite (ST_bind_Ok _ _ _ false (said [IndexRange MAX_REPL_SIZE] r)).
    + rewrite Hout by done. exists (said [IndexRange MAX_REPL_SIZE] r). split; [done|]. split; [|done].
      exists h. apply repl_inv_said; [done|by repeat constructor].
    + rewrite ST_get, (ri_num _ _ H).
      assert ((i <? 0) || (i >=? MAX_REPL_SIZE) = true) as -> by lia. done.
Qed.

Lemma runs_block i (k : repl_block → ST repl flow) live :
  0 ≤ i < MAX_REPL_SIZE →
  (∀ b, rblocks r !! Z.to_nat i = Some b → runs (k b) live) →
  runs (b ← repl_block_at i; k b) live.
Proof.
  intros Hi Hk. pose proof (ri_len _ _ H) as Hlen.
  destruct (lookup_lt_is_Some_2 (rblocks r) (Z.to_nat i)) as [b Hb]; [lia|].
  destruct (Hk b Hb) as (r' & Hrun & Hr'). exists r'. split; [|done].
  assert (repl_block_at i r = Ok (b, r)) as Hat by (unfold repl_block_at; by rewrite Hb). by run Hat.
Qed.

Lemma in_use_at i b :
  0 ≤ i → rblocks r !! Z.to_nat i = Some b →
  in_use (rblocks r) !! i = if is_valid b then Some (rsize b) else None.
Proof.
  intros Hi Hb. destruct (is_valid b) eqn:Hv; [apply in_use_Some; by exists b|].
  apply eq_None_not_Some. intros [n (b' & _ & Hb' & Hv' & _)%in_use_Some]. congruence.
Qed.
End Handlers.

(** [drv_ok] does not mention the complaints. *)
Lemma drv_ok_complaints d h live cs :
  drv_ok mm_rep d h live → drv_ok mm_rep (Driver (heap d) (ranges d) (blocks d) (block_sizes d) cs) h live.
Proof. by intros [? []]. Qed.

(** After an allocation for index [i]. *)
Lemma repl_inv_allocated r h i b p n c s :
  repl_inv r h → 0 ≤ i < MAX_REPL_SIZE → rblocks r !! Z.to_nat i = Some b → is_valid b = false →
  drv_ok mm_rep (allocated (to_driver r) s i p n) (<[p := c]> h) (<[i := n]> (in_use (rblocks r))) →
  repl_inv (with_block i (ReplBlock true p n (rindex b))
    (driven (Driver s ((p, p + n - 1) :: rranges r) (blocks (to_driver r)) (block_sizes (to_driver r))
       (rcomplaints r)) r)) (<[p := c]> h).
Proof.
  intros H Hi Hb Hv Hok. pose proof (ri_len _ _ H) as Hlen. split; try apply H.
  - rewrite to_driver_with_block by (cbn; lia). cbn [rblocks with_block driven].
    by rewrite in_use_insert by lia.
  - intros q [c' [[<- <-]|[Hne Hq]]%lookup_insert_Some].
    + exists (ReplBlock true p n (rindex b)). split; [|done]. cbn. apply (list_elem_of_lookup_2 _ (Z.to_nat i)).
      rewrite list_lookup_insert_eq; [done|lia].
    + destruct (ri_owned _ _ H q) as (b' & Hb' & Hv' & Hp'); [by exists c'|]. exists b'. split; [|done].
      cbn. apply list_elem_of_lookup in Hb' as [k Hk]. apply (list_elem_of_lookup_2 _ k).
      rewrite list_lookup_insert_ne; [done|]. intros <-. congruence.
  - cbn. rewrite length_insert. apply H.
  - intros k b'. cbn. rewrite list_lookup_insert_Some.
    intros [(<- & <- & _)|[_ Hb']]; [exact (ri_index _ _ H _ b Hb)|by apply (ri_index _ _ H)].
Qed.

(** A complaint about an allocation that failed. *)
Lemma repl_inv_failed r h k s :
  repl_inv r h → drv_ok mm_rep (with_heap (to_driver r) s) h (in_use (rblocks r)) →
  repl_inv (driven (Driver s (rranges r) (blocks (to_driver r)) (block_sizes (to_driver r))
    (rcomplaints r ++ [(k, MallocFailed)])) r) h.
Proof.
  intros H Hok. split; try apply H; cbn.
  - apply (drv_ok_complaints (with_heap (to_driver r) s)), Hok.
  - apply Forall_app. split; [apply H|by repeat constructor].
Qed.

(** The call of [mm_malloc] and what follows it. *)
Lemma malloc_block_Ok r h i n k b :
  repl_inv r h → 0 ≤ i < MAX_REPL_SIZE → rblocks r !! Z.to_nat i = Some b → is_valid b = false →
  0 ≤ n < 2 ^ 31 - 64 →
  ∃ granted, runs r (malloc_block true i n k b) (effect granted (in_use (rblocks r)) (CMalloc i n)).
Proof.
  intros H Hi Hb Hv Hn. pose proof (in_use_at r i b ltac:(lia) Hb) as Hnone. rewrite Hv in Hnone.
  unfold malloc_block, effect, runs. destruct (decide (n = 0)) as [->|Hn0].
  { exists true. rewrite bool_decide_eq_false_2 by naive_solver. cbn [andb].
    assert (on_driver (call_mm mm_run (Malloc 0)) r = Ok (NULL, r)) as Hrun by (by destruct r).
    run Hrun. exists r. split; [done|]. split; [by exists h|done]. }
  rewrite bool_decide_eq_true_2 by done. cbn [andb].
  destruct (alloc_steps mm_run mm_safe mm_rep mem_heap_lo mem_heap_hi mm_safe_all (to_driver r) h _ i n k
    (ri_driver _ _ H) Hnone ltac:(lia)) as (p & s1 & Hrun & [[-> Hok]|(Hnn & _ & s2 & c & Hadd & Hset & Hok)]);
    run (on_driver_Ok _ _ _ r Hrun); rewrite (proj2 (Z.eqb_neq n 0) Hn0); cbn [negb].
  - exists false. rewrite Z.eqb_refl. cbn [andb]. eexists. split; [done|]. split; [|done].
    exists h. exact (repl_inv_failed r h k s1 H Hok).
  - exists true. rewrite (proj2 (Z.eqb_neq p NULL) Hnn). cbn [andb].
    set (r1 := driven (with_heap (to_driver r) s1) r).
    run (on_driver_Ok _ _ _ r1 Hadd). cbn [Z.eqb].
    match goal with |- context [driven ?d r1] => set (r2 := driven d r1) end.
    run (on_driver_Ok _ _ _ r2 Hset). rewrite (ST_bind_Ok _ _ _ _ _ (set_repl_block_Ok _ _ _)).
    eexists. split; [done|]. split.
    + exists (<[p := c]> h). by apply (repl_inv_allocated r h i b p n c s2).
    + exact (in_use_insert (rblocks r) i (ReplBlock true p n (rindex b)) ltac:(pose proof (ri_len _ _ H); lia)).
Qed.

Lemma malloc_cmd_Ok r line i n :
  repl_ok r → scan_either 2 (fmt "m # #") (fmt "malloc # #") line = Ok (Some [i; n]) →
  0 ≤ n < 2 ^ 31 - 64 →
  ∃ granted, runs r (malloc_cmd true line) (effect granted (in_use (rblocks r)) (CMalloc i n)).
Proof.
  intros [h H] Hscan Hn.
  assert (∀ granted, runs r (malloc_cmd true line) (effect granted (in_use (rblocks r)) (CMalloc i n)) ↔
    runs r (ok ← index_ok i; if negb ok then mret Continue else
      (b ← repl_block_at i; if is_valid b then say InUse;; mret Continue else
       (r ← get; set_num_ops (num_ops r + 1);; malloc_block true i n (num_ops r + 1) b)))
      (effect granted (in_use (rblocks r)) (CMalloc i n))) as Heq.
  { intros granted. unfold malloc_cmd. rewrite Hscan. done. }
  setoid_rewrite Heq. clear Heq.
  destruct (decide (0 ≤ i < MAX_REPL_SIZE)) as [Hi|Hi]; cycle 1.
  { exists true. apply (runs_index r h); [done| |done]. intros _. unfold effect.
    rewrite bool_decide_eq_false_2 by naive_solver. done. }
  destruct (lookup_lt_is_Some_2 (rblocks r) (Z.to_nat i)) as [b Hb]; [pose proof (ri_len _ _ H); lia|].
  pose proof (in_use_at r i b ltac:(lia) Hb) as Hat. destruct (is_valid b) eqn:Hv.
  - exists true. apply (runs_index r h); [done|naive_solver|intros _]. apply (runs_block r h); [done..|].
    intros b' Hb'. assert (b' = b) as -> by congruence. rewrite Hv. unfold effect.
    rewrite Hat, bool_decide_eq_false_2 by naive_solver. by apply (runs_say r h).
  - destruct (malloc_block_Ok (counted (num_ops r + 1) r) h i n (num_ops r + 1) b) as (g & r' & Hrun & Hr');
      [by apply repl_inv_counted|done..|].
    exists g. apply (runs_index r h); [done|naive_solver|intros _]. apply (runs_block r h); [done..|].
    intros b' Hb'. assert (b' = b) as -> by congruence. rewrite Hv. exists r'. split; [|done].
    rewrite ST_get. unfold set_num_ops. rewrite ST_modify. exact Hrun.
Qed.

(** ** [free] *)

(** After index [i] has been freed. *)
Lemma repl_inv_released r h i b s :
  repl_inv r h → 0 ≤ i < MAX_REPL_SIZE → rblocks r !! Z.to_nat i = Some b → is_valid b = true →
  drv_ok mm_rep (released (to_driver r) s (ptr b)) (delete (ptr b) h) (delete i (in_use (rblocks r))) →
  repl_inv (with_block i (ReplBlock false (ptr b) (rsize b) (rindex b))
    (driven (released (to_driver r) s (ptr b)) r)) (delete (ptr b) h).
Proof.
  intros H Hi Hb Hv Hok. pose proof (ri_len _ _ H) as Hlen.
  assert (∀ f : repl_block → Z, f b = f (ReplBlock false (ptr b) (rsize b) (rindex b)) →
    f <$> <[Z.to_nat i := ReplBlock false (ptr b) (rsize b) (rindex b)]> (rblocks r) = f <$> rblocks r) as Hf.
  { intros f Hf. rewrite list_fmap_insert, <-Hf. apply list_insert_id. by rewrite list_lookup_fmap, Hb. }
  split; try apply H.
  - unfold to_driver. cbn [rblocks with_block driven rheap rranges rcomplaints released heap ranges complaints].
    rewrite !Hf by done. by rewrite in_use_insert by lia.
  - intros q [c [Hne Hq]%lookup_delete_Some].
    destruct (ri_owned _ _ H q) as (b' & Hb' & Hv' & Hp'); [by exists c|]. exists b'. split; [|done].
    cbn. apply list_elem_of_lookup in Hb' as [k Hk]. apply (list_elem_of_lookup_2 _ k).
    rewrite list_lookup_insert_ne; [done|]. intros <-. congruence.
  - cbn. rewrite length_insert. apply H.
  - intros k b'. cbn. rewrite list_lookup_insert_Some.
    intros [(<- & <- & _)|[_ Hb']]; [exact (ri_index _ _ H _ b Hb)|by apply (ri_index _ _ H)].
Qed.

Lemma ptr_at r i b :
  0 ≤ i → rblocks r !! Z.to_nat i = Some b → blocks (to_driver r) !! i = Some (ptr b).
Proof.
  intros Hi Hb. cbn. rewrite lookup_map_seqZ. rewrite option_guard_True by done.
  by rewrite Z.sub_0_r, list_lookup_fmap, Hb.
Qed.

Lemma free_cmd_Ok r line i vs :
  repl_ok r → scan_either 1 (fmt "f #") (fmt "free #") line = Ok (Some (i :: vs)) →
  runs r (free_cmd line) (delete i (in_use (rblocks r))).
Proof.
  intros [h H] Hscan. unfold free_cmd. rewrite Hscan.
  change (runs r (ok ← index_ok i; if negb ok then mret Continue else
      (b ← repl_block_at i; if negb (is_valid b) then say NotInUse;; mret Continue else
       (r ← get; set_num_ops (num_ops r + 1);; on_driver (remove_range (ptr b));;
        on_driver (call_mm mm_run (Free (ptr b)));;
        set_repl_block i (ReplBlock false (ptr b) (rsize b) (rindex b));; mret Continue)))
      (delete i (in_use (rblocks r)))).
  apply (runs_index r h); [done| |].
  { intros Hi. apply delete_id, eq_None_not_Some. intros [n (b & Hi0 & Hb & _)%in_use_Some].
    apply lookup_lt_Some in Hb. pose proof (ri_len _ _ H). lia. }
  intros Hi. apply (runs_block r h); [done..|]. intros b Hb.
  pose proof (in_use_at r i b ltac:(lia) Hb) as Hat. destruct (is_valid b) eqn:Hv; cbn [negb].
  - set (r0 := counted (num_ops r + 1) r). pose proof (repl_inv_counted r h (num_ops r + 1) H) as H0.
    destruct (free_steps mm_run mm_safe mm_rep mem_heap_lo mem_heap_hi mm_safe_all (to_driver r0) h _ i (rsize b)
      (ri_driver _ _ H0) Hat) as (p & s2 & v & Hp & _ & Hrm & Hfree & Hok).
    rewrite (ptr_at r0 i b) in Hp by (done || lia). injection Hp as <-.
    unfold runs. rewrite ST_get. unfold set_num_ops. rewrite ST_modify. fold (counted (num_ops r + 1) r). fold r0.
    run (on_driver_Ok _ _ _ r0 Hrm).
    match goal with |- context [driven ?d r0] => set (r1 := driven d r0) end.
    run (on_driver_Ok _ _ _ r1 Hfree). rewrite (ST_bind_Ok _ _ _ _ _ (set_repl_block_Ok _ _ _)).
    eexists. split; [done|]. split.
    + exists (delete (ptr b) h). by apply (repl_inv_released r0 h i b s2).
    + exact (in_use_insert (rblocks r) i (ReplBlock false (ptr b) (rsize b) (rindex b))
        ltac:(pose proof (ri_len _ _ H); lia)).
  - rewrite delete_id by done. by apply (runs_say r h).
Qed.

(** ** [print] *)

(** The tag of a block in use. *)
Lemma in_use_tagged r h i b :
  repl_inv r h → 0 ≤ i → rblocks r !! Z.to_nat i = Some b → is_valid b = true →
  ∃ sz, tagged (rheap r) (ptr b - 8) sz true.
Proof.
  intros H Hi Hb Hv. pose proof (in_use_at r i b Hi Hb) as Hat. rewrite Hv in Hat.
  destruct (do_live _ _ _ _ (ri_driver _ _ H) i _ Hat) as (p & Hp & _ & [c Hc] & _).
  rewrite (ptr_at r i b Hi Hb) in Hp. injection Hp as <-.
  destruct (do_rep _ _ _ _ (ri_driver _ _ H)) as (M & fl & Hok & ->). cbn [heap to_driver] in *.
  destruct (view_Some _ _ _ _ Hc) as (a & sz & Hpa & Ha & _). exists sz.
  replace (ptr b - 8) with a by (rewrite Hpa; unfold payload, WORD_SIZE; lia).
  eapply heap_tagged; [apply (ho_row _ _ _ Hok)|]. apply live_lookup.
  eapply lookup_weaken; [exact Ha|]. by apply owned_subseteq, (heap_blocks _ _ _ Hok).
Qed.

Lemma print_cmd_Ok r line args :
  repl_ok r → scan_either 1 (fmt "p -b #") (fmt "print -b #") line = Ok args →
  runs r (print_cmd line) (in_use (rblocks r)).
Proof.
  intros [h H] Hscan. unfold print_cmd. rewrite Hscan.
  assert (runs r (r ← get; mm_print_heap_repl (rblocks r);; mret Continue) (in_use (rblocks r))) as Hheap.
  { destruct (do_rep _ _ _ _ (ri_driver _ _ H)) as (M & fl & Hok & _).
    unfold runs. rewrite ST_get. rewrite (ST_bind_Ok _ _ _ _ _ (mm_print_heap_repl_Ok (rblocks r) r M fl Hok)).
    eexists. split; [done|]. split; [|done]. exists h. apply repl_inv_said; [done|apply heap_lines_healthy]. }
  destruct args as [[|i vs]|]; [exact Hheap| |exact Hheap].
  change (runs r (ok ← index_ok i; if negb ok then mret Continue else
      (blk ← repl_block_at i; if negb (is_valid blk) then say (NotAllocated i);; mret Continue else
       (al ← on_mm (block_allocated (ptr blk - 8));
        if negb (al =? 0) then
          size ← on_mm (block_size (ptr blk - 8)); say (BlockIs i (ptr blk - 8) (to_int size));; mret Continue
        else mret Continue))) (in_use (rblocks r))).
  apply (runs_index r h); [done..|]. intros Hi. apply (runs_block r h); [done..|]. intros b Hb.
  destruct (is_valid b) eqn:Hv; cbn [negb]; [|by apply (runs_say r h)].
  destruct (in_use_tagged r h i b H ltac:(lia) Hb Hv) as [sz Ht].
  assert (runs r (say (BlockIs i (ptr b - 8) (to_int sz));; mret Continue) (in_use (rblocks r)))
    as (r' & Hrun & Hr') by (by apply (runs_say r h)).
  exists r'. split; [|done].
  run (on_mm_read _ _ r (block_allocated_tagged _ _ _ _ Ht)). cbn [Z.b2z Z.eqb negb].
  by run (on_mm_read _ _ r (block_size_tagged _ _ _ _ Ht)).
Qed.

(** The search for the index of a block finds the one in use. *)
Lemma find_valid a bs t k b :
  bs !! k = Some b → is_valid b = true → ptr b - 8 = a →
  (∀ j b', bs !! j = Some b' → is_valid b' = true → ptr b' - 8 = a → j = k) →
  find_repl_block_from_block a bs t = Some b.
Proof.
  revert t k. induction bs as [|b0 bs IH]; intros t k Hk Hv Ha Hu; [done|]. cbn [find_repl_block_from_block].
  destruct k as [|k].
  - injection Hk as ->. by rewrite (proj2 (Z.eqb_eq _ _) Ha), Hv.
  - assert (∀ t', find_repl_block_from_block a bs t' = Some b) as Hrest.
    { intros t'. apply (IH t' k); try done. intros j b' Hj Hv' Ha'.
      pose proof (Hu (S j) b' Hj Hv' Ha'). lia. }
    rewrite !Hrest. destruct (Z.eqb_spec (ptr b0 - 8) a) as [He|]; [|done].
    destruct (is_valid b0) eqn:Hv0; [|done]. specialize (Hu O b0 eq_refl Hv0 He). lia.
Qed.

(** Every allocated block is printed with the index that owns it. *)
Lemma repl_inv_find r h M fl a sz :
  repl_inv r h → heap_ok (rheap r) M fl → h = view (words (rheap r)) (owned (mem_start_brk (rheap r)) M) →
  owned (mem_start_brk (rheap r)) M !! a = Some sz →
  ∃ k b, rblocks r !! k = Some b ∧ is_valid b = true ∧ ptr b = payload a ∧
    find_repl_block_from_block a (rblocks r) None = Some b ∧ rindex b = Z.of_nat k.
Proof.
  intros H Hok -> Ha. destruct (ri_owned _ _ H (payload a)) as (b & Hb & Hv & Hp).
  { rewrite view_lookup, Ha. by eexists. }
  apply list_elem_of_lookup in Hb as [k Hk]. exists k, b. split_and!; try done; [|by apply (ri_index _ _ H)].
  apply find_valid with k; [done..|rewrite Hp; unfold payload, WORD_SIZE; lia|].
  intros j b' Hj Hv' Hp'. apply Nat2Z.inj.
  assert (∀ (n : nat) x, rblocks r !! n = Some x → is_valid x = true →
    is_Some (in_use (rblocks r) !! Z.of_nat n) ∧ blocks (to_driver r) !! Z.of_nat n = Some (ptr x)) as Hat.
  { intros n x Hn Hx. split; [|apply ptr_at; [lia|by rewrite Nat2Z.id]].
    exists (rsize x). apply in_use_Some. exists x. rewrite Nat2Z.id. split; [lia|done]. }
  destruct (Hat j b' Hj Hv') as [Hsj Hbj], (Hat k b Hk Hv) as [Hsk Hbk].
  eapply (do_inj _ _ _ _ (ri_driver _ _ H)); [done|done|done|].
  rewrite Hbk. f_equal. rewrite Hp. unfold payload, WORD_SIZE in *. lia.
Qed.

(** ** Lines and sessions *)

(** What is left of the state when the program ends. *)
Record ended (r : repl) (live : gmap Z Z) : Prop := {
  en_live : in_use (rblocks r) = live;
  en_ranges : rranges r = [];
  en_said : Forall (λ m, healthy m = true) (printed r);
  en_complaints : Forall (λ c, c.2 = MallocFailed) (rcomplaints r);
}.

Section Lines.
Context (arenas : Z → Z * gmap Z Z).

Lemma quit_cmd_Ok r line :
  repl_ok r → ∃ r', quit_cmd line r = Ok (Exits 0, r') ∧ ended r' (in_use (rblocks r)).
Proof. intros [h H]. eexists. split; [done|]. split; [done|done|apply H|apply H]. Qed.

Lemma repl_line_Ok r line c :
  repl_ok r → parse_line line = Some c →
  match c with
  | CQuit => ∃ r', repl_line true arenas line r = Ok (Exits 0, r') ∧ ended r' (in_use (rblocks r))
  | _ => ∃ granted, runs r (repl_line true arenas line) (effect granted (in_use (rblocks r)) c)
  end.
Proof.
  intros Hr Hparse. destruct Hr as [h H] eqn:Heq. clear Heq. unfold parse_line in Hparse.
  assert (∀ x m, healthy m = true → (x : command) = CShow → ∃ granted : bool,
    runs r (say m;; mret Continue) (effect granted (in_use (rblocks r)) x)) as Hsay.
  { intros x m Hm ->. exists true. by apply (runs_say r h). }
  unfold repl_line. destruct (span_word (skip_spaces line)).1 as [|ch w] eqn:Hw.
  { rewrite !bool_decide_eq_false_2 in Hparse by naive_solver. injection Hparse as <-. by apply Hsay. }
  set (cmd := ch :: w) in *. clearbody cmd. clear ch w Hw.
  case_bool_decide as Hm.
  { assert (find_handler cmd (cmd_table true arenas) = Some (malloc_cmd true)) as -> by (by destruct Hm as [-> | ->]).
    destruct (scan_either 2 (fmt "m # #") (fmt "malloc # #") line) as [[[|i [|n [|? ?]]]|]|] eqn:Hs; try done.
    3: { destruct ((0 <=? n) && (n <? 2 ^ 31 - 64)) eqn:Hn; [|done]. injection Hparse as <-.
         apply malloc_cmd_Ok; [by exists h|done|lia]. }
    all: injection Hparse as <-; unfold malloc_cmd; rewrite Hs; by apply Hsay. }
  case_bool_decide as Hf.
  { assert (find_handler cmd (cmd_table true arenas) = Some free_cmd) as -> by (by destruct Hf as [-> | ->]).
    destruct (scan_either 1 (fmt "f #") (fmt "free #") line) as [[[|i vs]|]|] eqn:Hs; try done.
    2: { injection Hparse as <-. exists true. apply free_cmd_Ok with vs; [by exists h|done]. }
    all: injection Hparse as <-; unfold free_cmd; rewrite Hs; by apply Hsay. }
  case_bool_decide as Hp.
  { assert (find_handler cmd (cmd_table true arenas) = Some print_cmd) as -> by (by destruct Hp as [-> | ->]).
    destruct (scan_either 1 (fmt "p -b #") (fmt "print -b #") line) as [args|] eqn:Hs; [|done].
    injection Hparse as <-. exists true. apply print_cmd_Ok with args; [by exists h|done]. }
  case_bool_decide as Hq.
  { assert (find_handler cmd (cmd_table true arenas) = Some quit_cmd) as -> by (by destruct Hq as [-> | ->]).
    injection Hparse as <-. apply quit_cmd_Ok. by exists h. }
  case_bool_decide as Hx; [done|]. injection Hparse as <-.
  unfold cmd_table. cbn [find_handler].
  repeat (case_bool_decide; [by apply Hsay || tauto|]). by apply Hsay.
Qed.

(** The state after a prompt. *)
Lemma prompted r : repl_ok r → repl_ok (said [Prompt] r).
Proof. intros [h H]. exists h. apply repl_inv_said; [done|by repeat constructor]. Qed.

Lemma repl_loop_Ok fuel : ∀ stdin r cs,
  repl_ok r → (length stdin ≤ fuel)%nat → parse_lines (lines_of fuel stdin) = Some cs →
  ∃ granted r', length granted = length cs ∧
    repl_loop true arenas fuel stdin r = Ok (ends cs, r') ∧
    match ends cs with
    | Exits _ => ended r' (run_commands granted (in_use (rblocks r)) cs)
    | Continue => repl_ok r' ∧ in_use (rblocks r') = run_commands granted (in_use (rblocks r)) cs
    end.
Proof.
  induction fuel as [|fuel IH]; intros stdin r cs Hr Hlen Hcs;
    (destruct stdin as [|ch stdin];
     [injection Hcs as <-; exists [], (said [Prompt; EndOfInput] r); split; [done|];
      split; [cbn [repl_loop]; rewrite (ST_bind_Ok _ _ _ _ _ (say_Ok _ _));
        rewrite (ST_bind_Ok _ _ _ _ _ (say_Ok _ _)); by rewrite said_app|];
      split; [|done]; destruct Hr as [h H]; exists h; apply repl_inv_said; [done|by repeat constructor]|]).
  { simpl in Hlen. lia. }
  pose proof (prompted r Hr) as Hp. set (r1 := said [Prompt] r) in *.
  cbn [repl_loop lines_of] in *. rewrite (ST_bind_Ok _ _ _ _ _ (say_Ok _ _)). fold r1.
  pose proof (fgets_chars_progress (Z.to_nat (MAXLINE - 1)) (ch :: stdin) ltac:(done) ltac:(done)) as Hprog.
  destruct (fgets_chars (Z.to_nat (MAXLINE - 1)) (ch :: stdin)) as [line rest]. cbn [snd] in Hprog.
  cbn [parse_lines] in Hcs. destruct (parse_line (cstr line)) as [c|] eqn:Hc; [|done].
  pose proof (repl_line_Ok r1 (cstr line) c Hp Hc) as Hline. change (rblocks r) with (rblocks r1).
  assert (c = CQuit ∨ c ≠ CQuit ∧ ∃ cs', cs = c :: cs' ∧ parse_lines (lines_of fuel rest) = Some cs') as Hcase.
  { destruct c; [right|right|right|by left]; (split; [done|]); apply fmap_Some in Hcs as (? & ? & ->); eauto. }
  destruct Hcase as [->|(Hq & cs' & -> & Hcs')].
  - injection Hcs as <-. destruct Hline as (r' & Hrun & Hend). exists [true], r'. split; [done|]. by run Hrun.
  - assert (∃ g, runs r1 (repl_line true arenas (cstr line)) (effect g (in_use (rblocks r1)) c))
      as (g & r2 & Hrun & Hr2 & Hlive) by (by destruct c).
    destruct (IH rest r2 cs' Hr2 ltac:(simpl in *; lia) Hcs') as (granted & r' & Hg & Hloop & Hend).
    exists (g :: granted), r'. split; [simpl; lia|].
    assert (ends (c :: cs') = ends cs') as -> by (by destruct c).
    cbn [run_commands]. rewrite <-Hlive. split; [|done]. by run Hrun.
Qed.

(** The blocks of a new session. *)
Definition unused : list repl_block := (λ i, ReplBlock false NULL 0 i) <$> seqZ 0 MAX_REPL_SIZE.

Lemma unused_in_use : in_use unused = ∅.
Proof.
  apply map_empty. intros i. apply eq_None_not_Some. intros [n (b & _ & Hb & Hv & _)%in_use_Some].
  unfold unused in Hb. apply list_lookup_fmap_Some in Hb as (j & -> & _). done.
Qed.

Lemma repl_ok_unused s n :
  mm_rep s ∅ → repl_ok (Repl s [] [] n 0 MAX_REPL_SIZE unused []).
Proof.
  intros Hs. exists ∅. split.
  - cbn [rblocks]. rewrite unused_in_use. by apply drv_ok_new.
  - intros p [c Hc]. by rewrite lookup_empty in Hc.
  - done.
  - cbn [rblocks]. unfold unused. rewrite length_fmap, length_seqZ. by rewrite Z2Nat.id.
  - cbn [rblocks]. intros k b (i & -> & Hi)%list_lookup_fmap_Some. apply lookup_seqZ in Hi. cbn. lia.
  - by constructor.
  - by constructor.
Qed.

(** The first [reset_cmd]. *)
Lemma reset_cmd_Ok s :
  0 < (arenas 0).1 → (arenas 0).1 mod 8 = 0 →
  ∃ s', reset_cmd arenas [] (Repl s [] [] 0 0 MAX_REPL_SIZE unused []) =
    Ok (Continue, Repl s' [] [] 1 0 MAX_REPL_SIZE unused []) ∧ mm_rep s' ∅.
Proof.
  intros Ha H8.
  destruct (mm_init_heap (arenas 0).1 (arenas 0).2 (set_brk (mem_start_brk s) s) Ha H8) as (s' & Hrun & Hok & _).
  exists s'. split; [|by exists [], []]. unfold reset_cmd.
  set (r1 := Repl (set_brk (mem_start_brk s) s) [] [] 0 0 MAX_REPL_SIZE unused []).
  assert (on_mm mem_reset_brk (Repl s [] [] 0 0 MAX_REPL_SIZE unused []) = Ok (tt, r1)) as Hr by done.
  run Hr. rewrite (ST_bind_Ok _ _ _ tt r1) by done. rewrite ST_get.
  assert (on_mm (mm_init (arenas 0).1 (arenas 0).2) r1 = Ok (0, Repl s' [] [] 0 0 MAX_REPL_SIZE unused [])) as Hi.
  { unfold on_mm, on_driver, on_heap. cbn [heap to_driver rheap r1]. by rewrite Hrun. }
  run Hi. done.
Qed.

(** The whole program. *)
Lemma repl_driver_Ok s arena stdin cs :
  arena.1 ≠ NULL → 0 < (arenas 0).1 → (arenas 0).1 mod 8 = 0 →
  parse_lines (lines_of (length stdin) stdin) = Some cs →
  ∃ granted r, length granted = length cs ∧
    repl_driver true arenas true arena stdin s = Ok (ends cs, r) ∧ ended r (run_commands granted ∅ cs).
Proof.
  intros Hn Ha H8 Hcs. unfold repl_driver, make_repl_state. fold unused.
  set (s0 := MM arena.2 arena.1 arena.1 (arena.1 + MAX_HEAP) (flist_first s) (prologue s) (epilogue s)).
  assert (on_mm (mem_init arena.1 arena.2) (Repl s [] [] 0 0 MAX_REPL_SIZE unused []) =
    Ok (tt, Repl s0 [] [] 0 0 MAX_REPL_SIZE unused [])) as Hinit.
  { unfold on_mm, on_driver, on_heap, mem_init. cbn [heap to_driver rheap].
    by rewrite (proj2 (Z.eqb_neq _ _) Hn). }
  run Hinit. destruct (reset_cmd_Ok s0 Ha H8) as (s' & Hreset & Hrep). run Hreset.
  rewrite (ST_bind_Ok _ _ _ _ _ (say_Ok _ _)).
  set (r0 := said [Welcome] _).
  assert (repl_ok r0) as Hr0.
  { destruct (repl_ok_unused s' 1 Hrep) as [h Hh]. exists h. apply repl_inv_said; [done|by repeat constructor]. }
  destruct (repl_loop_Ok (length stdin) stdin r0 cs Hr0 ltac:(done) Hcs) as (granted & r & Hg & Hloop & Hend).
  change (rblocks r0) with unused in Hend. rewrite unused_in_use in Hend. run Hloop.
  exists granted. destruct (ends cs) as [|status].
  - destruct Hend as [[h H] Hlive]. eexists. split; [done|]. split; [done|].
    split; [done|done|apply H|apply H].
  - by exists r.
Qed.
End Lines.
