(* ===== verification/MdriverReplClaims.v ===== *)
(** * The interactive mode of the driver: properties. *)

From Stdlib Require Import ZArith Lia Ascii String.
From stdpp Require Import base gmap numbers option list.
From S2P Require Import Prelude Stdio Memlib MmInline Mm MmHeap MmLayout MmProofs MmSpec MmRealloc MmRefine Mdriver MdriverBytes MdriverTables MdriverProofs MdriverTrace MdriverRepl MdriverReplPrint MdriverReplProofs.

Open Scope Z_scope.
Open Scope list_scope.

(** The text of a session: one command per line. *)
Definition typed (ls : list String.string) : bytes := ls ≫= (λ l, lit l ++ [newline]).

(** Every [mem_init] gets the same arena. *)
Definition one_arena (n : Z) : Z * gmap Z Z := (4096, ∅).

Definition no_heap : mm_state := MM ∅ 0 0 0 0 0 0.



(** C30: the [print] command shows the heap as it is.  In a state with the
    invariant that the session theorem maintains, it prints the size of the heap,
    the prologue, one line per block in address order with the size and, for a
    free block, its links, and the epilogue; every allocated block is shown with
    the index whose pointer is its payload. *)
Theorem print_shows_heap (r : repl) (h : aheap) (M : row) (fl : list Z) :
  repl_inv r h → heap_ok (rheap r) M fl →
  h = view (words (rheap r)) (owned (mem_start_brk (rheap r)) M) →
  print_cmd (lit "print") r = Ok (Continue, said (heap_lines (rblocks r) (rheap r) M) r) ∧
  ∀ a sz, owned (mem_start_brk (rheap r)) M !! a = Some sz →
    ∃ k b, rblocks r !! k = Some b ∧ is_valid b = true ∧ ptr b = payload a ∧
      block_line (rblocks r) (words (rheap r)) a (sz, true) =
        AllocatedBlock (Some (Z.of_nat k)) a (to_int sz).
Proof.
  intros H Hok Hh. split.
  - unfold print_cmd. change (scan_either 1 _ _ _) with (Ok (A := option (list Z)) None).
    change (scan (Ok None) ≫= _) with (r ← get; mm_print_heap_repl (rblocks r);; mret Continue).
    rewrite ST_get. by rewrite (ST_bind_Ok _ _ _ _ _ (mm_print_heap_repl_Ok (rblocks r) r M fl Hok)).
  - intros a sz Ha. destruct (repl_inv_find r h M fl a sz H Hok Hh Ha) as (k & b & Hk & Hv & Hp & Hf & Hi).
    exists k, b. split_and!; try done. unfold block_line. cbn [snd fst]. by rewrite Hf, <-Hi.
Qed.

(** A session that has allocated one block. *)
Definition one_block : repl :=
  match (reset_cmd one_arena [];; malloc_cmd true (lit "m 5 16"))
          (Repl no_heap [] [] 0 0 MAX_REPL_SIZE unused []) with
  | Ok (_, r) => r
  | Err _ => Repl no_heap [] [] 0 0 0 [] []
  end.

Lemma one_block_ok : repl_ok one_block.
Proof.
  destruct (reset_cmd_Ok one_arena no_heap) as (s & Hreset & Hrep); [done..|].
  pose proof (repl_ok_unused s 1 Hrep) as Hs.
  assert (scan_either 2 (fmt "m # #") (fmt "malloc # #") (lit "m 5 16") = Ok (Some [5; 16])) as Hscan
    by (vm_compute; reflexivity).
  destruct (malloc_cmd_Ok _ (lit "m 5 16") 5 16 Hs Hscan ltac:(lia)) as (g & r & Hrun & Hr & _).
  unfold one_block. run Hreset. by rewrite Hrun.
Qed.

Lemma print_shows_heap_witness :
  ∃ M, print_cmd (lit "print") one_block =
         Ok (Continue, said (heap_lines (rblocks one_block) (rheap one_block) M) one_block) ∧
    ∀ a sz, owned (mem_start_brk (rheap one_block)) M !! a = Some sz →
      ∃ k b, rblocks one_block !! k = Some b ∧ is_valid b = true ∧ ptr b = payload a ∧
        block_line (rblocks one_block) (words (rheap one_block)) a (sz, true) =
          AllocatedBlock (Some (Z.of_nat k)) a (to_int sz).
Proof.
  destruct one_block_ok as [h H].
  destruct (do_rep _ _ _ _ (ri_driver _ _ H)) as (M & fl & Hok & Hh). exists M.
  apply (print_shows_heap one_block h M fl); [exact H|exact Hok|exact Hh].
Defined.

Example one_block_printed :
  match print_cmd (lit "print") one_block with
  | Ok (_, r) => printed r = [HeapSize 64; PrologueAt 4096 16; AllocatedBlock (Some 5) 4112 32; EpilogueAt 4144 16]
  | Err _ => False
  end.
Proof. vm_compute. reflexivity. Qed.

(** How a session ends, and its complaints. *)
Definition outcome (ls : list String.string) : result (flow * list (Z * complaint)) :=
  match repl_driver true one_arena true (4096, ∅) (typed ls) no_heap with
  | Ok (f, r) => Ok (f, rcomplaints r)
  | Err e => Err e
  end.

(** [reset] touches neither the blocks nor their flags. *)
Lemma reset_keeps_blocks arenas msg r r' :
  reset_cmd arenas msg r = Ok (Continue, r') → rblocks r' = rblocks r ∧ rranges r' = [].
Proof.
  unfold reset_cmd.
  set (r1 := driven (Driver (set_brk (mem_start_brk (rheap r)) (rheap r)) [] ∅ ∅ (rcomplaints r)) r).
  rewrite (ST_bind_Ok _ _ _ tt (driven (Driver (set_brk (mem_start_brk (rheap r)) (rheap r)) (rranges r) ∅ ∅
    (rcomplaints r)) r)) by done.
  rewrite (ST_bind_Ok _ _ _ tt r1) by done. rewrite ST_get.
  destruct (mm_init (arenas (tracenum r1)).1 (arenas (tracenum r1)).2 (rheap r1)) as [[rc s]|e] eqn:Hi.
  - rewrite (ST_bind_Ok _ _ _ rc (driven (Driver s [] ∅ ∅ (rcomplaints r)) r)); cycle 1.
    { unfold on_mm, on_driver, on_heap. cbn [heap to_driver]. by rewrite Hi. }
    destruct (rc <? 0); [done|]. by intros [= <-].
  - rewrite (ST_bind_Err _ _ _ e); [done|]. unfold on_mm, on_driver, on_heap. cbn [heap to_driver]. by rewrite Hi.
Qed.

(** C38: where the interactive mode goes wrong.  [reset] empties the heap and the
    range list but leaves every index in use, with a pointer into the old heap;
    the second entry "r" of the command table, meant for [reset], is never
    reached; reallocating a block to size 0 frees it but keeps its index in use
    and its range recorded, so that the next block handed out is reported as
    overlapping; reallocating an index that is not in use leaves it unused, so
    that the block can be neither freed nor shown; and a negative size ends the
    program by the assertion in [add_range]. *)
Theorem repl_errors :
  (∀ arenas msg r r', reset_cmd arenas msg r = Ok (Continue, r') →
     rblocks r' = rblocks r ∧ rranges r' = []) ∧
  (∀ arenas, find_handler (lit "r") (cmd_table true arenas) = Some (remalloc_cmd true)) ∧
  outcome ["m 0 16"; "r 0 0"; "m 1 16"]%string = Ok (Continue, [(2, Overlaps)]) ∧
  (match repl_driver true one_arena true (4096, ∅) (typed ["r 3 16"; "p -b 3"; "f 3"]%string) no_heap with
   | Ok (_, r) => (printed r, rblocks r !! 3%nat) =
       ([Welcome; Prompt; Prompt; NotAllocated 3; Prompt; NotInUse; Prompt; EndOfInput],
        Some (ReplBlock false 4120 16 3))
   | Err _ => False
   end) ∧
  outcome ["m 0 -5"]%string = Err AssertFail.
Proof.
  split; [apply reset_keeps_blocks|]. split; [done|].
  split_and!; vm_compute; reflexivity.
Qed.

Lemma repl_errors_witness :
  ∃ r', reset_cmd one_arena [] one_block = Ok (Continue, r') ∧ rblocks r' = rblocks one_block ∧ rranges r' = [].
Proof.
  destruct (reset_cmd one_arena [] one_block) as [[[|] r']|] eqn:Hr; [|by vm_compute in Hr..].
  exists r'. split; [done|]. apply (proj1 repl_errors one_arena [] one_block r' Hr).
Defined.
