(* ===== verification/MdriverClaims.v ===== *)
(** * The trace driver: properties. *)

From Stdlib Require Import ZArith Lia.
From stdpp Require Import base gmap numbers option list.
From S2P Require Import Prelude Memlib MmInline Mm MmHeap MmLayout MmProofs MmSpec MmRealloc MmRefine Mdriver MdriverBytes MdriverTables MdriverProofs MdriverTrace.

Open Scope Z_scope.

(** The driver and the allocator fit together: on any trace that uses its indices
    properly, [eval_mm_valid] run on [mm.c] returns 1 without a complaint, or
    returns 0 with one complaint: a request was refused, or the data of a block
    whose index has a low byte above 127 looks changed after a reallocation.  It
    never finds a payload that is misaligned, outside the heap or overlapping
    another one, and only a reallocation can fault, in a copy between
    overlapping blocks. *)
Theorem mdriver_accepts_mm (arena : Z) (contents : gmap Z Z) (t : trace) (d : driver mm_state) :
  0 < arena → arena mod 8 = 0 → proper (num_ids t) ∅ (ops t) →
  (∃ d', valid_mm arena contents t d = Ok (1, d') ∧ complaints d' = complaints d) ∨
  (∃ d' k c, valid_mm arena contents t d = Ok (0, d') ∧ excuse (ops t) c ∧ complaints d' = complaints d ++ [(k, c)]) ∨
  reallocates (ops t) ∧ valid_mm arena contents t d = Err BadAccess.
Proof. apply mdriver_valid_Ok. Qed.

(** The trace [short1-bal.rep] of the repository. *)
Definition short1 : trace := Trace 6
  [TraceOp ALLOC 0 2040; TraceOp ALLOC 1 2040; TraceOp FREE 1 0; TraceOp ALLOC 2 48;
   TraceOp ALLOC 3 4072; TraceOp FREE 3 0; TraceOp ALLOC 4 4072; TraceOp FREE 0 0;
   TraceOp FREE 2 0; TraceOp ALLOC 5 4072; TraceOp FREE 4 0; TraceOp FREE 5 0].

Definition new_driver : driver mm_state := Driver (MM ∅ 0 0 0 0 0 0) [] ∅ ∅ [].

Lemma short1_proper : proper (num_ids short1) ∅ (ops short1).
Proof. cbn. split_and!; try lia; set_solver. Qed.

(** A block that grows into the place of its neighbour and shrinks again. *)
Definition regrown : trace := Trace 3
  [TraceOp ALLOC 0 16; TraceOp ALLOC 1 64; TraceOp ALLOC 2 16; TraceOp FREE 1 0;
   TraceOp REALLOC 0 80; TraceOp REALLOC 0 24; TraceOp FREE 2 0; TraceOp FREE 0 0].

Lemma regrown_proper : proper (num_ids regrown) ∅ (ops regrown).
Proof. cbn. split_and!; try lia; set_solver. Qed.

Lemma mdriver_accepts_mm_witness :
  (∃ d', valid_mm 4096 ∅ regrown new_driver = Ok (1, d') ∧ complaints d' = complaints new_driver) ∨
  (∃ d' k c, valid_mm 4096 ∅ regrown new_driver = Ok (0, d') ∧ excuse (ops regrown) c ∧
     complaints d' = complaints new_driver ++ [(k, c)]) ∨
  reallocates (ops regrown) ∧ valid_mm 4096 ∅ regrown new_driver = Err BadAccess.
Proof. apply (mdriver_accepts_mm 4096 ∅ regrown new_driver); [lia|reflexivity|apply regrown_proper]. Defined.

(** All three outcomes occur: the same calls with index 128 in place of 0 look like
    lost data, and a block at the end of the heap that is made larger is copied
    over itself. *)
Example regrown_outcomes :
  let verdict os :=
    match valid_mm 4096 ∅ (Trace 200 os) new_driver with
    | Ok (r, d) => inl (r, complaints d)
    | Err e => inr e
    end in
  verdict (ops regrown) = inl (1, []) ∧
  verdict [TraceOp ALLOC 128 16; TraceOp ALLOC 1 64; TraceOp FREE 1 0; TraceOp REALLOC 128 80] = inl (0, [(3, DataLost)]) ∧
  verdict [TraceOp ALLOC 0 16; TraceOp REALLOC 0 80] = inr BadAccess.
Proof. vm_compute. split_and!; reflexivity. Qed.

(** The utilisation [eval_mm_util] computes for such a trace is the largest
    number of bytes allocated at any time, when that fits an [int], over the size
    of the heap at the end, which is not smaller; it gives up only when a request
    is refused, or in such a copy. *)
Theorem mdriver_utilisation (arena : Z) (contents : gmap Z Z) (t : trace) (d : driver mm_state) :
  0 < arena → arena mod 8 = 0 → proper (num_ids t) ∅ (ops t) → peak ∅ 0 0 (ops t) < 2 ^ 31 →
  (∃ d', util_mm arena contents t d = Ok ((peak ∅ 0 0 (ops t), mem_heapsize (heap d')), d') ∧
     peak ∅ 0 0 (ops t) ≤ mem_heapsize (heap d')) ∨
  util_mm arena contents t d = Err (Exit 1) ∨
  reallocates (ops t) ∧ util_mm arena contents t d = Err BadAccess.
Proof.
  intros Ha H8 Hp Hpk. destruct (mdriver_util_Ok arena contents t d Ha H8 Hp Hpk) as [(d' & Hrun & _ & Hsz & _)|He]; eauto.
Qed.

Lemma mdriver_utilisation_witness :
  (∃ d', util_mm 4096 ∅ regrown new_driver = Ok ((96, mem_heapsize (heap d')), d') ∧
     96 ≤ mem_heapsize (heap d')) ∨
  util_mm 4096 ∅ regrown new_driver = Err (Exit 1) ∨
  reallocates (ops regrown) ∧ util_mm 4096 ∅ regrown new_driver = Err BadAccess.
Proof. apply (mdriver_utilisation 4096 ∅ regrown new_driver); [lia|reflexivity|apply regrown_proper|reflexivity]. Defined.

(** The ends of the new payload are outside a recorded one that it contains. *)
Lemma add_range_contains {St : Type} (heap_lo heap_hi : St → Z) (lo n i a b : Z) (d : driver St) :
  ranges d = [(a, b)] → lo mod 8 = 0 → heap_lo (heap d) ≤ lo → lo + n - 1 ≤ heap_hi (heap d) →
  lo < a → b < lo + n - 1 → a ≤ b →
  add_range heap_lo heap_hi true lo n i d =
    Ok (1, Driver (heap d) [(lo, lo + n - 1); (a, b)] (blocks d) (block_sizes d) (complaints d)).
Proof.
  intros Hr H8 Hlo Hhi Ha Hb Hab. unfold add_range. rewrite (proj2 (Z.eqb_neq n 0)) by lia.
  assert (assertb (n >? 0) d = Ok (tt, d)) as Hn by (apply assertb_true; lia). run Hn. rewrite ST_get.
  unfold ALIGNMENT. rewrite H8. cbn [Z.eqb negb].
  assert ((lo <? heap_lo (heap d)) || (lo >? heap_hi (heap d)) || (lo + n - 1 <? heap_lo (heap d))
    || (lo + n - 1 >? heap_hi (heap d)) = false) as -> by lia.
  rewrite Hr. unfold touches. cbn [existsb fst snd].
  assert (((lo >=? a) && (lo <=? b)) || ((lo + n - 1 >=? a) && (lo + n - 1 <=? b)) || false = false)
    as -> by lia. done.
Qed.

(** A signed [char] is not above 127. *)
Lemma check_bytes_high {St : Type} (run : op → ST St Z) (n : nat) (p idx j w : Z) (d d' : driver St) :
  128 ≤ Z.land idx 255 → call_mm run (Load p (j / 8)) d = Ok (w, d') →
  check_bytes run (S n) p (Z.land idx 255) j d = Ok (false, d').
Proof.
  intros Hv Hload. cbn [check_bytes]. run Hload.
  assert (0 ≤ get_byte w (j mod 8) < 256) as Hb.
  { unfold get_byte. change 255 with (Z.ones 8). rewrite Z.land_ones by lia.
    change (2 ^ 8) with 256. apply Z.mod_pos_bound. lia. }
  rewrite (proj2 (Z.eqb_neq _ _)); [done|]. unfold char_value. case_match; lia.
Qed.

(** Two checks of the driver are wrong.  The overlap test of [add_range]
    looks only at the two ends of the new payload: one that contains a recorded
    payload in its middle is accepted.  And the check that [mm_realloc] kept the
    data compares a [char], which is signed, with a value up to 255: for an
    index whose low byte is 128 or more it fails whatever the block holds. *)
Theorem mdriver_check_errors {St : Type} (heap_lo heap_hi : St → Z) (run : op → ST St Z) (d : driver St) :
  (∀ lo n i a b,
     ranges d = [(a, b)] → lo mod 8 = 0 → heap_lo (heap d) ≤ lo → lo + n - 1 ≤ heap_hi (heap d) →
     lo < a → b < lo + n - 1 → a ≤ b →
     add_range heap_lo heap_hi true lo n i d =
       Ok (1, Driver (heap d) [(lo, lo + n - 1); (a, b)] (blocks d) (block_sizes d) (complaints d))) ∧
  (∀ n p idx j w d',
     128 ≤ Z.land idx 255 → call_mm run (Load p (j / 8)) d = Ok (w, d') →
     check_bytes run (S n) p (Z.land idx 255) j d = Ok (false, d')).
Proof. split; intros; [by apply add_range_contains|by eapply check_bytes_high]. Qed.

Lemma mdriver_check_errors_witness :
  add_range (λ _ : Z, 0) (λ _, 1000) true 96 64 0 (Driver 0 [(112, 119)] ∅ ∅ []) =
    Ok (1, Driver 0 [(96, 159); (112, 119)] ∅ ∅ []) ∧
  check_bytes (λ _ s, Ok (s, s)) 3 0 (Z.land 200 255) 0 (Driver 0 [(112, 119)] ∅ ∅ []) =
    Ok (false, Driver 0 [(112, 119)] ∅ ∅ []).
Proof.
  destruct (mdriver_check_errors (λ _ : Z, 0) (λ _, 1000) (λ _ s, Ok (s, s)) (Driver 0 [(112, 119)] ∅ ∅ [])) as [H1 H2].
  split; [apply H1; done || (simpl; lia)|eapply H2; [by vm_compute|reflexivity]].
Defined.

(** ** Trace files *)

(** A trace written as a file in the format of the traces directory is read
    back with the same requests (the sizes of requests to free, which the file
    does not hold, are whatever the array held), so that a proper trace stays
    proper and the theorems above apply to what is read. *)
Theorem read_trace_roundtrip (garbage : Z → Z) (malloc_ok : Z → bool) (sugg weight : Z) (t : trace) :
  readable malloc_ok t → small sugg → small weight →
  ∃ t', read_trace garbage malloc_ok (Some (show_trace sugg weight t)) = Ok t' ∧
    num_ids t' = num_ids t ∧ ops t' = stored garbage 0 (ops t) ∧
    (proper (num_ids t) ∅ (ops t) → proper (num_ids t') ∅ (ops t')).
Proof.
  intros Ht Hs Hw. eexists. split; [by apply read_trace_show|]. split_and!; [done|done|]. apply proper_stored.
Qed.

Lemma short1_readable : readable (λ _, true) short1.
Proof. split_and!; try done; try (split; vm_compute; congruence). repeat constructor; vm_compute; congruence. Qed.

Lemma read_trace_roundtrip_witness :
  ∃ t', read_trace (λ _, 7) (λ _, true) (Some (show_trace 20000 1 short1)) = Ok t' ∧
    num_ids t' = num_ids short1 ∧ ops t' = stored (λ _, 7) 0 (ops short1) ∧
    (proper (num_ids short1) ∅ (ops short1) → proper (num_ids t') ∅ (ops t')).
Proof.
  apply (read_trace_roundtrip (λ _, 7) (λ _, true) 20000 1 short1);
    [apply short1_readable|split; vm_compute; congruence|split; vm_compute; congruence].
Defined.
