(* ===== verification/MmTests.v ===== *)
(** * The tests of the inline functions: [6-malloc-haininz/mminline-tests.c].

    Each test as a computation on the word memory, and the program that runs
    the tests named on its command line.  A test that allocates its blocks with
    [malloc] takes their addresses as an input ([addr k] is the [k]-th), and one
    that calls [mem_init] the arena; [free], [mem_deinit] and [sleep] do not
    change what a test sees. *)

From Stdlib Require Import ZArith Lia Ascii String.
From stdpp Require Import base gmap numbers option list.
From S2P Require Import Prelude Stdio Memlib MmInline MdriverTrace MdriverRepl.

Open Scope Z_scope.
Open Scope list_scope.

(** [assert(e)] for an [int] and [assert(!e)]. *)
Definition assert_true (v : Z) : ST mm_state unit := assertb (negb (v =? 0)).
Definition assert_false (v : Z) : ST mm_state unit := assertb (v =? 0).

(** [assert(a == b)] *)
Definition assert_eq (a b : Z) : ST mm_state unit := assertb (a =? b).

(** [b->payload[i]] *)
Definition get_payload (b i : Z) : ST mm_state Z := load (payload b + WORD_SIZE * i).

Section Tests.
Context (addr : nat → Z).

(** [prologue = malloc(16); epilogue = malloc(16);] *)
Definition malloc_ends : ST mm_state unit :=
  modify (set_prologue (addr 0));; modify (set_epilogue (addr 1)).

(** [set_size_test] *)
Definition set_size_test : ST mm_state unit :=
  malloc_ends;;
  let block1 := addr 2 in
  let block2 := addr 3 in
  block_set_size block1 32;;
  block_set_size block2 64;;
  v ← get_size block1; assert_eq v 32;;
  v ← get_size block2; assert_eq v 64;;
  v ← block_size block1; assert_eq v 32;;
  v ← block_size block2; assert_eq v 64.

(** [set_allocated_test] *)
Definition set_allocated_test : ST mm_state unit :=
  malloc_ends;;
  let block1 := addr 2 in
  let block2 := addr 3 in
  block_set_size block1 32;;
  block_set_size block2 64;;
  block_set_allocated block1 1;;
  block_set_allocated block2 0;;
  v ← block_allocated block1; assert_true v;;
  v ← block_allocated block2; assert_false v.

(** [set_size_and_allocated_test] *)
Definition set_size_and_allocated_test : ST mm_state unit :=
  malloc_ends;;
  let block1 := addr 2 in
  let block2 := addr 3 in
  block_set_size_and_allocated block1 32 1;;
  block_set_size_and_allocated block2 64 0;;
  v ← block_size block1; assert_eq v 32;;
  v ← block_size block2; assert_eq v 64;;
  v ← block_allocated block1; assert_true v;;
  v ← block_allocated block2; assert_false v.

(** [end_tag_test] *)
Definition end_tag_test : ST mm_state unit :=
  malloc_ends;;
  let block1 := addr 2 in
  let block2 := addr 3 in
  block_set_size_and_allocated block1 32 1;;
  block_set_size_and_allocated block2 64 0;;
  v ← block_size block1; e ← block_end_size block1; assert_eq v e;;
  v ← block_size block2; e ← block_end_size block2; assert_eq v e.

(** [payload_to_block_test] *)
Definition payload_to_block_test : ST mm_state unit :=
  malloc_ends;;
  let block1 := addr 2 in
  let block2 := addr 3 in
  block_set_size_and_allocated block1 32 0;;
  block_set_size_and_allocated block2 96 1;;
  assert_eq (payload_to_block (payload block1)) block1;;
  assert_eq (payload_to_block (payload block2)) block2.

(** [set_flink_test] *)
Definition set_flink_test : ST mm_state unit :=
  malloc_ends;;
  let cur_block := addr 2 in
  let new_flink := addr 3 in
  block_set_size_and_allocated cur_block 32 0;;
  block_set_size_and_allocated new_flink 64 0;;
  block_set_flink cur_block new_flink;;
  v ← block_flink cur_block; assert_eq v new_flink;;
  v ← block_size cur_block; assert_eq v 32;;
  v ← block_size new_flink; assert_eq v 64;;
  v ← block_allocated cur_block; assert_false v;;
  v ← block_allocated new_flink; assert_false v.

(** [set_blink_test] *)
Definition set_blink_test : ST mm_state unit :=
  malloc_ends;;
  let cur_block := addr 2 in
  let new_blink := addr 3 in
  block_set_size_and_allocated cur_block 32 0;;
  block_set_size_and_allocated new_blink 64 0;;
  block_set_blink cur_block new_blink;;
  v ← block_blink cur_block; assert_eq v new_blink;;
  v ← block_size cur_block; assert_eq v 32;;
  v ← block_size new_blink; assert_eq v 64;;
  v ← block_allocated cur_block; assert_false v;;
  v ← block_allocated new_blink; assert_false v.

(** [assert(b->payload[i] == (long)((char * )c))] *)
Definition assert_link (b i c : Z) : ST mm_state unit := v ← get_payload b i; assert_eq v c.

(** [assert(flist_first != NULL); assert(flist_first == b);] *)
Definition assert_first (b : Z) : ST mm_state unit :=
  first ← get_first; assertb (negb (first =? NULL));;
  first ← get_first; assert_eq first b.

(** [assert(flist_first == NULL)] *)
Definition assert_empty : ST mm_state unit := first ← get_first; assert_eq first NULL.

(** The first half of [pull_free_block_test]. *)
Definition pull_three (block_one block_two block_three : Z) : ST mm_state unit :=
  block_set_size_and_allocated block_one 32 0;;
  block_set_size_and_allocated block_two 64 0;;
  block_set_size_and_allocated block_three 48 0;;
  insert_free_block block_three;;
  insert_free_block block_two;;
  insert_free_block block_one;;
  pull_free_block block_two;;
  assert_link block_one 0 block_three;;
  assert_link block_one 1 block_three;;
  assert_link block_three 0 block_one;;
  assert_link block_three 1 block_one;;
  assert_first block_one;;
  pull_free_block block_three;;
  assert_link block_one 0 block_one;;
  assert_link block_one 1 block_one;;
  assert_first block_one;;
  pull_free_block block_one;;
  assert_empty.

(** The second half. *)
Definition pull_four (block_four block_five block_six block_seven : Z) : ST mm_state unit :=
  block_set_size_and_allocated block_four 32 0;;
  block_set_size_and_allocated block_five 64 0;;
  block_set_size_and_allocated block_six 48 0;;
  block_set_size_and_allocated block_seven 96 0;;
  insert_free_block block_seven;;
  insert_free_block block_six;;
  insert_free_block block_five;;
  insert_free_block block_four;;
  pull_free_block block_four;;
  assert_link block_five 0 block_six;;
  assert_link block_five 1 block_seven;;
  assert_link block_seven 0 block_five;;
  assert_link block_seven 1 block_six;;
  assert_first block_five;;
  pull_free_block block_five;;
  assert_link block_six 1 block_seven;;
  assert_link block_six 0 block_seven;;
  assert_link block_seven 1 block_six;;
  assert_link block_seven 0 block_six;;
  assert_first block_six;;
  pull_free_block block_six;;
  assert_link block_seven 1 block_seven;;
  assert_link block_seven 0 block_seven;;
  assert_first block_seven;;
  pull_free_block block_seven;;
  assert_empty.

(** [pull_free_block_test] *)
Definition pull_free_block_test : ST mm_state unit :=
  malloc_ends;;
  modify (set_first NULL);;
  pull_three (addr 2) (addr 3) (addr 4);;
  pull_four (addr 5) (addr 6) (addr 7) (addr 8).
End Tests.

Section SbrkTests.
Context (arena : Z) (contents : gmap Z Z).

(** [prev_test] *)
Definition prev_test : ST mm_state unit :=
  mem_init arena contents;;
  block1 ← mem_sbrk 96;
  block2 ← mem_sbrk 96;
  block3 ← mem_sbrk 128;
  block_set_size_and_allocated block1 96 1;;
  block_set_size_and_allocated block2 96 0;;
  block_set_size_and_allocated block3 128 0;;
  v ← block_prev block2; assert_eq v block1;;
  v ← block_prev block3; assert_eq v block2;;
  b ← block_prev block3;
  v ← block_size b; assert_eq v 96.

(** [next_test] *)
Definition next_test : ST mm_state unit :=
  mem_init arena contents;;
  block1 ← mem_sbrk 64;
  block2 ← mem_sbrk 64;
  block3 ← mem_sbrk 64;
  block_set_size_and_allocated block1 64 1;;
  block_set_size_and_allocated block2 64 0;;
  block_set_size_and_allocated block3 64 0;;
  v ← block_next block1; assert_eq v block2;;
  v ← block_next block2; assert_eq v block3;;
  b ← block_next block2;
  v ← block_size b; assert_eq v 64.

(** [next_size_allocated_test] *)
Definition next_size_allocated_test : ST mm_state unit :=
  mem_init arena contents;;
  block1 ← mem_sbrk 64;
  block2 ← mem_sbrk 64;
  block3 ← mem_sbrk 96;
  block_set_size_and_allocated block1 64 1;;
  block_set_size_and_allocated block2 64 0;;
  block_set_size_and_allocated block3 96 1;;
  v ← block_next_allocated block1; assert_eq v 0;;
  v ← block_next_allocated block2; assert_eq v 1;;
  v ← block_next_size block1; assert_eq v 64;;
  v ← block_next_size block2; assert_eq v 96.

(** [prev_size_allocated_test] *)
Definition prev_size_allocated_test : ST mm_state unit :=
  mem_init arena contents;;
  block1 ← mem_sbrk 64;
  block2 ← mem_sbrk 96;
  block3 ← mem_sbrk 128;
  block_set_size_and_allocated block1 64 1;;
  block_set_size_and_allocated block2 96 0;;
  block_set_size_and_allocated block3 128 1;;
  v ← block_prev_allocated block3; assert_eq v 0;;
  v ← block_prev_allocated block2; assert_eq v 1;;
  v ← block_prev_size block3; assert_eq v 96;;
  v ← block_prev_size block2; assert_eq v 64.
End SbrkTests.

(** ** The program *)

Inductive test :=
  | set_blink | set_flink | pull_free_block_ | block_size_ | block_allocated_
  | block_size_and_allocated | end_tag | block_prev_ | block_next_ | payload_to_block_
  | next_size_and_allocated | prev_size_and_allocated.

(** What a test finds: the static data and storage, the addresses [malloc]
    returns, and the arena [mem_init] gets. *)
Record setting := Setting {
  storage : mm_state;
  addresses : nat → Z;
  arena_at : Z;
  arena_holds : gmap Z Z;
}.

Definition body (e : setting) (t : test) : ST mm_state unit :=
  match t with
  | set_blink => set_blink_test (addresses e)
  | set_flink => set_flink_test (addresses e)
  | pull_free_block_ => pull_free_block_test (addresses e)
  | block_size_ => set_size_test (addresses e)
  | block_allocated_ => set_allocated_test (addresses e)
  | block_size_and_allocated => set_size_and_allocated_test (addresses e)
  | end_tag => end_tag_test (addresses e)
  | block_prev_ => prev_test (arena_at e) (arena_holds e)
  | block_next_ => next_test (arena_at e) (arena_holds e)
  | payload_to_block_ => payload_to_block_test (addresses e)
  | next_size_and_allocated => next_size_allocated_test (arena_at e) (arena_holds e)
  | prev_size_and_allocated => prev_size_allocated_test (arena_at e) (arena_holds e)
  end.

(** [run_test_in_separate_process]: the test is run in this process. *)
Definition run_test_in_separate_process (e : setting) (t : test) : result unit :=
  match body e t (storage e) with
  | Ok _ => Ok tt
  | Err f => Err f
  end.

(** The tests that ["all"] runs, in order. *)
Definition all_tests : list test :=
  [block_size_; block_allocated_; block_size_and_allocated; end_tag; block_prev_; block_next_;
   payload_to_block_; next_size_and_allocated; prev_size_and_allocated; set_blink; set_flink;
   pull_free_block_].

(** The chain of [strcmp]s: the test of that name. *)
Definition test_named (name : bytes) : option test :=
  if bool_decide (name = lit "set_blink") then Some set_blink
  else if bool_decide (name = lit "set_flink") then Some set_flink
  else if bool_decide (name = lit "pull_free_block") then Some pull_free_block_
  else if bool_decide (name = lit "block_size") then Some block_size_
  else if bool_decide (name = lit "block_allocated") then Some block_allocated_
  else if bool_decide (name = lit "block_size_and_allocated") then Some block_size_and_allocated
  else if bool_decide (name = lit "end_tag") then Some end_tag
  else if bool_decide (name = lit "block_prev") then Some block_prev_
  else if bool_decide (name = lit "block_next") then Some block_next_
  else if bool_decide (name = lit "payload_to_block") then Some payload_to_block_
  else if bool_decide (name = lit "next_size_and_allocated") then Some next_size_and_allocated
  else if bool_decide (name = lit "prev_size_and_allocated") then Some prev_size_and_allocated
  else None.

(** What the program prints. *)
Inductive test_line := Testing | TestUsage | Running (t : test) | Unknown (name : bytes) | PassedAll.

(** The tests of a list, the [i]-th in the setting [env i]; an assertion that
    fails ends the program. *)
Fixpoint run_tests (env : nat → setting) (i : nat) (ts : list (test + bytes)) : result (list test_line) :=
  match ts with
  | [] => Ok []
  | inr name :: ts' =>
      match run_tests env i ts' with
      | Ok out => Ok (match scan_number name with (Some _, _) => out | _ => Unknown name :: out end)
      | Err f => Err f
      end
  | inl t :: ts' =>
      match run_test_in_separate_process (env i) t with
      | Ok _ => match run_tests env (S i) ts' with Ok out => Ok (Running t :: out) | Err f => Err f end
      | Err f => Err f
      end
  end.

(** [foreach_test] on the arguments after the program's name. *)
Definition foreach_test (env : nat → setting) (names : list bytes) : result (list test_line) :=
  match names with
  | [] => Err BadAccess
  | first :: _ =>
      if bool_decide (first = lit "all") then run_tests env 0 (inl <$> all_tests)
      else run_tests env 0
             ((λ name, match test_named name with Some t => inl t | None => inr name end) <$> names)
  end.

(** [main]: the status and the output. *)
Definition tests_main (env : nat → setting) (argv : list bytes) : result (Z * list test_line) :=
  if Z.of_nat (length argv) <? 2 then Ok (1, [Testing; TestUsage])
  else
    match foreach_test env (tail argv) with
    | Ok out => Ok (0, Testing :: out ++ [PassedAll])
    | Err f => Err f
    end.
