(* ===== verification/MmTestsProofs.v ===== *)
(** * The tests of the inline functions pass.

    Wherever [malloc] places the blocks of a test, as long as it keeps them
    apart, every assertion holds.  The reading lemmas are those of the heap of
    [mm.c], for a set of blocks that need not be adjacent. *)

From Stdlib Require Import ZArith Lia Ascii String.
From stdpp Require Import base gmap numbers option list.
From S2P Require Import Prelude Stdio Memlib MmInline MmHeap MmLayout MdriverTrace MdriverRepl MmTests.

Open Scope Z_scope.
Open Scope list_scope.

Import Ring.

Abbreviation blocks := MmHeap.blocks.

Lemma assert_eq_bind {A} a (k : unit → ST mm_state A) s : (assert_eq a a ≫= k) s = k tt s.
Proof. unfold assert_eq. by rewrite Z.eqb_refl. Qed.

Lemma assert_true_bind {A} (k : unit → ST mm_state A) s : (assert_true 1 ≫= k) s = k tt s.
Proof. done. Qed.

Lemma assert_false_bind {A} (k : unit → ST mm_state A) s : (assert_false 0 ≫= k) s = k tt s.
Proof. done. Qed.

#[export] Hint Rewrite @assert_eq_bind @assert_true_bind @assert_false_bind : st.

(** Executes the next step of a test, known from [H], and the assertions that
    follow it. *)
Tactic Notation "checks" uconstr(H) := run H; cbn [Z.b2z]; autorewrite with st.

Lemma assert_eq_Ok a b s : a = b → assert_eq a b s = Ok (tt, s).
Proof. intros ->. unfold assert_eq. by rewrite Z.eqb_refl. Qed.

(** ** A set of blocks, some of them initialised *)
Section Placed.
Context (lo hi : Z) (B : blocks) (Hsep : sep lo hi B).

(** The blocks at the addresses [T]. *)
Definition some_of (T : list Z) : blocks := filter (λ x, x.1 ∈ T) B.

Lemma some_of_Some T a x : some_of T !! a = Some x ↔ B !! a = Some x ∧ a ∈ T.
Proof. unfold some_of. rewrite map_lookup_filter_Some. done. Qed.

Lemma sep_subset B' : (∀ a x, B' !! a = Some x → B !! a = Some x) → sep lo hi B'.
Proof.
  intros Hsub. split; [apply Hsep| |].
  - intros a sz al Ha. by eapply (sep_block _ _ _ Hsep), Hsub.
  - intros a sz al b szb alb Ha Hb. eapply (sep_disj _ _ _ Hsep); by apply Hsub.
Qed.

(** The blocks of [T] have their tags, and [fl] is the free list. *)
Record hp (s : mm_state) (T fl : list Z) : Prop := {
  hp_heap : linked_heap s (some_of T) fl;
  hp_lo : mem_start_brk s = lo;
  hp_hi : mem_max_addr s = hi;
}.

Lemma hp_start s : mem_start_brk s = lo → mem_max_addr s = hi → flist_first s = NULL → hp s [] [].
Proof.
  intros Hlo Hhi Hf. split; [|done..].
  assert (∀ a x, some_of [] !! a = Some x → False) as Hnone.
  { intros a x [_ Ha]%some_of_Some. by apply elem_of_nil in Ha. }
  split.
  - rewrite Hlo, Hhi. apply sep_subset. intros a x Ha. by destruct (Hnone a x Ha).
  - intros a sz al Ha. by destruct (Hnone _ _ Ha).
  - intros a Ha. by apply elem_of_nil in Ha.
  - apply NoDup_nil_2.
  - intros x y Hxy. by apply elem_of_nil in Hxy.
  - done.
Qed.

Lemma hp_same_frame s s' T fl : same_frame s s' → hp s T fl → linked_heap s' (some_of T) fl → hp s' T fl.
Proof. intros (H1 & _ & H2 & _) [_ Hlo Hhi] H. split; [done|congruence..]. Qed.

(** Writing the tags of a block. *)
Lemma hp_retag s T fl a sz al :
  hp s T fl → B !! a = Some (sz, al) → hp (set_words (with_tags a sz (words s) al) s) (a :: T) fl.
Proof.
  intros [H Hlo Hhi] Ha. split; [|done..].
  apply (linked_heap_retag s (some_of T) (some_of (a :: T)) fl a sz al H).
  - rewrite Hlo, Hhi. apply sep_subset. by intros b x [? _]%some_of_Some.
  - apply some_of_Some. split; [done|set_solver].
  - intros b x Hne [Hb HT]%some_of_Some. apply some_of_Some. split; [done|set_solver].
  - intros z Hz. destruct (lh_free _ _ _ H z Hz) as [szz [Hzz HT]%some_of_Some]. exists szz.
    apply some_of_Some. split; [done|set_solver].
Qed.

Lemma hp_words_ok s T fl a sz al :
  hp s T fl → B !! a = Some (sz, al) → word_ok s a = true ∧ word_ok s (a + sz - 8) = true.
Proof.
  intros [H Hlo Hhi] Ha. destruct (sep_block _ _ _ Hsep _ _ _ Ha) as (? & ? & ? & ? & ? & _).
  split; apply word_ok_spec; split_and!; try lia. Z.to_euclidean_division_equations; lia.
Qed.

Lemma hp_set s T fl a sz al :
  hp s T fl → B !! a = Some (sz, al) →
  ∃ s', block_set_size_and_allocated a sz (Z.b2z al) s = Ok (tt, s') ∧ hp s' (a :: T) fl.
Proof.
  intros H Ha. destruct (hp_words_ok _ _ _ _ _ _ H Ha) as [H1 H2].
  destruct (sep_block _ _ _ Hsep _ _ _ Ha) as (_ & ? & ? & _).
  eexists. split; [by apply block_set_size_and_allocated_Ok|]. by apply hp_retag.
Qed.

Lemma hp_insert s T fl a sz :
  hp s T fl → a ∈ T → B !! a = Some (sz, false) → a ∉ fl →
  ∃ s', insert_free_block a s = Ok (tt, s') ∧ hp s' T (a :: fl).
Proof.
  intros H HT Ha Hfl. destruct (linked_heap_insert s (some_of T) fl a sz (hp_heap _ _ _ H))
    as (s' & Hrun & Hh & _ & Hf); [by apply some_of_Some|done|].
  exists s'. split; [done|]. destruct H as [_ Hlo Hhi], Hf as (H1 & _ & H2 & _). split; [done|congruence..].
Qed.

Lemma hp_pull s T l1 a l2 :
  hp s T (l1 ++ a :: l2) → ∃ s', pull_free_block a s = Ok (tt, s') ∧ hp s' T (l1 ++ l2).
Proof.
  intros [H Hlo Hhi]. destruct (linked_heap_pull s (some_of T) l1 a l2 H) as (s' & Hrun & Hh & _ & Hf).
  exists s'. split; [done|]. destruct Hf as (H1 & _ & H2 & _). split; [done|congruence..].
Qed.

(** Reading a block. *)
Section Read.
Context (s : mm_state) (T fl : list Z) (H : hp s T fl).
Context (a sz : Z) (al : bool) (HT : a ∈ T) (Ha : B !! a = Some (sz, al)).

Lemma hp_tagged : tagged s a sz al.
Proof. eapply heap_tagged; [apply H|]. by apply some_of_Some. Qed.

Lemma hp_size : block_size a s = Ok (sz, s).
Proof. exact (block_size_tagged _ _ _ _ hp_tagged). Qed.

Lemma hp_allocated : block_allocated a s = Ok (Z.b2z al, s).
Proof. exact (block_allocated_tagged _ _ _ _ hp_tagged). Qed.

Lemma hp_next : block_next a s = Ok (a + sz, s).
Proof. exact (block_next_tagged _ _ _ _ hp_tagged). Qed.

Lemma hp_end : load (a + sz - 8) s = Ok (tag sz al, s).
Proof.
  destruct (hp_words_ok _ _ _ _ _ _ H Ha) as [_ He]. rewrite load_Ok by done.
  by destruct (lh_tags _ _ _ (hp_heap _ _ _ H) a sz al (proj2 (some_of_Some T a _) (conj Ha HT))) as [_ ->].
Qed.

Lemma hp_end_size : block_end_size a s = Ok (sz, s).
Proof.
  destruct (sep_block _ _ _ Hsep _ _ _ Ha) as (_ & H8 & H16 & _). unfold block_end_size.
  run (block_end_tag_tagged _ _ _ _ hp_tagged H16). run hp_end. by rewrite tag_land_m2.
Qed.

(** The block before the one at [a + sz]. *)
Lemma hp_prev_size : block_prev_size (a + sz) s = Ok (sz, s).
Proof.
  destruct (sep_block _ _ _ Hsep _ _ _ Ha) as (_ & H8 & _). unfold block_prev_size, WORD_SIZE.
  run hp_end. by rewrite tag_land_m2.
Qed.

Lemma hp_prev_allocated : block_prev_allocated (a + sz) s = Ok (Z.b2z al, s).
Proof.
  destruct (sep_block _ _ _ Hsep _ _ _ Ha) as (_ & H8 & _). unfold block_prev_allocated, WORD_SIZE.
  run hp_end. by rewrite tag_land_1.
Qed.

Lemma hp_prev : block_prev (a + sz) s = Ok (a, s).
Proof. unfold block_prev. run hp_prev_size. by replace (a + sz - sz) with a by lia. Qed.
End Read.

(** Writing a link of a free block that is in no list. *)
Lemma hp_write_link s T a sz off v :
  hp s T [] → a ∈ T → B !! a = Some (sz, false) → off = 8 ∨ off = 16 →
  hp (set_words (<[a + off := v]> (words s)) s) T [].
Proof.
  intros [H Hlo Hhi] HT Ha Hoff. split; [|done..].
  assert (all_free (some_of T) [a]) as Hfree.
  { intros z ->%list_elem_of_singleton. exists sz. by apply some_of_Some. }
  eapply (linked_heap_links s _ _ [a] [] []); [done|done| |done|..].
  - intros y Hy. cbn. apply word_insert_ne. intros <-. apply Hy. exists a. split; [set_solver|lia].
  - intros z Hz. by apply elem_of_nil in Hz.
  - apply NoDup_nil_2.
  - intros x y Hxy. by apply elem_of_nil in Hxy.
  - cbn. apply H.
Qed.

(** What the tests read of a block. *)
Record reads (s : mm_state) (a sz : Z) (al : bool) : Prop := {
  rd_size : block_size a s = Ok (sz, s);
  rd_allocated : block_allocated a s = Ok (Z.b2z al, s);
  rd_end_size : block_end_size a s = Ok (sz, s);
  rd_next : block_next a s = Ok (a + sz, s);
  rd_prev_size : block_prev_size (a + sz) s = Ok (sz, s);
  rd_prev_allocated : block_prev_allocated (a + sz) s = Ok (Z.b2z al, s);
  rd_prev : block_prev (a + sz) s = Ok (a, s);
}.

Lemma hp_reads s T fl a sz al : hp s T fl → a ∈ T → B !! a = Some (sz, al) → reads s a sz al.
Proof.
  intros H HT Ha. split; [eapply hp_size|eapply hp_allocated|eapply hp_end_size|eapply hp_next|
    eapply hp_prev_size|eapply hp_prev_allocated|eapply hp_prev]; done.
Qed.

(** The assertions on the free list. *)
Lemma hp_link s T fl x y :
  hp s T fl → (x, y) ∈ pairs fl → assert_link x 0 y s = Ok (tt, s) ∧ assert_link y 1 x s = Ok (tt, s).
Proof.
  intros [H Hlo Hhi] Hxy. destruct (pairs_elem fl x y Hxy) as [Hx Hy].
  destruct (lh_free _ _ _ H x Hx) as [szx Hbx], (lh_free _ _ _ H y Hy) as [szy Hby].
  destruct (heap_free_at _ _ _ H x szx Hbx) as (_ & Hx8 & _).
  destruct (heap_free_at _ _ _ H y szy Hby) as (_ & _ & Hy16).
  destruct (lh_ring _ _ _ H x y Hxy) as [Hf Hb]. unfold assert_link, get_payload, payload, WORD_SIZE.
  replace (x + 8 + 8 * 0) with (x + 8) by lia. replace (y + 8 + 8 * 1) with (y + 16) by lia.
  split; [run (load_Ok s _ Hx8)|run (load_Ok s _ Hy16)]; by apply assert_eq_Ok.
Qed.

Lemma hp_first s T x fl : hp s T (x :: fl) → assert_first x s = Ok (tt, s).
Proof.
  intros [H _ _]. unfold assert_first, get_first. pose proof (lh_first _ _ _ H) as Hf. cbn in Hf.
  assert (x ≠ NULL) as Hx.
  { destruct (lh_free _ _ _ H x) as [sz Hb]; [set_solver|].
    pose proof (sep_block _ _ _ (lh_sep _ _ _ H) _ _ _ Hb) as (_ & _ & _ & ? & _).
    pose proof (sep_lo _ _ _ (lh_sep _ _ _ H)). unfold NULL. lia. }
  rewrite (ST_bind_Ok _ _ _ x s) by (by rewrite Hf).
  rewrite (proj2 (Z.eqb_neq _ _) Hx). cbn [negb assertb]. rewrite ST_ret_bind.
  rewrite (ST_bind_Ok _ _ _ x s) by (by rewrite Hf). by apply assert_eq_Ok.
Qed.

Lemma hp_empty s T : hp s T [] → assert_empty s = Ok (tt, s).
Proof.
  intros [H _ _]. unfold assert_empty, get_first. rewrite (ST_bind_Ok _ _ _ NULL s); [done|].
  by rewrite (lh_first _ _ _ H).
Qed.
End Placed.

(** ** Storage from [malloc] *)

(** Addresses with the number of bytes asked for: aligned, accessible, apart. *)
Record placed (s : mm_state) (l : list (Z * Z)) : Prop := {
  pl_lo : 0 < mem_start_brk s;
  pl_in : Forall (λ x, x.1 mod 8 = 0 ∧ mem_start_brk s ≤ x.1 ∧ x.1 + x.2 ≤ mem_max_addr s) l;
  pl_apart i j x y : l !! i = Some x → l !! j = Some y → i ≠ j → x.1 + x.2 ≤ y.1 ∨ y.1 + y.2 ≤ x.1;
}.

(** A block of that size fits. *)
Definition fits (x : Z * Z) (b : Z * bool) : Prop := b.1 mod 8 = 0 ∧ 32 ≤ b.1 ≤ x.2.

Definition at_places (l : list (Z * Z)) (bs : list (Z * bool)) : blocks := list_to_map (zip l.*1 bs).

Lemma placed_NoDup s l : placed s l → Forall (λ x, 0 < x.2) l → NoDup l.*1.
Proof.
  intros H Hpos. apply NoDup_alt. intros i j a Hi Hj.
  apply list_lookup_fmap_Some in Hi as ([a1 n1] & -> & Hi), Hj as ([a2 n2] & Heq & Hj). cbn in Heq. subst a2.
  destruct (decide (i = j)) as [|Hne]; [done|].
  pose proof (pl_apart _ _ H i j _ _ Hi Hj Hne). rewrite Forall_forall in Hpos.
  pose proof (Hpos _ (list_elem_of_lookup_2 _ _ _ Hi)). pose proof (Hpos _ (list_elem_of_lookup_2 _ _ _ Hj)).
  cbn in *. lia.
Qed.

Section AtPlaces.
Context (s : mm_state) (l : list (Z * Z)) (bs : list (Z * bool)) (H : placed s l) (Hfit : Forall2 fits l bs).

Lemma fits_positive : Forall (λ x, 0 < x.2) l.
Proof.
  apply Forall_forall. intros x [i Hi]%list_elem_of_lookup.
  destruct (Forall2_lookup_l _ _ _ _ _ Hfit Hi) as (b & _ & _ & Hb). lia.
Qed.

Lemma at_places_lookup i x b : l !! i = Some x → bs !! i = Some b → at_places l bs !! x.1 = Some b.
Proof.
  intros Hi Hb. apply elem_of_list_to_map_1.
  - rewrite fst_zip by (rewrite length_fmap; by rewrite (Forall2_length _ _ _ Hfit)).
    apply (placed_NoDup s), fits_positive. done.
  - apply (list_elem_of_lookup_2 _ i). rewrite lookup_zip_with, list_lookup_fmap, Hi. cbn. by rewrite Hb.
Qed.

Lemma at_places_inv a b : at_places l bs !! a = Some b → ∃ i n, l !! i = Some (a, n) ∧ bs !! i = Some b.
Proof.
  intros Ha%elem_of_list_to_map_2. apply list_elem_of_lookup in Ha as [i Hi]. exists i.
  apply lookup_zip_Some in Hi as [Hi Hb]. apply list_lookup_fmap_Some in Hi as ([a' n] & -> & Hi). by exists n.
Qed.

Lemma at_places_sep : sep (mem_start_brk s) (mem_max_addr s) (at_places l bs).
Proof.
  split; [apply H| |].
  - intros a sz al (i & n & Hi & Hb)%at_places_inv. pose proof (pl_in _ _ H) as Hin. rewrite Forall_forall in Hin.
    destruct (Hin _ (list_elem_of_lookup_2 _ _ _ Hi)) as (H8 & Hlo & Hhi). cbn in *.
    destruct (Forall2_lookup_lr _ _ _ _ _ _ Hfit Hi Hb) as [Hsz8 Hsz]. cbn in *.
    split_and!; try done; lia.
  - intros a sz al b szb alb (i & n & Hi & Hbi)%at_places_inv (j & m & Hj & Hbj)%at_places_inv Hne.
    assert (i ≠ j) as Hij by (intros ->; congruence). pose proof (pl_apart _ _ H i j _ _ Hi Hj Hij).
    destruct (Forall2_lookup_lr _ _ _ _ _ _ Hfit Hi Hbi) as [_ ?].
    destruct (Forall2_lookup_lr _ _ _ _ _ _ Hfit Hj Hbj) as [_ ?]. cbn in *. lia.
Qed.
End AtPlaces.

(** ** The tests of one or two blocks *)

Lemma malloc_ends_Ok addr s :
  malloc_ends addr s = Ok (tt, set_epilogue (addr 1%nat) (set_prologue (addr 0%nat) s)).
Proof. done. Qed.

Section TwoBlocks.
Context (addr : nat → Z) (s : mm_state) (n m : Z).
Context (Hfirst : flist_first s = NULL) (Hpl : placed s [(addr 2%nat, n); (addr 3%nat, m)]).
Context (sz1 sz2 : Z) (al1 al2 : bool).
Context (Hfit : Forall2 fits [(addr 2%nat, n); (addr 3%nat, m)] [(sz1, al1); (sz2, al2)]).

Let B := at_places [(addr 2%nat, n); (addr 3%nat, m)] [(sz1, al1); (sz2, al2)].
Let s0 := set_epilogue (addr 1%nat) (set_prologue (addr 0%nat) s).
Let lo := mem_start_brk s.
Let hi := mem_max_addr s.

(** Both blocks with their tags. *)
Lemma two_blocks :
  sep lo hi B ∧ B !! addr 2%nat = Some (sz1, al1) ∧ B !! addr 3%nat = Some (sz2, al2) ∧
  hp lo hi B s0 [] [] ∧
  ∃ s1 s2, block_set_size_and_allocated (addr 2%nat) sz1 (Z.b2z al1) s0 = Ok (tt, s1) ∧
    block_set_size_and_allocated (addr 3%nat) sz2 (Z.b2z al2) s1 = Ok (tt, s2) ∧
    hp lo hi B s2 [addr 3%nat; addr 2%nat] [] ∧
    reads s2 (addr 2%nat) sz1 al1 ∧ reads s2 (addr 3%nat) sz2 al2.
Proof.
  pose proof (at_places_sep s _ _ Hpl Hfit) as Hsep. fold lo hi B in Hsep.
  pose proof (at_places_lookup s _ _ Hpl Hfit 0 _ _ eq_refl eq_refl) as H2. fold B in H2. cbn [fst] in H2.
  pose proof (at_places_lookup s _ _ Hpl Hfit 1 _ _ eq_refl eq_refl) as H3. fold B in H3. cbn [fst] in H3.
  pose proof (hp_start lo hi B Hsep s0 eq_refl eq_refl Hfirst) as H0.
  split_and!; try done.
  destruct (hp_set lo hi B Hsep s0 [] [] _ _ _ H0 H2) as (s1 & Hr1 & H1).
  destruct (hp_set lo hi B Hsep s1 _ [] _ _ _ H1 H3) as (s2 & Hr2 & Hs2). exists s1, s2.
  split_and!; try done; (eapply hp_reads; [done|done|set_solver|done]).
Qed.
End TwoBlocks.

Lemma fits_2 a b n m sz1 sz2 al1 al2 :
  sz1 mod 8 = 0 → 32 ≤ sz1 ≤ n → sz2 mod 8 = 0 → 32 ≤ sz2 ≤ m →
  Forall2 fits [(a, n); (b, m)] [(sz1, al1); (sz2, al2)].
Proof. intros. repeat constructor; cbn; lia. Qed.

Section TwoBlockTests.
Context (addr : nat → Z) (s : mm_state) (Hf : flist_first s = NULL).

Lemma set_size_and_allocated_test_passes :
  placed s [(addr 2%nat, 48); (addr 3%nat, 80)] → ∃ s', set_size_and_allocated_test addr s = Ok (tt, s').
Proof.
  intros Hpl.
  destruct (two_blocks addr s 48 80 Hf Hpl 32 64 true false ltac:(by apply fits_2))
    as (_ & _ & _ & _ & s1 & s2 & Hr1 & Hr2 & _ & R2 & R3). exists s2.
  unfold set_size_and_allocated_test. run (malloc_ends_Ok addr s). cbn zeta. run Hr1. run Hr2.
  checks (rd_size _ _ _ _ R2). checks (rd_size _ _ _ _ R3).
  checks (rd_allocated _ _ _ _ R2). by checks (rd_allocated _ _ _ _ R3).
Qed.

Lemma end_tag_test_passes :
  placed s [(addr 2%nat, 48); (addr 3%nat, 80)] → ∃ s', end_tag_test addr s = Ok (tt, s').
Proof.
  intros Hpl.
  destruct (two_blocks addr s 48 80 Hf Hpl 32 64 true false ltac:(by apply fits_2))
    as (_ & _ & _ & _ & s1 & s2 & Hr1 & Hr2 & _ & R2 & R3). exists s2.
  unfold end_tag_test. run (malloc_ends_Ok addr s). cbn zeta. run Hr1. run Hr2.
  checks (rd_size _ _ _ _ R2). checks (rd_end_size _ _ _ _ R2).
  checks (rd_size _ _ _ _ R3). by checks (rd_end_size _ _ _ _ R3).
Qed.

Lemma payload_to_block_id b : payload_to_block (payload b) = b.
Proof. unfold payload_to_block, payload. lia. Qed.

Lemma payload_to_block_test_passes :
  placed s [(addr 2%nat, 48); (addr 3%nat, 112)] → ∃ s', payload_to_block_test addr s = Ok (tt, s').
Proof.
  intros Hpl.
  destruct (two_blocks addr s 48 112 Hf Hpl 32 96 false true ltac:(by apply fits_2))
    as (_ & _ & _ & _ & s1 & s2 & Hr1 & Hr2 & _ & R2 & R3). exists s2.
  unfold payload_to_block_test. run (malloc_ends_Ok addr s). cbn zeta. run Hr1. run Hr2.
  rewrite !payload_to_block_id. autorewrite with st. by apply assert_eq_Ok.
Qed.

(** The two free blocks of the tests of the links. *)
Lemma link_blocks off v :
  placed s [(addr 2%nat, 48); (addr 3%nat, 80)] → off = 8 ∨ off = 16 →
  ∃ s1 s2,
    block_set_size_and_allocated (addr 2%nat) 32 0
      (set_epilogue (addr 1%nat) (set_prologue (addr 0%nat) s)) = Ok (tt, s1) ∧
    block_set_size_and_allocated (addr 3%nat) 64 0 s1 = Ok (tt, s2) ∧
    free_at s2 (addr 2%nat) ∧ free_at s2 (addr 3%nat) ∧
    free_at (set_words (<[addr 2%nat + off := v]> (words s2)) s2) (addr 2%nat) ∧
    reads (set_words (<[addr 2%nat + off := v]> (words s2)) s2) (addr 2%nat) 32 false ∧
    reads (set_words (<[addr 2%nat + off := v]> (words s2)) s2) (addr 3%nat) 64 false.
Proof.
  intros Hpl Hoff.
  destruct (two_blocks addr s 48 80 Hf Hpl 32 64 false false ltac:(by apply fits_2))
    as (Hsep & H2 & H3 & _ & s1 & s2 & Hr1 & Hr2 & H & _ & _). exists s1, s2.
  set (B := at_places _ _) in *.
  assert (addr 2%nat ∈ [addr 3%nat; addr 2%nat]) as Hin by set_solver.
  pose proof (hp_write_link _ _ B Hsep s2 _ _ _ off v H Hin H2 Hoff) as H'.
  assert (∀ x a sz, hp (mem_start_brk s) (mem_max_addr s) B x [addr 3%nat; addr 2%nat] [] →
    a = addr 2%nat ∨ a = addr 3%nat → B !! a = Some (sz, false) → free_at x a) as Hfree.
  { intros x a sz Hx Ha Hsz. eapply heap_free_at; [apply Hx|]. apply some_of_Some. split; [done|set_solver]. }
  split_and!; try done; [by eapply Hfree; eauto..| |]; (eapply hp_reads; [done|done|set_solver|done]).
Qed.

Lemma set_flink_test_passes :
  placed s [(addr 2%nat, 48); (addr 3%nat, 80)] → ∃ s', set_flink_test addr s = Ok (tt, s').
Proof.
  intros Hpl. destruct (link_blocks 8 (addr 3%nat) Hpl ltac:(by left))
    as (s1 & s2 & Hr1 & Hr2 & F2 & F3 & F2' & R2 & R3).
  eexists. unfold set_flink_test. run (malloc_ends_Ok addr s). cbn zeta. run Hr1. run Hr2.
  run (block_set_flink_Ok s2 _ _ F2 F3). run (block_flink_Ok _ _ F2'). cbn [words set_words].
  rewrite word_insert_eq. autorewrite with st. checks (rd_size _ _ _ _ R2). checks (rd_size _ _ _ _ R3).
  checks (rd_allocated _ _ _ _ R2). by checks (rd_allocated _ _ _ _ R3).
Qed.

Lemma set_blink_test_passes :
  placed s [(addr 2%nat, 48); (addr 3%nat, 80)] → ∃ s', set_blink_test addr s = Ok (tt, s').
Proof.
  intros Hpl. destruct (link_blocks 16 (addr 3%nat) Hpl ltac:(by right))
    as (s1 & s2 & Hr1 & Hr2 & F2 & F3 & F2' & R2 & R3).
  eexists. unfold set_blink_test. run (malloc_ends_Ok addr s). cbn zeta. run Hr1. run Hr2.
  run (block_set_blink_Ok s2 _ _ F2 F3). run (block_blink_Ok _ _ F2'). cbn [words set_words].
  rewrite word_insert_eq. autorewrite with st. checks (rd_size _ _ _ _ R2). checks (rd_size _ _ _ _ R3).
  checks (rd_allocated _ _ _ _ R2). by checks (rd_allocated _ _ _ _ R3).
Qed.

End TwoBlockTests.

(** ** The tests that set only the size *)

Lemma land_1_odd w : Z.land w 1 = Z.b2z (Z.odd w).
Proof. change 1 with (Z.ones 1). rewrite Z.land_ones by lia. change (2 ^ 1) with 2. by rewrite Zmod_odd; destruct (Z.odd w). Qed.

(** Changing the flag of a block turns the set [B] into [B']. *)
Lemma hp_flag lo hi B B' s T a sz al al' :
  sep lo hi B → sep lo hi B' → hp lo hi B s T [] → a ∈ T →
  B !! a = Some (sz, al) → B' !! a = Some (sz, al') → (∀ b, b ∈ T → b ≠ a → B' !! b = B !! b) →
  ∃ s', block_set_allocated a (Z.b2z al') s = Ok (tt, s') ∧ hp lo hi B' s' T [].
Proof.
  intros Hs Hs' [H Hlo Hhi] HT Ha Ha' Hother. eexists.
  destruct (linked_heap_set_allocated s (some_of B T) (some_of B' T) [] a sz al' H) with (al0 := al)
    as (Hrun & Hh & _).
  - rewrite Hlo, Hhi. apply (sep_subset lo hi B' Hs'). by intros b x [? _]%some_of_Some.
  - by apply some_of_Some.
  - intros b x Hne [Hb Hin]%some_of_Some. apply some_of_Some. by rewrite <-Hother.
  - intros z Hz. by apply elem_of_nil in Hz.
  - by apply some_of_Some.
  - split; [done|]. by split.
Qed.

Section SizeTests.
Context (addr : nat → Z) (s : mm_state) (Hf : flist_first s = NULL).
Context (Hpl : placed s [(addr 2%nat, 48); (addr 3%nat, 80)]).

Let odd1 := Z.odd (word (words s) (addr 2%nat)).
Let odd2 := Z.odd (word (words s) (addr 3%nat)).
Let B (al1 al2 : bool) := at_places [(addr 2%nat, 48); (addr 3%nat, 80)] [(32, al1); (64, al2)].
Let lo := mem_start_brk s.
Let hi := mem_max_addr s.

Lemma size_blocks al1 al2 :
  sep lo hi (B al1 al2) ∧ B al1 al2 !! addr 2%nat = Some (32, al1) ∧ B al1 al2 !! addr 3%nat = Some (64, al2).
Proof. destruct (two_blocks addr s 48 80 Hf Hpl 32 64 al1 al2 ltac:(by apply fits_2)) as (H & H2 & H3 & _). done. Qed.

(** [block_set_size] keeps the lowest bit of whatever the storage held. *)
Lemma sizes_set :
  ∃ s1 s2, block_set_size (addr 2%nat) 32 (set_epilogue (addr 1%nat) (set_prologue (addr 0%nat) s)) = Ok (tt, s1) ∧
    block_set_size (addr 3%nat) 64 s1 = Ok (tt, s2) ∧ hp lo hi (B odd1 odd2) s2 [addr 3%nat; addr 2%nat] [].
Proof.
  destruct (size_blocks odd1 odd2) as (Hsep & H2 & H3). set (s0 := set_epilogue _ _).
  pose proof (hp_start lo hi (B odd1 odd2) Hsep s0 eq_refl eq_refl Hf) as H0.
  destruct (hp_words_ok _ _ _ Hsep _ _ _ _ _ _ H0 H2) as [Hw2 He2].
  pose proof (hp_retag _ _ _ Hsep _ _ _ _ _ _ H0 H2) as H1. set (s1 := set_words _ s0) in H1.
  destruct (hp_words_ok _ _ _ Hsep _ _ _ _ _ _ H1 H3) as [Hw3 He3].
  exists s1, (set_words (with_tags (addr 3%nat) 64 (words s1) odd2) s1). split_and!.
  - apply block_set_size_Ok; try done. apply land_1_odd.
  - apply block_set_size_Ok; try done. assert (word (words s1) (addr 3%nat) = word (words s) (addr 3%nat)) as ->.
    + assert (addr 2%nat ≠ addr 3%nat) as Hne.
      { pose proof (pl_apart _ _ Hpl 0 1 _ _ eq_refl eq_refl ltac:(done)). cbn in *. lia. }
      pose proof (sep_disj _ _ _ Hsep _ _ _ _ _ _ H2 H3 Hne). unfold s1, with_tags. cbn.
      by rewrite !word_insert_ne by lia.
    + apply land_1_odd.
  - by apply hp_retag.
Qed.

Lemma in2 : addr 2%nat ∈ [addr 3%nat; addr 2%nat].
Proof. set_solver. Qed.

Lemma in3 : addr 3%nat ∈ [addr 3%nat; addr 2%nat].
Proof. set_solver. Qed.

Lemma set_allocated_test_passes : ∃ s', set_allocated_test addr s = Ok (tt, s').
Proof.
  destruct sizes_set as (s1 & s2 & Hr1 & Hr2 & H).
  destruct (size_blocks odd1 odd2) as (Hsep & H2 & H3), (size_blocks true odd2) as (Hsep' & H2' & H3'),
    (size_blocks true false) as (Hsep'' & H2'' & H3'').
  destruct (hp_flag lo hi _ (B true odd2) s2 _ _ _ _ true Hsep Hsep' H in2 H2 H2')
    as (s3 & Hr3 & H3s).
  { intros b Hb Hne. assert (b = addr 3%nat) as -> by set_solver. by rewrite H3, H3'. }
  destruct (hp_flag lo hi _ (B true false) s3 _ _ _ _ false Hsep' Hsep'' H3s in3 H3' H3'')
    as (s4 & Hr4 & H4s).
  { intros b Hb Hne. assert (b = addr 2%nat) as -> by set_solver. by rewrite H2', H2''. }
  pose proof (hp_reads _ _ _ Hsep'' s4 _ _ _ _ _ H4s in2 H2'') as R2.
  pose proof (hp_reads _ _ _ Hsep'' s4 _ _ _ _ _ H4s in3 H3'') as R3.
  exists s4. unfold set_allocated_test. run (malloc_ends_Ok addr s). cbn zeta. run Hr1. run Hr2. run Hr3. run Hr4.
  checks (rd_allocated _ _ _ _ R2). by checks (rd_allocated _ _ _ _ R3).
Qed.

(** The test compares the size word itself, so it depends on those bits. *)
Lemma set_size_test_outcome :
  if odd1 || odd2 then set_size_test addr s = Err AssertFail
  else ∃ s', set_size_test addr s = Ok (tt, s').
Proof.
  destruct sizes_set as (s1 & s2 & Hr1 & Hr2 & H). destruct (size_blocks odd1 odd2) as (Hsep & H2 & H3).
  pose proof (hp_tagged _ _ _ s2 _ _ H _ _ _ in2 H2) as T2.
  pose proof (hp_tagged _ _ _ s2 _ _ H _ _ _ in3 H3) as T3.
  pose proof (hp_reads _ _ _ Hsep s2 _ _ _ _ _ H in2 H2) as R2.
  pose proof (hp_reads _ _ _ Hsep s2 _ _ _ _ _ H in3 H3) as R3.
  assert (set_size_test addr s =
    (v ← get_size (addr 2%nat); assert_eq v 32;; v ← get_size (addr 3%nat); assert_eq v 64;;
     v ← block_size (addr 2%nat); assert_eq v 32;; v ← block_size (addr 3%nat); assert_eq v 64) s2) as ->.
  { unfold set_size_test. run (malloc_ends_Ok addr s). cbn zeta. run Hr1. by run Hr2. }
  run (get_size_tagged _ _ _ _ T2). destruct odd1; [done|]. unfold tag at 1. cbn [Z.b2z orb]. rewrite Z.add_0_r.
  autorewrite with st. run (get_size_tagged _ _ _ _ T3). destruct odd2; [done|]. unfold tag at 1.
  cbn [Z.b2z]. rewrite Z.add_0_r. autorewrite with st. exists s2.
  checks (rd_size _ _ _ _ R2). by checks (rd_size _ _ _ _ R3).
Qed.
End SizeTests.

(** ** The tests on three adjacent blocks *)
Section Adjacent.
Context (arena : Z) (contents : gmap Z Z) (s : mm_state).
Context (Harena : 0 < arena) (H8 : arena mod 8 = 0) (Hf : flist_first s = NULL).
Context (n1 n2 n3 : Z) (al1 al2 al3 : bool).
Context (Hn1 : n1 mod 8 = 0 ∧ 32 ≤ n1 ≤ 1024) (Hn2 : n2 mod 8 = 0 ∧ 32 ≤ n2 ≤ 1024).
Context (Hn3 : n3 mod 8 = 0 ∧ 32 ≤ n3 ≤ 1024).

Let places := [(arena, n1); (arena + n1, n2); (arena + n1 + n2, n3)].
Let shapes := [(n1, al1); (n2, al2); (n3, al3)].

(** The static data after [mem_init] and three calls of [mem_sbrk]. *)
Definition grown (brk : Z) : mm_state :=
  MM contents arena brk (arena + MAX_HEAP) (flist_first s) (prologue s) (epilogue s).

Lemma mem_init_grown : mem_init arena contents s = Ok (tt, grown arena).
Proof. unfold mem_init. rewrite (proj2 (Z.eqb_neq _ _)); [done|]. unfold NULL. lia. Qed.

Lemma mem_sbrk_grown brk n :
  arena ≤ brk ≤ arena + 2048 → 32 ≤ n ≤ 1024 → mem_sbrk n (grown brk) = Ok (brk, grown (brk + n)).
Proof.
  intros Hb Hn. unfold mem_sbrk. cbn [mem_brk mem_max_addr grown].
  assert (MAX_HEAP = 20971520) as HM by reflexivity.
  by assert ((n <? 0) || (brk + n >? arena + MAX_HEAP) = false) as -> by lia.
Qed.

Lemma adjacent_placed brk : placed (grown brk) places.
Proof.
  assert (MAX_HEAP = 20971520) as HM by reflexivity.
  split; cbn [mem_start_brk mem_max_addr grown]; [done| |].
  - repeat constructor; cbn; try lia; Z.to_euclidean_division_equations; lia.
  - intros i j x y Hi Hj Hne. destruct i as [|[|[|i]]], j as [|[|[|j]]]; simplify_eq/=; lia.
Qed.

Lemma adjacent_fits : Forall2 fits places shapes.
Proof. repeat constructor; cbn; lia. Qed.

Lemma adjacent_blocks :
  ∃ s1 s2 s3,
    block_set_size_and_allocated arena n1 (Z.b2z al1) (grown (arena + n1 + n2 + n3)) = Ok (tt, s1) ∧
    block_set_size_and_allocated (arena + n1) n2 (Z.b2z al2) s1 = Ok (tt, s2) ∧
    block_set_size_and_allocated (arena + n1 + n2) n3 (Z.b2z al3) s2 = Ok (tt, s3) ∧
    reads s3 arena n1 al1 ∧ reads s3 (arena + n1) n2 al2 ∧ reads s3 (arena + n1 + n2) n3 al3.
Proof.
  set (s0 := grown (arena + n1 + n2 + n3)). pose proof (adjacent_placed (arena + n1 + n2 + n3)) as Hpl. fold s0 in Hpl.
  pose proof (at_places_sep s0 _ _ Hpl adjacent_fits) as Hsep. set (B := at_places places shapes) in *.
  pose proof (at_places_lookup s0 _ _ Hpl adjacent_fits 0 _ _ eq_refl eq_refl) as H1.
  pose proof (at_places_lookup s0 _ _ Hpl adjacent_fits 1 _ _ eq_refl eq_refl) as H2.
  pose proof (at_places_lookup s0 _ _ Hpl adjacent_fits 2 _ _ eq_refl eq_refl) as H3.
  fold B in H1, H2, H3. cbn [fst] in H1, H2, H3.
  pose proof (hp_start _ _ B Hsep s0 eq_refl eq_refl Hf) as H0.
  destruct (hp_set _ _ B Hsep s0 _ _ _ _ _ H0 H1) as (s1 & Hr1 & Hs1).
  destruct (hp_set _ _ B Hsep s1 _ _ _ _ _ Hs1 H2) as (s2 & Hr2 & Hs2).
  destruct (hp_set _ _ B Hsep s2 _ _ _ _ _ Hs2 H3) as (s3 & Hr3 & Hs3).
  exists s1, s2, s3. split_and!; try done; (eapply hp_reads; [done|done|set_solver|done]).
Qed.

(** The beginning of such a test. *)
Lemma adjacent_start {A} (k : Z → Z → Z → ST mm_state A) :
  (mem_init arena contents;; b1 ← mem_sbrk n1; b2 ← mem_sbrk n2; b3 ← mem_sbrk n3; k b1 b2 b3) s =
  k arena (arena + n1) (arena + n1 + n2) (grown (arena + n1 + n2 + n3)).
Proof.
  run mem_init_grown. run (mem_sbrk_grown arena n1 ltac:(lia) ltac:(lia)).
  run (mem_sbrk_grown (arena + n1) n2 ltac:(lia) ltac:(lia)).
  by run (mem_sbrk_grown (arena + n1 + n2) n3 ltac:(lia) ltac:(lia)).
Qed.
End Adjacent.

Section AdjacentTests.
Context (arena : Z) (contents : gmap Z Z) (s : mm_state).
Context (Ha : 0 < arena) (H8 : arena mod 8 = 0) (Hf : flist_first s = NULL).

Lemma prev_test_passes : ∃ s', prev_test arena contents s = Ok (tt, s').
Proof.
  destruct (adjacent_blocks arena contents s Ha H8 Hf 96 96 128 true false false) as
    (s1 & s2 & s3 & Hr1 & Hr2 & Hr3 & R1 & R2 & R3); [done..|]. exists s3.
  unfold prev_test. rewrite (adjacent_start arena contents s Ha 96 96 128) by done.
  run Hr1. run Hr2. run Hr3. checks (rd_prev _ _ _ _ R1). checks (rd_prev _ _ _ _ R2).
  checks (rd_prev _ _ _ _ R2). by checks (rd_size _ _ _ _ R2).
Qed.

Lemma next_test_passes : ∃ s', next_test arena contents s = Ok (tt, s').
Proof.
  destruct (adjacent_blocks arena contents s Ha H8 Hf 64 64 64 true false false) as
    (s1 & s2 & s3 & Hr1 & Hr2 & Hr3 & R1 & R2 & R3); [done..|]. exists s3.
  unfold next_test. rewrite (adjacent_start arena contents s Ha 64 64 64) by done.
  run Hr1. run Hr2. run Hr3. checks (rd_next _ _ _ _ R1). checks (rd_next _ _ _ _ R2).
  checks (rd_next _ _ _ _ R2). by checks (rd_size _ _ _ _ R3).
Qed.

Lemma next_size_allocated_test_passes : ∃ s', next_size_allocated_test arena contents s = Ok (tt, s').
Proof.
  destruct (adjacent_blocks arena contents s Ha H8 Hf 64 64 96 true false true) as
    (s1 & s2 & s3 & Hr1 & Hr2 & Hr3 & R1 & R2 & R3); [done..|]. exists s3.
  unfold next_size_allocated_test. rewrite (adjacent_start arena contents s Ha 64 64 96) by done.
  run Hr1. run Hr2. run Hr3.
  assert (∀ b b' sz' al', block_next b s3 = Ok (b', s3) → reads s3 b' sz' al' →
    block_next_allocated b s3 = Ok (Z.b2z al', s3) ∧ block_next_size b s3 = Ok (sz', s3)) as Hn.
  { intros b b' sz' al' Hb R. unfold block_next_allocated, block_next_size. split; run Hb; apply R. }
  destruct (Hn _ _ _ _ (rd_next _ _ _ _ R1) R2) as [N1 S1], (Hn _ _ _ _ (rd_next _ _ _ _ R2) R3) as [N2 S2].
  checks N1. checks N2. checks S1. by checks S2.
Qed.

Lemma prev_size_allocated_test_passes : ∃ s', prev_size_allocated_test arena contents s = Ok (tt, s').
Proof.
  destruct (adjacent_blocks arena contents s Ha H8 Hf 64 96 128 true false true) as
    (s1 & s2 & s3 & Hr1 & Hr2 & Hr3 & R1 & R2 & R3); [done..|]. exists s3.
  unfold prev_size_allocated_test. rewrite (adjacent_start arena contents s Ha 64 96 128) by done.
  run Hr1. run Hr2. run Hr3. checks (rd_prev_allocated _ _ _ _ R2). checks (rd_prev_allocated _ _ _ _ R1).
  checks (rd_prev_size _ _ _ _ R2). by checks (rd_prev_size _ _ _ _ R1).
Qed.
End AdjacentTests.

(** ** The test of the free list *)
Section Pull.
Context (lo hi : Z) (B : blocks) (Hsep : sep lo hi B).

Lemma pull_three_passes s T one two three :
  B !! one = Some (32, false) → B !! two = Some (64, false) → B !! three = Some (48, false) →
  NoDup [one; two; three] → hp lo hi B s T [] →
  ∃ s', pull_three one two three s = Ok (tt, s') ∧ hp lo hi B s' (three :: two :: one :: T) [].
Proof.
  intros B1 B2 B3 Hnd H0. apply NoDup_cons in Hnd as [N1 [N2 _]%NoDup_cons]. unfold pull_three.
  destruct (hp_set lo hi B Hsep s _ _ _ _ _ H0 B1) as (s1 & R1 & H1). run R1.
  destruct (hp_set lo hi B Hsep s1 _ _ _ _ _ H1 B2) as (s2 & R2 & H2). run R2.
  destruct (hp_set lo hi B Hsep s2 _ _ _ _ _ H2 B3) as (s3 & R3 & H3). run R3.
  set (T' := three :: two :: one :: T) in *.
  destruct (hp_insert lo hi B s3 T' [] three 48 H3) as (s4 & R4 & H4); [set_solver|done|set_solver|]. run R4.
  destruct (hp_insert lo hi B s4 T' [three] two 64 H4) as (s5 & R5 & H5); [set_solver|done|set_solver|]. run R5.
  destruct (hp_insert lo hi B s5 T' [two; three] one 32 H5) as (s6 & R6 & H6); [set_solver|done|set_solver|]. run R6.
  destruct (hp_pull lo hi B s6 T' [one] two [three] H6) as (s7 & R7 & H7). run R7. cbn [app] in H7.
  destruct (hp_link lo hi B s7 T' _ one three H7) as [L1 L2]; [cbn; set_solver|].
  destruct (hp_link lo hi B s7 T' _ three one H7) as [L3 L4]; [cbn; set_solver|].
  run L1. run L4. run L3. run L2. run (hp_first lo hi B Hsep s7 T' one [three] H7).
  destruct (hp_pull lo hi B s7 T' [one] three [] H7) as (s8 & R8 & H8). run R8. cbn [app] in H8.
  destruct (hp_link lo hi B s8 T' _ one one H8) as [L5 L6]; [cbn; set_solver|].
  run L5. run L6. run (hp_first lo hi B Hsep s8 T' one [] H8).
  destruct (hp_pull lo hi B s8 T' [] one [] H8) as (s9 & R9 & H9). run R9.
  exists s9. split; [by apply (hp_empty lo hi B s9 T')|done].
Qed.

Lemma pull_four_passes s T four five six seven :
  B !! four = Some (32, false) → B !! five = Some (64, false) → B !! six = Some (48, false) →
  B !! seven = Some (96, false) → NoDup [four; five; six; seven] → hp lo hi B s T [] →
  ∃ s', pull_four four five six seven s = Ok (tt, s') ∧
    hp lo hi B s' (seven :: six :: five :: four :: T) [].
Proof.
  intros B1 B2 B3 B4 Hnd H0. apply NoDup_cons in Hnd as [N1 [N2 [N3 _]%NoDup_cons]%NoDup_cons]. unfold pull_four.
  destruct (hp_set lo hi B Hsep s _ _ _ _ _ H0 B1) as (s1 & R1 & H1). run R1.
  destruct (hp_set lo hi B Hsep s1 _ _ _ _ _ H1 B2) as (s2 & R2 & H2). run R2.
  destruct (hp_set lo hi B Hsep s2 _ _ _ _ _ H2 B3) as (s3 & R3 & H3). run R3.
  destruct (hp_set lo hi B Hsep s3 _ _ _ _ _ H3 B4) as (s4 & R4 & H4). run R4.
  set (T' := seven :: six :: five :: four :: T) in *.
  destruct (hp_insert lo hi B s4 T' [] seven 96 H4) as (s5 & R5 & H5); [set_solver|done|set_solver|]. run R5.
  destruct (hp_insert lo hi B s5 T' [seven] six 48 H5) as (s6 & R6 & H6); [set_solver|done|set_solver|]. run R6.
  destruct (hp_insert lo hi B s6 T' [six; seven] five 64 H6) as (s7 & R7 & H7); [set_solver|done|set_solver|]. run R7.
  destruct (hp_insert lo hi B s7 T' [five; six; seven] four 32 H7) as (s8 & R8 & H8); [set_solver|done|set_solver|]. run R8.
  destruct (hp_pull lo hi B s8 T' [] four [five; six; seven] H8) as (s9 & R9 & H9). run R9. cbn [app] in H9.
  destruct (hp_link lo hi B s9 T' _ five six H9) as [L1 _]; [cbn; set_solver|].
  destruct (hp_link lo hi B s9 T' _ six seven H9) as [_ L2]; [cbn; set_solver|].
  destruct (hp_link lo hi B s9 T' _ seven five H9) as [L3 L4]; [cbn; set_solver|].
  run L1. run L4. run L3. run L2. run (hp_first lo hi B Hsep s9 T' five _ H9).
  destruct (hp_pull lo hi B s9 T' [] five [six; seven] H9) as (s10 & R10 & H10). run R10. cbn [app] in H10.
  destruct (hp_link lo hi B s10 T' _ six seven H10) as [M1 M2]; [cbn; set_solver|].
  destruct (hp_link lo hi B s10 T' _ seven six H10) as [M3 M4]; [cbn; set_solver|].
  run M4. run M1. run M2. run M3. run (hp_first lo hi B Hsep s10 T' six _ H10).
  destruct (hp_pull lo hi B s10 T' [] six [seven] H10) as (s11 & R11 & H11). run R11. cbn [app] in H11.
  destruct (hp_link lo hi B s11 T' _ seven seven H11) as [K1 K2]; [cbn; set_solver|].
  run K2. run K1. run (hp_first lo hi B Hsep s11 T' seven _ H11).
  destruct (hp_pull lo hi B s11 T' [] seven [] H11) as (s12 & R12 & H12). run R12.
  exists s12. split; [by apply (hp_empty lo hi B s12 T')|done].
Qed.
End Pull.

(** What [malloc] returns in [pull_free_block_test]. *)
Definition seven_places (addr : nat → Z) : list (Z * Z) :=
  [(addr 2%nat, 48); (addr 3%nat, 80); (addr 4%nat, 64); (addr 5%nat, 48); (addr 6%nat, 80);
   (addr 7%nat, 64); (addr 8%nat, 112)].

Lemma pull_free_block_test_passes addr s :
  placed s (seven_places addr) → ∃ s', pull_free_block_test addr s = Ok (tt, s').
Proof.
  intros Hpl.
  set (shapes := [(32, false); (64, false); (48, false); (32, false); (64, false); (48, false); (96, false)]).
  assert (Forall2 fits (seven_places addr) shapes) as Hfit by (repeat constructor; cbn; lia).
  pose proof (at_places_sep s _ _ Hpl Hfit) as Hsep. set (B := at_places (seven_places addr) shapes) in *.
  pose proof (λ i x b, at_places_lookup s _ _ Hpl Hfit i x b) as HB. fold B in HB.
  pose proof (placed_NoDup s _ Hpl (fits_positive _ _ Hfit)) as Hnd. cbn in Hnd.
  set (s0 := set_first NULL (set_epilogue (addr 1%nat) (set_prologue (addr 0%nat) s))).
  pose proof (hp_start _ _ B Hsep s0 eq_refl eq_refl eq_refl) as H0.
  pose proof (NoDup_app [addr 2%nat; addr 3%nat; addr 4%nat] [addr 5%nat; addr 6%nat; addr 7%nat; addr 8%nat]) as Happ.
  destruct (proj1 Happ Hnd) as (N1 & _ & N2).
  destruct (pull_three_passes _ _ B Hsep s0 [] (addr 2%nat) (addr 3%nat) (addr 4%nat)) as (s1 & R1 & H1);
    [exact (HB 0%nat _ _ eq_refl eq_refl)|exact (HB 1%nat _ _ eq_refl eq_refl)|exact (HB 2%nat _ _ eq_refl eq_refl)|done|done|].
  destruct (pull_four_passes _ _ B Hsep s1 [addr 4%nat; addr 3%nat; addr 2%nat] (addr 5%nat) (addr 6%nat) (addr 7%nat) (addr 8%nat))
    as (s2 & R2 & _); [exact (HB 3%nat _ _ eq_refl eq_refl)|exact (HB 4%nat _ _ eq_refl eq_refl)|
      exact (HB 5%nat _ _ eq_refl eq_refl)|exact (HB 6%nat _ _ eq_refl eq_refl)|done|exact H1|].
  exists s2. unfold pull_free_block_test. run (malloc_ends_Ok addr s). rewrite ST_modify. fold s0.
  run R1. exact R2.
Qed.

(** ** The program *)

(** What a test may rely on: the blocks are apart, the arena is aligned, and the
    free list is empty. *)
Definition fair (e : setting) (t : test) : Prop :=
  match t with
  | block_prev_ | block_next_ | next_size_and_allocated | prev_size_and_allocated =>
      flist_first (storage e) = NULL ∧ 0 < arena_at e ∧ arena_at e mod 8 = 0
  | pull_free_block_ => placed (storage e) (seven_places (addresses e))
  | payload_to_block_ =>
      flist_first (storage e) = NULL ∧ placed (storage e) [(addresses e 2%nat, 48); (addresses e 3%nat, 112)]
  | _ => flist_first (storage e) = NULL ∧ placed (storage e) [(addresses e 2%nat, 48); (addresses e 3%nat, 80)]
  end.

(** The lowest bits of the first words of the two blocks. *)
Definition stray_bits (e : setting) : bool :=
  Z.odd (word (words (storage e)) (addresses e 2%nat)) || Z.odd (word (words (storage e)) (addresses e 3%nat)).

Lemma test_outcome e t :
  fair e t →
  run_test_in_separate_process e t =
    match t with block_size_ => if stray_bits e then Err AssertFail else Ok tt | _ => Ok tt end.
Proof.
  unfold run_test_in_separate_process, fair. destruct t; cbn [body]; intros Hfair.
  4: { pose proof (set_size_test_outcome (addresses e) (storage e) (proj1 Hfair) (proj2 Hfair)) as H.
       unfold stray_bits. destruct (_ || _); [by rewrite H|]. by destruct H as [s' ->]. }
  all: match goal with |- match ?m with _ => _ end = _ => assert (∃ s', m = Ok (tt, s')) as [s' ->]; [|done] end.
  - by apply set_blink_test_passes; apply Hfair.
  - by apply set_flink_test_passes; apply Hfair.
  - by apply pull_free_block_test_passes.
  - by apply set_allocated_test_passes; apply Hfair.
  - by apply set_size_and_allocated_test_passes; apply Hfair.
  - by apply end_tag_test_passes; apply Hfair.
  - by apply prev_test_passes; apply Hfair.
  - by apply next_test_passes; apply Hfair.
  - by apply payload_to_block_test_passes; apply Hfair.
  - by apply next_size_allocated_test_passes; apply Hfair.
  - by apply prev_size_allocated_test_passes; apply Hfair.
Qed.

Lemma run_tests_Ok env ts : ∀ i,
  (∀ j t, fair (env j) t) → (∀ j, stray_bits (env j) = false) → ∃ out, run_tests env i ts = Ok out.
Proof.
  induction ts as [|[t|name] ts IH]; intros i Hfair Hbits; cbn [run_tests]; [by eexists| |].
  - rewrite test_outcome, Hbits by done. destruct (IH (S i) Hfair Hbits) as [out ->]. destruct t; by eexists.
  - destruct (IH i Hfair Hbits) as [out ->]. by eexists.
Qed.
