(* ===== verification/MmTestsClaims.v ===== *)
(** * The tests of the inline functions: properties. *)

From Stdlib Require Import ZArith Lia Ascii String.
From stdpp Require Import base gmap numbers option list.
From S2P Require Import Prelude Stdio Memlib MmInline MmHeap MmLayout MdriverTrace MdriverRepl MmTests MmTestsProofs.

Open Scope Z_scope.
Open Scope list_scope.

(** C31: the program of tests passes, but for what it reads of fresh storage.
    Wherever [malloc] puts the blocks, as long as they are aligned and apart, and
    whatever tests are named on the command line, the program prints that all
    tests passed and returns 0 when the first words of the blocks of the size
    test happen to be even; with an odd one, [all] ends in a failed assertion,
    because [block_set_size] keeps the lowest bit of the uninitialised word that
    the test then compares.  Without an argument the program prints its usage
    and returns 1. *)
Theorem inline_tests_pass (env : nat → setting) :
  (∀ j t, fair (env j) t) →
  (∀ argv, 2 ≤ Z.of_nat (length argv) → (∀ j, stray_bits (env j) = false) →
     ∃ out, tests_main env argv = Ok (0, Testing :: out ++ [PassedAll])) ∧
  (∀ prog rest, stray_bits (env 0%nat) = true → tests_main env (prog :: lit "all" :: rest) = Err AssertFail) ∧
  (∀ prog, tests_main env [prog] = Ok (1, [Testing; TestUsage])).
Proof.
  intros Hfair. split_and!; [| |done].
  - intros argv Hargv Hbits. unfold tests_main. rewrite (proj2 (Z.ltb_ge _ _)) by lia.
    destruct argv as [|prog [|first names]]; [simpl in Hargv; lia..|]. cbn [tail foreach_test].
    destruct (bool_decide (first = lit "all")).
    + destruct (run_tests_Ok env (inl <$> all_tests) 0 Hfair Hbits) as [out ->]. by exists out.
    + match goal with |- context [run_tests env 0 ?ts] => destruct (run_tests_Ok env ts 0 Hfair Hbits) as [out ->] end.
      by exists out.
  - intros prog rest Hbits. unfold tests_main. rewrite (proj2 (Z.ltb_ge _ _)) by (simpl; lia).
    cbn [tail foreach_test]. rewrite bool_decide_eq_true_2 by done.
    cbn [all_tests fmap list_fmap run_tests]. by rewrite test_outcome, Hbits by done.
Qed.

(** Storage whose words are all zero, with the blocks one after another. *)
Definition tidy : setting :=
  Setting (MM ∅ 4096 4096 8192 NULL 0 0) (λ k, 4096 + 128 * Z.of_nat k) 16384 ∅.

Lemma tidy_placed l :
  (∀ i x, l !! i = Some x → x.1 = 4096 + 128 * (Z.of_nat i + 2) ∧ 0 ≤ x.2 ≤ 128) → (length l ≤ 20)%nat →
  placed (MM ∅ 4096 4096 8192 NULL 0 0) l.
Proof.
  intros Hl Hlen. split; cbn; [done| |].
  - apply Forall_forall. intros x [i Hi]%list_elem_of_lookup. destruct (Hl i x Hi) as [-> ?].
    apply lookup_lt_Some in Hi. split_and!; [|lia..]. Z.to_euclidean_division_equations; lia.
  - intros i j x y Hi Hj Hne. destruct (Hl i x Hi) as [-> ?], (Hl j y Hj) as [-> ?]. lia.
Qed.

Lemma tidy_fair t : fair tidy t.
Proof.
  destruct t; cbn; try done; try (split; [done|]); apply tidy_placed; try (simpl; lia);
    intros i x Hi; do 7 (destruct i as [|i]; [by simplify_eq/=|]); done.
Qed.

Lemma inline_tests_pass_witness :
  ∃ out, tests_main (λ _, tidy) [[]; lit "all"] = Ok (0, Testing :: out ++ [PassedAll]).
Proof.
  apply (proj1 (inline_tests_pass (λ _, tidy) (λ _ t, tidy_fair t))); [simpl; lia|].
  intros j. vm_compute. reflexivity.
Defined.
