(* ===== verification/Clock.v ===== *)
(** * Cycle counters: [6-malloc-haininz/clock.c].

    The counters of the three platforms the file distinguishes, the estimate of
    the clock rate, and the counter that compensates for timer interrupts.  A
    [double] is a binary floating-point number of 53 bits.  The processor's
    counter, [times] and [sleep] are inputs of the model. *)

From Stdlib Require Import ZArith Lia SpecFloat.
From stdpp Require Import base gmap numbers option list.
From S2P Require Import Prelude.

Open Scope Z_scope.

(** ** Doubles *)

Abbreviation double := spec_float.

Definition of_Z (z : Z) : double := binary_normalize 53 1024 z 0 false.
Definition dadd : double → double → double := SFadd 53 1024.
Definition dsub : double → double → double := SFsub 53 1024.
Definition dmul : double → double → double := SFmul 53 1024.
Definition ddiv : double → double → double := SFdiv 53 1024.
Definition dltb : double → double → bool := SFltb.
Definition dleb : double → double → bool := SFleb.
Definition deqb : double → double → bool := SFeqb.

(** ** The machine *)

(** What the C code is compiled for. *)
Inductive platform := I386 | Alpha | Other.

(** The counter registers (high and low half), the low half alone, the user time
    of [times] in clock ticks, and [sleep]. *)
Record machine (W : Type) := Machine {
  access_counter : ST W (Z * Z);
  counter : ST W Z;
  times_utime : ST W Z;
  sleep : Z → ST W unit;
}.
Arguments access_counter {W} m.
Arguments counter {W} m.
Arguments times_utime {W} m.
Arguments sleep {W} m.

(** The timing package chosen in [config.h]. *)
Inductive timing := USE_FCYC | USE_ITIMER | USE_GETTOD.

(** What this file prints, and the line of [init_fsecs]. *)
Inductive clock_message :=
  | Measuring (u : timing) | NegativeCounter (v : double) | NotImplemented | ClockRate (v : double) | CycPerTick (v : double).

(** The static data of the file, its output, and the machine's state. *)
Record clock (W : Type) := Clock {
  cyc_hi : Z;
  cyc_lo : Z;
  cyc_per_tick : double;
  start_tick : Z;
  clock_log : list clock_message;
  world : W;
}.
Arguments Clock {W} cyc_hi cyc_lo cyc_per_tick start_tick clock_log world.
Arguments cyc_hi {W} c.
Arguments cyc_lo {W} c.
Arguments cyc_per_tick {W} c.
Arguments start_tick {W} c.
Arguments clock_log {W} c.
Arguments world {W} c.

Section Clock.
Context {W : Type} (M : machine W) (P : platform).

Definition on_world {A} (m : ST W A) : ST (clock W) A := λ c,
  match m (world c) with
  | Ok (a, w) => Ok (a, Clock (cyc_hi c) (cyc_lo c) (cyc_per_tick c) (start_tick c) (clock_log c) w)
  | Err e => Err e
  end.

Definition set_counter (hi lo : Z) : ST (clock W) unit :=
  modify (λ c, Clock hi lo (cyc_per_tick c) (start_tick c) (clock_log c) (world c)).

Definition clock_say (m : clock_message) : ST (clock W) unit :=
  modify (λ c, Clock (cyc_hi c) (cyc_lo c) (cyc_per_tick c) (start_tick c) (clock_log c ++ [m]) (world c)).

Definition set_cyc_per_tick (v : double) : ST (clock W) unit :=
  modify (λ c, Clock (cyc_hi c) (cyc_lo c) v (start_tick c) (clock_log c) (world c)).

Definition set_start_tick (v : Z) : ST (clock W) unit :=
  modify (λ c, Clock (cyc_hi c) (cyc_lo c) (cyc_per_tick c) v (clock_log c) (world c)).

(** The subtraction on [unsigned]s: the high and the low half. *)
Definition counter_difference (ncyc_hi ncyc_lo cyc_hi cyc_lo : Z) : Z * Z :=
  let lo := (ncyc_lo - cyc_lo) mod 2 ^ 32 in
  let borrow := if lo >? ncyc_lo then 1 else 0 in
  let hi := (ncyc_hi - cyc_hi - borrow) mod 2 ^ 32 in
  (hi, lo).

(** The two halves as a [double]. *)
Definition counter_value (hi lo : Z) : double :=
  dadd (dmul (dmul (of_Z hi) (of_Z (Z.shiftl 1 30))) (of_Z 4)) (of_Z lo).

(** What follows the reading in both versions of [get_counter]. *)
Definition elapsed (ncyc_hi ncyc_lo : Z) : ST (clock W) double :=
  c ← get;
  let '(hi, lo) := counter_difference ncyc_hi ncyc_lo (cyc_hi c) (cyc_lo c) in
  let result := counter_value hi lo in
  (if dltb result (of_Z 0) then clock_say (NegativeCounter result) else mret tt);;
  mret result.

(** The Pentium version. *)
Definition i386_start_counter : ST (clock W) unit :=
  '(hi, lo) ← on_world (access_counter M); set_counter hi lo.

Definition i386_get_counter : ST (clock W) double :=
  '(ncyc_hi, ncyc_lo) ← on_world (access_counter M); elapsed ncyc_hi ncyc_lo.

(** The Alpha version. *)
Definition alpha_start_counter : ST (clock W) unit :=
  lo ← on_world (counter M); set_counter 0 lo.

Definition alpha_get_counter : ST (clock W) double :=
  ncyc_lo ← on_world (counter M); elapsed 0 ncyc_lo.

(** The version of all other platforms. *)
Definition other_start_counter : ST (clock W) unit := clock_say NotImplemented;; fail (Exit 1).

Definition other_get_counter : ST (clock W) double := clock_say NotImplemented;; fail (Exit 1).

(** [start_counter] and [get_counter] *)
Definition start_counter : ST (clock W) unit :=
  match P with
  | I386 => i386_start_counter
  | Alpha => alpha_start_counter
  | Other => other_start_counter
  end.

Definition get_counter : ST (clock W) double :=
  match P with
  | I386 => i386_get_counter
  | Alpha => alpha_get_counter
  | Other => other_get_counter
  end.

(** [ovhd] *)
Definition ovhd : ST (clock W) double :=
  start_counter;; get_counter;;
  start_counter;; get_counter.

(** [mhz_full] and [mhz] *)
Definition mhz_full (verbose : bool) (sleeptime : Z) : ST (clock W) double :=
  start_counter;;
  on_world (sleep M sleeptime);;
  cycles ← get_counter;
  let rate := ddiv cycles (dmul (of_Z 1000000) (of_Z sleeptime)) in
  (if verbose then clock_say (ClockRate rate) else mret tt);;
  mret rate.

Definition mhz (verbose : bool) : ST (clock W) double := mhz_full verbose 2.

Definition NEVENT : Z := 100.
Definition THRESHOLD : Z := 1000.
Definition RECORDTHRESH : Z := 3000.

(** The value of [cyc_per_tick] after an event of [cpt] cycles per tick. *)
Definition record_event (cur cpt : double) : double :=
  if (deqb cur (of_Z 0) || dltb cpt cur) && dltb (of_Z RECORDTHRESH) cpt then cpt else cur.

(** The loop of [callibrate], for at most [fuel] readings. *)
Fixpoint callibrate_loop (fuel : nat) (e oldc : Z) (oldt : double) : ST (clock W) unit :=
  if negb (e <? NEVENT) then mret tt
  else match fuel with
       | O => fail NoFuel
       | S fuel' =>
           newt ← get_counter;
           if dleb (of_Z THRESHOLD) (dsub newt oldt) then
             newc ← on_world (times_utime M);
             if newc >? oldc then
               let cpt := ddiv (dsub newt oldt) (of_Z (newc - oldc)) in
               c ← get;
               set_cyc_per_tick (record_event (cyc_per_tick c) cpt);;
               callibrate_loop fuel' (e + 1) newc newt
             else callibrate_loop fuel' e oldc newt
           else callibrate_loop fuel' e oldc oldt
       end.

(** [callibrate] *)
Definition callibrate (fuel : nat) (verbose : bool) : ST (clock W) unit :=
  oldc ← on_world (times_utime M);
  start_counter;;
  oldt ← get_counter;
  callibrate_loop fuel 0 oldc oldt;;
  c ← get;
  if verbose then clock_say (CycPerTick (cyc_per_tick c)) else mret tt.

(** [start_comp_counter] *)
Definition start_comp_counter (fuel : nat) : ST (clock W) unit :=
  c ← get;
  (if deqb (cyc_per_tick c) (of_Z 0) then callibrate fuel false else mret tt);;
  t ← on_world (times_utime M);
  set_start_tick t;;
  start_counter.

(** [get_comp_counter] *)
Definition get_comp_counter : ST (clock W) double :=
  time ← get_counter;
  t ← on_world (times_utime M);
  c ← get;
  let ticks := t - start_tick c in
  mret (dsub time (dmul (of_Z ticks) (cyc_per_tick c))).
End Clock.
