(* ===== verification/Fcyc.v ===== *)
(** * Timing a function: [6-malloc-haininz/fcyc.c], [ftimer.c] and [fsecs.c].

    The K-best scheme over the cycle counters, the averages over the interval
    timer and [gettimeofday], and the choice between them.  The function timed
    and the timers of the system are inputs of the model. *)

From Stdlib Require Import ZArith Lia SpecFloat.
From stdpp Require Import base gmap numbers option list.
From S2P Require Import Prelude Clock.

Open Scope Z_scope.

(** ** [fcyc.c] *)

(** The parameters of the measurement. *)
Record params := Params {
  kbest : Z;
  maxsamples : Z;
  epsilon : double;
  compensate : Z;
  clear_cache : Z;
  cache_bytes : Z;
  cache_block : Z;
}.

(** Their default values: [EPSILON] is the double nearest to 0.01. *)
Definition default_params : params :=
  Params 3 20 (ddiv (of_Z 1) (of_Z 100)) 0 0 (Z.shiftl 1 19) 32.

(** The other static data, with the clock.  [cache_buf] holds the words of the
    buffer, when there is one. *)
Record sampler (W : Type) := Sampler {
  prm : params;
  cache_buf : option (list Z);
  values : option (list double);
  samplecount : Z;
  sink : Z;
  clk : clock W;
}.
Arguments Sampler {W} prm cache_buf values samplecount sink clk.
Arguments prm {W} s.
Arguments cache_buf {W} s.
Arguments values {W} s.
Arguments samplecount {W} s.
Arguments sink {W} s.
Arguments clk {W} s.

Section Fcyc.
Context {W : Type}.

Abbreviation fc := (ST (sampler W)).

Definition set_params (p : params) : fc unit :=
  modify (λ s, Sampler p (cache_buf s) (values s) (samplecount s) (sink s) (clk s)).
Definition set_cache_buf (b : option (list Z)) : fc unit :=
  modify (λ s, Sampler (prm s) b (values s) (samplecount s) (sink s) (clk s)).
Definition set_values (v : option (list double)) : fc unit :=
  modify (λ s, Sampler (prm s) (cache_buf s) v (samplecount s) (sink s) (clk s)).
Definition set_samplecount (n : Z) : fc unit :=
  modify (λ s, Sampler (prm s) (cache_buf s) (values s) n (sink s) (clk s)).
Definition set_sink (x : Z) : fc unit :=
  modify (λ s, Sampler (prm s) (cache_buf s) (values s) (samplecount s) x (clk s)).

Definition on_clock {A} (m : ST (clock W) A) : fc A := λ s,
  match m (clk s) with
  | Ok (a, c) => Ok (a, Sampler (prm s) (cache_buf s) (values s) (samplecount s) (sink s) c)
  | Err e => Err e
  end.

(** The result of an operation on [int]s. *)
Definition int_result (v : Z) : fc Z :=
  if (- 2 ^ 31 <=? v) && (v <? 2 ^ 31) then mret v else fail SignedOverflow.

(** [values[i]] *)
Definition value_at (i : Z) : fc double := λ s,
  deref (match values s with Some l => zlookup l i | None => None end) s.

(** [values[i] = v] *)
Definition put_value (i : Z) (v : double) : fc unit :=
  value_at i;;
  s ← get;
  set_values ((λ l, zinsert l i v) <$> values s).

(** [init_sampler]; [calloc_ok] says whether there is memory, and a negative
    count is more than there can be. *)
Definition init_sampler (calloc_ok : bool) : fc unit :=
  s ← get;
  let k := kbest (prm s) in
  set_values (if calloc_ok && (0 <=? k) then Some (replicate (Z.to_nat k) (of_Z 0)) else None);;
  set_samplecount 0.

(** The insertion sort of [add_sample], from position [pos] down. *)
Fixpoint sift (pos : nat) : fc unit :=
  match pos with
  | O => mret tt
  | S pos' =>
      a ← value_at (Z.of_nat pos');
      b ← value_at (Z.of_nat pos);
      if dltb b a then
        put_value (Z.of_nat pos') b;;
        put_value (Z.of_nat pos) a;;
        sift pos'
      else mret tt
  end.

(** [add_sample] *)
Definition add_sample (val : double) : fc unit :=
  s ← get;
  let k := kbest (prm s) in
  pos ← (if samplecount s <? k then
           put_value (samplecount s) val;; mret (samplecount s)
         else
           last ← value_at (k - 1);
           if dltb val last then put_value (k - 1) val;; mret (k - 1) else mret 0);
  n ← int_result (samplecount s + 1);
  set_samplecount n;;
  sift (Z.to_nat pos).

(** [has_converged] *)
Definition has_converged : fc bool :=
  s ← get;
  let k := kbest (prm s) in
  if samplecount s >=? k then
    best ← value_at 0;
    worst ← value_at (k - 1);
    mret (dleb worst (dmul (dadd (of_Z 1) (epsilon (prm s))) best))
  else mret false.

(** The loop of [clear] over the words of the buffer: [i] is [cptr], [n] is
    [cend]. *)
Fixpoint clear_loop (fuel : nat) (buf : list Z) (i n incr x : Z) : fc Z :=
  if negb (i <? n) then mret x
  else match fuel with
       | O => fail NoFuel
       | S fuel' =>
           w ← (λ s, deref (zlookup buf i) s);
           x ← int_result (x + w);
           clear_loop fuel' buf (i + incr) n incr x
       end.

(** [bytes / sizeof(int)]: the [int] is converted to an unsigned 64-bit number. *)
Definition in_words (bytes : Z) : Z := (bytes mod 2 ^ 64) / 4.

(** [clear]; [malloc_words] is what [malloc] gives for the buffer. *)
Definition clear (malloc_words : option (list Z)) : fc unit :=
  s ← get;
  let x := sink s in
  let incr := (in_words (cache_block (prm s)) + 2 ^ 31) mod 2 ^ 32 - 2 ^ 31 in
  buf ← match cache_buf s with
        | Some b => mret b
        | None =>
            match malloc_words with
            | Some b => set_cache_buf (Some b);; mret b
            | None => fail (Exit 1)
            end
        end;
  let n := in_words (cache_bytes (prm s)) in
  x ← clear_loop (Z.to_nat n) buf 0 n incr x;
  set_sink x.

(** One measurement: the body of the loops of [fcyc] before [add_sample]. *)
Definition measure (start : ST (clock W) unit) (stop : ST (clock W) double) (f : ST W unit)
    (malloc_words : option (list Z)) : fc double :=
  s ← get;
  (if negb (clear_cache (prm s) =? 0) then clear malloc_words else mret tt);;
  on_clock start;;
  on_clock (on_world f);;
  on_clock stop.

(** The [do ... while] loops of [fcyc], for at most [fuel] more rounds. *)
Fixpoint sample_loop (fuel : nat) (m : fc double) : fc unit :=
  match fuel with
  | O => fail NoFuel
  | S fuel' =>
      cyc ← m;
      add_sample cyc;;
      done ← has_converged;
      s ← get;
      if negb done && (samplecount s <? maxsamples (prm s)) then sample_loop fuel' m else mret tt
  end.

(** [fcyc] *)
Definition fcyc (calloc_ok : bool) (M : machine W) (P : platform) (comp_fuel : nat) (f : ST W unit)
    (malloc_words : option (list Z)) : fc double :=
  init_sampler calloc_ok;;
  s ← get;
  (if negb (compensate (prm s) =? 0) then
     sample_loop (S (Z.to_nat (maxsamples (prm s))))
       (measure (start_comp_counter M P comp_fuel) (get_comp_counter M P) f malloc_words)
   else
     sample_loop (S (Z.to_nat (maxsamples (prm s))))
       (measure (start_counter M P) (get_counter M P) f malloc_words));;
  result ← value_at 0;
  set_values None;;
  mret result.

(** [set_fcyc_clear_cache] and the other setters. *)
Definition set_fcyc_clear_cache (clear : Z) : fc unit :=
  s ← get; let p := prm s in
  set_params (Params (kbest p) (maxsamples p) (epsilon p) (compensate p) clear (cache_bytes p) (cache_block p)).

Definition set_fcyc_cache_size (bytes : Z) : fc unit :=
  s ← get; let p := prm s in
  if negb (bytes =? cache_bytes p) then
    set_params (Params (kbest p) (maxsamples p) (epsilon p) (compensate p) (clear_cache p) bytes (cache_block p));;
    set_cache_buf None
  else mret tt.

Definition set_fcyc_cache_block (bytes : Z) : fc unit :=
  s ← get; let p := prm s in
  set_params (Params (kbest p) (maxsamples p) (epsilon p) (compensate p) (clear_cache p) (cache_bytes p) bytes).

Definition set_fcyc_compensate (compensate_arg : Z) : fc unit :=
  s ← get; let p := prm s in
  set_params (Params (kbest p) (maxsamples p) (epsilon p) compensate_arg (clear_cache p) (cache_bytes p) (cache_block p)).

Definition set_fcyc_k (k : Z) : fc unit :=
  s ← get; let p := prm s in
  set_params (Params k (maxsamples p) (epsilon p) (compensate p) (clear_cache p) (cache_bytes p) (cache_block p)).

Definition set_fcyc_maxsamples (maxsamples_arg : Z) : fc unit :=
  s ← get; let p := prm s in
  set_params (Params (kbest p) maxsamples_arg (epsilon p) (compensate p) (clear_cache p) (cache_bytes p) (cache_block p)).

Definition set_fcyc_epsilon (epsilon_arg : double) : fc unit :=
  s ← get; let p := prm s in
  set_params (Params (kbest p) (maxsamples p) epsilon_arg (compensate p) (clear_cache p) (cache_bytes p) (cache_block p)).

(** ** [ftimer.c] *)

(** The timers of the system: setting the three interval timers, reading the
    real one (seconds and microseconds left), and the time of day. *)
Record timers := MkTimers {
  setitimers : Z * Z → ST W unit;
  getitimer_real : ST W (Z * Z);
  gettimeofday : ST W (Z * Z);
}.

Definition MAX_ETIME : Z := 86400.

(** [for (i = 0; i < n; i++) f(argp)] *)
Fixpoint repeat_f (n : nat) (f : ST W unit) : ST W unit :=
  match n with O => mret tt | S n' => f;; repeat_f n' f end.

(** [init_etime]: the initial value of the three timers. *)
Definition init_etime (T : timers) : ST W (Z * Z) :=
  setitimers T (MAX_ETIME, 0);; mret (MAX_ETIME, 0).

(** [get_etime]; the readings of the other two timers are not used. *)
Definition get_etime (T : timers) (first_p : Z * Z) : ST W double :=
  '(sec, usec) ← getitimer_real T;
  mret (dadd (of_Z (first_p.1 - sec)) (dmul (of_Z (first_p.2 - usec)) (ddiv (of_Z 1) (of_Z 1000000)))).

(** [ftimer_itimer] *)
Definition ftimer_itimer (T : timers) (f : ST W unit) (n : Z) : ST W double :=
  first_p ← init_etime T;
  start ← get_etime T first_p;
  repeat_f (Z.to_nat n) f;;
  stop ← get_etime T first_p;
  mret (ddiv (dsub stop start) (of_Z n)).

(** [ftimer_gettod] *)
Definition ftimer_gettod (T : timers) (f : ST W unit) (n : Z) : ST W double :=
  stv ← gettimeofday T;
  repeat_f (Z.to_nat n) f;;
  etv ← gettimeofday T;
  let diff := dadd (dmul (of_Z 1000) (of_Z (etv.1 - stv.1)))
                   (dmul (ddiv (of_Z 1) (of_Z 1000)) (of_Z (etv.2 - stv.2))) in
  mret (dmul (ddiv (of_Z 1) (of_Z 1000)) (ddiv diff (of_Z n))).

(** ** [fsecs.c] *)

(** The sampler and [Mhz]. *)
Record fsecs_state := FsecsState { fs_sampler : sampler W; Mhz : double }.

Definition on_sampler {A} (m : fc A) : ST fsecs_state A := λ s,
  match m (fs_sampler s) with
  | Ok (a, x) => Ok (a, FsecsState x (Mhz s))
  | Err e => Err e
  end.

Definition set_mhz (v : double) : ST fsecs_state unit := modify (λ s, FsecsState (fs_sampler s) v).

(** [init_fsecs] *)
Definition init_fsecs (U : timing) (M : machine W) (P : platform) (verbose : bool) : ST fsecs_state unit :=
  set_mhz (of_Z 0);;
  (if verbose then on_sampler (on_clock (clock_say (Measuring U))) else mret tt);;
  match U with
  | USE_FCYC =>
      on_sampler (set_fcyc_maxsamples 20);;
      on_sampler (set_fcyc_clear_cache 1);;
      on_sampler (set_fcyc_compensate 1);;
      on_sampler (set_fcyc_epsilon (ddiv (of_Z 1) (of_Z 100)));;
      on_sampler (set_fcyc_k 3);;
      rate ← on_sampler (on_clock (mhz M P verbose));
      set_mhz rate
  | USE_ITIMER | USE_GETTOD => mret tt
  end.

(** [fsecs] *)
Definition fsecs (U : timing) (calloc_ok : bool) (M : machine W) (P : platform) (T : timers)
    (comp_fuel : nat) (malloc_words : option (list Z)) (f : ST W unit) : ST fsecs_state double :=
  match U with
  | USE_FCYC =>
      cycles ← on_sampler (fcyc calloc_ok M P comp_fuel f malloc_words);
      s ← get;
      mret (ddiv cycles (dmul (Mhz s) (of_Z 1000000)))
  | USE_ITIMER => on_sampler (on_clock (on_world (ftimer_itimer T f 10)))
  | USE_GETTOD => on_sampler (on_clock (on_world (ftimer_gettod T f 10)))
  end.
End Fcyc.
Arguments timers W : clear implicits.
Arguments fsecs_state W : clear implicits.
