(* ===== verification/FcycProofs.v ===== *)
(** * The K-best scheme keeps the K smallest samples, in order.

    Doubles that are no NaN are ordered; the array of [fcyc.c] after any number
    of samples is the front of their insertion sort. *)

From Stdlib Require Import ZArith Lia SpecFloat Sorted.
From stdpp Require Import base gmap numbers option sorting list.
From S2P Require Import Prelude Clock Fcyc.

Open Scope Z_scope.

(** ** Signs *)

(** Not a NaN and not negative. *)
Definition nonneg (x : double) : Prop :=
  match x with
  | S754_zero _ => True
  | S754_infinity s | S754_finite s _ _ => s = false
  | S754_nan => False
  end.

Lemma shr_1_nonneg r : 0 ≤ shr_m r → 0 ≤ shr_m (shr_1 r).
Proof. destruct r as [[|[m|m|]|m] a b]; simpl; lia. Qed.

Lemma iter_shr_nonneg (p : positive) : ∀ r : shr_record, 0 ≤ shr_m r → 0 ≤ shr_m (SpecFloat.iter_pos shr_1 p r).
Proof. induction p as [p IH|p IH|]; intros r Hr; cbn [SpecFloat.iter_pos]; auto using shr_1_nonneg. Qed.

Lemma shr_fexp_nonneg m e l : 0 ≤ m → 0 ≤ shr_m (shr_fexp 53 1024 m e l).1.
Proof.
  intros Hm. unfold shr_fexp, shr. assert (0 ≤ shr_m (shr_record_of_loc m l)) as Hr by (by destruct l as [|[]]).
  destruct (_ - _); [done|by apply iter_shr_nonneg|done].
Qed.

Lemma round_aux_nonneg m e l : 0 ≤ m → nonneg (binary_round_aux 53 1024 false m e l).
Proof.
  intros Hm. unfold binary_round_aux. pose proof (shr_fexp_nonneg m e l Hm) as H1.
  destruct (shr_fexp 53 1024 m e l) as [r1 e1]. cbn [fst] in H1.
  assert (0 ≤ round_nearest_even (shr_m r1) (loc_of_shr_record r1)) as H2.
  { unfold round_nearest_even. destruct (loc_of_shr_record r1) as [|[]]; try lia. destruct (Z.even _); lia. }
  pose proof (shr_fexp_nonneg _ e1 loc_Exact H2) as H3.
  destruct (shr_fexp _ _ _ e1 loc_Exact) as [r2 e2]. cbn [fst] in H3.
  destruct (shr_m r2) as [|p|p]; [done| |lia]. by destruct (_ <=? _).
Qed.

Lemma normalize_nonneg m e b : 0 ≤ m → nonneg (binary_normalize 53 1024 m e b).
Proof.
  destruct m as [|m|m]; intros Hm; [done| |lia]. cbn [binary_normalize]. unfold binary_round.
  destruct (shl_align _ _ _). by apply round_aux_nonneg.
Qed.

Lemma dadd_nonneg x y : nonneg x → nonneg y → nonneg (dadd x y).
Proof.
  unfold dadd. destruct x as [[]|[]| |[] mx ex], y as [[]|[]| |[] my ey]; try done; intros _ _.
  cbn [SFadd cond_Zopp]. apply normalize_nonneg. lia.
Qed.

(** Times a positive number that is finite. *)
Lemma dmul_nonneg x m e : nonneg x → nonneg (dmul x (S754_finite false m e)).
Proof.
  unfold dmul. destruct x as [[]|[]| |[] mx ex]; try done; intros _. cbn [SFmul xorb]. by apply round_aux_nonneg.
Qed.

Lemma nonneg_not_below x : nonneg x → dltb x (of_Z 0) = false.
Proof. destruct x as [[]|[]| |[] mx ex]; done. Qed.

(** ** The order of doubles *)

Definition is_nan (x : double) : bool := match x with S754_nan => true | _ => false end.

(** The place of a double: its class and sign, its exponent, its mantissa. *)
Definition key (x : double) : Z * Z * Z :=
  match x with
  | S754_infinity true => (-2, 0, 0)
  | S754_finite true m e => (-1, - e, - Z.pos m)
  | S754_zero _ | S754_nan => (0, 0, 0)
  | S754_finite false m e => (1, e, Z.pos m)
  | S754_infinity false => (2, 0, 0)
  end.

Definition key_lt (a b : Z * Z * Z) : Prop :=
  a.1.1 < b.1.1 ∨ a.1.1 = b.1.1 ∧ (a.1.2 < b.1.2 ∨ a.1.2 = b.1.2 ∧ a.2 < b.2).

Lemma dltb_key x y :
  is_nan x = false → is_nan y = false → dltb x y = true ↔ key_lt (key x) (key y).
Proof.
  unfold dltb, SFltb, SFcompare, key_lt. destruct x as [sx|sx| |sx mx ex], y as [sy|sy| |sy my ey]; try done; intros _ _.
  all: try (destruct sx); try (destruct sy); simpl; try (split; [intros; try done; lia|intros; try done; lia]).
  all: destruct (Z.compare_spec ex ey); try change (Pos.compare_cont Eq mx my) with (mx ?= my)%positive;
    try destruct (Pos.compare_spec mx my); simpl; split; intros; try done; lia.
Qed.

(** Not above: the order in which samples are kept. *)
Definition leq (x y : double) : Prop := dltb y x = false.

Abbreviation proper_double := (λ x : double, is_nan x = false).

Lemma leq_key x y : proper_double x → proper_double y → leq x y ↔ ¬ key_lt (key y) (key x).
Proof. intros Hx Hy. unfold leq. rewrite <-dltb_key by done. by rewrite not_true_iff_false. Qed.

Lemma leq_trans x y z :
  proper_double x → proper_double y → proper_double z → leq x y → leq y z → leq x z.
Proof. intros Hx Hy Hz. rewrite !leq_key by done. unfold key_lt. lia. Qed.

Lemma dltb_leq x y : proper_double x → proper_double y → dltb x y = true → leq x y.
Proof. intros Hx Hy. rewrite leq_key, dltb_key by done. unfold key_lt. lia. Qed.

Lemma leq_refl x : proper_double x → leq x x.
Proof. intros Hx. rewrite leq_key by done. unfold key_lt. lia. Qed.

(** ** Insertion sort *)

(** After the elements that are not above [x]. *)
Fixpoint ins (x : double) (l : list double) : list double :=
  match l with
  | [] => [x]
  | y :: l' => if dltb x y then x :: l else y :: ins x l'
  end.

Definition isort (vs : list double) : list double := foldl (λ l x, ins x l) [] vs.

Lemma ins_perm x l : ins x l ≡ₚ x :: l.
Proof.
  induction l as [|y l IH]; simpl; [done|]. destruct (dltb x y); [done|]. rewrite IH. apply Permutation_swap.
Qed.

Lemma isort_snoc vs x : isort (vs ++ [x]) = ins x (isort vs).
Proof. unfold isort. by rewrite foldl_app. Qed.

Lemma isort_perm vs : isort vs ≡ₚ vs.
Proof.
  induction vs as [|x vs IH] using rev_ind; [done|]. rewrite isort_snoc, ins_perm, IH.
  apply Permutation_cons_append.
Qed.

Lemma length_isort vs : length (isort vs) = length vs.
Proof. by rewrite isort_perm. Qed.

Lemma isort_proper vs : Forall proper_double vs → Forall proper_double (isort vs).
Proof. intros H. by rewrite isort_perm. Qed.

Lemma ins_sorted x l :
  proper_double x → Forall proper_double l → StronglySorted leq l → StronglySorted leq (ins x l).
Proof.
  intros Hx Hl Hs. revert Hl. induction Hs as [|y l Hs IH Hy]; intros Hl; [by repeat constructor|].
  apply Forall_cons in Hl as [Hpy Hl]. simpl. destruct (dltb x y) eqn:Hxy.
  - constructor; [by constructor|]. constructor; [by apply dltb_leq|].
    rewrite Forall_forall in Hy, Hl |- *. intros z Hz. eapply leq_trans; [..|by apply Hy]; auto.
    by apply dltb_leq.
  - constructor; [by apply IH|]. rewrite ins_perm. by constructor.
Qed.

Lemma isort_sorted vs : Forall proper_double vs → StronglySorted leq (isort vs).
Proof.
  induction vs as [|x vs IH] using rev_ind; [constructor|].
  intros [Hvs [Hx _]%Forall_cons]%Forall_app. rewrite isort_snoc.
  apply ins_sorted; [done|by apply isort_proper|by apply IH].
Qed.

(** What a sorted list holds up to position [j] is not above what it holds there. *)
Lemma sorted_front l j y z :
  Forall proper_double l → StronglySorted leq l → l !! j = Some y → z ∈ take (S j) l → leq z y.
Proof.
  intros Hl Hs. revert j Hl. induction Hs as [|x l Hs IH Hx]; intros j Hl Hj Hz; [done|].
  apply Forall_cons in Hl as [Hpx Hl]. destruct j as [|j]; simpl in *.
  - injection Hj as ->. rewrite take_0 in Hz. apply list_elem_of_singleton in Hz as ->. by apply leq_refl.
  - apply elem_of_cons in Hz as [->|Hz]; [|by eapply IH].
    rewrite Forall_forall in Hx. apply Hx. by eapply list_elem_of_lookup_2.
Qed.

Lemma ins_snoc x l a : dltb x a = true → ins x (l ++ [a]) = ins x l ++ [a].
Proof.
  intros Ha. induction l as [|y l IH]; simpl; [by rewrite Ha|]. destruct (dltb x y); [done|]. by rewrite IH.
Qed.

(** Past a front that is not above [x]. *)
Lemma ins_past x l1 l2 : (∀ z, z ∈ l1 → leq z x) → ins x (l1 ++ l2) = l1 ++ ins x l2.
Proof.
  induction l1 as [|y l1 IH]; intros H; [done|]. simpl. rewrite H by set_solver. f_equal.
  apply IH. set_solver.
Qed.

(** The front of a list after an insertion: [x] goes in when it is below the
    element at the end of the front, and not otherwise. *)
Lemma take_ins_below x l j y :
  l !! j = Some y → dltb x y = true → take (S j) (ins x l) = ins x (take j l).
Proof.
  revert j. induction l as [|z l IH]; intros j Hj Hx; [done|]. destruct j as [|j]; simpl in Hj.
  - injection Hj as ->. cbn [ins]. rewrite Hx. by rewrite take_0.
  - cbn [ins take]. destruct (dltb x z) eqn:Hz; cbn [take]; f_equal.
    by apply (IH j).
Qed.

Lemma take_ins_above x l j y :
  Forall proper_double l → proper_double x → StronglySorted leq l → l !! j = Some y → dltb x y = false →
  take (S j) (ins x l) = take (S j) l.
Proof.
  intros Hl Hx Hs Hj Hy. rewrite <-(take_drop (S j) l) at 1. rewrite ins_past.
  - rewrite take_app_le by (rewrite length_take; apply lookup_lt_Some in Hj; lia).
    apply take_ge. rewrite length_take. lia.
  - intros z Hz. pose proof (sorted_front l j y z Hl Hs Hj Hz) as Hzy. rewrite Forall_forall in Hl.
    apply leq_trans with y; [|by eapply Hl, list_elem_of_lookup_2|done..].
    apply elem_of_take in Hz as (i & Hi & _). by eapply Hl, list_elem_of_lookup_2.
Qed.

(** ** The array *)

Section Sampler.
Context {W : Type}.

(** The state with the array [l]. *)
Definition holding (l : list double) (s : sampler W) : sampler W :=
  Sampler (prm s) (cache_buf s) (Some l) (samplecount s) (sink s) (clk s).

Lemma value_at_Ok l s (i : nat) x : l !! i = Some x → value_at (Z.of_nat i) (holding l s) = Ok (x, holding l s).
Proof.
  intros Hi. unfold value_at. cbn [values holding]. unfold zlookup.
  rewrite (proj2 (Z.ltb_ge _ 0)) by lia. by rewrite Nat2Z.id, Hi.
Qed.

Lemma put_value_Ok l s (i : nat) x :
  (i < length l)%nat → put_value (Z.of_nat i) x (holding l s) = Ok (tt, holding (<[i := x]> l) s).
Proof.
  intros Hi. destruct (lookup_lt_is_Some_2 l i Hi) as [y Hy]. unfold put_value.
  run (value_at_Ok l s i y Hy). rewrite ST_get. unfold set_values. cbn. unfold zinsert.
  rewrite (proj2 (Z.ltb_ge _ 0)) by lia. by rewrite Nat2Z.id.
Qed.

(** The insertion sort moves the element after a sorted front to its place. *)
Lemma sift_Ok l x r s :
  proper_double x → Forall proper_double l → StronglySorted leq l →
  sift (length l) (holding (l ++ x :: r) s) = Ok (tt, holding (ins x l ++ r) s).
Proof.
  intros Hx. revert r. induction l as [|a l IH] using rev_ind; intros r Hl Hs; [done|].
  apply Forall_app in Hl as [Hl [Ha _]%Forall_cons].
  rewrite length_app, Nat.add_1_r. cbn [sift]. rewrite <-app_assoc. cbn [app].
  assert ((l ++ a :: x :: r) !! length l = Some a) as Hat by (by apply list_lookup_middle).
  assert ((l ++ a :: x :: r) !! S (length l) = Some x) as Hxt.
  { rewrite cons_middle, app_assoc. apply list_lookup_middle. rewrite length_app. simpl. lia. }
  run (value_at_Ok _ s _ _ Hat). run (value_at_Ok _ s _ _ Hxt). destruct (dltb x a) eqn:Hxa.
  - run (put_value_Ok (l ++ a :: x :: r) s (length l) x ltac:(rewrite length_app; simpl; lia)).
    rewrite <-(Nat.add_0_r (length l)) at 2. rewrite insert_app_r. cbn.
    run (put_value_Ok (l ++ x :: x :: r) s (S (length l)) a ltac:(rewrite length_app; simpl; lia)).
    rewrite <-Nat.add_1_r, insert_app_r. cbn. rewrite ins_snoc, <-app_assoc by done. apply IH; [done|].
    by apply StronglySorted_app_1_l in Hs.
  - rewrite <-(app_nil_r (l ++ [a])), ins_past; [by rewrite <-!app_assoc|].
    intros z Hz. apply elem_of_app in Hz as [Hz|Hz]; [|by apply list_elem_of_singleton in Hz as ->].
    apply leq_trans with a; try done; [by rewrite Forall_forall in Hl; apply Hl|].
    by eapply StronglySorted_app_1_elem_of; [apply Hs| |set_solver].
Qed.

(** The array after the samples [vs], and the state with it. *)
Definition kept (k : nat) (vs : list double) : list double :=
  take k (isort vs) ++ replicate (k - length vs) (of_Z 0).

Definition at_samples (k : nat) (vs : list double) (s : sampler W) : sampler W :=
  Sampler (prm s) (cache_buf s) (Some (kept k vs)) (Z.of_nat (length vs)) (sink s) (clk s).

Definition recount (n : Z) (s : sampler W) : sampler W :=
  Sampler (prm s) (cache_buf s) (values s) n (sink s) (clk s).

Lemma kept_below k vs : (length vs ≤ k)%nat → kept k vs = isort vs ++ replicate (k - length vs) (of_Z 0).
Proof. intros H. unfold kept. rewrite take_ge; [done|by rewrite length_isort]. Qed.

Lemma kept_above k vs : (k ≤ length vs)%nat → kept k vs = take k (isort vs).
Proof.
  intros H. unfold kept. replace (k - length vs)%nat with O by lia. apply app_nil_r.
Qed.

(** A sample among the first [k]. *)
Lemma add_sample_early k vs x s :
  kbest (prm s) = Z.of_nat k → (length vs < k)%nat → Forall proper_double vs → proper_double x →
  Z.of_nat (length vs) + 1 < 2 ^ 31 →
  add_sample x (at_samples k vs s) = Ok (tt, at_samples k (vs ++ [x]) s).
Proof.
  intros Hk Hlt Hvs Hx Hmax. unfold add_sample. rewrite ST_get. cbn [samplecount prm at_samples].
  rewrite Hk, (proj2 (Z.ltb_lt _ _)) by lia.
  set (s0 := recount (Z.of_nat (length vs)) s).
  assert (put_value (Z.of_nat (length vs)) x (at_samples k vs s) =
    Ok (tt, holding (isort vs ++ x :: replicate (k - S (length vs)) (of_Z 0)) s0)) as Hput.
  { change (at_samples k vs s) with (holding (kept k vs) s0). rewrite put_value_Ok.
    - rewrite kept_below by lia. replace (k - length vs)%nat with (S (k - S (length vs))) by lia.
      rewrite <-(length_isort vs) at 1. rewrite <-(Nat.add_0_r (length (isort vs))), insert_app_r. done.
    - rewrite kept_below by lia. rewrite length_app, length_replicate, length_isort. lia. }
  rewrite (ST_bind_Ok _ _ _ (Z.of_nat (length vs)) (holding (isort vs ++ x :: replicate (k - S (length vs)) (of_Z 0)) s0)).
  2: { by run Hput. }
  unfold int_result. rewrite (proj2 (Z.leb_le _ _)), (proj2 (Z.ltb_lt _ _)) by lia. cbn [andb].
  rewrite ST_ret_bind. unfold set_samplecount. rewrite ST_modify, Nat2Z.id, <-(length_isort vs).
  pose proof (sift_Ok (isort vs) x (replicate (k - S (length vs)) (of_Z 0)) (recount (Z.of_nat (length (vs ++ [x]))) s)
    Hx (isort_proper vs Hvs) (isort_sorted vs Hvs)) as Hsift.
  unfold at_samples. rewrite kept_below by (rewrite length_app; simpl; lia).
  rewrite isort_snoc, length_isort, length_app, Nat.add_1_r in *.
  replace (Z.of_nat (length vs) + 1) with (Z.of_nat (S (length vs))) by lia. exact Hsift.
Qed.

(** A later sample: kept when it is below the largest one kept. *)
Lemma add_sample_late k vs x s :
  kbest (prm s) = Z.of_nat (S k) → (S k ≤ length vs)%nat → Forall proper_double vs → proper_double x →
  Z.of_nat (length vs) + 1 < 2 ^ 31 →
  add_sample x (at_samples (S k) vs s) = Ok (tt, at_samples (S k) (vs ++ [x]) s).
Proof.
  intros Hk Hle Hvs Hx Hmax. unfold add_sample. rewrite ST_get. cbn [samplecount prm at_samples].
  rewrite Hk, (proj2 (Z.ltb_ge _ _)) by lia.
  set (s0 := recount (Z.of_nat (length vs)) s).
  destruct (lookup_lt_is_Some_2 (isort vs) k) as [y Hy]; [rewrite length_isort; lia|].
  assert (kept (S k) vs !! k = Some y) as Hky by (rewrite kept_above by lia; by rewrite lookup_take_lt by lia).
  replace (Z.of_nat (S k) - 1) with (Z.of_nat k) by lia.
  change (at_samples (S k) vs s) with (holding (kept (S k) vs) s0).
  assert (at_samples (S k) (vs ++ [x]) s = holding (take (S k) (ins x (isort vs))) (recount (Z.of_nat (length vs) + 1) s)) as ->.
  { unfold at_samples. rewrite kept_above by (rewrite length_app; simpl; lia). rewrite isort_snoc, length_app.
    unfold holding. cbn. by replace (Z.of_nat (length vs + 1)) with (Z.of_nat (length vs) + 1) by lia. }
  pose proof (isort_sorted vs Hvs) as Hs. pose proof (isort_proper vs Hvs) as Hp.
  rewrite (kept_above (S k) vs) in * by lia.
  destruct (dltb x y) eqn:Hxy.
  - rewrite (ST_bind_Ok _ _ _ (Z.of_nat k) (holding (take k (isort vs) ++ [x]) s0)).
    2: { run (value_at_Ok _ s0 k y Hky). rewrite Hxy. rewrite (take_S_r _ _ _ Hy).
         assert (k = length (take k (isort vs))) as Hlen by (rewrite length_take, length_isort; lia).
         run (put_value_Ok (take k (isort vs) ++ [y]) s0 k x ltac:(rewrite length_app; simpl; lia)).
         rewrite Hlen at 2. rewrite <-(Nat.add_0_r (length (take k _))), insert_app_r. done. }
    unfold int_result. rewrite (proj2 (Z.leb_le _ _)), (proj2 (Z.ltb_lt _ _)) by lia. cbn [andb].
    rewrite ST_ret_bind. unfold set_samplecount. rewrite ST_modify, Nat2Z.id.
    rewrite (take_ins_below x _ k y Hy Hxy).
    pose proof (sift_Ok (take k (isort vs)) x [] (recount (Z.of_nat (length vs) + 1) s) Hx) as Hsift.
    rewrite app_nil_r, length_take, length_isort, Nat.min_l in Hsift by lia. apply Hsift.
    + by apply Forall_take.
    + rewrite <-(take_drop k (isort vs)) in Hs. by apply StronglySorted_app_1_l in Hs.
  - rewrite (ST_bind_Ok _ _ _ 0 (holding (take (S k) (isort vs)) s0)).
    2: { run (value_at_Ok _ s0 k y Hky). by rewrite Hxy. }
    unfold int_result. rewrite (proj2 (Z.leb_le _ _)), (proj2 (Z.ltb_lt _ _)) by lia. cbn [andb].
    rewrite ST_ret_bind. unfold set_samplecount. rewrite ST_modify.
    by rewrite (take_ins_above x _ k y Hp Hx Hs Hy Hxy).
Qed.

Lemma add_sample_Ok k vs x s :
  kbest (prm s) = Z.of_nat k → (0 < k)%nat → Forall proper_double vs → proper_double x →
  Z.of_nat (length vs) + 1 < 2 ^ 31 →
  add_sample x (at_samples k vs s) = Ok (tt, at_samples k (vs ++ [x]) s).
Proof.
  intros Hk Hpos. destruct (decide (length vs < k)%nat); [by apply add_sample_early|].
  destruct k as [|k]; [lia|]. apply add_sample_late; [done|lia].
Qed.

(** [has_converged] after the samples [vs]. *)
Definition converged (k : nat) (eps : double) (vs : list double) : bool :=
  (k <=? length vs)%nat &&
  match isort vs !! O, isort vs !! (k - 1)%nat with
  | Some best, Some worst => dleb worst (dmul (dadd (of_Z 1) eps) best)
  | _, _ => false
  end.

Lemma has_converged_Ok k vs s :
  kbest (prm s) = Z.of_nat k → (0 < k)%nat →
  has_converged (at_samples k vs s) = Ok (converged k (epsilon (prm s)) vs, at_samples k vs s).
Proof.
  intros Hk Hpos. unfold has_converged, converged. rewrite ST_get. cbn [samplecount prm at_samples].
  rewrite Hk, Z.geb_leb. destruct (Nat.leb_spec k (length vs)) as [Hle|Hgt]; cbn [andb].
  - rewrite (proj2 (Z.leb_le _ _)) by lia.
    assert (∀ i, (i < k)%nat → ∃ v, isort vs !! i = Some v ∧
      value_at (Z.of_nat i) (at_samples k vs s) = Ok (v, at_samples k vs s)) as Hv.
    { intros i Hi. destruct (lookup_lt_is_Some_2 (isort vs) i) as [v Hvi]; [rewrite length_isort; lia|].
      exists v. split; [done|]. apply (value_at_Ok (kept k vs) (recount (Z.of_nat (length vs)) s)).
      rewrite kept_above by done. by rewrite lookup_take_lt. }
    destruct (Hv O ltac:(lia)) as (b & Hb & Hrb), (Hv (k - 1)%nat ltac:(lia)) as (w & Hw & Hrw).
    replace (Z.of_nat (k - 1)) with (Z.of_nat k - 1) in Hrw by lia.
    run Hrb. run Hrw. by rewrite Hb, Hw.
  - by rewrite (proj2 (Z.leb_gt _ _)) by lia.
Qed.

(** ** Measurements *)

(** One measurement on the clock, and [n] of them in a row. *)
Section Measure.
Context (start : ST (clock W) unit) (stop : ST (clock W) double) (f : ST W unit).

Definition reading : ST (clock W) double := start;; on_world f;; stop.

Fixpoint readings (n : nat) (c : clock W) : result (list double * clock W) :=
  match n with
  | O => Ok ([], c)
  | S n' =>
      match reading c with
      | Ok (v, c') => match readings n' c' with Ok (vs, c'') => Ok (v :: vs, c'') | Err e => Err e end
      | Err e => Err e
      end
  end.

Lemma readings_snoc n c vs c' v c'' :
  readings n c = Ok (vs, c') → reading c' = Ok (v, c'') → readings (S n) c = Ok (vs ++ [v], c'').
Proof.
  revert c vs. induction n as [|n IH]; intros c vs.
  - intros [= <- <-] Hv. cbn [readings]. by rewrite Hv.
  - intros Hn Hv. change (readings (S n) c) with
      (match reading c with
       | Ok (v, c') => match readings n c' with Ok (vs, c'') => Ok (v :: vs, c'') | Err e => Err e end
       | Err e => Err e end) in Hn.
    change (readings (S (S n)) c) with
      (match reading c with
       | Ok (v, c') => match readings (S n) c' with Ok (vs, c'') => Ok (v :: vs, c'') | Err e => Err e end
       | Err e => Err e end).
    destruct (reading c) as [[w c1]|]; [|done]. destruct (readings n c1) as [[ws c2]|] eqn:Hws; [|done].
    injection Hn as <- <-. by rewrite (IH c1 ws Hws Hv).
Qed.

(** The buffer read by [clear] holds zeros, or [clear] is not called. *)
Definition cache_ready (buf : list Z) (s : sampler W) : Prop :=
  clear_cache (prm s) = 0 ∨
  0 ≤ cache_bytes (prm s) < 2 ^ 31 ∧ 4 ≤ cache_block (prm s) < 2 ^ 31 ∧ - 2 ^ 31 ≤ sink s < 2 ^ 31 ∧
  buf = replicate (Z.to_nat (cache_bytes (prm s) / 4)) 0 ∧
  (cache_buf s = None ∨ cache_buf s = Some buf).

Lemma clear_loop_Ok fuel : ∀ m i incr x (s : sampler W),
  0 ≤ i → 0 < incr → - 2 ^ 31 ≤ x < 2 ^ 31 → (Z.to_nat (Z.of_nat m - i) ≤ fuel)%nat →
  clear_loop fuel (replicate m 0) i (Z.of_nat m) incr x s = Ok (x, s).
Proof.
  induction fuel as [|fuel IH]; intros m i incr x s Hi Hincr Hx Hfuel; cbn [clear_loop];
    (destruct (Z.ltb_spec i (Z.of_nat m)) as [Hlt|]; [|done]); cbn [negb]; [lia|].
  assert (zlookup (replicate m 0) i = Some 0) as Hz.
  { unfold zlookup. rewrite (proj2 (Z.ltb_ge i 0)) by lia. apply lookup_replicate. split; [done|lia]. }
  rewrite (ST_bind_Ok _ _ _ 0 s) by (by rewrite Hz). rewrite Z.add_0_r.
  unfold int_result. rewrite (proj2 (Z.leb_le _ _)), (proj2 (Z.ltb_lt _ _)) by lia. cbn [andb].
  rewrite ST_ret_bind. apply IH; lia.
Qed.

(** [clear] touches one word per cache block, inside the buffer, and ends. *)
Lemma clear_Ok buf s :
  clear_cache (prm s) ≠ 0 → cache_ready buf s →
  clear (Some buf) s =
    Ok (tt, Sampler (prm s) (Some buf) (values s) (samplecount s) (sink s) (clk s)).
Proof.
  intros Hc [?|(Hb & Hk & Hx & -> & Hbuf)]; [done|]. unfold clear. rewrite ST_get.
  assert (∀ z, 0 ≤ z < 2 ^ 31 → in_words z = z / 4) as Hw
    by (intros z Hz; unfold in_words; by rewrite Z.mod_small by lia).
  assert ((in_words (cache_block (prm s)) + 2 ^ 31) mod 2 ^ 32 - 2 ^ 31 = cache_block (prm s) / 4) as ->.
  { rewrite Hw by lia. assert (1 ≤ cache_block (prm s) / 4 < 2 ^ 31) by (Z.to_euclidean_division_equations; lia).
    rewrite Z.mod_small; lia. }
  rewrite (Hw (cache_bytes (prm s))) by done.
  set (m := Z.to_nat (cache_bytes (prm s) / 4)).
  set (s1 := Sampler (prm s) (Some (replicate m 0)) (values s) (samplecount s) (sink s) (clk s)).
  rewrite (ST_bind_Ok _ _ _ (replicate m 0) s1).
  2: { destruct Hbuf as [Hbuf|Hbuf]; rewrite Hbuf; [done|]. unfold s1, m. rewrite <-Hbuf. by destruct s. }
  replace (cache_bytes (prm s) / 4) with (Z.of_nat m) by (unfold m; Z.to_euclidean_division_equations; lia).
  run (clear_loop_Ok m m 0 (cache_block (prm s) / 4) (sink s) s1 ltac:(lia)
    ltac:(Z.to_euclidean_division_equations; lia) Hx ltac:(lia)). done.
Qed.

(** A measurement of [fcyc]: only the clock, and the buffer, change. *)
Lemma measure_Ok buf s v c' :
  cache_ready buf s → reading (clk s) = Ok (v, c') →
  ∃ cb, measure start stop f (Some buf) s =
      Ok (v, Sampler (prm s) cb (values s) (samplecount s) (sink s) c') ∧
    cache_ready buf (Sampler (prm s) cb (values s) (samplecount s) (sink s) c').
Proof.
  intros Hready Hread. unfold measure. rewrite ST_get.
  assert (∃ cb, (if negb (clear_cache (prm s) =? 0) then clear (Some buf) else mret tt) s =
      Ok (tt, Sampler (prm s) cb (values s) (samplecount s) (sink s) (clk s)) ∧
    ∀ c, cache_ready buf (Sampler (prm s) cb (values s) (samplecount s) (sink s) c)) as (cb & Hclear & Hr).
  { destruct (Z.eqb_spec (clear_cache (prm s)) 0) as [H0|H0]; cbn [negb].
    - exists (cache_buf s). split; [by destruct s|]. intros c. by left.
    - exists (Some buf). split; [by apply clear_Ok|]. intros c.
      destruct Hready as [?|(Hb & Hk & Hx & Hbuf & _)]; [done|]. right. cbn. auto 10. }
  exists cb. split; [|apply Hr]. run Hclear. unfold reading in Hread.
  apply ST_bind_inv in Hread as ([] & c1 & H1 & Hread). apply ST_bind_inv in Hread as ([] & c2 & H2 & H3).
  assert (∀ (A : Type) (m : ST (clock W) A) x a cc, m (clk x) = Ok (a, cc) →
    on_clock m x = Ok (a, Sampler (prm x) (cache_buf x) (values x) (samplecount x) (sink x) cc)) as Hon
    by (intros A m x a cc Hm; unfold on_clock; by rewrite Hm).
  erewrite ST_bind_Ok; [|by apply Hon]. erewrite ST_bind_Ok; [|by apply Hon]. exact (Hon _ _ _ _ _ H3).
Qed.

(** The loop of [fcyc]: the samples it takes, [n] at the start. *)
Context (Hread : ∀ c, ∃ v c', reading c = Ok (v, c') ∧ proper_double v).

(** When the loop stops after the samples [vs]. *)
Definition stops (p : params) (vs : list double) : bool :=
  converged (Z.to_nat (kbest p)) (epsilon p) vs || (maxsamples p <=? Z.of_nat (length vs)).

Lemma sample_loop_Ok buf c0 fuel : ∀ vs s,
  0 < kbest (prm s) → cache_ready buf s → readings (length vs) c0 = Ok (vs, clk s) →
  Forall proper_double vs → vs = [] ∨ Z.of_nat (length vs) < maxsamples (prm s) → maxsamples (prm s) < 2 ^ 31 →
  (Z.to_nat (maxsamples (prm s)) < length vs + fuel)%nat → (0 < fuel)%nat →
  ∃ ws s', sample_loop fuel (measure start stop f (Some buf)) (at_samples (Z.to_nat (kbest (prm s))) vs s) =
      Ok (tt, at_samples (Z.to_nat (kbest (prm s))) ws s') ∧
    prm s' = prm s ∧ readings (length ws) c0 = Ok (ws, clk s') ∧ Forall proper_double ws ∧
    ws ≠ [] ∧ Z.of_nat (length ws) ≤ Z.max 1 (maxsamples (prm s)) ∧ stops (prm s) ws = true ∧
    vs `prefix_of` ws ∧
    ∀ n, (length vs < n < length ws)%nat → stops (prm s) (take n ws) = false.
Proof.
  induction fuel as [|fuel IH]; intros vs s Hk Hcache Hvs Hp Hlen Hmax Hfuel Hpos; [lia|].
  set (k := Z.to_nat (kbest (prm s))). cbn [sample_loop].
  destruct (Hread (clk s)) as (v & c' & Hv & Hpv).
  destruct (measure_Ok buf (at_samples k vs s) v c' Hcache Hv) as (cb & Hm & Hcache').
  run Hm. set (s1 := Sampler (prm s) cb (values s) (samplecount s) (sink s) c').
  run (add_sample_Ok k vs v s1 ltac:(cbn; lia) ltac:(lia) Hp Hpv ltac:(destruct Hlen; subst; simpl; lia)).
  run (has_converged_Ok k (vs ++ [v]) s1 ltac:(cbn; lia) ltac:(lia)). rewrite ST_get.
  assert (readings (length (vs ++ [v])) c0 = Ok (vs ++ [v], c')) as Hvs'.
  { rewrite length_app, Nat.add_1_r. by eapply readings_snoc. }
  assert (Forall proper_double (vs ++ [v])) as Hp' by (apply Forall_app; split; [done|by constructor]).
  cbn [samplecount prm at_samples s1]. rewrite (length_app vs [v]). cbn [length].
  destruct (converged k (epsilon (prm s)) (vs ++ [v])) eqn:Hc; cbn [negb andb].
  { exists (vs ++ [v]), s1. split_and!; try done; [by destruct vs| | |by apply prefix_app_r|].
    - rewrite length_app. simpl. destruct Hlen; subst; simpl; lia.
    - unfold stops. fold k. by rewrite Hc.
    - intros n. rewrite length_app. simpl. lia. }
  destruct (Z.ltb_spec (Z.of_nat (length vs + 1)) (maxsamples (prm s))) as [Hlt|Hge].
  - destruct (IH (vs ++ [v]) s1) as (ws & s' & Hrun & H1 & H2 & H3 & H4 & H5 & H6 & [ws' ->] & H7);
      try done; rewrite ?length_app; cbn [length prm s1]; [right; lia|lia|lia|].
    exists ((vs ++ [v]) ++ ws'), s'. split_and!; try done; [rewrite <-app_assoc; by apply prefix_app_r|].
    intros n Hn. destruct (decide (n = S (length vs))) as [->|Hne].
    + rewrite take_app_le by (rewrite length_app; simpl; lia). rewrite take_ge by (rewrite length_app; simpl; lia).
      unfold stops. fold k. rewrite Hc. apply Z.leb_gt. rewrite length_app. simpl. lia.
    + apply H7. rewrite (length_app vs [v]). simpl. lia.
  - exists (vs ++ [v]), s1. split_and!; try done; [by destruct vs| | |by apply prefix_app_r|].
    + rewrite length_app. simpl. destruct Hlen; subst; simpl; lia.
    + unfold stops. rewrite (proj2 (Z.leb_le _ _)) by (rewrite length_app; simpl; lia). apply orb_true_r.
    + intros n. rewrite length_app. simpl. lia.
Qed.
End Measure.

(** The first of the sorted samples is the least. *)
Lemma isort_least vs v :
  Forall proper_double vs → isort vs !! O = Some v → v ∈ vs ∧ ∀ w, w ∈ vs → leq v w.
Proof.
  intros Hp Hv. split; [rewrite <-isort_perm; by eapply list_elem_of_lookup_2|].
  intros w. rewrite <-isort_perm. pose proof (isort_sorted vs Hp) as Hs.
  rewrite <-isort_perm in Hp. destruct (isort vs) as [|x l]; [done|]. injection Hv as ->.
  intros [->|Hw]%elem_of_cons; [apply Forall_cons in Hp as [? _]; by apply leq_refl|].
  inversion Hs as [|? ? _ Hall]; subst. rewrite Forall_forall in Hall. by apply Hall.
Qed.
End Sampler.
