(* ===== verification/TimerClaims.v ===== *)
(** * The timing packages: properties. *)

From Stdlib Require Import ZArith Lia SpecFloat Sorted.
From stdpp Require Import base gmap numbers option sorting list.
From S2P Require Import Prelude Clock Fcyc FcycProofs.

Open Scope Z_scope.

(** ** Samples *)

Fixpoint add_samples {W} (vs : list double) : ST (sampler W) unit :=
  match vs with [] => mret tt | v :: vs' => add_sample v;; add_samples vs' end.

Lemma add_samples_Ok {W} (k : nat) (s : sampler W) ws : ∀ vs,
  kbest (prm s) = Z.of_nat k → (0 < k)%nat → Forall proper_double (vs ++ ws) →
  Z.of_nat (length (vs ++ ws)) < 2 ^ 31 →
  add_samples ws (at_samples k vs s) = Ok (tt, at_samples k (vs ++ ws) s).
Proof.
  induction ws as [|w ws IH]; intros vs Hk Hpos Hp Hlen; [by rewrite app_nil_r|].
  rewrite cons_middle, app_assoc in *. pose proof Hp as [[Hvs Hw]%Forall_app _]%Forall_app.
  apply Forall_cons in Hw as [Hw _]. rewrite !length_app in Hlen. cbn [length] in Hlen.
  cbn [add_samples]. rewrite (ST_bind_Ok _ _ _ _ _ (add_sample_Ok k vs w s Hk Hpos Hvs Hw ltac:(lia))).
  apply IH; try done. rewrite !length_app. cbn [length]. lia.
Qed.

Lemma init_sampler_Ok {W} (k : nat) (s : sampler W) :
  kbest (prm s) = Z.of_nat k → init_sampler true s = Ok (tt, at_samples k [] s).
Proof.
  intros Hk. unfold init_sampler. rewrite ST_get, Hk, (proj2 (Z.leb_le _ _)) by lia. cbn [andb].
  unfold set_values. rewrite ST_modify, Nat2Z.id. unfold at_samples, kept. cbn.
  by rewrite take_nil, Nat.sub_0_r.
Qed.

(** C33: [add_sample] implements the K-best scheme: after any sequence of
    samples, none of them a NaN, the array holds the first K elements of their
    insertion sort (which is a sorted permutation of the samples), and zeros
    while there are fewer than K; the count is the number of samples. *)
Theorem add_sample_kbest {W} (s : sampler W) (k : nat) (vs : list double) :
  kbest (prm s) = Z.of_nat k → (0 < k)%nat → Forall proper_double vs → Z.of_nat (length vs) < 2 ^ 31 →
  ∃ s', (init_sampler true;; add_samples vs) s = Ok (tt, s') ∧
    values s' = Some (take k (isort vs) ++ replicate (k - length vs) (of_Z 0)) ∧
    samplecount s' = Z.of_nat (length vs) ∧
    isort vs ≡ₚ vs ∧ StronglySorted (λ x y, dltb y x = false) (isort vs).
Proof.
  intros Hk Hpos Hp Hlen. exists (at_samples k vs s). split.
  - run (init_sampler_Ok k s Hk). by apply (add_samples_Ok k s vs []).
  - split_and!; [done|done|apply isort_perm|by apply isort_sorted].
Qed.

Definition no_counter : clock nat := Clock 0 0 (of_Z 0) 0 [] O.
Definition new_sampler : sampler nat := Sampler default_params None None 0 0 no_counter.

Lemma add_sample_kbest_witness :
  ∃ s', (init_sampler true;; add_samples (of_Z <$> [50; 20; 90; 10; 40])) new_sampler = Ok (tt, s') ∧
    values s' = Some (of_Z <$> [10; 20; 40]).
Proof.
  destruct (add_sample_kbest new_sampler 3 (of_Z <$> [50; 20; 90; 10; 40])) as (s' & Hrun & Hv & _).
  - reflexivity.
  - lia.
  - repeat constructor.
  - reflexivity.
  - exists s'. split; [exact Hrun|]. rewrite Hv. vm_compute. reflexivity.
Defined.

(** ** [fcyc] *)

Section Choice.
Context {W : Type} (M : machine W) (P : platform) (comp_fuel : nat).

End Choice.


(** ** Counters *)









