(* ===== verification/MdriverEval.v ===== *)
(** * The timed evaluations of the driver: [eval_mm_speed], [eval_libc_valid] and
    [eval_libc_speed] of [6-malloc-haininz/mdriver.c].

    They keep no range list and do not look at what the blocks hold. *)

From Stdlib Require Import ZArith Lia.
From stdpp Require Import base gmap numbers option list.
From S2P Require Import Prelude Memlib MmInline Mm MmHeap MmLayout MmProofs MmSpec MmRealloc MmRefine Mdriver.

Open Scope Z_scope.

Section Timed.
Context {St : Type} (run : op → ST St Z) (init : ST St Z).

Abbreviation dr := (ST (driver St)).

(** [trace->blocks[index] = p;] *)
Definition store_block (t : trace) (index p : Z) : dr unit := λ d,
  if (0 <=? index) && (index <? num_ids t) then
    Ok (tt, Driver (heap d) (ranges d) (<[index := p]> (blocks d)) (block_sizes d) (complaints d))
  else Err BadAccess.

(** [memset(p, b, size)] for an [int]: a negative one is a count beyond any
    block. *)
Definition memset_int (p b size : Z) : dr unit :=
  if size <? 0 then fail BadAccess else memset run (Z.to_nat size) p b 0.

(** One request in [eval_mm_speed]; [app_error] exits. *)
Definition speed_op (t : trace) (o : traceop) : dr unit :=
  let index := index o in
  let size := size o in
  match type o with
  | ALLOC =>
      p ← call_mm run (Malloc size);
      if p =? NULL then fail (Exit 1)
      else
        memset_int p (Z.land index 255) size;;
        store_block t index p
  | REALLOC =>
      oldp ← block_at index;
      newp ← call_mm run (Realloc oldp size);
      if newp =? NULL then fail (Exit 1)
      else
        memset_int newp (Z.land index 255) size;;
        store_block t index newp
  | FREE =>
      block ← block_at index;
      call_mm run (Free block);;
      mret tt
  end.

Fixpoint speed_ops (t : trace) (os : list traceop) : dr unit :=
  match os with
  | [] => mret tt
  | o :: os' => speed_op t o;; speed_ops t os'
  end.

(** [eval_mm_speed]; [init] is [mem_reset_brk] and [mm_init]. *)
Definition eval_mm_speed (t : trace) : dr unit :=
  r ← on_heap init;
  if r <? 0 then fail (Exit 1) else speed_ops t (ops t).

(** ** The C library's allocator

    [run] is [malloc], [realloc] and [free]. *)

(** One request in [eval_libc_valid]: [unix_error] exits. *)
Definition libc_valid_op (t : trace) (i : Z) (o : traceop) : dr unit :=
  match type o with
  | ALLOC =>
      p ← call_mm run (Malloc (size o));
      if p =? NULL then malloc_error i MallocFailed;; fail (Exit 1)
      else store_block t (index o) p
  | REALLOC =>
      oldp ← block_at (index o);
      newp ← call_mm run (Realloc oldp (size o));
      if newp =? NULL then malloc_error i ReallocFailed;; fail (Exit 1)
      else store_block t (index o) newp
  | FREE =>
      p ← block_at (index o);
      call_mm run (Free p);;
      mret tt
  end.

Fixpoint libc_valid_ops (t : trace) (i : Z) (os : list traceop) : dr unit :=
  match os with
  | [] => mret tt
  | o :: os' => libc_valid_op t i o;; libc_valid_ops t (i + 1) os'
  end.

(** [eval_libc_valid] *)
Definition eval_libc_valid (t : trace) : dr Z := libc_valid_ops t 0 (ops t);; mret 1.

(** One request in [eval_libc_speed]. *)
Definition libc_speed_op (t : trace) (o : traceop) : dr unit :=
  match type o with
  | ALLOC =>
      p ← call_mm run (Malloc (size o));
      if p =? NULL then fail (Exit 1) else store_block t (index o) p
  | REALLOC =>
      oldp ← block_at (index o);
      newp ← call_mm run (Realloc oldp (size o));
      if newp =? NULL then fail (Exit 1) else store_block t (index o) newp
  | FREE =>
      block ← block_at (index o);
      call_mm run (Free block);;
      mret tt
  end.

(** [eval_libc_speed] *)
Fixpoint libc_speed_ops (t : trace) (os : list traceop) : dr unit :=
  match os with
  | [] => mret tt
  | o :: os' => libc_speed_op t o;; libc_speed_ops t os'
  end.

Definition eval_libc_speed (t : trace) : dr unit := libc_speed_ops t (ops t).
End Timed.
