(* ===== verification/MdriverTimed.v ===== *)
(** * The timed evaluations of a proper trace.

    [eval_mm_speed] over [mm.c], and [eval_libc_valid] and [eval_libc_speed] over
    an allocator that does what [malloc], [free] and [realloc] are documented to
    do: they keep no tables but the addresses of the blocks. *)

From Stdlib Require Import ZArith Lia.
From stdpp Require Import base gmap numbers option list.
From S2P Require Import Prelude Memlib MmInline Mm MmHeap MmLayout MmProofs MmSpec MmRealloc MmRefine Mdriver MdriverBytes MdriverTables MdriverProofs MdriverEval.

Open Scope Z_scope.

(** ** Runs that end well or exit *)

(** [m] ends with a result and a state that satisfy [Q], or exits with 1, or
    faults, when [bad] holds. *)
Definition ends (bad : Prop) {S A} (m : ST S A) (s : S) (Q : A → S → Prop) : Prop :=
  m s = Err (Exit 1) ∨ (bad ∧ m s = Err BadAccess) ∨ ∃ a s', m s = Ok (a, s') ∧ Q a s'.

Lemma finishes_bind {bad S A B} (m : ST S A) (k : A → ST S B) s Q R :
  ends bad m s Q → (∀ a s', Q a s' → ends bad (k a) s' R) → ends bad (m ≫= k) s R.
Proof.
  intros [He|[[Hb He]|(a & s' & Hm & HQ)]] Hk; unfold ends, mbind, ST_bind.
  - left. by rewrite He.
  - right. left. by rewrite He.
  - rewrite Hm. by apply Hk.
Qed.

Lemma finishes_assoc {bad S A B C} (m : ST S A) (k : A → ST S B) (l : B → ST S C) s Q :
  ends bad ((m ≫= k) ≫= l) s Q → ends bad (m ≫= λ a, k a ≫= l) s Q.
Proof. unfold ends, mbind, ST_bind. by destruct (m s) as [[]|]. Qed.

Lemma finishes_Ok {bad S A} (m : ST S A) s a s' (Q : A → S → Prop) : m s = Ok (a, s') → Q a s' → ends bad m s Q.
Proof. intros Hm HQ. right. right. by exists a, s'. Qed.

Lemma finishes_ret {bad S A} (a : A) (s : S) (Q : A → S → Prop) : Q a s → ends bad (mret a) s Q.
Proof. by apply finishes_Ok. Qed.

Lemma finishes_mono {bad S A} (m : ST S A) s (Q R : A → S → Prop) :
  ends bad m s Q → (∀ a s', Q a s' → R a s') → ends bad m s R.
Proof. intros [He|[He|(a & s' & Hm & HQ)]] HR; [by left|by right; left|]. eapply finishes_Ok; eauto. Qed.

Lemma finishes_weaken {bad bad' : Prop} {S A} (m : ST S A) s (Q : A → S → Prop) :
  ends bad m s Q → (bad → bad') → ends bad' m s Q.
Proof. intros [He|[[Hb He]|HQ]] Hw; [by left|right; left; by auto|by right; right]. Qed.

(** ** The addresses in use *)

(** The array of blocks holds a different address of [A] for each live index. *)
Record held (bl : gmap Z Z) (A live : gset Z) : Prop := {
  hd_live i : i ∈ live → ∃ p, bl !! i = Some p ∧ p ∈ A;
  hd_inj i j p : i ∈ live → j ∈ live → bl !! i = Some p → bl !! j = Some p → i = j;
}.

Lemma held_none bl A : held bl A ∅.
Proof. split; set_solver. Qed.

Lemma held_alloc bl A live i p :
  held bl A live → p ∉ A → i ∉ live → held (<[i := p]> bl) ({[p]} ∪ A) ({[i]} ∪ live).
Proof.
  intros H Hp Hi. assert (∀ j, j ∈ live → bl !! j ≠ Some p) as Hold.
  { intros j Hj Hb. destruct (hd_live _ _ _ H j Hj) as (q & Hq & HA). congruence. }
  split.
  - intros j [->%elem_of_singleton|Hj]%elem_of_union; [exists p; rewrite lookup_insert_eq; set_solver|].
    rewrite lookup_insert_ne by set_solver. destruct (hd_live _ _ _ H j Hj) as (q & ? & ?). exists q. set_solver.
  - intros j k q. rewrite !lookup_insert. repeat case_decide; subst; [done|..].
    + intros _ [?|Hk]%elem_of_union [= <-] Hq; [set_solver|by destruct (Hold k)].
    + intros [?|Hj]%elem_of_union _ Hq [= <-]; [set_solver|by destruct (Hold j)].
    + intros Hj Hk. apply (hd_inj _ _ _ H); set_solver.
Qed.

Lemma held_free bl A live i p :
  held bl A live → i ∈ live → bl !! i = Some p → held bl (A ∖ {[p]}) (live ∖ {[i]}).
Proof.
  intros H Hi Hp. split.
  - intros j [Hj Hne]%elem_of_difference. destruct (hd_live _ _ _ H j Hj) as (q & Hq & HA). exists q.
    split; [done|]. assert (q ≠ p); [|set_solver]. intros ->. apply Hne, elem_of_singleton. by eapply (hd_inj _ _ _ H).
  - intros j k q Hj Hk. apply (hd_inj _ _ _ H); set_solver.
Qed.

Lemma held_realloc bl A live i p q :
  held bl A live → i ∈ live → bl !! i = Some p → q ∉ A ∖ {[p]} →
  held (<[i := q]> bl) ({[q]} ∪ A ∖ {[p]}) live.
Proof.
  intros H Hi Hp Hq. replace live with ({[i]} ∪ live ∖ {[i]}); [|apply set_eq; intros j; destruct (decide (j = i)); set_solver].
  apply held_alloc; [by apply held_free|done|set_solver].
Qed.

(** An array and the address that [store_block] puts in it. *)
Lemma store_block_Ok {St} (t : trace) i p (d : driver St) :
  0 ≤ i < num_ids t →
  store_block t i p d = Ok (tt, Driver (heap d) (ranges d) (<[i := p]> (blocks d)) (block_sizes d) (complaints d)).
Proof. intros Hi. unfold store_block. by rewrite (proj2 (Z.leb_le 0 _)), (proj2 (Z.ltb_lt _ _)) by lia. Qed.

(** What an allocator hands out for a reallocation. *)
Lemma astep_realloc h p n q h' :
  astep h (Realloc p n) q h' → q ≠ NULL →
  (q ∉ dom h ∖ {[p]}) ∧ dom h' = {[q]} ∪ dom h ∖ {[p]} ∧ ∃ c, h' !! q = Some c ∧ n ≤ bytes_of c.
Proof.
  intros Hstep Hq. inversion Hstep as [| | | |? ? Hs|? ? c c' Hc Hpre Hle Hcl|? ? c p' c' Hc Hpre Hle Hnn H8 Hnone Hcl| |]; subst; [done|..].
  - apply elem_of_dom_2 in Hc as Hd. split; [set_solver|]. split; [|exists c'; by rewrite lookup_insert_eq].
    rewrite dom_insert_L. apply set_eq. intros x. destruct (decide (x = q)); set_solver.
  - apply not_elem_of_dom in Hnone. split; [set_solver|]. rewrite dom_insert_L, dom_delete_L. split; [done|].
    exists c'. by rewrite lookup_insert_eq.
Qed.

(** ** [eval_mm_speed] *)

Section Speed.
Context {St : Type} (run : op → ST St Z) (safe : op → Prop) (rep : St → aheap → Prop).
Context `{!Allocator run safe rep} `{!Reallocator run rep}.
Context (Hsafe : ∀ o, (∀ p n, o ≠ Realloc p n) → safe o).

Definition timed (d : driver St) (live : gset Z) : Prop :=
  ∃ h, rep (heap d) h ∧ held (blocks d) (dom h) live.

(** Filling a block and recording its address. *)
Lemma fill_and_store t i n p d h c live :
  rep (heap d) h → h !! p = Some c → 0 ≤ n ≤ bytes_of c → 0 ≤ i < num_ids t →
  held (<[i := p]> (blocks d)) (dom h) live →
  ∃ d', (memset_int run p (Z.land i 255) n;; store_block t i p) d = Ok (tt, d') ∧
    timed d' live ∧ complaints d' = complaints d.
Proof.
  intros Hrep Hp Hn Hi Hheld. unfold memset_int. rewrite (proj2 (Z.ltb_ge _ _)) by lia.
  destruct (memset_Ok run safe rep Hsafe (Z.to_nat n) d h p (Z.land i 255) 0 c Hrep Hp) as (s' & c' & Hset & Hrep' & _);
    [lia|lia|apply low_byte_range|]. run Hset. rewrite store_block_Ok by done. eexists. split; [done|].
  split; [|done]. exists (<[p := c']> h). split; [done|]. cbn. apply elem_of_dom_2 in Hp.
  by replace (dom (<[p := c']> h)) with (dom h) by (rewrite dom_insert_L; set_solver).
Qed.

(** A request of [eval_mm_speed]. *)
Lemma speed_op_Ok t os d live o :
  timed d live → proper (num_ids t) live (o :: os) →
  ends (type o = REALLOC) (speed_op run t o) d (λ _ d', ∃ live', timed d' live' ∧
    proper (num_ids t) live' os ∧ complaints d' = complaints d).
Proof.
  intros (h & Hrep & Hheld) Hproper. cbn [proper] in Hproper. unfold speed_op. destruct (type o) eqn:Ht.
  - destruct Hproper as (Hidx & Hnew & Hsize & Hrest).
    destruct (call_step run safe rep Hsafe d h (Malloc (size o)) Hrep) as (p & s1 & h1 & Hrun & Hstep & Hrep1);
      [done|done|]. destruct (Z.eqb_spec p NULL) as [->|Hnn]; [left; by run Hrun|].
    inversion Hstep as [|? ? c _ _ Hnone Hlen| | | | | | |]; subst; [done|]. apply not_elem_of_dom in Hnone.
    destruct (fill_and_store t (index o) (size o) p (with_heap d s1) (<[p := c]> h) c ({[index o]} ∪ live))
      as (d' & Hfill & Hok & Hc); [done|by rewrite lookup_insert_eq|lia|done| |].
    { rewrite dom_insert_L. by apply held_alloc. }
    eapply (finishes_Ok _ _ tt d'); [|by eauto]. run Hrun. rewrite (proj2 (Z.eqb_neq _ _)) by done. exact Hfill.
  - destruct Hproper as (Hi & Hrest). destruct (hd_live _ _ _ Hheld _ Hi) as (p & Hp & [c Hc]%elem_of_dom).
    destruct (call_step run safe rep Hsafe d h (Free p) Hrep) as (r & s1 & h1 & Hrun & Hstep & Hrep1);
      [right; by eexists|done|].
    assert (block_at (index o) d = Ok (p, d)) as Hb by (unfold block_at; by rewrite Hp).
    eapply (finishes_Ok _ _ tt (with_heap d s1)); [run Hb; by run Hrun|].
    exists (live ∖ {[index o]}). split_and!; [|done|done]. exists h1. split; [done|]. cbn.
    pose proof (held_free _ _ _ _ _ Hheld Hi Hp) as Hf. inversion Hstep; subst; [|by rewrite dom_delete_L].
    split; [|apply Hf]. intros i (q & ? & ?)%(hd_live _ _ _ Hf). exists q. set_solver.
  - destruct Hproper as (Hidx & Hi & Hsize & Hrest). destruct (hd_live _ _ _ Hheld _ Hi) as (p & Hp & HA).
    assert (block_at (index o) d = Ok (p, d)) as Hb by (unfold block_at; by rewrite Hp).
    destruct (realloc_step (heap d) h p (size o) Hrep) as [(q & s1 & h1 & Hrun & Hstep & Hrep1)|He];
      [split; [by apply elem_of_dom|done]|..].
    + assert (call_mm run (Realloc p (size o)) d = Ok (q, with_heap d s1)) as Hcall
        by (unfold call_mm, on_heap; by rewrite Hrun).
      destruct (Z.eqb_spec q NULL) as [->|Hnn]; [left; run Hb; by run Hcall|].
      destruct (astep_realloc _ _ _ _ _ Hstep Hnn) as (Hq & Hdom & c & Hc & Hlen).
      destruct (fill_and_store t (index o) (size o) q (with_heap d s1) h1 c live)
        as (d' & Hfill & Hok & Hco); [done|done|lia|done|rewrite Hdom; by apply held_realloc|].
      eapply (finishes_Ok _ _ tt d'); [|by eauto]. run Hb. run Hcall. rewrite (proj2 (Z.eqb_neq _ _)) by done. exact Hfill.
    + right. left. split; [done|]. run Hb. unfold mbind, ST_bind, call_mm, on_heap. by rewrite He.
Qed.

Lemma speed_ops_Ok t os : ∀ d live,
  timed d live → proper (num_ids t) live os →
  ends (reallocates os) (speed_ops run t os) d (λ _ d', complaints d' = complaints d).
Proof.
  induction os as [|o os IH]; intros d live H Hproper; cbn [speed_ops]; [by apply finishes_ret|].
  eapply finishes_bind; [eapply finishes_weaken; [by eapply speed_op_Ok|]; intros Ht; exists o; split; [by left|done]|].
  intros u d1 (live' & H1 & Hp & Hc). eapply finishes_weaken; [|apply reallocates_cons].
  eapply finishes_mono; [by eapply IH|]. intros ? d2 ?. congruence.
Qed.
End Speed.

(** [eval_mm_speed] on [mm.c]. *)
Lemma eval_mm_speed_Ok arena contents t d :
  0 < arena → arena mod 8 = 0 → proper (num_ids t) ∅ (ops t) →
  ends (reallocates (ops t)) (eval_mm_speed mm_run (mm_start arena contents) t) d (λ _ d', complaints d' = complaints d).
Proof.
  intros Ha H8 Hp. destruct (mm_start_Ok arena contents (heap d) Ha H8) as (s' & Hrun & Hrep).
  assert (on_heap (mm_start arena contents) d = Ok (0, with_heap d s')) as Hs
    by (unfold on_heap; by rewrite Hrun).
  unfold eval_mm_speed. eapply finishes_bind; [by eapply (finishes_Ok _ _ _ _ (λ a x, a = 0 ∧ x = with_heap d s'))|].
  intros u w [-> ->]. cbn [Z.ltb Z.compare].
  apply (speed_ops_Ok mm_run mm_safe mm_rep mm_safe_all t (ops t) (with_heap d s') ∅); [|done].
  exists ∅. split; [done|apply held_none].
Qed.

(** ** The C library *)

(** What the evaluations rely on: [owns s A] says that [A] are the addresses
    handed out in state [s].  A new address is not in use; [realloc] answers with
    the old address or a new one; a refusal changes nothing. *)
Class Libc {L : Type} (run : op → ST L Z) (owns : L → gset Z → Prop) := {
  libc_malloc s A n : owns s A → 0 < n →
    ∃ p s', run (Malloc n) s = Ok (p, s') ∧ (p ≠ NULL → (p ∉ A) ∧ owns s' ({[p]} ∪ A));
  libc_free s A p : owns s A → p ∈ A → ∃ r s', run (Free p) s = Ok (r, s') ∧ owns s' (A ∖ {[p]});
  libc_realloc s A p n : owns s A → p ∈ A → 0 < n →
    ∃ q s', run (Realloc p n) s = Ok (q, s') ∧ (q ≠ NULL → (q ∉ A ∖ {[p]}) ∧ owns s' ({[q]} ∪ A ∖ {[p]}));
}.

Section LibcRuns.
Context {L : Type} (run : op → ST L Z) (owns : L → gset Z → Prop) `{!Libc run owns}.

Definition lent (d : driver L) (live : gset Z) : Prop := ∃ A, owns (heap d) A ∧ held (blocks d) A live.

(** Both evaluations make the same calls; they differ in what they do about a
    null pointer, which ends the program anyway. *)
Lemma libc_request t os d live o (refused : ST (driver L) unit) :
  (∀ d, refused d = Err (Exit 1)) → lent d live → proper (num_ids t) live (o :: os) →
  ends False
    match type o with
    | ALLOC => p ← call_mm run (Malloc (size o)); if p =? NULL then refused else store_block t (index o) p
    | REALLOC =>
        oldp ← block_at (index o); newp ← call_mm run (Realloc oldp (size o));
        if newp =? NULL then refused else store_block t (index o) newp
    | FREE => p ← block_at (index o); call_mm run (Free p);; mret tt
    end d
    (λ _ d', ∃ live', lent d' live' ∧ proper (num_ids t) live' os ∧ complaints d' = complaints d).
Proof.
  intros Href (A & Hown & Hheld) Hproper. cbn [proper] in Hproper.
  assert (∀ o r s', run o (heap d) = Ok (r, s') → call_mm run o d = Ok (r, with_heap d s')) as Hcall
    by (intros ? ? ? Hr; unfold call_mm, on_heap; by rewrite Hr).
  assert (∀ i p, blocks d !! i = Some p → block_at i d = Ok (p, d)) as Hat
    by (intros i p Hp; unfold block_at; by rewrite Hp).
  destruct (type o).
  - destruct Hproper as (Hidx & Hnew & Hsize & Hrest).
    destruct (libc_malloc (heap d) A (size o) Hown) as (p & s1 & Hrun%Hcall & Hp); [lia|].
    destruct (Z.eqb_spec p NULL) as [->|Hnn]; [left; run Hrun; apply Href|]. destruct (Hp Hnn) as [HA Hown'].
    eapply finishes_Ok; [run Hrun; rewrite (proj2 (Z.eqb_neq _ _)) by done; by apply store_block_Ok|].
    exists ({[index o]} ∪ live). split_and!; [|done|done]. eexists. split; [done|]. by apply held_alloc.
  - destruct Hproper as (Hi & Hrest). destruct (hd_live _ _ _ Hheld _ Hi) as (p & Hp & HA).
    destruct (libc_free (heap d) A p Hown HA) as (r & s1 & Hrun%Hcall & Hown').
    eapply (finishes_Ok _ _ tt (with_heap d s1)); [run (Hat _ _ Hp); by run Hrun|].
    exists (live ∖ {[index o]}). split_and!; [|done|done]. eexists. split; [done|]. by apply held_free.
  - destruct Hproper as (Hidx & Hi & Hsize & Hrest). destruct (hd_live _ _ _ Hheld _ Hi) as (p & Hp & HA).
    destruct (libc_realloc (heap d) A p (size o) Hown HA) as (q & s1 & Hrun%Hcall & Hq); [lia|].
    destruct (Z.eqb_spec q NULL) as [->|Hnn]; [left; run (Hat _ _ Hp); run Hrun; apply Href|].
    destruct (Hq Hnn) as [HA' Hown'].
    eapply finishes_Ok; [run (Hat _ _ Hp); run Hrun; rewrite (proj2 (Z.eqb_neq _ _)) by done; by apply store_block_Ok|].
    exists live. split_and!; [|done|done]. eexists. split; [done|]. by apply held_realloc.
Qed.

(** [eval_libc_valid] always finds the trace valid. *)
Lemma libc_valid_ops_Ok t os : ∀ d live i,
  lent d live → proper (num_ids t) live os →
  ends False (libc_valid_ops run t i os) d (λ _ d', (∃ live', lent d' live') ∧ complaints d' = complaints d).
Proof.
  induction os as [|o os IH]; intros d live i H Hproper; cbn [libc_valid_ops]; [apply finishes_ret; eauto|].
  eapply (finishes_bind _ _ _ (λ _ d', ∃ live', lent d' live' ∧ proper (num_ids t) live' os ∧ complaints d' = complaints d)).
  - unfold libc_valid_op. destruct (type o) eqn:Ht.
    + pose proof (libc_request t os d live o (malloc_error i MallocFailed;; fail (Exit 1)) ltac:(done) H Hproper) as Hr.
      by rewrite Ht in Hr.
    + pose proof (libc_request t os d live o (fail (Exit 1)) ltac:(done) H Hproper) as Hr. by rewrite Ht in Hr.
    + pose proof (libc_request t os d live o (malloc_error i ReallocFailed;; fail (Exit 1)) ltac:(done) H Hproper) as Hr.
      by rewrite Ht in Hr.
  - intros ? d1 (live' & H1 & Hp & Hc). eapply finishes_mono; [by eapply IH|]. intros ? d2 [? ?]. split; [done|congruence].
Qed.

Lemma libc_speed_ops_Ok t os : ∀ d live,
  lent d live → proper (num_ids t) live os →
  ends False (libc_speed_ops run t os) d (λ _ d', (∃ live', lent d' live') ∧ complaints d' = complaints d).
Proof.
  induction os as [|o os IH]; intros d live H Hproper; cbn [libc_speed_ops]; [apply finishes_ret; eauto|].
  eapply finishes_bind; [exact (libc_request t os d live o (fail (Exit 1)) (λ _, eq_refl) H Hproper)|].
  intros ? d1 (live' & H1 & Hp & Hc). eapply finishes_mono; [by eapply IH|]. intros ? d2 [? ?]. split; [done|congruence].
Qed.

(** The C library is ready for another evaluation: what is in use does not
    matter. *)
Definition libc_ready (d : driver L) : Prop := ∃ A, owns (heap d) A.

Lemma lent_ready d live : lent d live → libc_ready d.
Proof. intros (A & HA & _). by exists A. Qed.

Lemma ready_lent d : libc_ready d → lent d ∅.
Proof. intros [A HA]. exists A. split; [done|apply held_none]. Qed.

Lemma eval_libc_valid_Ok t d :
  libc_ready d → proper (num_ids t) ∅ (ops t) →
  ends False (eval_libc_valid run t) d (λ v d', v = 1 ∧ libc_ready d' ∧ complaints d' = complaints d).
Proof.
  intros H%ready_lent Hp. unfold eval_libc_valid. eapply finishes_bind; [by eapply libc_valid_ops_Ok|].
  intros ? d' [[live' Hl] Hc]. apply finishes_ret. by eauto using lent_ready.
Qed.

Lemma eval_libc_speed_Ok t d :
  libc_ready d → proper (num_ids t) ∅ (ops t) →
  ends False (eval_libc_speed run t) d (λ _ d', libc_ready d' ∧ complaints d' = complaints d).
Proof.
  intros H%ready_lent Hp. eapply finishes_mono; [by eapply libc_speed_ops_Ok|].
  intros ? d' [[live' Hl] Hc]. by eauto using lent_ready.
Qed.
End LibcRuns.
