(* ===== verification/MdriverMain.v ===== *)
(** * The driver program: [main] of [6-malloc-haininz/mdriver.c].

    The options, the evaluation of every trace (validity, utilisation, speed),
    the tables, the report for the autograder and the performance index.  What
    the program meets is an [environment]; a line of output is a value with the
    numbers it shows. *)

From Stdlib Require Import ZArith Lia Ascii String SpecFloat.
From stdpp Require Import base gmap numbers option list.
From S2P Require Import Prelude Stdio Memlib MmInline Mm MmHeap MmLayout MmProofs MmSpec MmRealloc MmRefine Mdriver MdriverBytes MdriverTables MdriverProofs MdriverTrace MdriverRepl Clock Fcyc MdriverEval.

Open Scope Z_scope.
Open Scope list_scope.

(** ** Settings *)

Definition TRACEDIR : bytes := lit "./traces/".

Definition BASE_TRACEFILES : list bytes :=
  [lit "amptjp-bal.rep"; lit "cccp-bal.rep"; lit "cp-decl-bal.rep"; lit "expr-bal.rep";
   lit "random-bal.rep"; lit "random2-bal.rep"; lit "binary-bal.rep"; lit "binary2-bal.rep"].

Definition COALESCE_TRACEFILES : list bytes := [lit "coalescing-bal.rep"; lit "coalescing2-bal.rep"].

Definition REALLOC_TRACEFILES : list bytes := [lit "realloc-bal.rep"; lit "realloc2-bal.rep"].

(** As the [Makefile] sets it. *)
Definition default_tracefiles : list bytes := BASE_TRACEFILES ++ COALESCE_TRACEFILES ++ REALLOC_TRACEFILES.

(** A decimal fraction as the compiler rounds it. *)
Definition ratio (a b : Z) : double := ddiv (of_Z a) (of_Z b).

Definition zero : double := of_Z 0.

(** [trace_baseline_table]: the name and [min_util]. *)
Definition trace_baseline_table : list (bytes * double) :=
  ((λ n, (n, zero)) <$> BASE_TRACEFILES) ++
  ((λ n, (n, ratio 90 100)) <$> COALESCE_TRACEFILES) ++
  ((λ n, (n, ratio 45 100)) <$> REALLOC_TRACEFILES).

Definition AVG_LIBC_THRUPUT : double := of_Z 600000.
Definition UTIL_WEIGHT : double := ratio 80 100.

(** [USE_FCYC], [USE_ITIMER] and [USE_GETTOD]. *)
Definition timing_package : timing := USE_ITIMER.

(** ** Statistics *)

(** [stats_t]; [error_msg] is the request and the complaint of the last
    [malloc_error] for the trace. *)
Record stats := Stats {
  stat_ops : double;
  stat_valid : Z;
  stat_secs : double;
  trace_name : bytes;
  error_msg : option (Z * complaint);
  stat_util : double;
}.

Inductive out_line :=
  | UsageText | DefaultTraces (dir : bytes) | Reading (name : bytes)
  | TestingLibc | CheckingLibc | TestingMm | CheckingMm | Efficiency | Performance
  | LibcResults | MmResults | Blank_line
  | ResultsHeader | Result (i : Z) (name : bytes) (util ops secs kops : double) | NoResult (i : Z) (name : bytes)
  | Total (util ops secs kops : double) | NoTotal
  | PassedHeader | Passed (i : Z) (name : bytes) (util : double) (passed : bool) | NotPassed (i : Z) (name : bytes)
  | IndexFrom (util throughput : double) | IndexIs (v : double)
  | TerminatedWith (errors : Z) | CorrectIs (n : Z) | PerfidxIs (v : double) | ReportError.

Inductive report_line :=
  | CsvHeader
  | CsvValid (i : Z) (name : bytes) (util : double) (msg : option (Z * complaint))
  | CsvInvalid (i : Z) (name : bytes) (msg : option (Z * complaint)).

(** The rows of [printresults], with the sums of the valid traces. *)
Fixpoint result_rows (i : Z) (ss : list stats) (secs ops util : double) : list out_line * (double * double * double) :=
  match ss with
  | [] => ([], (secs, ops, util))
  | s :: ss' =>
      if negb (stat_valid s =? 0) then
        let '(rows, sums) := result_rows (i + 1) ss' (dadd secs (stat_secs s)) (dadd ops (stat_ops s))
                               (dadd util (stat_util s)) in
        (Result i (trace_name s) (dmul (stat_util s) (of_Z 100)) (stat_ops s) (stat_secs s)
           (ddiv (ddiv (stat_ops s) (of_Z 1000)) (stat_secs s)) :: rows, sums)
      else
        let '(rows, sums) := result_rows (i + 1) ss' secs ops util in
        (NoResult i (trace_name s) :: rows, sums)
  end.

(** [printresults] *)
Definition printresults (errors : Z) (ss : list stats) : list out_line :=
  let '(rows, (secs, ops, util)) := result_rows 0 ss zero zero zero in
  let n := of_Z (Z.of_nat (length ss)) in
  ResultsHeader :: rows ++
  [if errors =? 0
   then Total (dmul (ddiv util n) (of_Z 100)) ops secs (ddiv (ddiv ops (of_Z 1000)) secs)
   else NoTotal].

(** The rows of [printresultsgradescope] from the [k]-th [fprintf] on: what is
    in the file, and whether all were written. *)
Fixpoint csv_rows (io : file_io) (k : nat) (i : Z) (ss : list stats) : list report_line * bool :=
  match ss with
  | [] => ([], true)
  | s :: ss' =>
      if fprintf_ok io k then
        let '(rows, all) := csv_rows io (S k) (i + 1) ss' in
        ((if negb (stat_valid s =? 0)
          then CsvValid i (trace_name s) (dmul (stat_util s) (of_Z 100)) (error_msg s)
          else CsvInvalid i (trace_name s) (error_msg s)) :: rows, all)
      else ([], false)
  end.

(** [printresultsgradescope]: the report and what is printed. *)
Definition printresultsgradescope (io : file_io) (ss : list stats) : list report_line * list out_line :=
  if negb (fopen_ok io) then ([], [ReportError])
  else if negb (fprintf_ok io 0) then ([], [ReportError])
  else
    let '(rows, all) := csv_rows io 1 0 ss in
    (CsvHeader :: rows, if all then [] else [ReportError]).

(** A trace against one baseline, and against the table. *)
Definition passed_row (i : Z) (s : stats) (b : bytes * double) : list out_line :=
  if bool_decide (trace_name s = b.1) then
    [if negb (stat_valid s =? 0)
     then Passed i (trace_name s) (dmul (stat_util s) (of_Z 100)) (dleb b.2 (stat_util s))
     else NotPassed i (trace_name s)]
  else [].

Fixpoint passed_rows (i : Z) (ss : list stats) : list out_line :=
  match ss with
  | [] => []
  | s :: ss' => (trace_baseline_table ≫= passed_row i s) ++ passed_rows (i + 1) ss'
  end.

(** [printpassed] *)
Definition printpassed (ss : list stats) : list out_line :=
  Blank_line :: PassedHeader :: passed_rows 0 ss ++ [Blank_line].

(** [compute_performance_index]: the index and what is printed. *)
Definition compute_performance_index (num_tracefiles : Z) (secs ops util : double) : double * list out_line :=
  let avg_util := ddiv util (of_Z num_tracefiles) in
  let avg_throughput := ddiv ops secs in
  let throughput_score :=
    if dltb AVG_LIBC_THRUPUT avg_throughput then of_Z 1 else ddiv avg_throughput AVG_LIBC_THRUPUT in
  let index := dmul (of_Z 100) (dadd (dmul avg_util UTIL_WEIGHT)
                                     (dmul (dsub (of_Z 1) UTIL_WEIGHT) throughput_score)) in
  (index, [IndexFrom (dmul avg_util (of_Z 100)) (dmul throughput_score (of_Z 100)); IndexIs index]).

(** The sums over all traces, valid or not. *)
Fixpoint totals (ss : list stats) (secs ops util : double) (numcorrect : Z) : double * double * double * Z :=
  match ss with
  | [] => (secs, ops, util, numcorrect)
  | s :: ss' =>
      totals ss' (dadd secs (stat_secs s)) (dadd ops (stat_ops s)) (dadd util (stat_util s))
        (if negb (stat_valid s =? 0) then numcorrect + 1 else numcorrect)
  end.

(** ** The environment and the state *)

(** The arenas successive [mem_init]s get; the files; what new storage holds;
    whether the C library has memory (for so many bytes, and for the records of
    the range list); standard input; the stream of the report; the C library's
    own allocator; the timers, the counter and its fuel and buffer. *)
Record environment (X L : Type) := Environment {
  arenas : nat → Z * gmap Z Z;
  files : bytes → option bytes;
  garbage : Z → Z;
  has_memory : Z → bool;
  has_record : bool;
  stdin : bytes;
  report_io : file_io;
  libc_run : op → ST L Z;
  cycle_counter : machine X;
  built_for : platform;
  system_timers : timers X;
  patience : nat;
  cache_words : option (list Z);
}.
Arguments arenas {X L} e.
Arguments files {X L} e.
Arguments garbage {X L} e.
Arguments has_memory {X L} e.
Arguments has_record {X L} e.
Arguments stdin {X L} e.
Arguments report_io {X L} e.
Arguments libc_run {X L} e.
Arguments cycle_counter {X L} e.
Arguments built_for {X L} e.
Arguments system_timers {X L} e.
Arguments patience {X L} e.
Arguments cache_words {X L} e.

(** The drivers of [mm.c] and of the C library, the number of arenas handed
    out, what has been printed and reported, and the rest of the world. *)
Record program (X L : Type) := Program {
  mm_driver : driver mm_state;
  libc_driver : driver L;
  arenas_used : nat;
  lines : list out_line;
  report : list report_line;
  outside : X;
}.
Arguments Program {X L} mm_driver libc_driver arenas_used lines report outside.
Arguments mm_driver {X L} p.
Arguments libc_driver {X L} p.
Arguments arenas_used {X L} p.
Arguments lines {X L} p.
Arguments report {X L} p.
Arguments outside {X L} p.

(** ** Options *)

Record options := Options {
  verbose : Z;
  gradescope : bool;
  autograder : bool;
  run_libc : bool;
  num_tracefiles : Z;
  tracefiles : option (list (option bytes));
  tracedir : bytes;
}.

Definition initial_options : options := Options 0 false false false 0 None TRACEDIR.

(** What the options lead to. *)
Inductive decision := Go (o : options) | StartRepl | UsageExit (status : Z).

(** The letters of the switch. *)
Definition is_letter (c : ascii) (l : String.string) : bool := bool_decide ([c] = lit l).

(** [strcpy(tracedir, optarg)] and the slash at its end: [tracedir] has
    [MAXLINE] bytes, and an empty name has no last character. *)
Definition directory (optarg : bytes) : result bytes :=
  if MAXLINE <=? Z.of_nat (length optarg) then Err BadAccess
  else
    match last optarg with
    | None => Err BadAccess
    | Some c =>
        if bool_decide ([c] = lit "/") then Ok optarg
        else if MAXLINE <=? Z.of_nat (length optarg) + 1 then Err BadAccess
        else Ok (optarg ++ lit "/")
    end.

(** One option, with its argument if it has one. *)
Definition option_step (has_memory : Z → bool) (c : ascii) (optarg : bytes) (o : options) : result decision :=
  if is_letter c "r" then Ok StartRepl
  else if is_letter c "G" then
    Ok (Go (Options (verbose o) true (autograder o) (run_libc o) (num_tracefiles o) (tracefiles o) (tracedir o)))
  else if is_letter c "f" then
    let v := if verbose o =? 0 then 1 else verbose o in
    if negb (has_memory 16) then Err (Exit 1)
    else
      let name := if has_memory (Z.of_nat (length optarg) + 1) then Some optarg else None in
      Ok (Go (Options v (gradescope o) (autograder o) (run_libc o) 1 (Some [name]) []))
  else if is_letter c "t" then
    if num_tracefiles o =? 1 then Ok (Go o)
    else
      match directory optarg with
      | Ok dir => Ok (Go (Options (verbose o) (gradescope o) (autograder o) (run_libc o) (num_tracefiles o)
                            (tracefiles o) dir))
      | Err e => Err e
      end
  else if is_letter c "l" then
    Ok (Go (Options (verbose o) (gradescope o) (autograder o) true (num_tracefiles o) (tracefiles o) (tracedir o)))
  else if is_letter c "v" then
    Ok (Go (Options 1 (gradescope o) (autograder o) (run_libc o) (num_tracefiles o) (tracefiles o) (tracedir o)))
  else if is_letter c "V" then
    Ok (Go (Options 2 (gradescope o) (autograder o) (run_libc o) (num_tracefiles o) (tracefiles o) (tracedir o)))
  else if is_letter c "h" then Ok (UsageExit 0)
  else Ok (UsageExit 1).

(** The loop over what [getopt] returns. *)
Fixpoint read_options (has_memory : Z → bool) (args : list (ascii * bytes)) (o : options) : result decision :=
  match args with
  | [] => Ok (Go o)
  | (c, optarg) :: args' =>
      match option_step has_memory c optarg o with
      | Ok (Go o') => read_options has_memory args' o'
      | r => r
      end
  end.

(** ** The evaluation *)

Section Main.
Context {X L : Type} (env : environment X L).

Abbreviation prog := (program X L).
Abbreviation pr := (ST (fsecs_state prog)).

(** Parts of the state. *)
Definition in_program {A} (m : ST prog A) : pr A := on_sampler (on_clock (on_world m)).

Definition on_mm_driver {A} (m : ST (driver mm_state) A) : ST prog A := λ p,
  match m (mm_driver p) with
  | Ok (a, d) => Ok (a, Program d (libc_driver p) (arenas_used p) (lines p) (report p) (outside p))
  | Err e => Err e
  end.

Definition on_libc {A} (m : ST (driver L) A) : ST prog A := λ p,
  match m (libc_driver p) with
  | Ok (a, d) => Ok (a, Program (mm_driver p) d (arenas_used p) (lines p) (report p) (outside p))
  | Err e => Err e
  end.

Definition on_outside {A} (m : ST X A) : ST prog A := λ p,
  match m (outside p) with
  | Ok (a, x) => Ok (a, Program (mm_driver p) (libc_driver p) (arenas_used p) (lines p) (report p) x)
  | Err e => Err e
  end.

Definition print (ls : list out_line) : ST prog unit :=
  modify (λ p, Program (mm_driver p) (libc_driver p) (arenas_used p) (lines p ++ ls) (report p) (outside p)).

Definition print_if (b : bool) (ls : list out_line) : pr unit := if b then in_program (print ls) else mret tt.

Definition set_report (r : list report_line) : ST prog unit :=
  modify (λ p, Program (mm_driver p) (libc_driver p) (arenas_used p) (lines p) r (outside p)).

(** The arena that the next [mem_init] gets. *)
Definition next_arena : ST prog (Z * gmap Z Z) := λ p,
  Ok (arenas env (arenas_used p),
      Program (mm_driver p) (libc_driver p) (S (arenas_used p)) (lines p) (report p) (outside p)).

(** The timers and counters act on the rest of the world only. *)
Definition program_timers : timers prog :=
  MkTimers (λ v, on_outside (setitimers (system_timers env) v)) (on_outside (getitimer_real (system_timers env)))
           (on_outside (gettimeofday (system_timers env))).

Definition program_machine : machine prog :=
  Machine _ (on_outside (access_counter (cycle_counter env))) (on_outside (counter (cycle_counter env)))
            (on_outside (times_utime (cycle_counter env))) (λ n, on_outside (sleep (cycle_counter env) n)).

Definition time_it (f : ST prog unit) : pr double :=
  fsecs timing_package (has_memory env 24) program_machine (built_for env) program_timers (patience env)
    (cache_words env) f.

(** [read_trace(tracedir, name)] with its buffers: [path] has [MAXLINE] bytes,
    and a name of [MAXLINE - 1] bytes leaves [trace_name] without its end. *)
Definition open_trace (o : options) (name : option bytes) : pr (bytes * trace) :=
  match name with
  | None => fail BadAccess
  | Some name =>
      print_if (1 <? verbose o) [Reading name];;
      if has_memory env sizeof_trace &&
         ((MAXLINE <=? Z.of_nat (length (tracedir o ++ name))) || (MAXLINE - 1 <=? Z.of_nat (length name)))
      then fail BadAccess
      else λ s,
        match read_trace (garbage env) (has_memory env) (files env (tracedir o ++ name)) with
        | Ok t => Ok ((name, t), s)
        | Err e => Err e
        end
  end.

(** The arrays of a new trace are indeterminate. *)
Definition new_arrays {St} : ST (driver St) unit :=
  modify (λ d, Driver (heap d) (ranges d) ∅ ∅ (complaints d)).

(** The three evaluations of [mm.c] on a trace, each on an arena of its own. *)
Definition mm_valid (t : trace) : ST prog Z :=
  a ← next_arena;
  on_mm_driver (eval_mm_valid mm_run mem_heap_lo mem_heap_hi (mm_start a.1 a.2) (has_record env) t).

Definition mm_util (t : trace) : ST prog (Z * Z) :=
  a ← next_arena;
  on_mm_driver (eval_mm_util mm_run mem_heap_lo mem_heap_hi (mm_start a.1 a.2) (has_record env) t).

Definition mm_speed (t : trace) : ST prog unit :=
  a ← next_arena;
  on_mm_driver (eval_mm_speed mm_run (mm_start a.1 a.2) t).

(** The number of complaints, and the last one made since there were [n]. *)
Definition num_complaints : ST prog nat := p ← get; mret (length (complaints (mm_driver p))).

Definition last_since (n : nat) : ST prog (option (Z * complaint)) :=
  p ← get; mret (last (drop n (complaints (mm_driver p)))).

(** One round of the loop over the traces. *)
Definition evaluate_mm (o : options) (name : option bytes) : pr stats :=
  '(name, t) ← open_trace o name;
  in_program (on_mm_driver new_arrays);;
  let ops := of_Z (Z.of_nat (length (ops t))) in
  print_if (1 <? verbose o) [CheckingMm];;
  n ← in_program num_complaints;
  valid ← in_program (mm_valid t);
  if negb (valid =? 0) then
    print_if (1 <? verbose o) [Efficiency];;
    u ← in_program (mm_util t);
    print_if (1 <? verbose o) [Performance];;
    secs ← time_it (mm_speed t);
    msg ← in_program (last_since n);
    mret (Stats ops valid secs name msg (ddiv (of_Z u.1) (of_Z u.2)))
  else
    msg ← in_program (last_since n);
    mret (Stats ops valid zero name msg zero).

(** The same for the C library's allocator. *)
Definition evaluate_libc (o : options) (name : option bytes) : pr stats :=
  '(name, t) ← open_trace o name;
  in_program (on_libc new_arrays);;
  let ops := of_Z (Z.of_nat (length (ops t))) in
  print_if (1 <? verbose o) [CheckingLibc];;
  valid ← in_program (on_libc (eval_libc_valid (libc_run env) t));
  if negb (valid =? 0) then
    print_if (1 <? verbose o) [Performance];;
    secs ← time_it (on_libc (eval_libc_speed (libc_run env) t));
    mret (Stats ops valid secs [] None zero)
  else mret (Stats ops valid zero [] None zero).

Fixpoint evaluate_all (f : option bytes → pr stats) (names : list (option bytes)) : pr (list stats) :=
  match names with
  | [] => mret []
  | name :: names' => s ← f name; ss ← evaluate_all f names'; mret (s :: ss)
  end.

(** [calloc(num_tracefiles, sizeof(stats_t))] *)
Definition sizeof_stats : Z := 2080.

Definition calloc_stats (n : Z) : pr unit :=
  if has_memory env (n * sizeof_stats) then mret tt else fail (Exit 1).

(** The number of errors: every [malloc_error] counts. *)
Definition errors : pr Z :=
  in_program (p ← get;
    mret (Z.of_nat (length (complaints (mm_driver p)) + length (complaints (libc_driver p))))).

(** The traces to evaluate. *)
Definition trace_names (o : options) : list (option bytes) :=
  match tracefiles o with Some names => names | None => Some <$> default_tracefiles end.

(** The part of [main] that evaluates the C library. *)
Definition libc_part (o : options) : pr unit :=
  if run_libc o then
    print_if (1 <? verbose o) [TestingLibc];;
    calloc_stats (Z.of_nat (length (trace_names o)));;
    ss ← evaluate_all (evaluate_libc o) (trace_names o);
    e ← errors;
    print_if (negb (verbose o =? 0)) (LibcResults :: printresults e ss)
  else mret tt.

(** What follows the evaluation: the tables and the index. *)
Definition summary (o : options) (ss : list stats) : pr unit :=
  e ← errors;
  print_if (negb (verbose o =? 0)) (MmResults :: printresults e ss ++ [Blank_line]);;
  (if gradescope o then
     let '(rows, msgs) := printresultsgradescope (report_io env) ss in
     in_program (set_report rows);; in_program (print msgs)
   else mret tt);;
  print_if (verbose o =? 0) (printpassed ss);;
  let '(secs, ops, util, numcorrect) := totals ss zero zero zero 0 in
  if negb (gradescope o) then
    let '(perfindex, msgs) := compute_performance_index (Z.of_nat (length ss)) secs ops util in
    in_program (print msgs);;
    let perfindex := if negb (e =? 0) then zero else perfindex in
    print_if (negb (e =? 0)) [TerminatedWith e];;
    print_if (autograder o) [CorrectIs numcorrect; PerfidxIs perfindex]
  else mret tt.

(** [main] after the options. *)
Definition evaluate (o : options) : pr (list stats) :=
  print_if (match tracefiles o with None => negb (gradescope o) | Some _ => false end) [DefaultTraces (tracedir o)];;
  init_fsecs timing_package program_machine (built_for env) (0 <? verbose o);;
  libc_part o;;
  print_if (1 <? verbose o) [TestingMm];;
  calloc_stats (Z.of_nat (length (trace_names o)));;
  a ← in_program next_arena;
  in_program (on_mm_driver (on_heap (mem_init a.1 a.2)));;
  ss ← evaluate_all (evaluate_mm o) (trace_names o);
  summary o ss;;
  mret ss.

(** How [main] ends: with its status, or after a session of the interactive
    mode. *)
Inductive ending := Ended (status : Z) (ss : list stats) | Session (f : flow) (r : repl).

Definition mdriver_main (args : list (ascii * bytes)) : pr ending := λ s,
  match read_options (has_memory env) args initial_options with
  | Err e => Err e
  | Ok (UsageExit status) => (in_program (print [UsageText]);; mret (Ended status [])) s
  | Ok (Go o) => (ss ← evaluate o; mret (Ended 0 ss)) s
  | Ok StartRepl =>
      match repl_driver (has_record env) (λ n, arenas env (S (Z.to_nat n))) (has_memory env 32816) (arenas env 0)
              (stdin env) (heap (mm_driver (world (clk (fs_sampler s))))) with
      | Ok (f, r) => Ok (Session f r, s)
      | Err e => Err e
      end
  end.
End Main.
