(* ===== verification/MdriverMainProofs.v ===== *)
(** * The driver program over [mm.c].

    One round of the loop of [main] over a proper trace, for [mm.c] and for the C
    library, and the whole of it: each ends, or exits because a request was
    refused. *)

From Stdlib Require Import ZArith Lia Ascii String SpecFloat.
From stdpp Require Import base gmap numbers option list.
From S2P Require Import Prelude Stdio Memlib MmInline Mm MmHeap MmLayout MmProofs MmSpec MmRealloc MmRefine Mdriver MdriverBytes MdriverTables MdriverProofs MdriverTrace MdriverRepl Clock Fcyc MdriverEval MdriverTimed MdriverMain.

Open Scope Z_scope.
Open Scope list_scope.

(** ** The state of the program *)

Section Program.
Context {X L : Type} (env : environment X L).
(** When a run may end in a fault, and what the C library has handed out. *)
Context (bad : Prop) (owns : L → gset Z → Prop) `{!Libc (libc_run env) owns}.

Abbreviation prog := (program X L).
Abbreviation finishes := (ends bad).

Definition prog_of (s : fsecs_state prog) : prog := world (clk (fs_sampler s)).

(** [n] more arenas, the complaints [cs] and the lines [ls]; there is no new
    complaint about the C library, which stays ready, and the report is as it
    was. *)
Record moved (n : nat) (cs : list (Z * complaint)) (ls : list out_line) (p p' : prog) : Prop := {
  mv_arenas : arenas_used p' = (arenas_used p + n)%nat;
  mv_complaints : complaints (mm_driver p') = complaints (mm_driver p) ++ cs;
  mv_lines : lines p' = lines p ++ ls;
  mv_libc : complaints (libc_driver p') = complaints (libc_driver p);
  mv_ready : libc_ready owns (libc_driver p) → libc_ready owns (libc_driver p');
  mv_report : report p' = report p;
}.

Lemma moved_refl p : moved 0 [] [] p p.
Proof. split; rewrite ?app_nil_r; done || lia. Qed.

Lemma moved_trans n cs ls n' cs' ls' p q r :
  moved n cs ls p q → moved n' cs' ls' q r → moved (n + n') (cs ++ cs') (ls ++ ls') p r.
Proof. intros [] []. split; rewrite ?app_assoc; lia || congruence || auto. Qed.

Lemma moved_eq n cs ls n' cs' ls' p q :
  moved n cs ls p q → n = n' → cs = cs' → ls = ls' → moved n' cs' ls' p q.
Proof. by intros ? -> -> ->. Qed.

(** Composes the moves of the hypotheses into the one of the goal. *)
Ltac chain :=
  cbv beta in *;
  repeat match goal with
  | H1 : moved _ _ _ ?p ?q, H2 : moved _ _ _ ?q ?r |- _ =>
      let H := fresh "Hmv" in
      pose proof (moved_trans _ _ _ _ _ _ _ _ _ H1 H2) as H; clear H1 H2
  end;
  eapply moved_eq; [eassumption|..].

Lemma finishes_in_program {A} (m : ST prog A) s (Q : A → prog → Prop) :
  finishes m (prog_of s) Q → finishes (in_program m) s (λ a s', Q a (prog_of s')).
Proof.
  unfold ends, in_program, on_sampler, on_clock, on_world, prog_of. intros [He|[[Hb He]|(a & p & Hm & HQ)]].
  - left. by rewrite He.
  - right. left. by rewrite He.
  - right. right. rewrite Hm. by do 2 eexists.
Qed.

Lemma finishes_on_mm {A} (m : ST (driver mm_state) A) (p : prog) (Q : A → driver mm_state → Prop) :
  finishes m (mm_driver p) Q →
  finishes (on_mm_driver m) p (λ a p', Q a (mm_driver p') ∧
    p' = Program (mm_driver p') (libc_driver p) (arenas_used p) (lines p) (report p) (outside p)).
Proof.
  unfold ends, on_mm_driver. intros [He|[[Hb He]|(a & d & Hm & HQ)]].
  - left. by rewrite He.
  - right. left. by rewrite He.
  - right. right. rewrite Hm. by do 2 eexists.
Qed.

(** An evaluation of the C library. *)
Lemma finishes_on_libc {A} (m : ST (driver L) A) (p : prog) (Q : A → Prop) :
  ends False m (libc_driver p) (λ a d', Q a ∧ libc_ready owns d' ∧ complaints d' = complaints (libc_driver p)) →
  finishes (on_libc m) p (λ a p', Q a ∧ moved 0 [] [] p p').
Proof.
  unfold ends, on_libc. intros [He|[[[] _]|(a & d & Hm & Ha & Hr & Hc)]].
  - left. by rewrite He.
  - right. right. rewrite Hm. do 2 eexists. split; [done|]. split; [done|]. split; cbn; rewrite ?app_nil_r; done || lia.
Qed.

Lemma finishes_print_if b ls s :
  finishes (print_if b ls) s (λ _ s', moved 0 [] (if b then ls else []) (prog_of s) (prog_of s')).
Proof.
  unfold print_if. destruct b; [|apply finishes_ret, moved_refl].
  apply (finishes_in_program _ _ (λ _ p', moved 0 [] ls (prog_of s) p')).
  eapply finishes_Ok; [done|]. split; cbn; rewrite ?app_nil_r; done || lia.
Qed.

(** An evaluation on a new arena. *)
Lemma finishes_evaluation {A} (m : Z * gmap Z Z → ST (driver mm_state) A) (p : prog) (Q : A → list (Z * complaint) → Prop) :
  (∀ d, finishes (m (arenas env (arenas_used p))) d (λ a d', ∃ cs, complaints d' = complaints d ++ cs ∧ Q a cs)) →
  finishes (a ← next_arena env; on_mm_driver (m a)) p (λ a p', ∃ cs, Q a cs ∧ moved 1 cs [] p p').
Proof.
  intros Hm. unfold next_arena.
  eapply finishes_bind; [eapply (finishes_Ok _ _ _ _ (λ a q, a = arenas env (arenas_used p) ∧
    q = Program (mm_driver p) (libc_driver p) (S (arenas_used p)) (lines p) (report p) (outside p))); done|].
  intros u q [-> ->]. eapply finishes_mono; [apply finishes_on_mm, Hm|].
  intros a p' [(cs & Hcs & HQ) ->]. exists cs. split; [done|]. split; cbn; rewrite ?app_nil_r; done || lia.
Qed.

(** What the environment must give: aligned arenas, memory for the driver's own
    records, and timers that answer. *)
Record good_env : Prop := {
  ge_arenas k : 0 < (arenas env k).1 ∧ (arenas env k).1 mod 8 = 0;
  ge_record : has_record env = true;
  ge_memory n : has_memory env n = true;
  ge_set v x : ∃ x', setitimers (system_timers env) v x = Ok (tt, x');
  ge_get x : ∃ v x', getitimer_real (system_timers env) x = Ok (v, x');
}.

Context (Henv : good_env).

Section Mm.
Context (t : trace) (Hp : proper (num_ids t) ∅ (ops t)) (Hbad : reallocates (ops t) → bad).

Lemma mm_valid_finishes p :
  finishes (mm_valid env t) p (λ v p', ∃ cs,
    (v = 1 ∧ cs = [] ∨ v = 0 ∧ ∃ k c, cs = [(k, c)] ∧ excuse (ops t) c) ∧ moved 1 cs [] p p').
Proof.
  apply finishes_evaluation. intros d. destruct (ge_arenas Henv (arenas_used p)) as [Ha H8].
  rewrite (ge_record Henv).
  destruct (mdriver_valid_Ok (arenas env (arenas_used p)).1 (arenas env (arenas_used p)).2 t d Ha H8 Hp)
    as [(d' & Hrun & Hc)|[(d' & k & c & Hrun & He & Hc)|[Hr He]]].
  - eapply finishes_Ok; [done|]. exists []. rewrite app_nil_r. auto.
  - eapply finishes_Ok; [done|]. exists [(k, c)]. eauto 8.
  - right. left. auto.
Qed.

Lemma mm_util_finishes p :
  peak ∅ 0 0 (ops t) < 2 ^ 31 →
  finishes (mm_util env t) p (λ u p', ∃ cs,
    ((∃ size, u = (peak ∅ 0 0 (ops t), size) ∧ peak ∅ 0 0 (ops t) ≤ size ∧ 0 < size) ∧ cs = []) ∧
    moved 1 cs [] p p').
Proof.
  intros Hpk. apply finishes_evaluation. intros d. destruct (ge_arenas Henv (arenas_used p)) as [Ha H8].
  rewrite (ge_record Henv).
  destruct (mdriver_util_Ok (arenas env (arenas_used p)).1 (arenas env (arenas_used p)).2 t d Ha H8 Hp Hpk)
    as [(d' & Hrun & Hc & Hsz)|[He|[Hr He]]]; [|by left|by right; left; auto].
  eapply finishes_Ok; [done|]. exists []. rewrite app_nil_r. eauto 6.
Qed.

Lemma mm_speed_finishes p : finishes (mm_speed env t) p (λ _ p', moved 1 [] [] p p').
Proof.
  eapply finishes_mono.
  - apply (finishes_evaluation _ _ (λ _ cs, cs = [])). intros d. destruct (ge_arenas Henv (arenas_used p)) as [Ha H8].
    eapply finishes_weaken; [|exact Hbad].
    eapply finishes_mono; [by apply eval_mm_speed_Ok|]. intros ? d' Hc. exists []. by rewrite app_nil_r.
  - by intros ? p' (cs & -> & Hmv).
Qed.
End Mm.

(** ** Timing *)

Lemma finishes_outside {A} (f : ST X A) (p : prog) :
  (∀ x, ∃ a x', f x = Ok (a, x')) → finishes (on_outside f) p (λ _ p', moved 0 [] [] p p').
Proof.
  intros Hf. destruct (Hf (outside p)) as (a & x' & Hx). unfold on_outside.
  eapply finishes_Ok; [by rewrite Hx|]. split; cbn; rewrite ?app_nil_r; done || lia.
Qed.

(** A function that may rely on the C library. *)
Lemma finishes_repeat (f : ST prog unit) k n (I : prog → Prop) :
  (∀ p p', I p → moved k [] [] p p' → I p') →
  (∀ p, I p → finishes f p (λ _ p', moved k [] [] p p')) → ∀ p, I p →
  finishes (repeat_f n f) p (λ _ p', moved (n * k) [] [] p p').
Proof.
  intros HI Hf. induction n as [|n IH]; intros p Hp; cbn [repeat_f]; [apply finishes_ret, moved_refl|].
  eapply finishes_bind; [by apply Hf|]. intros ? p1 H1. eapply finishes_mono; [by apply IH; eapply HI|].
  intros ? p2 H2. apply (moved_trans _ _ _ _ _ _ _ _ _ H1 H2).
Qed.

Lemma finishes_get_etime v p : finishes (get_etime (program_timers env) v) p (λ _ p', moved 0 [] [] p p').
Proof.
  unfold get_etime. eapply finishes_bind; [apply finishes_outside, (ge_get Henv)|].
  intros [sec usec] p1 H1. by apply finishes_ret.
Qed.

(** Timing a function runs it ten times. *)
Lemma finishes_time_it (f : ST prog unit) k s (I : prog → Prop) :
  (∀ j p p', I p → moved j [] [] p p' → I p') →
  (∀ p, I p → finishes f p (λ _ p', moved k [] [] p p')) → I (prog_of s) →
  finishes (time_it env f) s (λ _ s', moved (10 * k) [] [] (prog_of s) (prog_of s')).
Proof.
  intros HI Hf Hs. apply (finishes_in_program _ _ (λ _ p', moved (10 * k) [] [] (prog_of s) p')). unfold ftimer_itimer.
  eapply (finishes_bind _ _ _ (λ _ p', moved 0 [] [] (prog_of s) p')).
  { unfold init_etime. eapply finishes_bind; [apply finishes_outside|intros ? p1 H1; by apply finishes_ret].
    intros x. destruct (ge_set Henv (MAX_ETIME, 0) x) as [x' Hx]. by exists tt, x'. }
  intros first p1 H1. eapply finishes_bind; [apply finishes_get_etime|]. intros start p2 H2.
  assert (I p2) as Hp2 by (eapply HI; [eapply HI; [exact Hs|exact H1]|exact H2]).
  eapply finishes_bind; [apply (finishes_repeat _ k 10 I); [intros ? ?; apply HI|done|done]|]. intros ? p3 H3.
  eapply finishes_bind; [apply finishes_get_etime|]. intros stop p4 H4. apply finishes_ret.
  chain; [lia|done|done].
Qed.

(** ** One trace *)

(** The file of a trace: its name fits the buffers and its text is that of a
    proper trace, whose live bytes an [int] holds. *)
Record trace_file (o : options) (name : bytes) (t : trace) : Prop := {
  tf_path : Z.of_nat (length (tracedir o ++ name)) < MAXLINE;
  tf_name : Z.of_nat (length name) < MAXLINE - 1;
  tf_text : ∃ sugg weight, small sugg ∧ small weight ∧
    files env (tracedir o ++ name) = Some (show_trace sugg weight t);
  tf_readable : readable (has_memory env) t;
  tf_proper : proper (num_ids t) ∅ (ops t);
  tf_peak : peak ∅ 0 0 (ops t) < 2 ^ 31;
}.

(** What is read. *)
Definition read_back (t : trace) : trace := Trace (num_ids t) (stored (garbage env) 0 (ops t)).

Lemma finishes_open_trace o name t s :
  trace_file o name t →
  finishes (open_trace env o (Some name)) s (λ r s', r = (name, read_back t) ∧
    moved 0 [] (if 1 <? verbose o then [Reading name] else []) (prog_of s) (prog_of s')).
Proof.
  intros H. unfold open_trace. eapply finishes_bind; [apply finishes_print_if|]. intros ? s1 H1.
  rewrite (proj2 (Z.leb_gt _ _) (tf_path _ _ _ H)), (proj2 (Z.leb_gt _ _) (tf_name _ _ _ H)), andb_false_r.
  destruct (tf_text _ _ _ H) as (sugg & weight & Hs & Hw & ->).
  rewrite read_trace_show by (done || apply H). by eapply finishes_Ok.
Qed.

(** What the statistics of a trace say. *)
Definition judged (name : bytes) (t : trace) (st : stats) : Prop :=
  trace_name st = name ∧ stat_ops st = of_Z (Z.of_nat (length (ops t))) ∧
  (stat_valid st = 1 ∧ error_msg st = None ∧
     (∃ size, stat_util st = ratio (peak ∅ 0 0 (ops t)) size ∧ peak ∅ 0 0 (ops t) ≤ size ∧ 0 < size) ∨
   stat_valid st = 0 ∧ (∃ k c, error_msg st = Some (k, c) ∧ excuse (ops t) c) ∧ stat_util st = zero ∧ stat_secs st = zero).

(** The arenas an evaluation takes, its complaints, and what it prints. *)
Definition cost (st : stats) : nat := if stat_valid st =? 0 then 1 else 12.

Definition grievance (st : stats) : list (Z * complaint) := option_list (error_msg st).

Definition chatter (o : options) (st : stats) : list out_line :=
  if 1 <? verbose o then
    [Reading (trace_name st); CheckingMm] ++ (if stat_valid st =? 0 then [] else [Efficiency; Performance])
  else [].

Lemma finishes_last_since n cs ls (p : prog) s :
  moved n cs ls p (prog_of s) →
  finishes (in_program (last_since (length (complaints (mm_driver p))))) s
    (λ m s', m = last cs ∧ moved 0 [] [] (prog_of s) (prog_of s')).
Proof.
  intros Hmv. apply (finishes_in_program _ _ (λ m p', m = last cs ∧ moved 0 [] [] (prog_of s) p')).
  eapply finishes_Ok; [done|]. rewrite (mv_complaints _ _ _ _ _ Hmv), drop_app_length. split; [done|apply moved_refl].
Qed.

Lemma evaluate_mm_finishes o name t s :
  trace_file o name t → (reallocates (ops t) → bad) →
  finishes (evaluate_mm env o (Some name)) s (λ st s', judged name t st ∧
    moved (cost st) (grievance st) (chatter o st) (prog_of s) (prog_of s')).
Proof.
  intros H Hbad. set (t' := read_back t).
  assert (proper (num_ids t') ∅ (ops t')) as Hp by apply proper_stored, H.
  assert (reallocates (ops t') → bad) as Hbad' by (intros ?%reallocates_stored; auto).
  unfold evaluate_mm. eapply finishes_bind; [by apply finishes_open_trace|]. intros [? ?] s1 [[= -> ->] H1].
  eapply finishes_bind; [apply (finishes_in_program _ _ (λ _ p', moved 0 [] [] (prog_of s1) p')), (finishes_Ok _ _ _ _ _ eq_refl);
    split; cbn; rewrite ?app_nil_r; done || lia|]. intros ? s2 H2.
  eapply finishes_bind; [apply finishes_print_if|]. intros ? s3 H3.
  eapply finishes_bind; [apply (finishes_in_program _ _ (λ n p', n = length (complaints (mm_driver (prog_of s3))) ∧ p' = prog_of s3));
    by eapply finishes_Ok|]. intros n s4 [-> E4].
  eapply finishes_bind; [apply finishes_in_program, (mm_valid_finishes t' Hp Hbad')|]. cbv beta.
  intros v s5 (cs & Hv & H5). rewrite E4 in H5.
  destruct Hv as [[-> ->]|[-> (k & c & -> & He%excuse_stored)]]; cbn [Z.eqb negb].
  - eapply finishes_bind; [apply finishes_print_if|]. intros ? s6 H6.
    eapply finishes_bind; [apply finishes_in_program, (mm_util_finishes t' Hp Hbad')|]; [unfold t'; cbn; rewrite peak_stored; apply H|]. cbv beta.
    intros u s7 (? & [(size & -> & Hsize) ->] & H7). unfold t' in Hsize. cbn in Hsize. rewrite peak_stored in Hsize.
    eapply finishes_bind; [apply finishes_print_if|]. intros ? s8 H8.
    eapply finishes_bind; [by apply (finishes_time_it _ 1 _ (λ _, True)); [|intros p _; apply mm_speed_finishes|]|]. intros secs s9 H9.
    assert (moved 12 [] (if 1 <? verbose o then [Efficiency; Performance] else []) (prog_of s3) (prog_of s9)) as H39.
    { clear H1 H2 H3. chain; [done|done|]. by destruct (1 <? verbose o). }
    eapply finishes_bind; [by eapply finishes_last_since|]. intros msg s10 [-> H10]. apply finishes_ret. split.
    + split_and!; [done|by cbn; rewrite length_stored|]. left. split_and!; [done|done|].
      exists size. unfold t'. cbn. by rewrite peak_stored.
    + clear H5 H6 H7 H8 H9. chain; [done|done|]. unfold chatter. by destruct (1 <? verbose o).
  - eapply finishes_bind; [by eapply finishes_last_since|]. intros msg s6 [-> H6]. apply finishes_ret. split.
    + split_and!; [done|by cbn; rewrite length_stored|]. right. eauto 8.
    + chain; [done|done|]. unfold chatter. by destruct (1 <? verbose o).
Qed.
(** What the evaluation of the C library finds: nothing but a time. *)
Definition timed_libc (t : trace) (st : stats) : Prop :=
  ∃ secs, st = Stats (of_Z (Z.of_nat (length (ops t)))) 1 secs [] None zero.

Definition libc_chatter (o : options) (name : bytes) : list out_line :=
  if 1 <? verbose o then [Reading name; CheckingLibc; Performance] else [].

Lemma evaluate_libc_finishes o name t s :
  trace_file o name t → libc_ready owns (libc_driver (prog_of s)) →
  finishes (evaluate_libc env o (Some name)) s (λ st s', timed_libc t st ∧
    moved 0 [] (libc_chatter o name) (prog_of s) (prog_of s')).
Proof.
  intros H Hready. set (t' := read_back t).
  assert (proper (num_ids t') ∅ (ops t')) as Hp by apply proper_stored, H.
  unfold evaluate_libc. eapply finishes_bind; [by apply finishes_open_trace|]. intros [? ?] s1 [[= -> ->] H1].
  eapply finishes_bind; [apply (finishes_in_program _ _ (λ _ p', moved 0 [] [] (prog_of s1) p')), (finishes_Ok _ _ _ _ _ eq_refl);
    split; cbn; rewrite ?app_nil_r; done || lia|]. intros ? s2 H2.
  eapply finishes_bind; [apply finishes_print_if|]. intros ? s3 H3.
  assert (libc_ready owns (libc_driver (prog_of s3))) as Hr3 by (by apply (mv_ready _ _ _ _ _ H3), (mv_ready _ _ _ _ _ H2), (mv_ready _ _ _ _ _ H1)).
  eapply finishes_bind; [by apply finishes_in_program, (finishes_on_libc _ _ (λ v, v = 1)), eval_libc_valid_Ok|].
  intros v s4 [-> H4]. cbn [Z.eqb negb]. eapply finishes_bind; [apply finishes_print_if|]. intros ? s5 H5.
  eapply finishes_bind.
  { apply (finishes_time_it _ 0 _ (λ p, libc_ready owns (libc_driver p))).
    - intros k p p' Hr Hmv. by apply (mv_ready _ _ _ _ _ Hmv).
    - intros p Hr. eapply finishes_mono; [apply (finishes_on_libc _ _ (λ _, True))|by intros ? ? []].
      eapply finishes_mono; [by apply eval_libc_speed_Ok|]. done.
    - by apply (mv_ready _ _ _ _ _ H5), (mv_ready _ _ _ _ _ H4). }
  intros secs s6 H6. apply finishes_ret. split; [exists secs; cbn; by rewrite length_stored|].
  chain; [done|done|]. unfold libc_chatter. by destruct (1 <? verbose o).
Qed.

(** ** All traces *)

Lemma evaluate_all_finishes o names ts : ∀ s,
  Forall2 (trace_file o) names ts → (Exists (λ t, reallocates (ops t)) ts → bad) →
  finishes (evaluate_all (evaluate_mm env o) (Some <$> names)) s (λ ss s', Forall3 judged names ts ss ∧
    moved (sum_list (cost <$> ss)) (ss ≫= grievance) (ss ≫= chatter o) (prog_of s) (prog_of s')).
Proof.
  intros s Hall Hbad. revert s. induction Hall as [|name t names ts Ht _ IH]; intros s; csimpl.
  { apply finishes_ret. split; [constructor|apply moved_refl]. }
  eapply finishes_bind; [apply evaluate_mm_finishes; [done|by intros ?; apply Hbad; left]|]. intros st s1 [Hst H1].
  eapply finishes_bind; [apply IH; intros ?; apply Hbad; by right|]. intros ss s2 [Hss H2].
  apply finishes_ret. csimpl. split; [by constructor|]. by chain.
Qed.

Lemma evaluate_libc_all_finishes o names ts : ∀ s,
  Forall2 (trace_file o) names ts → libc_ready owns (libc_driver (prog_of s)) →
  finishes (evaluate_all (evaluate_libc env o) (Some <$> names)) s (λ ss s', Forall2 timed_libc ts ss ∧
    moved 0 [] (names ≫= libc_chatter o) (prog_of s) (prog_of s')).
Proof.
  intros s Hall. revert s. induction Hall as [|name t names ts Ht _ IH]; intros s Hr; csimpl.
  { apply finishes_ret. split; [constructor|apply moved_refl]. }
  eapply finishes_bind; [by apply evaluate_libc_finishes|]. intros st s1 [Hst H1].
  eapply finishes_bind; [by apply IH, (mv_ready _ _ _ _ _ H1)|]. intros ss s2 [Hss H2].
  apply finishes_ret. split; [by constructor|]. by chain.
Qed.

(** The part about the C library. *)
Definition libc_lines (o : options) (names : list bytes) (e : Z) (ls : list stats) : list out_line :=
  if run_libc o then
    (if 1 <? verbose o then [TestingLibc] else []) ++ (names ≫= libc_chatter o) ++
    (if verbose o =? 0 then [] else LibcResults :: printresults e ls)
  else [].

Definition num_errors (p : prog) : Z :=
  Z.of_nat (length (complaints (mm_driver p)) + length (complaints (libc_driver p))).

Lemma finishes_errors s :
  finishes errors s (λ e s', e = num_errors (prog_of s) ∧ moved 0 [] [] (prog_of s) (prog_of s')).
Proof.
  apply (finishes_in_program _ _ (λ e p', e = num_errors (prog_of s) ∧ moved 0 [] [] (prog_of s) p')).
  eapply finishes_Ok; [done|]. split; [done|apply moved_refl].
Qed.

Lemma libc_part_finishes o names ts s :
  trace_names o = Some <$> names → Forall2 (trace_file o) names ts →
  (run_libc o = true → libc_ready owns (libc_driver (prog_of s))) →
  finishes (libc_part env o) s (λ _ s', ∃ ls, (if run_libc o then Forall2 timed_libc ts ls else ls = []) ∧
    moved 0 [] (libc_lines o names (num_errors (prog_of s)) ls) (prog_of s) (prog_of s')).
Proof.
  intros Hnames Hall Hr. unfold libc_part, libc_lines. destruct (run_libc o); cycle 1.
  { apply finishes_ret. exists []. split; [done|apply moved_refl]. }
  specialize (Hr eq_refl). eapply finishes_bind; [apply finishes_print_if|]. intros ? s1 H1.
  unfold calloc_stats. rewrite (ge_memory Henv). eapply (finishes_bind _ _ _ (λ _ s', s' = s1)); [by apply finishes_ret|].
  intros ? s2 ->. rewrite Hnames. eapply finishes_bind; [by apply evaluate_libc_all_finishes, (mv_ready _ _ _ _ _ H1)|].
  intros ls s3 [Hls H3]. eapply finishes_bind; [apply finishes_errors|]. intros e s4 [-> H4].
  eapply finishes_mono; [apply finishes_print_if|]. intros ? s5 H5. exists ls. split; [done|].
  assert (num_errors (prog_of s3) = num_errors (prog_of s)) as Hsame.
  { unfold num_errors. by rewrite (mv_complaints _ _ _ _ _ H3), (mv_complaints _ _ _ _ _ H1), !app_nil_r,
      (mv_libc _ _ _ _ _ H3), (mv_libc _ _ _ _ _ H1). }
  rewrite Hsame in H5. chain; [done|done|]. destruct (verbose o =? 0); cbn [negb]; by rewrite <-?app_assoc.
Qed.

(** ** The summary *)

(** The baseline of a trace, and its row of the table of [printpassed]. *)
Fixpoint baseline (name : bytes) (table : list (bytes * double)) : option double :=
  match table with
  | [] => None
  | b :: table' => if bool_decide (name = b.1) then Some b.2 else baseline name table'
  end.

Definition verdict (i : nat) (st : stats) : list out_line :=
  match baseline (trace_name st) trace_baseline_table with
  | None => []
  | Some min_util =>
      [if stat_valid st =? 0 then NotPassed (Z.of_nat i) (trace_name st)
       else Passed (Z.of_nat i) (trace_name st) (dmul (stat_util st) (of_Z 100)) (dleb min_util (stat_util st))]
  end.

Lemma passed_row_none i st table : trace_name st ∉ table.*1 → table ≫= passed_row i st = [].
Proof.
  induction table as [|b table IH]; csimpl; [done|]. intros [Hb Ht]%not_elem_of_cons.
  rewrite IH by done. unfold passed_row. by rewrite bool_decide_eq_false_2.
Qed.

(** The names of the table are distinct: a trace has at most one row. *)
Lemma verdict_row (i : nat) st : trace_baseline_table ≫= passed_row (Z.of_nat i) st = verdict i st.
Proof.
  assert (NoDup trace_baseline_table.*1) as Hnd by (apply (bool_decide_unpack _); vm_compute; exact I).
  unfold verdict. induction trace_baseline_table as [|b table IH]; csimpl; [done|].
  apply NoDup_cons in Hnd as [Hb Hnd]. unfold passed_row at 1. case_bool_decide as Hn.
  - rewrite passed_row_none by by rewrite Hn. by destruct (stat_valid st =? 0).
  - by apply IH.
Qed.

Lemma passed_rows_verdicts ss : ∀ i : nat, passed_rows (Z.of_nat i) ss = concat (imap (λ j, verdict (i + j)) ss).
Proof.
  induction ss as [|st ss IH]; intros i; [done|]. cbn [passed_rows imap concat].
  rewrite verdict_row, Nat.add_0_r. f_equal. replace (Z.of_nat i + 1) with (Z.of_nat (S i)) by lia.
  rewrite IH. f_equal. apply imap_ext. intros j x _. simpl. by rewrite Nat.add_succ_r.
Qed.

(** The lines about the index. *)
Definition index_lines (ss : list stats) : list out_line :=
  let '(secs, ops, util, _) := totals ss zero zero zero 0 in
  (compute_performance_index (Z.of_nat (length ss)) secs ops util).2.

(** What is written to the report and printed about it. *)
Definition reported (o : options) (ss : list stats) : list report_line * list out_line :=
  if gradescope o then printresultsgradescope (report_io env) ss else ([], []).

Definition summary_lines (o : options) (e : Z) (ss : list stats) : list out_line :=
  (if verbose o =? 0 then [] else MmResults :: printresults e ss ++ [Blank_line]) ++ (reported o ss).2 ++
  (if verbose o =? 0 then Blank_line :: PassedHeader :: concat (imap verdict ss) ++ [Blank_line] else []) ++
  (if gradescope o then [] else index_lines ss ++ (if e =? 0 then [] else [TerminatedWith e])).

Definition with_report (r : list report_line) (p : prog) : prog :=
  Program (mm_driver p) (libc_driver p) (arenas_used p) (lines p) r (outside p).

Lemma report_finishes o ss s :
  finishes (if gradescope o then
     let '(rows, msgs) := printresultsgradescope (report_io env) ss in
     in_program (set_report rows);; in_program (print msgs)
   else mret tt) s (λ _ s', moved 0 [] (reported o ss).2 (prog_of s) (with_report (report (prog_of s)) (prog_of s')) ∧
     report (prog_of s') = if gradescope o then (reported o ss).1 else report (prog_of s)).
Proof.
  unfold reported. destruct (gradescope o); cycle 1.
  { apply finishes_ret. split; [|done]. split; cbn; rewrite ?app_nil_r; done || lia. }
  destruct (printresultsgradescope (report_io env) ss) as [rows msgs].
  eapply finishes_bind; [apply (finishes_in_program _ _ (λ _ p', p' = with_report rows (prog_of s))); by eapply finishes_Ok|].
  intros ? s1 E1. apply (finishes_in_program _ _ (λ _ p', moved 0 [] msgs (prog_of s) (with_report (report (prog_of s)) p') ∧ report p' = rows)).
  eapply finishes_Ok; [done|]. rewrite E1. split; [|done]. split; cbn; rewrite ?app_nil_r; done || lia.
Qed.

Lemma summary_finishes o ss s :
  autograder o = false →
  finishes (summary env o ss) s (λ _ s',
    moved 0 [] (summary_lines o (num_errors (prog_of s)) ss) (prog_of s) (with_report (report (prog_of s)) (prog_of s')) ∧
    report (prog_of s') = if gradescope o then (reported o ss).1 else report (prog_of s)).
Proof.
  intros Ha. set (e := num_errors _). unfold summary.
  eapply finishes_bind; [apply finishes_errors|]. intros ? s1 [-> H1]. fold e.
  eapply finishes_bind; [apply finishes_print_if|]. intros ? s2 H2.
  eapply finishes_bind; [apply report_finishes|]. intros ? s3 [H3 E3].
  eapply finishes_bind; [apply finishes_print_if|]. intros ? s4 H4.
  unfold summary_lines, index_lines. destruct (totals ss zero zero zero 0) as [[[secs ops] util] numcorrect].
  destruct (compute_performance_index _ _ _ _) as [index msgs].
  eapply (finishes_mono _ _ (λ _ s5, moved 0 [] (if gradescope o then [] else msgs ++ (if e =? 0 then [] else [TerminatedWith e]))
    (prog_of s4) (prog_of s5))).
  { destruct (gradescope o); cbn [negb]; [apply finishes_ret, moved_refl|].
    eapply finishes_bind; [apply (finishes_print_if true)|]. intros ? s5 H5.
    eapply finishes_bind; [apply finishes_print_if|]. intros ? s6 H6. rewrite Ha. apply finishes_ret.
    clear H1 H2 H3 H4. chain; [done|done|]. by destruct (e =? 0). }
  intros ? s5 H5. pose proof (mv_report _ _ _ _ _ H1) as R1. pose proof (mv_report _ _ _ _ _ H2) as R2.
  pose proof (mv_report _ _ _ _ _ H4) as R4. pose proof (mv_report _ _ _ _ _ H5) as R5.
  split; [|by rewrite R5, R4, E3, R2, R1].
  assert (∀ n cs ls p p' r, moved n cs ls p p' → moved n cs ls (with_report r p) (with_report r p')) as Hw
    by (by intros ? ? ? ? ? ? []).
  apply (Hw _ _ _ _ _ (report (prog_of s2))) in H4. apply (Hw _ _ _ _ _ (report (prog_of s2))) in H5.
  rewrite <-R1, <-R2. chain; [done|done|]. unfold printpassed.
  assert (passed_rows 0 ss = concat (imap verdict ss)) as -> by apply (passed_rows_verdicts ss 0). cbn [snd].
  destruct (verbose o =? 0); cbn [negb app]; by rewrite ?app_nil_r, <-?app_assoc.
Qed.

(** ** [main] *)

(** The interval timer needs no preparation. *)
Lemma init_fsecs_finishes M P b s :
  finishes (init_fsecs timing_package M P b) s (λ _ s', prog_of s' = prog_of s).
Proof. destruct b; by eapply finishes_Ok. Qed.

(** All that is printed, if there were [e] complaints before and [e'] after. *)
Definition output (o : options) (names : list bytes) (e e' : Z) (ls ss : list stats) : list out_line :=
  (match tracefiles o with None => if gradescope o then [] else [DefaultTraces (tracedir o)] | Some _ => [] end) ++
  libc_lines o names e ls ++ (if 1 <? verbose o then [TestingMm] else []) ++ (ss ≫= chatter o) ++ summary_lines o e' ss.

Lemma start_finishes s :
  finishes (a ← in_program (next_arena env); in_program (on_mm_driver (on_heap (mem_init a.1 a.2)))) s
    (λ _ s', moved 1 [] [] (prog_of s) (prog_of s')).
Proof.
  eapply (finishes_bind _ _ _ (λ a s', 0 < a.1 ∧ moved 1 [] [] (prog_of s) (prog_of s'))).
  { apply (finishes_in_program _ _ (λ a p', 0 < a.1 ∧ moved 1 [] [] (prog_of s) p')). eapply finishes_Ok; [done|].
    split; [apply (ge_arenas Henv)|]. split; cbn; rewrite ?app_nil_r; done || lia. }
  intros ar s6 [Ha1 H6].
  eapply finishes_mono; [apply (finishes_in_program _ _ (λ _ p', moved 0 [] [] (prog_of s6) p'))|].
  { unfold on_mm_driver, on_heap, mem_init.
    rewrite (proj2 (Z.eqb_neq _ _)) by (unfold NULL; lia). eapply finishes_Ok; [done|].
    split; cbn; rewrite ?app_nil_r; done || lia. }
  intros ? s7 H7. by chain.
Qed.

Lemma evaluate_finishes o names ts s :
  autograder o = false → trace_names o = Some <$> names → Forall2 (trace_file o) names ts →
  (Exists (λ t, reallocates (ops t)) ts → bad) →
  (run_libc o = true → libc_ready owns (libc_driver (prog_of s))) →
  finishes (evaluate env o) s (λ ss s', ∃ ls,
    (if run_libc o then Forall2 timed_libc ts ls else ls = []) ∧ Forall3 judged names ts ss ∧
    moved (S (sum_list (cost <$> ss))) (ss ≫= grievance)
      (output o names (num_errors (prog_of s)) (num_errors (prog_of s) + Z.of_nat (length (ss ≫= grievance))) ls ss)
      (prog_of s) (with_report (report (prog_of s)) (prog_of s')) ∧
    report (prog_of s') = if gradescope o then (reported o ss).1 else report (prog_of s)).
Proof.
  intros Ha Hnames Hall Hbad Hready. unfold evaluate.
  eapply finishes_bind; [apply finishes_print_if|]. intros ? s1 H1.
  eapply finishes_bind; [apply init_fsecs_finishes|]. intros ? s2 E2. cbv beta in H1. rewrite <-E2 in H1.
  eapply finishes_bind; [apply (libc_part_finishes o names ts); [done..|intros ?; by apply (mv_ready _ _ _ _ _ H1), Hready]|].
  intros ? s3 (ls & Hls & H3).
  assert (num_errors (prog_of s2) = num_errors (prog_of s)) as He2
    by (unfold num_errors; by rewrite (mv_complaints _ _ _ _ _ H1), app_nil_r, (mv_libc _ _ _ _ _ H1)).
  rewrite He2 in H3.
  eapply finishes_bind; [apply finishes_print_if|]. intros ? s4 H4. unfold calloc_stats. rewrite (ge_memory Henv).
  eapply (finishes_bind _ _ _ (λ _ s', s' = s4)); [by apply finishes_ret|]. intros ? s5 ->.
  rewrite Hnames. apply finishes_assoc. eapply finishes_bind; [by apply start_finishes|]. intros ? s7 H7.
  eapply finishes_bind; [by apply evaluate_all_finishes|]. intros ss s8 [Hss H8].
  eapply finishes_bind; [by apply summary_finishes|]. intros ? s9 [H9 R9]. apply finishes_ret.
  exists ls. split; [done|]. split; [done|].
  assert (moved (S (sum_list (cost <$> ss))) (ss ≫= grievance)
    ((match tracefiles o with None => if gradescope o then [] else [DefaultTraces (tracedir o)] | Some _ => [] end) ++
     libc_lines o names (num_errors (prog_of s)) ls ++ (if 1 <? verbose o then [TestingMm] else []) ++ (ss ≫= chatter o))
    (prog_of s) (prog_of s8)) as H08.
  { clear H9. chain; [done|done|]. rewrite <-?app_assoc. by destruct (tracefiles o), (gradescope o). }
  clear H1 H3 H4 H7 H8.
  assert (num_errors (prog_of s8) = num_errors (prog_of s) + Z.of_nat (length (ss ≫= grievance))) as He.
  { unfold num_errors. rewrite (mv_complaints _ _ _ _ _ H08), (mv_libc _ _ _ _ _ H08), length_app. lia. }
  rewrite He in H9. rewrite (mv_report _ _ _ _ _ H08) in H9, R9. split; [|done].
  chain; [lia|by rewrite app_nil_r|]. unfold output. by rewrite <-!app_assoc.
Qed.
End Program.
