(* ===== verification/MdriverMainClaims.v ===== *)
(** * The driver program: properties. *)

From Stdlib Require Import ZArith Lia Ascii String SpecFloat.
From stdpp Require Import base gmap numbers option list.
From S2P Require Import Prelude Stdio Memlib MmInline Mm MmHeap MmLayout MmProofs MmSpec MmRealloc MmRefine Mdriver MdriverBytes MdriverTables MdriverProofs MdriverTrace MdriverRepl Clock Fcyc MdriverEval MdriverTimed MdriverMain MdriverMainProofs.

Open Scope Z_scope.
Open Scope list_scope.





(** Three blocks: the second one is given back, and the first one grows into its
    place. *)
Definition small_trace : trace :=
  Trace 3 [TraceOp ALLOC 0 16; TraceOp ALLOC 1 64; TraceOp ALLOC 2 16; TraceOp FREE 1 0; TraceOp REALLOC 0 80].

(** A C library that hands out ever higher addresses; its state is the next
    one. *)
Definition bump (o : op) : ST Z Z := λ next,
  match o with
  | Malloc n | Realloc _ n => Ok (next, next + n)
  | _ => Ok (0, next)
  end.



(** A world in which time stands still. *)
Definition quiet : timers unit := MkTimers (λ _ x, Ok (tt, x)) (λ x, Ok ((86400, 0), x)) (λ x, Ok ((0, 0), x)).

Definition one_file : environment unit Z := Environment _ _
  (λ n, (4096 * (1 + Z.of_nat n), ∅))
  (λ path, if bool_decide (path = lit "small.rep") then Some (show_trace 20000 1 small_trace) else None)
  (λ _, 7) (λ _, true) true [] (FileIO true (λ _, true) true) bump
  (Machine _ (λ x, Ok ((0, 0), x)) (λ x, Ok (0, x)) (λ x, Ok (0, x)) (λ _ x, Ok (tt, x)))
  Other quiet 0 None.

Definition at_start : fsecs_state (program unit Z) :=
  FsecsState (Sampler default_params None None 0 0
    (Clock 0 0 zero 0 [] (Program (Driver (MM ∅ 0 0 0 0 0 0) [] ∅ ∅ []) (Driver 4096 [] ∅ ∅ []) 0 [] [] tt))) zero.

(** [mdriver -l -G -f small.rep] *)
Definition arguments : list (ascii * bytes) := [(chr 108, []); (chr 71, []); (chr 102, lit "small.rep")].





(** What is printed for it: 96 of 176 bytes in use at the peak. *)
Example small_run :
  match mdriver_main one_file arguments at_start with
  | Ok (Ended 0 [st], s') =>
      stat_util st = ratio 96 176 ∧ arenas_used (prog_of s') = 13%nat ∧ length (report (prog_of s')) = 2%nat
  | _ => False
  end.
Proof. vm_compute. split_and!; reflexivity. Qed.

(** ** Options *)

Lemma option_t hm dir o :
  num_tracefiles o ≠ 1 →
  option_step hm (chr 116) dir o =
    match directory dir with
    | Ok d => Ok (Go (Options (verbose o) (gradescope o) (autograder o) (run_libc o) (num_tracefiles o) (tracefiles o) d))
    | Err e => Err e
    end.
Proof.
  intros Hn. transitivity (if num_tracefiles o =? 1 then Ok (Go o) else
    match directory dir with
    | Ok d => Ok (Go (Options (verbose o) (gradescope o) (autograder o) (run_libc o) (num_tracefiles o) (tracefiles o) d))
    | Err e => Err e
    end); [reflexivity|]. by rewrite (proj2 (Z.eqb_neq _ _)).
Qed.

Lemma option_f hm name o :
  hm 16 = true → hm (Z.of_nat (length name) + 1) = true →
  option_step hm (chr 102) name o =
    Ok (Go (Options (if verbose o =? 0 then 1 else verbose o) (gradescope o) (autograder o) (run_libc o) 1
              (Some [Some name]) [])).
Proof.
  intros H1 H2. transitivity (if negb (hm 16) then Err (Exit 1) else
    Ok (Go (Options (if verbose o =? 0 then 1 else verbose o) (gradescope o) (autograder o) (run_libc o) 1
              (Some [if hm (Z.of_nat (length name) + 1) then Some name else None]) []))); [reflexivity|].
  by rewrite H1, H2.
Qed.

(** The options for the autograder, [-g] and [-a], are refused like unknown ones;
    [-t] with an empty name reads before the start of [tracedir], and with a name
    of [MAXLINE] bytes or more writes past its end; [-r] starts the interactive
    mode whatever follows; and [-f] hides every [-t], before or after it. *)
Theorem mdriver_options {X L} (env : environment X L) (args : list (ascii * bytes)) s :
  (∀ c optarg, c ∈ [chr 103; chr 97; chr 63] →
     ∃ s', mdriver_main env ((c, optarg) :: args) s = Ok (Ended 1 [], s') ∧
       lines (prog_of s') = lines (prog_of s) ++ [UsageText]) ∧
  mdriver_main env ((chr 116, []) :: args) s = Err BadAccess ∧
  (∀ name, MAXLINE ≤ Z.of_nat (length name) → mdriver_main env ((chr 116, name) :: args) s = Err BadAccess) ∧
  (∀ optarg, mdriver_main env ((chr 114, optarg) :: args) s =
     match repl_driver (has_record env) (λ n, arenas env (S (Z.to_nat n))) (has_memory env 32816) (arenas env 0)
             (stdin env) (heap (mm_driver (prog_of s))) with
     | Ok (f, r) => Ok (Session f r, s)
     | Err e => Err e
     end) ∧
  (∀ name dir d, has_memory env 16 = true → has_memory env (Z.of_nat (length name) + 1) = true →
     directory dir = Ok d →
     read_options (has_memory env) [(chr 116, dir); (chr 102, name)] initial_options =
     read_options (has_memory env) [(chr 102, name); (chr 116, dir)] initial_options).
Proof.
  split_and!.
  - intros c optarg Hc. repeat (apply elem_of_cons in Hc as [->|Hc]; [by eexists|]). by apply elem_of_nil in Hc.
  - done.
  - intros name Hname. unfold mdriver_main. cbn [read_options]. rewrite option_t by done.
    unfold directory. by rewrite (proj2 (Z.leb_le _ _)).
  - intros optarg. reflexivity.
  - intros name dir d H16 Hname Hdir. cbn [read_options]. rewrite option_t by done. rewrite Hdir.
    by rewrite !option_f by done.
Qed.

(** ** Requests of size 0 *)

(** A request for 0 bytes, for which [mm_malloc] returns a null pointer, passes
    the evaluation of validity but ends the program in the measurement of speed,
    which takes the null pointer for an error. *)
Theorem zero_size_request (t : trace) (i idx : Z) (d : driver mm_state) :
  valid_op mm_run mem_heap_lo mem_heap_hi true t i (TraceOp ALLOC idx 0) d = Ok (None, d) ∧
  speed_op mm_run t (TraceOp ALLOC idx 0) d = Err (Exit 1).
Proof.
  assert (call_mm mm_run (Malloc 0) d = Ok (NULL, d)) as Hrun by by destruct d.
  split; unfold valid_op, speed_op; cbn [type index size]; by run Hrun.
Qed.

(** ** The report *)

Definition csv_row (i : nat) (st : stats) : report_line :=
  if stat_valid st =? 0 then CsvInvalid (Z.of_nat i) (trace_name st) (error_msg st)
  else CsvValid (Z.of_nat i) (trace_name st) (dmul (stat_util st) (of_Z 100)) (error_msg st).

(** The rows while the first [n] writes succeed and the next one does not. *)
Lemma csv_rows_take io ss : ∀ i k n,
  (∀ j, (k ≤ j < k + n)%nat → fprintf_ok io j = true) →
  (length ss ≤ n)%nat ∨ (n < length ss)%nat ∧ fprintf_ok io (k + n) = false →
  csv_rows io k (Z.of_nat i) ss = (take n (imap (λ j, csv_row (i + j)) ss), bool_decide (length ss ≤ n)%nat).
Proof.
  induction ss as [|st ss IH]; intros i k n Hok Hn; cbn [csv_rows imap]; [by rewrite take_nil|].
  destruct n as [|n].
  { destruct Hn as [Hn|[_ Hbad]]; [simpl in Hn; lia|]. rewrite Nat.add_0_r in Hbad. by rewrite Hbad. }
  rewrite Hok by lia. replace (Z.of_nat i + 1) with (Z.of_nat (S i)) by lia.
  rewrite (IH (S i) (S k) n); [|intros; apply Hok; lia|].
  - cbn [take]. f_equal.
    + f_equal; [unfold csv_row; rewrite Nat.add_0_r; by destruct (stat_valid st =? 0)|].
      f_equal. apply imap_ext. intros j x _. simpl. by rewrite Nat.add_succ_r.
    + apply bool_decide_ext. simpl. lia.
  - destruct Hn as [Hn|[Hn Hbad]]; simpl in Hn; [left; lia|right]. rewrite Nat.add_succ_r in Hbad. split; [lia|done].
Qed.

(** When the report can be written it has a header and a row for every trace;
    when a write fails it ends there, and the failure is printed. *)
Theorem gradescope_report (io : file_io) (ss : list stats) :
  fopen_ok io = true →
  ((∀ k, fprintf_ok io k = true) → printresultsgradescope io ss = (CsvHeader :: imap csv_row ss, [])) ∧
  (∀ n, (n < length ss)%nat → (∀ k, (k ≤ n)%nat → fprintf_ok io k = true) → fprintf_ok io (S n) = false →
     printresultsgradescope io ss = (CsvHeader :: take n (imap csv_row ss), [ReportError])).
Proof.
  intros Hopen. unfold printresultsgradescope. rewrite Hopen. cbn [negb]. split.
  - intros Hall. rewrite (Hall 0%nat). cbn [negb].
    pose proof (csv_rows_take io ss 0%nat 1%nat (length ss) ltac:(auto) ltac:(by left)) as H. change (Z.of_nat 0) with 0 in H. rewrite H.
    rewrite bool_decide_eq_true_2 by done. by rewrite take_ge by by rewrite length_imap.
  - intros n Hn Hok Hbad. rewrite (Hok 0%nat) by lia. cbn [negb].
    pose proof (csv_rows_take io ss 0%nat 1%nat n ltac:(intros; apply Hok; lia) ltac:(by right)) as H. change (Z.of_nat 0) with 0 in H. rewrite H.
    by rewrite bool_decide_eq_false_2 by lia.
Qed.
