(* ===== verification/Db.v ===== *)
(** * The database: [7-database-haininz/db.c].

    A binary search tree of heap-allocated nodes under a static root [head],
    with one read-write lock per node.  Each operation is run by one thread;
    the lock calls are part of it. *)

From Stdlib Require Import ZArith Lia Ascii String.
From stdpp Require Import base gmap strings numbers option list.
From S2P Require Import Prelude.

Open Scope Z_scope.
Open Scope list_scope.

Definition MAXLEN : nat := 256.

(** [node_t], without its lock. *)
Record node := Node {
  key : bytes;
  value : bytes;
  lchild : Z;
  rchild : Z;
}.

(** A lock that is held: by so many readers or by a writer. *)
Inductive held := RD (n : nat) | WR.

Record db_state := DB {
  nodes : gmap Z node;     (** the live nodes by address *)
  locks : gmap Z held;     (** the locks that are held *)
}.

Abbreviation db := (ST db_state).

(** The address of the static root. *)
Definition head : Z := 8.

Definition head_node : node := Node [] [] NULL NULL.

Definition set_nodes (n : gmap Z node) (s : db_state) : db_state := DB n (locks s).
Definition set_locks (l : gmap Z held) (s : db_state) : db_state := DB (nodes s) l.

(** The bytes of a string literal. *)
Definition text (s : String.string) : bytes := String.list_ascii_of_string s.

Definition not_found : bytes := text "not found".

(** ** Library calls *)

(** [strcmp]: the sign of the difference of the first bytes that differ. *)
Fixpoint strcmp (a b : bytes) : Z :=
  match a, b with
  | [], [] => 0
  | [], _ => -1
  | _, [] => 1
  | x :: a', y :: b' =>
      if ord x <? ord y then -1 else if ord y <? ord x then 1 else strcmp a' b'
  end.

(** The string [snprintf(buf, n, "%s", s)] leaves in [buf]. *)
Definition snprintf_s (n : nat) (s : bytes) : bytes := take (n - 1) s.

Definition node_at (a : Z) : db node := λ s, deref (nodes s !! a) s.
Definition put_node (a : Z) (n : node) : db unit :=
  node_at a;; modify (λ s, set_nodes (<[a := n]> (nodes s)) s).

(** Reader-writer locks: [Blocked] when the lock is not available, a bad access
    when the lock was destroyed or is not held. *)
Definition pthread_rwlock_wrlock (a : Z) : db unit :=
  node_at a;;
  s ← get;
  match locks s !! a with
  | None => put (set_locks (<[a := WR]> (locks s)) s)
  | Some _ => fail Blocked
  end.

Definition pthread_rwlock_rdlock (a : Z) : db unit :=
  node_at a;;
  s ← get;
  match locks s !! a with
  | None => put (set_locks (<[a := RD 1]> (locks s)) s)
  | Some (RD n) => put (set_locks (<[a := RD (S n)]> (locks s)) s)
  | Some WR => fail Blocked
  end.

Definition pthread_rwlock_unlock (a : Z) : db unit :=
  node_at a;;
  s ← get;
  match locks s !! a with
  | Some (RD (S (S n))) => put (set_locks (<[a := RD (S n)]> (locks s)) s)
  | Some _ => put (set_locks (delete a (locks s)) s)
  | None => fail BadAccess
  end.

(** What [malloc] and [realloc] answer: an address for a node, or NULL; whether
    a string of the given size can be had. *)
Record heap_env := HeapEnv {
  malloc_node : gmap Z node → option Z;
  malloc_str : nat → bool;
}.

Section Ops.
Context (env : heap_env).

(** ** Constructor, destructor, and cleanup *)

(** [node_constructor]: the new node, or NULL. *)
Definition node_constructor (arg_key arg_value : bytes) (arg_left arg_right : Z) : db Z :=
  if (MAXLEN <? length arg_key)%nat || (MAXLEN <? length arg_value)%nat then mret NULL
  else
    s ← get;
    match malloc_node env (nodes s) with
    | None => mret NULL
    | Some a =>
        if negb (malloc_str env (length arg_key + 1)) then mret NULL
        else if negb (malloc_str env (length arg_value + 1)) then mret NULL
        else
          put (set_nodes (<[a := Node (snprintf_s MAXLEN arg_key) (snprintf_s MAXLEN arg_value)
                                   arg_left arg_right]> (nodes s)) s);;
          mret a
    end.

(** [node_destructor]: destroying a lock that is held is undefined. *)
Definition node_destructor (a : Z) : db unit :=
  node_at a;;
  s ← get;
  match locks s !! a with
  | Some _ => fail BadAccess
  | None => put (set_nodes (delete a (nodes s)) s)
  end.

(** [db_cleanup_recurs] *)
Fixpoint db_cleanup_recurs (fuel : nat) (a : Z) : db unit :=
  match fuel with
  | O => fail NoFuel
  | S fuel' =>
      if a =? NULL then mret tt
      else
        n ← node_at a;
        db_cleanup_recurs fuel' (lchild n);;
        n ← node_at a;
        db_cleanup_recurs fuel' (rchild n);;
        node_destructor a
  end.

(** One more level than there are nodes. *)
Definition depth_fuel (s : db_state) : nat := S (size (nodes s)).

(** [db_cleanup] *)
Definition db_cleanup : db unit :=
  s ← get;
  h ← node_at head;
  db_cleanup_recurs (depth_fuel s) (lchild h);;
  h ← node_at head;
  db_cleanup_recurs (depth_fuel s) (rchild h).

(** ** Accessors and modifiers *)

(** [search]: the node found or NULL, and what [*parentpp] is set to when
    [parentpp] is not NULL. *)
Fixpoint search (fuel : nat) (k : bytes) (parent : Z) (parentpp : bool) (write : bool) : db (Z * Z) :=
  match fuel with
  | O => fail NoFuel
  | S fuel' =>
      p ← node_at parent;
      let next := if strcmp k (key p) <? 0 then lchild p else rchild p in
      let finish (result : Z) : db (Z * Z) :=
        if parentpp then mret (result, parent)
        else pthread_rwlock_unlock parent;; mret (result, NULL) in
      if next =? NULL then finish NULL
      else
        (if write then pthread_rwlock_wrlock next else pthread_rwlock_rdlock next);;
        n ← node_at next;
        if strcmp k (key n) =? 0 then finish next
        else
          pthread_rwlock_unlock parent;;
          search fuel' k next parentpp write
  end.

(** [db_query]: the contents of [result], a buffer of [len] bytes. *)
Definition db_query (k : bytes) (len : nat) : db bytes :=
  pthread_rwlock_wrlock head;;
  s ← get;
  '(target, _) ← search (depth_fuel s) k head false false;
  if target =? NULL then mret (snprintf_s len not_found)
  else
    n ← node_at target;
    pthread_rwlock_unlock target;;
    mret (snprintf_s len (value n)).

(** Stores to [parent->lchild] or [parent->rchild], chosen by comparing [k]. *)
Definition set_child (k : bytes) (parent child : Z) : db unit :=
  p ← node_at parent;
  if strcmp k (key p) <? 0
  then put_node parent (Node (key p) (value p) child (rchild p))
  else put_node parent (Node (key p) (value p) (lchild p) child).

(** [db_add] *)
Definition db_add (k v : bytes) : db Z :=
  pthread_rwlock_wrlock head;;
  s ← get;
  '(target, parent) ← search (depth_fuel s) k head true true;
  if negb (target =? NULL) then
    pthread_rwlock_unlock parent;;
    pthread_rwlock_unlock target;;
    mret 0
  else
    newnode ← node_constructor k v NULL NULL;
    set_child k parent newnode;;
    pthread_rwlock_unlock parent;;
    mret 1.

(** The walk down the [lchild] chain: the last node and the node whose pointer
    leads to it ([pnext] points into it). *)
Fixpoint leftmost (fuel : nat) (pnext next : Z) : db (Z * Z) :=
  match fuel with
  | O => fail NoFuel
  | S fuel' =>
      n ← node_at next;
      if lchild n =? NULL then mret (pnext, next) else leftmost fuel' next (lchild n)
  end.

(** [*pnext = child]: [pnext] is [&dnode->rchild] or the [lchild] of a node
    below. *)
Definition set_pnext (dnode pnext child : Z) : db unit :=
  p ← node_at pnext;
  if pnext =? dnode
  then put_node pnext (Node (key p) (value p) (lchild p) child)
  else put_node pnext (Node (key p) (value p) child (rchild p)).

(** The two-children case of [db_remove]. *)
Definition remove_inner (dnode parent : Z) : db unit :=
  s ← get;
  d ← node_at dnode;
  '(pnext, next) ← leftmost (depth_fuel s) dnode (rchild d);
  n ← node_at next;
  set_pnext dnode pnext (rchild n);;
  (if malloc_str env (length (key n) + 1) then mret tt else fail BadAccess);;
  (if malloc_str env (length (value n) + 1) then mret tt else fail BadAccess);;
  d ← node_at dnode;
  put_node dnode (Node (snprintf_s MAXLEN (key n)) (snprintf_s MAXLEN (value n))
                       (lchild d) (rchild d));;
  pthread_rwlock_unlock parent;;
  pthread_rwlock_unlock dnode;;
  node_destructor next.

(** [db_remove] *)
Definition db_remove (k : bytes) : db Z :=
  pthread_rwlock_wrlock head;;
  s ← get;
  '(dnode, parent) ← search (depth_fuel s) k head true true;
  if dnode =? NULL then
    pthread_rwlock_unlock parent;;
    mret 0
  else
    d ← node_at dnode;
    if rchild d =? NULL then
      set_child (key d) parent (lchild d);;
      pthread_rwlock_unlock parent;;
      pthread_rwlock_unlock dnode;;
      node_destructor dnode;;
      mret 1
    else if lchild d =? NULL then
      set_child (key d) parent (rchild d);;
      pthread_rwlock_unlock parent;;
      pthread_rwlock_unlock dnode;;
      node_destructor dnode;;
      mret 1
    else
      remove_inner dnode parent;;
      mret 1.
End Ops.
