(* ===== verification/DbTree.v ===== *)
(** * Search trees over [strcmp], and the heap that holds one.

    The pure side of [db.c]: ordered trees whose nodes carry their address,
    their operations, the finite map they represent, and the relation between
    such a tree and the nodes in memory. *)

From Stdlib Require Import ZArith Lia Ascii.
From stdpp Require Import base gmap numbers option list.
From S2P Require Import Prelude Db.

Open Scope Z_scope.

(** ** [strcmp] is a total order *)

Lemma ord_inj c d : ord c = ord d → c = d.
Proof.
  unfold ord. intros Heq%N2Z.inj. rewrite <-(ascii_N_embedding c), <-(ascii_N_embedding d).
  by rewrite Heq.
Qed.

Lemma strcmp_eq a b : strcmp a b = 0 ↔ a = b.
Proof.
  revert b. induction a as [|x a IH]; intros [|y b]; simpl; try done.
  destruct (Z.ltb_spec (ord x) (ord y)); [split; [done|intros [= -> ->]; lia]|].
  destruct (Z.ltb_spec (ord y) (ord x)); [split; [done|intros [= -> ->]; lia]|].
  rewrite IH. assert (x = y) as -> by (apply ord_inj; lia). naive_solver.
Qed.

Lemma strcmp_refl a : strcmp a a = 0.
Proof. by apply strcmp_eq. Qed.

(** [klt a b]: [a] sorts before [b]. *)
Definition klt (a b : bytes) : Prop := strcmp a b < 0.

#[export] Instance klt_dec a b : Decision (klt a b).
Proof. unfold klt. apply _. Defined.

Lemma strcmp_antisym a b : strcmp a b = - strcmp b a.
Proof.
  revert b. induction a as [|x a IH]; intros [|y b]; simpl; try done.
  destruct (Z.ltb_spec (ord x) (ord y)), (Z.ltb_spec (ord y) (ord x)); try lia. apply IH.
Qed.

Lemma klt_trans a b c : klt a b → klt b c → klt a c.
Proof.
  unfold klt. revert b c. induction a as [|x a IH]; intros [|y b] [|z c]; simpl; try lia.
  destruct (Z.ltb_spec (ord x) (ord y)), (Z.ltb_spec (ord y) (ord x)); try lia;
  destruct (Z.ltb_spec (ord y) (ord z)), (Z.ltb_spec (ord z) (ord y)); try lia;
  destruct (Z.ltb_spec (ord x) (ord z)), (Z.ltb_spec (ord z) (ord x)); try lia.
  apply IH.
Qed.

Lemma klt_irrefl a : ¬ klt a a.
Proof. unfold klt. rewrite strcmp_refl. lia. Qed.

Lemma klt_total a b : a ≠ b → ¬ klt a b → klt b a.
Proof.
  unfold klt. intros Hne Hlt. rewrite strcmp_antisym.
  assert (strcmp a b ≠ 0) by (by rewrite strcmp_eq). lia.
Qed.

Lemma klt_ltb a b : (strcmp a b <? 0) = bool_decide (klt a b).
Proof. unfold klt. by case_bool_decide; [apply Z.ltb_lt|apply Z.ltb_ge; lia]. Qed.

Lemma strcmp_eqb a b : (strcmp a b =? 0) = bool_decide (a = b).
Proof. case_bool_decide; [by apply Z.eqb_eq, strcmp_eq|apply Z.eqb_neq]. by rewrite strcmp_eq. Qed.

(** ** Trees *)

Inductive tree :=
  | Leaf
  | T (a : Z) (k v : bytes) (l r : tree).

#[export] Instance tree_eq_dec : EqDecision tree.
Proof. solve_decision. Defined.

Definition root (t : tree) : Z := match t with Leaf => NULL | T a _ _ _ _ => a end.

Fixpoint addrs (t : tree) : list Z :=
  match t with Leaf => [] | T a _ _ l r => a :: addrs l ++ addrs r end.

Fixpoint keys (t : tree) : list bytes :=
  match t with Leaf => [] | T _ k _ l r => k :: keys l ++ keys r end.

Fixpoint bst (t : tree) : Prop :=
  match t with
  | Leaf => True
  | T _ k _ l r =>
      bst l ∧ bst r ∧ (∀ k', k' ∈ keys l → klt k' k) ∧ (∀ k', k' ∈ keys r → klt k k')
  end.

(** The finite map of a tree. *)
Fixpoint to_map (t : tree) : gmap bytes bytes :=
  match t with
  | Leaf => ∅
  | T _ k v l r => <[k := v]> (to_map l ∪ to_map r)
  end.

(** Stored strings fit their buffers. *)
Fixpoint short (t : tree) : Prop :=
  match t with
  | Leaf => True
  | T _ k v l r => (length k ≤ 255)%nat ∧ (length v ≤ 255)%nat ∧ short l ∧ short r
  end.

(** Where the search for [k] ends: the node found or NULL, and its parent. *)
Fixpoint locate (k : bytes) (par : Z) (t : tree) : Z * Z :=
  match t with
  | Leaf => (NULL, par)
  | T a k' _ l r =>
      if decide (k = k') then (a, par)
      else locate k a (if decide (klt k k') then l else r)
  end.

Fixpoint tree_add (k v : bytes) (new : Z) (t : tree) : tree :=
  match t with
  | Leaf => T new k v Leaf Leaf
  | T a k' v' l r =>
      if decide (k = k') then t
      else if decide (klt k k') then T a k' v' (tree_add k v new l) r
      else T a k' v' l (tree_add k v new r)
  end.

(** The leftmost node: address, key and value. *)
Fixpoint tree_min (a : Z) (k v : bytes) (l : tree) : Z * bytes * bytes :=
  match l with Leaf => (a, k, v) | T a' k' v' l' _ => tree_min a' k' v' l' end.

(** The tree without its leftmost node. *)
Fixpoint del_min (a : Z) (k v : bytes) (l r : tree) : tree :=
  match l with
  | Leaf => r
  | T a' k' v' l' r' => T a k v (del_min a' k' v' l' r') r
  end.

(** The root goes: replaced by its only child, or overwritten by the leftmost
    node on its right. *)
Definition del_root (a : Z) (l r : tree) : tree :=
  match r, l with
  | Leaf, _ => l
  | _, Leaf => r
  | T a' k' v' l' r', _ =>
      let '(_, km, vm) := tree_min a' k' v' l' in
      T a km vm l (del_min a' k' v' l' r')
  end.

Fixpoint tree_remove (k : bytes) (t : tree) : tree :=
  match t with
  | Leaf => Leaf
  | T a k' v' l r =>
      if decide (k = k') then del_root a l r
      else if decide (klt k k') then T a k' v' (tree_remove k l) r
      else T a k' v' l (tree_remove k r)
  end.

(** ** The map of a tree *)

Lemma to_map_keys t k v : to_map t !! k = Some v → k ∈ keys t.
Proof.
  induction t as [|a k' v' l IHl r IHr]; simpl; [done|].
  rewrite lookup_insert_Some, lookup_union_Some_raw. set_solver.
Qed.

Lemma to_map_None t k : k ∉ keys t → to_map t !! k = None.
Proof. intros Hk. apply eq_None_not_Some. by intros [v ?%to_map_keys]. Qed.

Lemma to_map_lookup a k v l r k' :
  bst (T a k v l r) →
  to_map (T a k v l r) !! k' =
    if decide (k' = k) then Some v
    else if decide (klt k' k) then to_map l !! k' else to_map r !! k'.
Proof.
  intros (_ & _ & Hl & Hr). simpl. rewrite lookup_insert.
  destruct (decide (k = k')) as [->|Hne]; [by rewrite decide_True|].
  rewrite decide_False by done. rewrite lookup_union.
  case_decide as Hlt.
  - rewrite (to_map_None r); [by destruct (to_map l !! k')|].
    intros Hin%Hr. by eapply klt_irrefl, klt_trans.
  - rewrite (to_map_None l); [by destruct (to_map r !! k')|]. by intros Hin%Hl.
Qed.

Lemma keys_add k v new t k' : k' ∈ keys (tree_add k v new t) → k' = k ∨ k' ∈ keys t.
Proof.
  induction t as [|a k0 v0 l IHl r IHr]; simpl; [set_solver|].
  repeat case_decide; simpl; set_solver.
Qed.

Lemma bst_add k v new t : bst t → bst (tree_add k v new t).
Proof.
  induction t as [|a k0 v0 l IHl r IHr]; simpl; [set_solver|].
  intros (Hl & Hr & Hlk & Hrk). repeat case_decide; simpl; [done|..]; split_and!; auto.
  - intros k' [->|Hk]%keys_add; auto.
  - intros k' [->|Hk]%keys_add; auto. by apply klt_total.
Qed.

Lemma to_map_add k v new t :
  bst t → to_map t !! k = None → to_map (tree_add k v new t) = <[k := v]> (to_map t).
Proof.
  induction t as [|a k0 v0 l IHl r IHr]; intros Hb Hnone; [done|].
  rewrite to_map_lookup in Hnone by done. pose proof Hb as (Hl & Hr & Hlk & Hrk).
  cbn [tree_add]. case_decide as Heq; [done|]. case_decide as Hlt; cbn [to_map].
  - rewrite IHl by done. rewrite <-insert_union_l. by rewrite insert_insert_ne.
  - rewrite IHr by done. rewrite <-insert_union_r; [by rewrite insert_insert_ne|].
    apply to_map_None. by intros Hin%Hlk.
Qed.

(** ** Removal *)

Fixpoint entries (t : tree) : list (bytes * bytes) :=
  match t with Leaf => [] | T _ k v l r => (k, v) :: entries l ++ entries r end.

Lemma keys_entries t : keys t = (entries t).*1.
Proof. induction t as [|a k v l IHl r IHr]; csimpl; [done|]. by rewrite fmap_app, IHl, IHr. Qed.

Lemma to_map_entries t k v : bst t → to_map t !! k = Some v ↔ (k, v) ∈ entries t.
Proof.
  induction t as [|a k' v' l IHl r IHr]; intros Hb; [set_solver|].
  rewrite to_map_lookup by done. destruct Hb as (Hl & Hr & Hlk & Hrk). cbn [entries].
  rewrite elem_of_cons, elem_of_app, <-IHl, <-IHr by done.
  assert (∀ t' w, to_map t' !! k = Some w → k ∈ keys t') as Hk by eauto using to_map_keys.
  repeat case_decide; subst; split.
  - intros [= ->]. by left.
  - intros [[= ->]|[Hin%Hk%Hlk|Hin%Hk%Hrk]]; [done|..]; by apply klt_irrefl in Hin.
  - auto.
  - intros [[= -> ->]|[Hin|Hin%Hk%Hrk]]; [done|done|]. exfalso. by eapply klt_irrefl, klt_trans.
  - auto.
  - intros [[= -> ->]|[Hin%Hk%Hlk|Hin]]; done.
Qed.

Lemma keys_NoDup t : bst t → NoDup (keys t).
Proof.
  induction t as [|a k v l IHl r IHr]; cbn [bst keys]; [constructor|].
  intros (Hl & Hr & Hlk & Hrk). apply NoDup_cons. split.
  - intros [Hin%Hlk|Hin%Hrk]%elem_of_app; by apply klt_irrefl in Hin.
  - apply NoDup_app. split_and!; auto. intros k' H1%Hlk H2%Hrk.
    by eapply klt_irrefl, klt_trans.
Qed.

(** Taking out one entry deletes its key. *)
Lemma to_map_delete t t' k v :
  bst t → bst t' → entries t ≡ₚ (k, v) :: entries t' → to_map t' = delete k (to_map t).
Proof.
  intros Hb Hb' Hp. apply map_eq. intros k0. apply option_eq. intros v0.
  rewrite lookup_delete_Some, !to_map_entries, Hp, elem_of_cons by done.
  assert (k ∉ keys t') as Hk.
  { pose proof (keys_NoDup t Hb) as Hnd. rewrite keys_entries, Hp in Hnd. csimpl in *.
    apply NoDup_cons in Hnd as [Hnd _]. by rewrite keys_entries. }
  split.
  - intros Hin. split; [|by right]. intros ->. apply Hk. rewrite keys_entries.
    apply list_elem_of_fmap. by exists (k0, v0).
  - intros [Hne [[= -> ->]|Hin]]; done.
Qed.

Section Min.
(** The leftmost node of [T a k v l r]. *)
Lemma del_min_entries a k v l r :
  entries (T a k v l r) ≡ₚ
    ((tree_min a k v l).1.2, (tree_min a k v l).2) :: entries (del_min a k v l r).
Proof.
  revert a k v r. induction l as [|a' k' v' l' IH r' _]; intros a k v r; [done|].
  change (entries (T a k v (T a' k' v' l' r') r)) with
    ((k, v) :: entries (T a' k' v' l' r') ++ entries r).
  rewrite IH. apply Permutation_swap.
Qed.

Lemma del_min_addrs a k v l r :
  addrs (T a k v l r) ≡ₚ (tree_min a k v l).1.1 :: addrs (del_min a k v l r).
Proof.
  revert a k v r. induction l as [|a' k' v' l' IH r' _]; intros a k v r; [done|].
  change (addrs (T a k v (T a' k' v' l' r') r)) with (a :: addrs (T a' k' v' l' r') ++ addrs r).
  rewrite IH. apply Permutation_swap.
Qed.

Lemma del_min_keys a k v l r :
  keys (T a k v l r) ≡ₚ (tree_min a k v l).1.2 :: keys (del_min a k v l r).
Proof. rewrite !keys_entries. by rewrite del_min_entries. Qed.

Lemma del_min_bst a k v l r :
  bst (T a k v l r) →
  bst (del_min a k v l r) ∧ ∀ k', k' ∈ keys (del_min a k v l r) → klt (tree_min a k v l).1.2 k'.
Proof.
  revert a k v r. induction l as [|a' k' v' l' IH r' _]; intros a k v r Hb; simpl.
  { destruct Hb as (_ & Hr & _ & Hrk). done. }
  destruct Hb as (Hl & Hr & Hlk & Hrk). destruct (IH a' k' v' r' Hl) as [Hb' Hmin].
  pose proof (del_min_keys a' k' v' l' r') as Hp.
  assert (klt (tree_min a' k' v' l').1.2 k) as Hmk.
  { apply Hlk. rewrite Hp. set_solver. }
  split; [split_and!; try done|].
  - intros k0 Hk0. apply Hlk. rewrite Hp. set_solver.
  - intros k0 [->|[Hk0|Hk0]%elem_of_app]%elem_of_cons; [done|by apply Hmin|].
    eapply klt_trans; [done|by apply Hrk].
Qed.

Lemma del_min_short a k v l r :
  short (T a k v l r) →
  short (del_min a k v l r) ∧ (length (tree_min a k v l).1.2 ≤ 255)%nat ∧
  (length (tree_min a k v l).2 ≤ 255)%nat.
Proof.
  revert a k v r. induction l as [|a' k' v' l' IH r' _]; intros a k v r Hs; simpl.
  { by destruct Hs as (? & ? & _ & ?). }
  destruct Hs as (? & ? & Hl & ?). destruct (IH a' k' v' r' Hl) as (? & ? & ?). done.
Qed.
End Min.

(** The address that a removal frees. *)
Definition freed_root (a : Z) (l r : tree) : Z :=
  match r, l with
  | Leaf, _ => a
  | _, Leaf => a
  | T a' k' v' l' _, _ => (tree_min a' k' v' l').1.1
  end.

Fixpoint freed_addr (k : bytes) (t : tree) : Z :=
  match t with
  | Leaf => NULL
  | T a k' _ l r =>
      if decide (k = k') then freed_root a l r
      else freed_addr k (if decide (klt k k') then l else r)
  end.

Lemma del_root_two a l al kl vl ll lr a' k' v' l' r' :
  l = T al kl vl ll lr →
  del_root a l (T a' k' v' l' r') =
    T a (tree_min a' k' v' l').1.2 (tree_min a' k' v' l').2 l (del_min a' k' v' l' r') ∧
  freed_root a l (T a' k' v' l' r') = (tree_min a' k' v' l').1.1.
Proof. intros ->. simpl. by destruct (tree_min a' k' v' l') as [[??]?]. Qed.

Lemma del_root_spec a k v l r :
  bst (T a k v l r) →
  bst (del_root a l r) ∧ entries (T a k v l r) ≡ₚ (k, v) :: entries (del_root a l r) ∧
  addrs (T a k v l r) ≡ₚ freed_root a l r :: addrs (del_root a l r).
Proof.
  intros (Hl & Hr & Hlk & Hrk). destruct r as [|a' k' v' l' r'].
  { split_and!; simpl; [done|by rewrite app_nil_r|by rewrite app_nil_r]. }
  destruct l as [|al kl vl ll lr] eqn:Hleq; [by split_and!|]. rewrite <-Hleq in *.
  destruct (del_root_two a l _ _ _ _ _ a' k' v' l' r' Hleq) as [-> ->].
  destruct (del_min_bst a' k' v' l' r' Hr) as [Hbm Hmin].
  pose proof (del_min_keys a' k' v' l' r') as Hp.
  assert (klt k (tree_min a' k' v' l').1.2) as Hkm by (apply Hrk; rewrite Hp; set_solver).
  split_and!.
  - split_and!; try done. intros k0 Hk0. eapply klt_trans; [by apply Hlk|done].
  - change (entries (T a k v l (T a' k' v' l' r'))) with
      ((k, v) :: entries l ++ entries (T a' k' v' l' r')).
    rewrite del_min_entries. cbn [entries]. f_equiv. by rewrite Permutation_middle.
  - change (addrs (T a k v l (T a' k' v' l' r'))) with
      (a :: addrs l ++ addrs (T a' k' v' l' r')).
    rewrite del_min_addrs. cbn [addrs]. rewrite Permutation_swap. f_equiv. by rewrite Permutation_middle.
Qed.

(** ** The position a search reaches *)

(** The subtree where the search for [k] stops: empty, or rooted at [k]. *)
Fixpoint stop (k : bytes) (t : tree) : tree :=
  match t with
  | Leaf => Leaf
  | T a k' _ l r => if decide (k = k') then t else stop k (if decide (klt k k') then l else r)
  end.

(** Puts [u] there. *)
Fixpoint subst (k : bytes) (u : tree) (t : tree) : tree :=
  match t with
  | Leaf => u
  | T a k' v l r =>
      if decide (k = k') then u
      else if decide (klt k k') then T a k' v (subst k u l) r else T a k' v l (subst k u r)
  end.

(** The addresses outside it. *)
Fixpoint outer (k : bytes) (t : tree) : list Z :=
  match t with
  | Leaf => []
  | T a k' _ l r =>
      if decide (k = k') then []
      else if decide (klt k k') then a :: outer k l ++ addrs r else a :: addrs l ++ outer k r
  end.

Lemma outer_stop k t : addrs t ≡ₚ outer k t ++ addrs (stop k t).
Proof.
  induction t as [|a k' v l IHl r IHr]; cbn [addrs outer stop]; [done|].
  repeat case_decide; cbn [addrs]; [done|..].
  - rewrite IHl at 1. simpl. f_equiv. rewrite <-!app_assoc. f_equiv. apply Permutation_app_comm.
  - rewrite IHr at 1. simpl. by rewrite <-!app_assoc.
Qed.

Lemma addrs_subst k u t : addrs (subst k u t) ≡ₚ outer k t ++ addrs u.
Proof.
  induction t as [|a k' v l IHl r IHr]; cbn [addrs outer subst]; [done|].
  repeat case_decide; cbn [addrs]; [done|..].
  - rewrite IHl. simpl. f_equiv. rewrite <-!app_assoc. f_equiv. apply Permutation_app_comm.
  - rewrite IHr. simpl. by rewrite <-!app_assoc.
Qed.

Lemma locate_stop k par t : (locate k par t).1 = root (stop k t).
Proof.
  revert par. induction t as [|a k' v l IHl r IHr]; intros par; simpl; [done|].
  repeat case_decide; auto.
Qed.

Lemma locate_parent k par t :
  (locate k par t).2 = par ∧ outer k t = [] ∨ (locate k par t).2 ∈ outer k t.
Proof.
  revert par. induction t as [|a k' v l IHl r IHr]; intros par; simpl; [by left|].
  repeat case_decide; [by left|..].
  - right. destruct (IHl a) as [[-> _]|Hin]; set_solver.
  - right. destruct (IHr a) as [[-> _]|Hin]; set_solver.
Qed.

Lemma stop_key k t a k' v l r : stop k t = T a k' v l r → k' = k.
Proof.
  induction t as [|a0 k0 v0 l0 IHl r0 IHr]; simpl; [done|].
  repeat case_decide; auto. by intros [= -> -> -> -> ->].
Qed.

Lemma bst_stop k t : bst t → bst (stop k t).
Proof.
  induction t as [|a0 k0 v0 l0 IHl r0 IHr]; [done|]. intros Hb. pose proof Hb as (? & ? & _).
  simpl. repeat case_decide; auto.
Qed.

Lemma to_map_stop k t :
  bst t → to_map t !! k = match stop k t with Leaf => None | T _ _ v _ _ => Some v end.
Proof.
  induction t as [|a0 k0 v0 l0 IHl r0 IHr]; [done|]. intros Hb. rewrite to_map_lookup by done.
  destruct Hb as (? & ? & _). simpl. repeat case_decide; auto.
Qed.

Lemma tree_add_subst k v new t :
  stop k t = Leaf → tree_add k v new t = subst k (T new k v Leaf Leaf) t.
Proof.
  induction t as [|a0 k0 v0 l0 IHl r0 IHr]; simpl; [done|].
  repeat case_decide; [done|..]; intros Hs; f_equal; auto.
Qed.

Lemma tree_remove_subst k t a v l r :
  stop k t = T a k v l r → tree_remove k t = subst k (del_root a l r) t ∧ freed_addr k t = freed_root a l r.
Proof.
  induction t as [|a0 k0 v0 l0 IHl r0 IHr]; simpl; [done|].
  repeat case_decide.
  - intros ?. by simplify_eq.
  - intros [-> ->]%IHl. done.
  - intros [-> ->]%IHr. done.
Qed.

(** Replacing the subtree by one whose entries differ as said. *)
Lemma entries_subst k u t : ∃ E, entries t ≡ₚ E ++ entries (stop k t) ∧
  entries (subst k u t) ≡ₚ E ++ entries u.
Proof.
  induction t as [|a k' v l (E & H1 & H2) r (E' & H1' & H2')]; [by exists []|].
  cbn [stop subst]. repeat case_decide; [by exists []|..]; cbn [entries].
  - exists ((k', v) :: E ++ entries r). rewrite H1, H2. simpl. rewrite <-!app_assoc.
    split; f_equiv; f_equiv; apply Permutation_app_comm.
  - exists ((k', v) :: entries l ++ E'). rewrite H1', H2'. simpl. by rewrite <-!app_assoc.
Qed.


Lemma tree_remove_spec k v t :
  bst t → to_map t !! k = Some v →
  bst (tree_remove k t) ∧ entries t ≡ₚ (k, v) :: entries (tree_remove k t) ∧
  addrs t ≡ₚ freed_addr k t :: addrs (tree_remove k t).
Proof.
  induction t as [|a k' v' l IHl r IHr]; [done|]. intros Hb. rewrite to_map_lookup by done.
  pose proof Hb as (Hl & Hr & Hlk & Hrk). cbn [tree_remove freed_addr].
  case_decide as Heq; [intros [= ->]; subst k'; by apply del_root_spec|].
  case_decide as Hlt; intros Hv.
  - destruct (IHl Hl Hv) as (Hbl & He & Ha). cbn [bst entries addrs].
    assert (∀ k0, k0 ∈ keys (tree_remove k l) → k0 ∈ keys l) as Hsub.
    { intros k0. rewrite !keys_entries, He. csimpl. set_solver. }
    split_and!; auto.
    + rewrite He. apply Permutation_swap.
    + rewrite Ha. apply Permutation_swap.
  - destruct (IHr Hr Hv) as (Hbr & He & Ha). cbn [bst entries addrs].
    assert (∀ k0, k0 ∈ keys (tree_remove k r) → k0 ∈ keys r) as Hsub.
    { intros k0. rewrite !keys_entries, He. csimpl. set_solver. }
    split_and!; auto.
    + rewrite He. rewrite Permutation_swap. f_equiv. by rewrite Permutation_middle.
    + rewrite Ha. rewrite Permutation_swap. f_equiv. by rewrite Permutation_middle.
Qed.

Lemma to_map_remove k v t :
  bst t → to_map t !! k = Some v → to_map (tree_remove k t) = delete k (to_map t).
Proof. intros Hb Hv. destruct (tree_remove_spec k v t Hb Hv) as (? & ? & _). by eapply to_map_delete. Qed.

Lemma short_entries t : short t ↔ ∀ k v, (k, v) ∈ entries t → (length k ≤ 255 ∧ length v ≤ 255)%nat.
Proof.
  induction t as [|a k v l IHl r IHr]; cbn [short entries].
  { split; [|done]. by intros _ ? ? ?%not_elem_of_nil. }
  rewrite IHl, IHr. split.
  - intros (Hk & Hv & Hl & Hr) k0 v0 [[= -> ->]|[Hin|Hin]%elem_of_app]%elem_of_cons; [done|by apply Hl|by apply Hr].
  - intros Hall. destruct (Hall k v) as [Hk Hv]; [by left|]. split_and!; [done|done|..];
      intros k0 v0 Hin; apply Hall; apply elem_of_cons; right; apply elem_of_app; auto.
Qed.
