(* ===== verification/DbProofs.v ===== *)
(** * [db.c] implements a finite map.

    The nodes in memory hold a search tree; each operation, run from a state
    with no lock held, leaves such a state again and acts on the tree's finite
    map as the database should. *)

From Stdlib Require Import ZArith Lia Ascii.
From stdpp Require Import base gmap numbers option list.
From S2P Require Import Prelude Db DbTree.

Open Scope Z_scope.

(** ** Trees in memory *)

Fixpoint repr (N : gmap Z node) (t : tree) : Prop :=
  match t with
  | Leaf => True
  | T a k v l r =>
      a ≠ NULL ∧ N !! a = Some (Node k v (root l) (root r)) ∧ repr N l ∧ repr N r
  end.

Lemma repr_frame N N' t : (∀ a, a ∈ addrs t → N' !! a = N !! a) → repr N t → repr N' t.
Proof.
  induction t as [|a k v l IHl r IHr]; cbn [addrs repr]; [done|].
  intros Hf (Ha & Hn & Hl & Hr). rewrite Hf by set_solver.
  split_and!; [done|done|apply IHl; set_solver|apply IHr; set_solver].
Qed.

Lemma repr_in N t a : repr N t → a ∈ addrs t → a ≠ NULL ∧ is_Some (N !! a).
Proof.
  induction t as [|a' k v l IHl r IHr]; cbn [addrs repr]; [set_solver|].
  intros (Ha & Hn & Hl & Hr) [->|[Hin|Hin]%elem_of_app]%elem_of_cons; eauto.
Qed.

Lemma root_NULL N t : repr N t → root t = NULL ↔ t = Leaf.
Proof. destruct t; simpl; [done|]. intros (? & _). split; done. Qed.

Lemma repr_stop N k t : repr N t → repr N (stop k t).
Proof.
  induction t as [|a k' v l IHl r IHr]; simpl; [done|]. intros H. pose proof H as (? & ? & ? & ?).
  repeat case_decide; auto.
Qed.

(** The node with its child on the side of [k] replaced. *)
Definition with_child (k : bytes) (n : node) (c : Z) : node :=
  if strcmp k (key n) <? 0 then Node (key n) (value n) c (rchild n)
  else Node (key n) (value n) (lchild n) c.

(** Linking another subtree at the place where the search for [k] stops. *)
Lemma repr_subst N N' k u t par :
  repr N t → NoDup (addrs t) → par ∉ addrs t →
  let par' := (locate k par t).2 in
  (∀ a, a ∈ outer k t → a ≠ par' → N' !! a = N !! a) →
  (par' ≠ par → ∃ pn, N !! par' = Some pn ∧ N' !! par' = Some (with_child k pn (root u))) →
  repr N' u →
  repr N' (subst k u t) ∧ root (subst k u t) = if decide (par' = par) then root u else root t.
Proof.
  revert par. induction t as [|a k' v l IHl r IHr]; intros par; cbn [repr addrs locate subst outer].
  { intros. simpl. by rewrite decide_True. }
  intros (Ha & Hn & Hl & Hr) [Hna Hnd]%NoDup_cons Hpar.
  apply NoDup_app in Hnd as (Hndl & Hdis & Hndr). rewrite elem_of_app in Hna.
  destruct (decide (k = k')) as [->|Hne]; [intros; simpl; by rewrite decide_True|].
  set (sub := if decide (klt k k') then l else r).
  assert ((locate k a sub).2 = a ∨ (locate k a sub).2 ∈ addrs sub) as Hp'.
  { destruct (locate_parent k a sub) as [[-> _]|Hin]; [by left|right]. rewrite (outer_stop k). set_solver. }
  intros Hsame Hlink Hu. fold sub in Hsame, Hlink |- *. set (par' := (locate k a sub).2) in *.
  assert (par' ≠ par) as Hpp.
  { intros Heq. rewrite Heq in Hp'. unfold sub in Hp'.
    case_decide; destruct Hp' as [->|?]; set_solver. }
  destruct (decide (par' = par)) as [|_]; [done|]. specialize (Hlink Hpp) as (pn & Hpn & Hpn').
  assert (a ≠ par' → N' !! a = N !! a) as Ha' by (intros; apply Hsame; case_decide; set_solver).
  unfold sub in *. clear sub. destruct (decide (klt k k')) as [Hlt|Hlt].
  - assert (repr N' r) as Hr'.
    { eapply repr_frame; [|exact Hr]. intros b Hb.
      apply Hsame; [apply elem_of_cons; right; apply elem_of_app; by right|].
      intros ->. destruct Hp' as [Heq|Hin]; [rewrite Heq in Hb; auto|by apply (Hdis _ Hin)]. }
    destruct (IHl a Hl Hndl ltac:(auto)) as [Hrepr Hroot]; try done.
    { intros b Hb. apply Hsame, elem_of_cons. right. apply elem_of_app. auto. }
    { intros _. eauto. }
    fold par' in Hroot. split; [|done]. split_and!; try done. rewrite Hroot. case_decide as Hpa.
    + rewrite Hpa in Hpn, Hpn'. rewrite Hn in Hpn. injection Hpn as <-. rewrite Hpn'.
      unfold with_child. simpl. by rewrite klt_ltb, bool_decide_true.
    + rewrite Ha' by done. done.
  - assert (repr N' l) as Hl'.
    { eapply repr_frame; [|exact Hl]. intros b Hb.
      apply Hsame; [apply elem_of_cons; right; apply elem_of_app; by left|].
      intros ->. destruct Hp' as [Heq|Hin]; [rewrite Heq in Hb; auto|by apply (Hdis _ Hb)]. }
    destruct (IHr a Hr Hndr ltac:(auto)) as [Hrepr Hroot]; try done.
    { intros b Hb. apply Hsame, elem_of_cons. right. apply elem_of_app. auto. }
    { intros _. eauto. }
    fold par' in Hroot. split; [|done]. split_and!; try done. rewrite Hroot. case_decide as Hpa.
    + rewrite Hpa in Hpn, Hpn'. rewrite Hn in Hpn. injection Hpn as <-. rewrite Hpn'.
      unfold with_child. simpl. by rewrite klt_ltb, bool_decide_false.
    + rewrite Ha' by done. done.
Qed.

(** ** Lock and node primitives *)

Lemma node_at_Ok N L a n : N !! a = Some n → node_at a (DB N L) = Ok (n, DB N L).
Proof. unfold node_at. simpl. by intros ->. Qed.

Lemma put_node_Ok N L a n n0 :
  N !! a = Some n0 → put_node a n (DB N L) = Ok (tt, DB (<[a := n]> N) L).
Proof. intros Ha. unfold put_node. by run (node_at_Ok N L a n0 Ha). Qed.

Lemma wrlock_Ok N L a n :
  N !! a = Some n → L !! a = None → pthread_rwlock_wrlock a (DB N L) = Ok (tt, DB N (<[a := WR]> L)).
Proof.
  intros Ha Hl. unfold pthread_rwlock_wrlock. run (node_at_Ok N L a n Ha). rewrite ST_get. simpl.
  by rewrite Hl.
Qed.

Lemma rdlock_Ok N L a n :
  N !! a = Some n → L !! a = None → pthread_rwlock_rdlock a (DB N L) = Ok (tt, DB N (<[a := RD 1]> L)).
Proof.
  intros Ha Hl. unfold pthread_rwlock_rdlock. run (node_at_Ok N L a n Ha). rewrite ST_get. simpl.
  by rewrite Hl.
Qed.

(** Held by this thread alone. *)
Definition sole (h : held) : Prop := h = WR ∨ h = RD 1.

Lemma unlock_Ok N L a n h :
  N !! a = Some n → L !! a = Some h → sole h →
  pthread_rwlock_unlock a (DB N L) = Ok (tt, DB N (delete a L)).
Proof.
  intros Ha Hl Hs. unfold pthread_rwlock_unlock. run (node_at_Ok N L a n Ha). rewrite ST_get. simpl.
  rewrite Hl. by destruct Hs as [-> | ->].
Qed.

Lemma destructor_Ok N L a n :
  N !! a = Some n → L !! a = None → node_destructor a (DB N L) = Ok (tt, DB (delete a N) L).
Proof.
  intros Ha Hl. unfold node_destructor. run (node_at_Ok N L a n Ha). rewrite ST_get. simpl.
  by rewrite Hl.
Qed.

Lemma set_child_Ok N L k a n c :
  N !! a = Some n → set_child k a c (DB N L) = Ok (tt, DB (<[a := with_child k n c]> N) L).
Proof.
  intros Ha. unfold set_child. run (node_at_Ok N L a n Ha). unfold with_child.
  by destruct (strcmp k (key n) <? 0); apply (put_node_Ok N L a _ n).
Qed.

(** ** The search *)

(** The lock a search takes on the nodes it passes. *)
Definition lock_mode (write : bool) : held := if write then WR else RD 1.

Lemma lock_Ok (write : bool) N L a n :
  N !! a = Some n → L !! a = None →
  (if write then pthread_rwlock_wrlock a else pthread_rwlock_rdlock a) (DB N L)
    = Ok (tt, DB N (<[a := lock_mode write]> L)).
Proof. intros. destruct write; [by eapply wrlock_Ok|by eapply rdlock_Ok]. Qed.

(** What [search] leaves locked: the node it found, and its parent when the
    caller asked for it. *)
Definition search_locks (parentpp : bool) (h : held) (write : bool) (res par' par : Z) : gmap Z held :=
  let base : gmap Z held :=
    if parentpp then {[par' := if decide (par' = par) then h else lock_mode write]} else ∅ in
  if decide (res = NULL) then base else <[res := lock_mode write]> base.

(** The number of calls a search may need. *)
Fixpoint height (t : tree) : nat :=
  match t with Leaf => O | T _ _ _ l r => S (Nat.max (height l) (height r)) end.

Lemma height_addrs t : (height t ≤ length (addrs t))%nat.
Proof. induction t; simpl; [lia|]. rewrite length_app. lia. Qed.

(** Giving back the lock of the parent, with the child locked. *)
Lemma unlock_parent N par pn h a m :
  N !! par = Some pn → sole h → a ≠ par →
  pthread_rwlock_unlock par (DB N (<[a := m]> {[par := h]})) = Ok (tt, DB N {[a := m]}).
Proof.
  intros Hpar Hsole Hne.
  rewrite (unlock_Ok _ _ _ pn h Hpar); [|rewrite lookup_insert_ne by done; apply lookup_singleton_eq|done].
  by rewrite delete_insert_ne, delete_singleton_eq by done.
Qed.

Lemma search_Ok pp write k t N fuel par pn h :
  N !! par = Some pn →
  (if strcmp k (key pn) <? 0 then lchild pn else rchild pn) = root t →
  repr N t → NoDup (par :: addrs t) → sole h → (height t < fuel)%nat →
  let '(res, par') := locate k par t in
  search fuel k par pp write (DB N {[par := h]}) =
    Ok ((res, if pp then par' else NULL), DB N (search_locks pp h write res par' par)).
Proof.
  revert par pn h fuel. induction t as [|a k' v l IHl r IHr];
    intros par pn h fuel Hpar Hnext Hrep Hnd Hsole Hfuel.
  all: destruct fuel as [|fuel]; [lia|]; cbn [search]; run (node_at_Ok N _ par pn Hpar);
    cbv zeta; rewrite Hnext; cbn [root].
  - cbn [locate]. rewrite Z.eqb_refl. unfold search_locks. rewrite !decide_True by done.
    destruct pp; [done|].
    run (unlock_Ok N {[par := h]} par pn h Hpar (lookup_singleton_eq _ _) Hsole).
    by rewrite delete_singleton_eq.
  - destruct Hrep as (Ha & Hn & Hl & Hr). apply NoDup_cons in Hnd as [Hpa Hnd].
    assert (a ≠ par) as Hne by set_solver.
    rewrite (proj2 (Z.eqb_neq _ _) Ha).
    run (lock_Ok write N {[par := h]} a _ Hn (lookup_singleton_ne _ _ _ (not_eq_sym Hne))).
    run (node_at_Ok N (<[a := lock_mode write]> {[par := h]}) a _ Hn). cbn [key].
    rewrite strcmp_eqb. cbn [locate]. destruct (decide (k = k')) as [->|Hk].
    { rewrite bool_decide_true by done. unfold search_locks. cbv zeta. rewrite (decide_False (P := a = NULL)), (decide_True (P := par = par)) by done.
      destruct pp; [done|]. by run (unlock_parent N par pn h a _ Hpar Hsole Hne). }
    rewrite bool_decide_false by done. run (unlock_parent N par pn h a (lock_mode write) Hpar Hsole Hne).
    set (sub := if decide (klt k k') then l else r).
    assert (¬ a ∈ addrs l ++ addrs r ∧ NoDup (addrs l) ∧ NoDup (addrs r)) as (Hna & Hndl & Hndr).
    { apply NoDup_cons in Hnd as [? (? & _ & ?)%NoDup_app]. done. }
    assert (let '(res, par') := locate k a sub in
      search fuel k a pp write (DB N {[a := lock_mode write]}) =
        Ok ((res, if pp then par' else NULL), DB N (search_locks pp (lock_mode write) write res par' a))) as Hrec.
    { assert (sole (lock_mode write)) as Hs by (destruct write; [by left|by right]).
      unfold sub. rewrite elem_of_app in Hna. simpl in Hfuel. destruct (decide (klt k k')) as [Hlt|Hlt].
      - apply (IHl a _ (lock_mode write) fuel Hn); try done; [|by constructor; auto|lia].
        simpl. by rewrite klt_ltb, bool_decide_true.
      - apply (IHr a _ (lock_mode write) fuel Hn); try done; [|by constructor; auto|lia].
        simpl. by rewrite klt_ltb, bool_decide_false. }
    destruct (locate k a sub) as [res par'] eqn:Hloc. rewrite Hrec. do 3 f_equal.
    unfold search_locks. cbv zeta. assert (par' ≠ par) as Hpp'.
    { pose proof (locate_parent k a sub) as Hlp. rewrite Hloc in Hlp. simpl in Hlp.
      destruct Hlp as [[-> _]|Hin]; [done|]. intros ->. apply Hpa. simpl.
      apply elem_of_cons. right. apply elem_of_app.
      assert (par ∈ addrs sub) as Hs by (rewrite (outer_stop k), elem_of_app; auto).
      unfold sub in Hs. case_decide; auto. }
    rewrite (decide_False (P := par' = par)) by done. by destruct (decide (par' = a)).
Qed.

(** ** The invariant between operations *)

Record db_ok (s : db_state) (t : tree) : Prop := {
  ok_locks : locks s = ∅;
  ok_head : nodes s !! head = Some (Node [] [] NULL (root t));
  ok_repr : repr (nodes s) t;
  ok_nodup : NoDup (head :: addrs t);
  ok_dom : dom (nodes s) = list_to_set (head :: addrs t);
  ok_bst : bst t;
  ok_short : short t;
}.

(** The database starts empty. *)
Definition db_start : db_state := DB {[head := head_node]} ∅.

Lemma db_start_ok : db_ok db_start Leaf.
Proof.
  split; simpl; try done. apply NoDup_singleton.
Qed.

Lemma depth_fuel_enough s t L : db_ok s t → (height t < depth_fuel (set_locks L s))%nat.
Proof.
  intros H. unfold depth_fuel. simpl. rewrite <-size_dom, (ok_dom _ _ H).
  rewrite size_list_to_set by apply H. simpl. pose proof (height_addrs t). lia.
Qed.

Lemma strcmp_nil k : (strcmp k [] <? 0) = false.
Proof. by destruct k. Qed.

(** The beginning of every operation: lock the root, search. *)
Definition enter (k : bytes) (pp write : bool) : db (Z * Z) :=
  pthread_rwlock_wrlock head;;
  s ← get;
  search (depth_fuel s) k head pp write.

Lemma enter_Ok s t k pp write :
  db_ok s t →
  let '(res, par') := locate k head t in
  enter k pp write s =
    Ok ((res, if pp then par' else NULL), set_locks (search_locks pp WR write res par' head) s).
Proof.
  intros H. destruct s as [N L]. pose proof (ok_locks _ _ H) as HL. simpl in HL. subst L.
  unfold enter. pose proof (ok_head _ _ H) as Hh. simpl in Hh.
  run (wrlock_Ok N ∅ head _ Hh (lookup_empty _)). rewrite ST_get.
  pose proof (search_Ok pp write k t N (depth_fuel (DB N {[head := WR]})) head _ WR Hh) as Hs.
  cbn [key lchild rchild] in Hs. rewrite strcmp_nil in Hs.
  specialize (Hs eq_refl (ok_repr _ _ H) (ok_nodup _ _ H) ltac:(by left)
    (depth_fuel_enough _ _ {[head := WR]} H)).
  exact Hs.
Qed.

(** [db_query] returns the value of the key and leaves everything as it was. *)
Lemma db_query_Ok s t k len :
  db_ok s t →
  db_query k len s = Ok (snprintf_s len (default not_found (to_map t !! k)), s).
Proof.
  intros H. pose proof (enter_Ok s t k false false H) as He.
  pose proof (locate_stop k head t) as Hstop.
  destruct (locate k head t) as [res par']. simpl in Hstop.
  apply ST_bind_inv in He as ([] & s1 & Hlock & He).
  apply ST_bind_inv in He as (s2 & s3 & Hget & He).
  unfold db_query. run Hlock. run Hget. run He.
  rewrite to_map_stop by apply H. pose proof (repr_stop _ k _ (ok_repr _ _ H)) as Hrs.
  destruct s as [N L]. pose proof (ok_locks _ _ H) as HL. simpl in HL. subst L.
  destruct (stop k t) as [|a k' v l r]; simpl in Hstop; subst res; unfold search_locks; simpl.
  { done. }
  destruct Hrs as (Ha & Hn & _). rewrite (proj2 (Z.eqb_neq _ _) Ha), decide_False by done.
  rewrite insert_empty. change (lock_mode false) with (RD 1). unfold set_locks. cbn [nodes]. run (node_at_Ok N {[a := RD 1]} a _ Hn).
  run (unlock_Ok N {[a := RD 1]} a _ (RD 1) Hn (lookup_singleton_eq _ _) ltac:(by right)).
  by rewrite delete_singleton_eq.
Qed.

(** The nodes of a tree and the root. *)
Lemma ok_node s t a : db_ok s t → a ∈ head :: addrs t → is_Some (nodes s !! a).
Proof. intros H Ha. apply elem_of_dom. rewrite (ok_dom _ _ H). by apply elem_of_list_to_set. Qed.

Lemma ok_fresh s t a : db_ok s t → a ∉ head :: addrs t → nodes s !! a = None.
Proof.
  intros H Ha. apply not_elem_of_dom. rewrite (ok_dom _ _ H). by rewrite elem_of_list_to_set.
Qed.

(** The parent where a search ends is the root or a node outside the subtree
    found. *)
Lemma ok_parent s t k :
  db_ok s t → let par' := (locate k head t).2 in
  par' ∈ head :: outer k t ∧ is_Some (nodes s !! par') ∧ par' ∉ addrs (stop k t).
Proof.
  intros H par'. assert (par' ∈ head :: outer k t) as Hin.
  { unfold par'. destruct (locate_parent k head t) as [[-> _]|?]; set_solver. }
  assert (NoDup (head :: outer k t ++ addrs (stop k t))) as Hnd.
  { rewrite <-outer_stop. apply H. }
  split_and!; [done| |].
  - eapply ok_node; [done|]. rewrite outer_stop with (k := k). set_solver.
  - rewrite app_comm_cons in Hnd. apply NoDup_app in Hnd as (_ & Hd & _). by apply Hd.
Qed.

(** Linking [u] where the search for [k] stops, in memory: the tree is
    [subst k u t] afterwards. *)
Lemma link_ok s t k u N' L' pn :
  db_ok s t →
  let par' := (locate k head t).2 in
  nodes s !! par' = Some pn →
  N' !! par' = Some (with_child k pn (root u)) →
  (∀ a, a ∈ head :: outer k t → a ≠ par' → N' !! a = nodes s !! a) →
  repr N' u → NoDup (head :: outer k t ++ addrs u) →
  dom N' = list_to_set (head :: outer k t ++ addrs u) →
  bst (subst k u t) → short (subst k u t) → L' = ∅ →
  db_ok (DB N' L') (subst k u t).
Proof.
  intros H par' Hpn Hpn' Hsame Hu Hnd Hdom Hbst Hshort ->.
  pose proof (ok_nodup _ _ H) as [Hh Hndt]%NoDup_cons.
  assert (head ∉ outer k t) as Hho.
  { intros Hin. apply Hh. rewrite (outer_stop k). set_solver. }
  destruct (repr_subst (nodes s) N' k u t head (ok_repr _ _ H) Hndt Hh) as [Hrep Hroot]; try done.
  { intros a Ha. apply Hsame. set_solver. }
  { intros _. eauto. }
  split; simpl; try done.
  - rewrite Hroot. fold par'. destruct (decide (par' = head)) as [Heq|Hne].
    + rewrite Heq in Hpn, Hpn'. rewrite (ok_head _ _ H) in Hpn. injection Hpn as <-.
      rewrite Hpn'. unfold with_child. cbn [key]. by rewrite strcmp_nil.
    + rewrite Hsame by set_solver. apply H.
  - by rewrite addrs_subst.
  - rewrite Hdom. apply set_eq. intros x.
    rewrite elem_of_list_to_set, elem_of_union, elem_of_singleton, elem_of_list_to_set, elem_of_cons.
    by rewrite addrs_subst.
Qed.

(** ** [db_add] *)

(** What the memory allocator gives for a new node. *)
Definition good_malloc (env : heap_env) (s : db_state) (a : Z) : Prop :=
  malloc_node env (nodes s) = Some a ∧ a ≠ NULL ∧ nodes s !! a = None ∧ ∀ n, malloc_str env n = true.

Lemma snprintf_s_short n : (length n ≤ 255)%nat → snprintf_s MAXLEN n = n.
Proof. intros. unfold snprintf_s, MAXLEN. apply take_ge. lia. Qed.

Lemma search_locks_NULL par' : search_locks true WR true NULL par' head = {[par' := WR]}.
Proof. unfold search_locks. rewrite decide_True by done. simpl. by case_decide. Qed.

Lemma search_locks_found res par' :
  res ≠ NULL → search_locks true WR true res par' head = <[res := WR]> {[par' := WR]}.
Proof. intros. unfold search_locks. rewrite decide_False by done. simpl. by case_decide. Qed.

(** The key is there: nothing changes. *)
Lemma db_add_present env s t k v v0 :
  db_ok s t → to_map t !! k = Some v0 → db_add env k v s = Ok (0, s).
Proof.
  intros H. rewrite to_map_stop by apply H. intros Hv.
  pose proof (enter_Ok s t k true true H) as He. pose proof (locate_stop k head t) as Hstop.
  destruct (ok_parent s t k H) as (_ & [pn Hpn] & Hps).
  destruct (locate k head t) as [res par']. simpl in Hstop, Hpn, Hps.
  apply ST_bind_inv in He as ([] & s1 & Hlock & He).
  apply ST_bind_inv in He as (s2 & s3 & Hget & He).
  unfold db_add. run Hlock. run Hget. run He.
  pose proof (repr_stop _ k _ (ok_repr _ _ H)) as Hrs.
  destruct s as [N L]. pose proof (ok_locks _ _ H) as HL. simpl in HL. subst L.
  destruct (stop k t) as [|a k' v' l r]; [done|]. simpl in Hstop. subst res. simpl in Hpn.
  destruct Hrs as (Ha & Hn & _). simpl in Hps. simpl in Hn.
  assert (a ≠ par') as Hne by set_solver.
  rewrite (proj2 (Z.eqb_neq _ _) Ha), search_locks_found by done.
  unfold set_locks. cbn [negb nodes].
  run (unlock_Ok N (<[a := WR]> {[par' := WR]}) par' pn WR Hpn
    ltac:(rewrite lookup_insert_ne by done; apply lookup_singleton_eq) ltac:(by left)).
  rewrite delete_insert_ne, delete_singleton_eq, insert_empty by done.
  run (unlock_Ok N {[a := WR]} a _ WR Hn (lookup_singleton_eq _ _) ltac:(by left)).
  by rewrite delete_singleton_eq.
Qed.

(** The search of [db_add] and [db_remove] when the key is not there: only the
    parent is locked. *)
Lemma enter_absent s t k :
  db_ok s t → to_map t !! k = None →
  let par' := (locate k head t).2 in
  enter k true true s = Ok ((NULL, par'), DB (nodes s) {[par' := WR]}) ∧ stop k t = Leaf.
Proof.
  intros H. rewrite to_map_stop by apply H. intros Hv.
  pose proof (enter_Ok s t k true true H) as He. pose proof (locate_stop k head t) as Hstop.
  destruct (locate k head t) as [res par']. simpl in Hstop |- *.
  destruct (stop k t); [|done]. simpl in Hstop. subst res. rewrite search_locks_NULL in He.
  done.
Qed.

(** [node_constructor] with memory and short strings. *)
Lemma constructor_Ok env s a k v l r L :
  good_malloc env s a → (length k ≤ 255)%nat → (length v ≤ 255)%nat →
  node_constructor env k v l r (DB (nodes s) L) =
    Ok (a, DB (<[a := Node k v l r]> (nodes s)) L).
Proof.
  intros (Hm & _ & _ & Hs) Hk Hv. unfold node_constructor.
  rewrite (proj2 (Nat.ltb_ge _ _)), (proj2 (Nat.ltb_ge _ _)) by (unfold MAXLEN; lia). simpl.
  rewrite ST_get. simpl. rewrite Hm, !Hs. simpl. by rewrite !snprintf_s_short.
Qed.

(** [db_add] of a new key. *)
Lemma db_add_absent env s t k v a :
  db_ok s t → to_map t !! k = None → good_malloc env s a →
  (length k ≤ 255)%nat → (length v ≤ 255)%nat →
  ∃ s', db_add env k v s = Ok (1, s') ∧ db_ok s' (tree_add k v a t).
Proof.
  intros H Hv Hm Hlk Hlv. destruct (enter_absent s t k H Hv) as [He Hstop].
  destruct (ok_parent s t k H) as (Hpo & [pn Hpn] & _). set (par' := (locate k head t).2) in *.
  pose proof Hm as (_ & Ha0 & Hfresh & _).
  assert (a ∉ head :: addrs t) as Hna.
  { intros Hin. destruct (ok_node s t a H Hin). congruence. }
  assert (addrs t ≡ₚ outer k t) as Hao by (by rewrite (outer_stop k), Hstop, app_nil_r).
  assert (a ≠ par') as Hne by (intros ->; by rewrite Hao in Hna).
  apply ST_bind_inv in He as ([] & s1 & Hlock & He).
  apply ST_bind_inv in He as (s2 & s3 & Hget & He).
  unfold db_add. run Hlock. run Hget. run He. cbn [negb]. rewrite Z.eqb_refl. cbn [negb].
  run (constructor_Ok env s a k v NULL NULL {[par' := WR]} Hm Hlk Hlv).
  set (N1 := <[a := Node k v NULL NULL]> (nodes s)).
  assert (N1 !! par' = Some pn) as Hpn1 by (unfold N1; by rewrite lookup_insert_ne).
  run (set_child_Ok N1 {[par' := WR]} k par' pn a Hpn1).
  set (N2 := <[par' := with_child k pn a]> N1).
  run (unlock_Ok N2 {[par' := WR]} par' _ WR (lookup_insert_eq _ _ _) (lookup_singleton_eq _ _) ltac:(by left)).
  eexists. split; [done|]. rewrite tree_add_subst by done.
  apply (link_ok s t k (T a k v Leaf Leaf) N2 _ pn); try done.
  - apply lookup_insert_eq.
  - intros b Hb Hbp. unfold N2, N1. rewrite !lookup_insert_ne; [done| |done].
    intros ->. apply Hna. by rewrite Hao.
  - split_and!; try done. unfold N2, N1. rewrite lookup_insert_ne, lookup_insert_eq by done. done.
  - pose proof (ok_nodup _ _ H) as Hnd. rewrite Hao in Hnd, Hna.
    rewrite app_comm_cons, Permutation_app_comm. simpl. constructor; done.
  - unfold N2, N1. rewrite !dom_insert_L, (ok_dom _ _ H). apply set_eq. intros x.
    rewrite !elem_of_union, !elem_of_singleton, !elem_of_list_to_set, Hao. simpl.
    rewrite !elem_of_cons, elem_of_app. set_solver.
  - rewrite <-tree_add_subst by done. apply bst_add, H.
  - destruct (entries_subst k (T a k v Leaf Leaf) t) as (E & HE1 & HE2).
    rewrite Hstop, app_nil_r in HE1. pose proof (ok_short _ _ H) as Hs.
    change (entries (T a k v Leaf Leaf)) with [(k, v)] in HE2.
    rewrite short_entries in Hs |- *. intros k0 v0. rewrite HE2, elem_of_app, list_elem_of_singleton.
    intros [Hin|[= -> ->]]; [apply Hs; by rewrite HE1|done].
  - apply delete_singleton_eq.
Qed.

(** [node_constructor] fails on long strings and without memory. *)
Definition no_node (env : heap_env) (s : db_state) (k v : bytes) : Prop :=
  (256 < length k)%nat ∨ (256 < length v)%nat ∨ malloc_node env (nodes s) = None ∨
  malloc_str env (length k + 1) = false ∨ malloc_str env (length v + 1) = false.

Lemma constructor_NULL env s k v l r L :
  no_node env s k v → node_constructor env k v l r (DB (nodes s) L) = Ok (NULL, DB (nodes s) L).
Proof.
  intros Hno. unfold node_constructor, MAXLEN.
  destruct (Nat.ltb_spec 256 (length k)); [done|]. destruct (Nat.ltb_spec 256 (length v)); [done|].
  simpl. rewrite ST_get. simpl. destruct Hno as [?|[?|[-> |[Hs|Hs]]]]; try lia; [done|..];
    destruct (malloc_node env (nodes s)); try done; rewrite Hs; [done|].
  by destruct (malloc_str env (length k + 1)).
Qed.

(** The pointer a search followed last leads to the subtree it stopped at. *)
Definition side_child (k : bytes) (n : node) : Z :=
  if strcmp k (key n) <? 0 then lchild n else rchild n.

Lemma with_side_child k n : with_child k n (side_child k n) = n.
Proof. unfold with_child, side_child. destruct n as [k' v l r]. simpl. by destruct (strcmp k k' <? 0). Qed.

Lemma locate_child N k t par pn0 pn :
  repr N t → N !! par = Some pn0 → side_child k pn0 = root t →
  N !! (locate k par t).2 = Some pn → side_child k pn = root (stop k t).
Proof.
  revert par pn0. induction t as [|a k' v l IHl r IHr]; intros par pn0; cbn [repr locate stop].
  { simpl. intros. by simplify_eq. }
  intros (Ha & Hn & Hl & Hr) Hpar Hc. destruct (decide (k = k')) as [->|Hk]; [simpl; intros; by simplify_eq|].
  destruct (decide (klt k k')) as [Hlt|Hlt].
  - apply (IHl a _ Hl Hn). unfold side_child. simpl. by rewrite klt_ltb, bool_decide_true.
  - apply (IHr a _ Hr Hn). unfold side_child. simpl. by rewrite klt_ltb, bool_decide_false.
Qed.

Lemma ok_side_child s t k pn :
  db_ok s t → nodes s !! (locate k head t).2 = Some pn → side_child k pn = root (stop k t).
Proof.
  intros H. apply (locate_child _ k t head (Node [] [] NULL (root t))); try apply H.
  unfold side_child. simpl. by rewrite strcmp_nil.
Qed.

(** Then [db_add] changes nothing, and still returns 1. *)
Lemma db_add_no_node env s t k v :
  db_ok s t → to_map t !! k = None → no_node env s k v → db_add env k v s = Ok (1, s).
Proof.
  intros H Hv Hno. destruct (enter_absent s t k H Hv) as [He Hstop].
  destruct (ok_parent s t k H) as (Hpo & [pn Hpn] & _).
  pose proof (ok_side_child s t k pn H Hpn) as Hside. rewrite Hstop in Hside. simpl in Hside.
  set (par' := (locate k head t).2) in *.
  apply ST_bind_inv in He as ([] & s1 & Hlock & He).
  apply ST_bind_inv in He as (s2 & s3 & Hget & He).
  unfold db_add. run Hlock. run Hget. run He. cbn [negb]. rewrite Z.eqb_refl. cbn [negb].
  run (constructor_NULL env s k v NULL NULL {[par' := WR]} Hno).
  run (set_child_Ok (nodes s) {[par' := WR]} k par' pn NULL Hpn).
  run (unlock_Ok _ {[par' := WR]} par' _ WR (lookup_insert_eq _ _ _) (lookup_singleton_eq _ _) ltac:(by left)).
  rewrite delete_singleton_eq, <-Hside, with_side_child, insert_id by done.
  destruct s as [N L]. pose proof (ok_locks _ _ H) as HL. simpl in *. by subst L.
Qed.

(** ** The leftmost node of a subtree *)

(** The node whose pointer leads to the leftmost node, and its right subtree. *)
Fixpoint min_parent (d a : Z) (l : tree) : Z :=
  match l with Leaf => d | T a' _ _ l' _ => min_parent a a' l' end.

Fixpoint min_right (l r : tree) : tree :=
  match l with Leaf => r | T _ _ _ l' r' => min_right l' r' end.

Lemma leftmost_Ok N L a k v l r d fuel :
  repr N (T a k v l r) → (height l < fuel)%nat →
  leftmost fuel d a (DB N L) = Ok ((min_parent d a l, (tree_min a k v l).1.1), DB N L) ∧
  N !! (tree_min a k v l).1.1 =
    Some (Node (tree_min a k v l).1.2 (tree_min a k v l).2 NULL (root (min_right l r))).
Proof.
  revert a k v r d fuel. induction l as [|a' k' v' l' IH r' _]; intros a k v r d fuel Hrep Hfuel.
  all: destruct fuel as [|fuel]; [lia|]; cbn [leftmost]; destruct Hrep as (Ha & Hn & Hl & Hr).
  - run (node_at_Ok N L a _ Hn). done.
  - run (node_at_Ok N L a _ Hn). cbn [lchild root].
    rewrite (proj2 (Z.eqb_neq _ _)) by apply Hl. simpl in Hfuel.
    by apply (IH a' k' v' r' a fuel); [|lia].
Qed.

Lemma min_in a k v l r : (tree_min a k v l).1.1 ∈ addrs (T a k v l r).
Proof. rewrite del_min_addrs. set_solver. Qed.

Lemma min_parent_in d a k v l r :
  NoDup (addrs (T a k v l r)) → d ∉ addrs (T a k v l r) →
  (min_parent d a l = d ∨ min_parent d a l ∈ addrs (T a k v l r)) ∧
  min_parent d a l ≠ (tree_min a k v l).1.1.
Proof.
  revert d a k v r. induction l as [|a' k' v' l' IH r' _]; intros d a k v r Hnd Hd.
  { simpl in *. split; [by left|]. set_solver. }
  change (addrs (T a k v (T a' k' v' l' r') r)) with (a :: addrs (T a' k' v' l' r') ++ addrs r) in *.
  apply NoDup_cons in Hnd as [Ha (Hnd & _)%NoDup_app].
  destruct (IH a a' k' v' r' Hnd) as [Hin Hne]; [set_solver|].
  cbn [min_parent tree_min]. split; [|done]. right. set_solver.
Qed.

Lemma repr_del_min N N' d a k v l r :
  repr N (T a k v l r) → NoDup (addrs (T a k v l r)) → d ∉ addrs (T a k v l r) →
  let mp := min_parent d a l in
  let am := (tree_min a k v l).1.1 in
  (∀ b, b ∈ addrs (T a k v l r) → b ≠ mp → b ≠ am → N' !! b = N !! b) →
  (mp ≠ d → ∃ pn, N !! mp = Some pn ∧
     N' !! mp = Some (Node (key pn) (value pn) (root (min_right l r)) (rchild pn))) →
  repr N' (del_min a k v l r) ∧
  root (del_min a k v l r) = if decide (mp = d) then root (min_right l r) else a.
Proof.
  revert d a k v r. induction l as [|a' k' v' l' IH r' _];
    intros d a k v r (Ha & Hn & Hl & Hr) Hnd Hd mp am Hsame Hlink.
  { simpl in mp, am, Hsame |- *. rewrite decide_True by done. split; [|done].
    simpl in Hnd, Hd. apply NoDup_cons in Hnd as [Hna _].
    eapply repr_frame; [|exact Hr]. intros b Hb. apply Hsame; set_solver. }
  pose proof (min_parent_in a a' k' v' l' r') as Hmp. pose proof (min_in a' k' v' l' r') as Ham.
  change (addrs (T a k v (T a' k' v' l' r') r)) with (a :: addrs (T a' k' v' l' r') ++ addrs r) in *.
  set (Al := addrs (T a' k' v' l' r')) in *.
  apply NoDup_cons in Hnd as [Hna (Hndl & Hdis & Hndr)%NoDup_app]. rewrite elem_of_app in Hna.
  destruct Hmp as [Hmp Hmpam]; [done|auto|]. cbn [min_parent tree_min] in mp, am. fold mp am in Hmp, Hmpam, Ham.
  assert (mp ≠ d) as Hmd by (intros Heq; rewrite Heq in Hmp; destruct Hmp; set_solver).
  rewrite decide_False by done. destruct (Hlink Hmd) as (pn & Hpn & Hpn'). cbn [min_right] in Hpn'.
  destruct (IH a a' k' v' r' Hl Hndl ltac:(auto)) as [Hrep Hroot]; fold mp am; try done.
  { intros b Hb. apply Hsame. apply elem_of_cons. right. apply elem_of_app. auto. }
  { intros _. eauto. }
  fold mp in Hroot. cbn [del_min root]. split; [|done].
  assert (∀ b, b ∈ addrs r → N' !! b = N !! b) as Hrs.
  { intros b Hb. apply Hsame; [apply elem_of_cons; right; apply elem_of_app; auto|..]; intros ->.
    - destruct Hmp as [Heq|Hin]; [rewrite Heq in Hb; auto|by apply (Hdis _ Hin)].
    - by apply (Hdis _ Ham). }
  split_and!; [done| |done|by eapply repr_frame]. rewrite Hroot. case_decide as Hma.
  - rewrite Hma in Hpn, Hpn'. rewrite Hn in Hpn. injection Hpn as <-. done.
  - rewrite Hsame; [done|set_solver|done|]. intros ->. auto.
Qed.
