(* ===== verification/DbRemove.v ===== *)
(** * [db_remove] and [db_cleanup].

    The three cases of a removal, down to the pointers that change and the node
    that is freed. *)

From Stdlib Require Import ZArith Lia Ascii.
From stdpp Require Import base gmap numbers option list.
From S2P Require Import Prelude Db DbTree DbProofs.

Open Scope Z_scope.

(** The search when the key is there: the node and its parent are locked. *)
Lemma enter_present s t k v :
  db_ok s t → to_map t !! k = Some v →
  let par' := (locate k head t).2 in
  ∃ a l r pn, stop k t = T a k v l r ∧
    enter k true true s = Ok ((a, par'), DB (nodes s) (<[a := WR]> {[par' := WR]})) ∧
    nodes s !! a = Some (Node k v (root l) (root r)) ∧ a ≠ NULL ∧
    repr (nodes s) l ∧ repr (nodes s) r ∧ NoDup (head :: outer k t ++ a :: addrs l ++ addrs r) ∧
    nodes s !! par' = Some pn ∧ par' ∈ head :: outer k t ∧ side_child k pn = a.
Proof.
  intros H. rewrite to_map_stop by apply H. intros Hv.
  pose proof (enter_Ok s t k true true H) as He. pose proof (locate_stop k head t) as Hstop.
  destruct (ok_parent s t k H) as (Hpo & [pn Hpn] & _).
  pose proof (ok_side_child s t k pn H Hpn) as Hside.
  pose proof (repr_stop _ k _ (ok_repr _ _ H)) as Hrs.
  assert (NoDup (head :: outer k t ++ addrs (stop k t))) as Hnd by (rewrite <-outer_stop; apply H).
  destruct (locate k head t) as [res par']. simpl in Hstop, Hpo, Hpn |- *.
  destruct (stop k t) as [|a k' v' l r] eqn:Hst; [done|]. pose proof (stop_key _ _ _ _ _ _ _ Hst) as ->.
  injection Hv as ->. simpl in Hstop. subst res. destruct Hrs as (Ha & Hn & Hl & Hr).
  rewrite search_locks_found in He by done. simpl in Hside.
  exists a, l, r, pn. split_and!; try done.
Qed.

(** Both locks are released, whatever happened to the nodes. *)
Lemma unlock_both {B} N a par' na np (k : db B) :
  N !! a = Some na → N !! par' = Some np → a ≠ par' →
  (pthread_rwlock_unlock par';; pthread_rwlock_unlock a;; k) (DB N (<[a := WR]> {[par' := WR]})) =
    k (DB N ∅).
Proof.
  intros Ha Hp Hne.
  run (unlock_Ok N (<[a := WR]> {[par' := WR]}) par' np WR Hp
    ltac:(rewrite lookup_insert_ne by done; apply lookup_singleton_eq) ltac:(by left)).
  rewrite delete_insert_ne, delete_singleton_eq, insert_empty by done.
  run (unlock_Ok N {[a := WR]} a na WR Ha (lookup_singleton_eq _ _) ltac:(by left)).
  by rewrite delete_singleton_eq.
Qed.

(** The memory after a removal holds the tree without the key. *)
Lemma remove_link s t k v a l r N' pn :
  db_ok s t → to_map t !! k = Some v → stop k t = T a k v l r →
  let par' := (locate k head t).2 in
  let u := del_root a l r in
  nodes s !! par' = Some pn → N' !! par' = Some (with_child k pn (root u)) →
  (∀ b, b ∈ head :: outer k t → b ≠ par' → N' !! b = nodes s !! b) →
  repr N' u → dom N' = dom (nodes s) ∖ {[freed_root a l r]} →
  db_ok (DB N' ∅) (tree_remove k t).
Proof.
  intros H Hv Hst par' u Hpn Hpn' Hsame Hu Hdom.
  destruct (tree_remove_spec k v t (ok_bst _ _ H) Hv) as (Hbst & Hent & Haddr).
  destruct (tree_remove_subst k t a v l r Hst) as [Htr Hfr]. fold u in Htr.
  rewrite Htr, Hfr in *. rewrite addrs_subst in Haddr.
  assert (NoDup (head :: freed_root a l r :: outer k t ++ addrs u)) as Hnd.
  { rewrite <-Haddr. apply H. }
  rewrite Permutation_swap in Hnd. apply NoDup_cons in Hnd as [Hfn Hnd].
  apply (link_ok s t k u N' ∅ pn); try done.
  - rewrite Hdom, (ok_dom _ _ H). apply set_eq. intros x.
    rewrite elem_of_difference, elem_of_singleton, !elem_of_list_to_set, Haddr.
    rewrite !elem_of_cons in *. split; [naive_solver|]. intros Hx. split; [naive_solver|].
    intros ->. apply Hfn. by apply elem_of_cons.
  - pose proof (ok_short _ _ H) as Hs. rewrite short_entries in Hs |- *.
    intros k0 v0 Hin. apply Hs. rewrite Hent. by right.
Qed.

(** The node has no right child or no left child. *)
Lemma remove_leaf_side s t k v a l r u pn :
  db_ok s t → to_map t !! k = Some v → stop k t = T a k v l r →
  let par' := (locate k head t).2 in
  nodes s !! par' = Some pn → par' ∈ head :: outer k t →
  nodes s !! a = Some (Node k v (root l) (root r)) →
  NoDup (head :: outer k t ++ a :: addrs l ++ addrs r) →
  repr (nodes s) u → u = del_root a l r → freed_root a l r = a → (u = l ∨ u = r) →
  (set_child k par' (root u);; pthread_rwlock_unlock par';; pthread_rwlock_unlock a;;
   node_destructor a;; mret 1) (DB (nodes s) (<[a := WR]> {[par' := WR]})) =
    Ok (1, DB (delete a (<[par' := with_child k pn (root u)]> (nodes s))) ∅) ∧
  db_ok (DB (delete a (<[par' := with_child k pn (root u)]> (nodes s))) ∅) (tree_remove k t).
Proof.
  intros H Hv Hst par' Hpn Hpo Hn Hnd Hu -> Hfr Hur.
  rewrite app_comm_cons in Hnd. apply NoDup_app in Hnd as (_ & Hdis & [Hna _]%NoDup_cons).
  assert (a ≠ par') as Hne by (intros ->; apply (Hdis _ Hpo); set_solver).
  assert (∀ b, b ∈ addrs (del_root a l r) → b ∈ addrs l ++ addrs r) as Hsub.
  { intros b Hb. destruct Hur as [Hur|Hur]; rewrite Hur in Hb; set_solver. }
  split.
  - run (set_child_Ok (nodes s) (<[a := WR]> {[par' := WR]}) k par' pn (root (del_root a l r)) Hpn).
    set (N1 := <[par' := with_child k pn (root (del_root a l r))]> (nodes s)).
    assert (N1 !! a = Some (Node k v (root l) (root r))) as Hn1 by (unfold N1; by rewrite lookup_insert_ne).
    rewrite (unlock_both N1 a par' _ _ _ Hn1 (lookup_insert_eq _ _ _) Hne).
    by run (destructor_Ok N1 ∅ a _ Hn1 (lookup_empty _)).
  - apply (remove_link s t k v a l r _ pn); try done.
    + fold par'. rewrite lookup_delete_ne by done. apply lookup_insert_eq.
    + intros b Hb Hbp. rewrite lookup_delete_ne, lookup_insert_ne; [done|done|].
      intros ->. apply (Hdis _ Hb). set_solver.
    + eapply repr_frame; [|exact Hu]. intros b Hb%Hsub.
      rewrite lookup_delete_ne, lookup_insert_ne; [done| |].
      * intros <-. apply (Hdis _ Hpo). apply elem_of_cons. by right.
      * intros ->. done.
    + rewrite Hfr, dom_delete_L, dom_insert_lookup_L by done. done.
Qed.

Lemma height_stop k t : (height (stop k t) ≤ height t)%nat.
Proof.
  induction t as [|a k' v l IHl r IHr]; cbn [stop]; [done|].
  repeat case_decide; simpl; lia.
Qed.

Lemma short_stop k t : short t → short (stop k t).
Proof.
  induction t as [|a k' v l IHl r IHr]; [done|]. intros Hs. pose proof Hs as (? & ? & ? & ?).
  cbn [stop]. repeat case_decide; auto.
Qed.

(** The strings that a removal copies fit their buffers. *)
Lemma short_min s t k v a l r a' k' v' l' r' :
  db_ok s t → stop k t = T a k v l r → r = T a' k' v' l' r' →
  (length (tree_min a' k' v' l').1.2 ≤ 255)%nat ∧ (length (tree_min a' k' v' l').2 ≤ 255)%nat.
Proof.
  intros H Hst ->. pose proof (short_stop k t (ok_short _ _ H)) as Hs. rewrite Hst in Hs.
  destruct Hs as (_ & _ & _ & Hs). by destruct (del_min_short a' k' v' l' r' Hs) as (_ & ? & ?).
Qed.

(** ** The node has two children *)
Section Inner.
Context (env : heap_env) (s : db_state) (t : tree) (k v : bytes).
Context (a : Z) (l r : tree) (a' : Z) (k' v' : bytes) (l' r' : tree) (pn : node).
Let par' := (locate k head t).2.
Let N := nodes s.
Let mp := min_parent a a' l'.
Let am := (tree_min a' k' v' l').1.1.
Let km := (tree_min a' k' v' l').1.2.
Let vm := (tree_min a' k' v' l').2.
Let D := del_min a' k' v' l' r'.
Context (H : db_ok s t) (Hv : to_map t !! k = Some v) (Hst : stop k t = T a k v l r).
Context (Hl : l ≠ Leaf) (Hr : r = T a' k' v' l' r').
Context (Hpn : N !! par' = Some pn) (Hpo : par' ∈ head :: outer k t) (Hside : side_child k pn = a).
Context (Hn : N !! a = Some (Node k v (root l) (root r))) (Ha : a ≠ NULL).
Context (Hrl : repr N l) (Hrr : repr N r).
Context (Hnd : NoDup (head :: outer k t ++ a :: addrs l ++ addrs r)).
Context (Hmem : ∀ n, malloc_str env n = true).

Lemma inner_disjoint :
  (a ∉ addrs l) ∧ (a ∉ addrs r) ∧ NoDup (addrs r) ∧ (∀ b, b ∈ addrs l → b ∉ addrs r) ∧
  (∀ b, b ∈ head :: outer k t → b ≠ a ∧ (b ∉ addrs l) ∧ (b ∉ addrs r)).
Proof.
  pose proof Hnd as Hnd'. rewrite app_comm_cons in Hnd'.
  apply NoDup_app in Hnd' as (_ & Hdis & [Hna (_ & Hlr & Hndr)%NoDup_app]%NoDup_cons).
  split_and!; try done; [set_solver|set_solver|].
  intros b Hb%Hdis. rewrite elem_of_cons, elem_of_app in Hb. naive_solver.
Qed.

(** The node whose pointer [*pnext] is overwritten. *)
Lemma inner_mp : (mp = a ∨ mp ∈ addrs r) ∧ mp ≠ am ∧ am ∈ addrs r ∧ am ≠ a.
Proof.
  destruct inner_disjoint as (_ & Har & Hndr & _ & _). rewrite Hr in Har, Hndr |- *.
  destruct (min_parent_in a a' k' v' l' r' Hndr Har) as [Hin Hne].
  pose proof (min_in a' k' v' l' r') as Hm. split_and!; try done.
  unfold am. intros Heq. rewrite Heq in Hm. done.
Qed.

Definition inner_node (np : node) : node :=
  if decide (mp = a) then Node (key np) (value np) (lchild np) (root (min_right l' r'))
  else Node (key np) (value np) (root (min_right l' r')) (rchild np).

Lemma inner_mp_node : ∃ np, N !! mp = Some np ∧ (mp = a → np = Node k v (root l) (root r)).
Proof.
  destruct inner_mp as ([Heq|Hin] & _).
  - rewrite Heq. eauto.
  - destruct (repr_in _ _ _ Hrr Hin) as [_ [np Hnp]]. exists np. split; [done|].
    intros Heq. destruct inner_disjoint as (_ & Har & _). rewrite Heq in Hin. done.
Qed.

Context (np : node) (Hnp : N !! mp = Some np) (Hnpa : mp = a → np = Node k v (root l) (root r)).
Let N1 := <[mp := inner_node np]> N.

(** [*pnext = next->rchild] *)
Lemma inner_set_pnext L : set_pnext a mp (root (min_right l' r')) (DB N L) = Ok (tt, DB N1 L).
Proof.
  unfold set_pnext. run (node_at_Ok N L mp np Hnp). unfold N1, inner_node.
  destruct (Z.eqb_spec mp a) as [Heq|Hne].
  - rewrite decide_True by done. by apply (put_node_Ok N L mp _ np).
  - rewrite decide_False by done. by apply (put_node_Ok N L mp _ np).
Qed.

(** The removed node now points to the rest of its right subtree. *)
Lemma inner_repr (N' : gmap Z node) :
  (∀ b, b ∈ addrs r → b ≠ am → N' !! b = N1 !! b) → (∀ b, b ∈ addrs l → N' !! b = N1 !! b) →
  repr N' D ∧ repr N' l ∧ N1 !! a = Some (Node k v (root l) (root D)).
Proof.
  intros HN' HNl. destruct inner_disjoint as (Hal & Har & Hndr & Hlr & _).
  destruct inner_mp as (Hmp & Hmpam & _ & _). pose proof Hrr as Hrr'. rewrite Hr in Hrr', Hndr, Har.
  destruct (repr_del_min N N' a a' k' v' l' r' Hrr' Hndr Har) as [Hrep Hroot].
  { intros b Hb Hbm Hba. fold mp am in Hbm, Hba. rewrite <-Hr in Hb. rewrite HN' by done. unfold N1.
    by rewrite lookup_insert_ne. }
  { intros Hne. fold mp in Hne |- *. destruct Hmp as [?|Hmp]; [done|]. exists np. split; [done|].
    rewrite HN' by done. unfold N1. rewrite lookup_insert_eq. unfold inner_node.
    by rewrite decide_False. }
  split_and!; [done| |].
  - eapply repr_frame; [|exact Hrl]. intros b Hb. rewrite HNl by done. unfold N1.
    rewrite lookup_insert_ne; [done|]. intros <-. destruct Hmp as [Heq|Hin].
    + rewrite Heq in Hb. done.
    + by apply (Hlr _ Hb).
  - unfold D. rewrite Hroot. fold mp. unfold N1. destruct (decide (mp = a)) as [Heq|Hne].
    + rewrite Heq at 1. rewrite lookup_insert_eq. unfold inner_node. rewrite decide_True by done.
      by rewrite (Hnpa Heq).
    + rewrite lookup_insert_ne, Hn, Hr by done. done.
Qed.

Let N3 := delete am (<[a := Node km vm (root l) (root D)]> N1).

Lemma inner_final : db_ok (DB N3 ∅) (tree_remove k t).
Proof.
  destruct inner_disjoint as (Hal & Har & Hndr & Hlr & Hout).
  destruct inner_mp as (Hmp & Hmpam & Ham & Hama).
  destruct (inner_repr N3) as (HD & HL & _).
  { intros b Hb Hba. unfold N3. rewrite lookup_delete_ne, lookup_insert_ne; [done| |done].
    intros <-. done. }
  { intros b Hb. unfold N3. rewrite lookup_delete_ne, lookup_insert_ne; [done| |].
    - intros <-. done.
    - intros <-. by apply (Hlr _ Hb). }
  assert (∃ al kl vl ll lr, l = T al kl vl ll lr) as (al & kl & vl & ll & lr & Hleq).
  { clear -Hl. destruct l; [done|]. by do 5 eexists. }
  destruct (del_root_two a l _ _ _ _ _ a' k' v' l' r' Hleq) as [Hroot Hfreed].
  rewrite <-Hr in Hroot, Hfreed. fold km vm D in Hroot. fold am in Hfreed.
  apply (remove_link s t k v a l r N3 pn); try done; fold par'.
  - rewrite Hroot. cbn [root]. rewrite <-Hside at 1. rewrite with_side_child.
    destruct (Hout par' Hpo) as (Hpa & _ & Hpr). unfold N3, N1.
    rewrite lookup_delete_ne, !lookup_insert_ne; [done|..].
    + intros <-. destruct Hmp; done.
    + by intros <-.
    + by intros <-.
  - intros b Hb _. destruct (Hout b Hb) as (Hba & _ & Hbr). unfold N3, N1.
    rewrite lookup_delete_ne, !lookup_insert_ne; [done|..].
    + intros <-. destruct Hmp; done.
    + by intros <-.
    + by intros <-.
  - rewrite Hroot. cbn [repr]. split_and!; try done. unfold N3.
    rewrite lookup_delete_ne, lookup_insert_eq by done. done.
  - rewrite Hfreed. unfold N3, N1. rewrite dom_delete_L, dom_insert_lookup_L.
    + rewrite dom_insert_lookup_L by done. done.
    + destruct (decide (mp = a)) as [->|Hne]; [rewrite lookup_insert_eq; eauto|].
      rewrite lookup_insert_ne by done. eauto.
Qed.

Lemma inner_run :
  remove_inner env a par' (DB N (<[a := WR]> {[par' := WR]})) = Ok (tt, DB N3 ∅).
Proof.
  destruct inner_disjoint as (Hal & Har & Hndr & Hlr & Hout).
  destruct inner_mp as (Hmp & Hmpam & Ham & Hama).
  destruct (Hout par' Hpo) as (Hpa & _ & Hpr).
  set (L := <[a := WR]> {[par' := WR]}).
  unfold remove_inner. rewrite ST_get. run (node_at_Ok N L a _ Hn). rewrite Hr. cbn [rchild root].
  pose proof Hrr as Hrr'. rewrite Hr in Hrr'.
  assert (height l' < depth_fuel (DB N L))%nat as Hfuel.
  { pose proof (depth_fuel_enough s t L H) as Hf. pose proof (height_stop k t) as Hh.
    rewrite Hst, Hr in Hh. simpl in Hh. unfold depth_fuel, N in *. simpl in *. lia. }
  destruct (leftmost_Ok N L a' k' v' l' r' a _ Hrr' Hfuel) as [Hlm Hmin].
  fold mp am km vm in Hlm, Hmin. run Hlm. run (node_at_Ok N L am _ Hmin). cbn [rchild key value].
  run (inner_set_pnext L). rewrite !Hmem, !ST_ret_bind.
  destruct (inner_repr N1) as (_ & _ & Hn1); [done..|]. run (node_at_Ok N1 L a _ Hn1). cbn [lchild rchild].
  run (put_node_Ok N1 L a (Node (snprintf_s MAXLEN km) (snprintf_s MAXLEN vm) (root l) (root D)) _ Hn1).
  destruct (short_min s t k v a l r a' k' v' l' r' H Hst Hr) as [Hk Hvm].
  rewrite !snprintf_s_short by done.
  set (N2 := <[a := Node km vm (root l) (root D)]> N1).
  assert (N2 !! par' = Some pn) as Hpn2.
  { unfold N2, N1. rewrite !lookup_insert_ne; [done| |by intros <-].
    intros <-. destruct Hmp; done. }
  assert (N2 !! am = Some (Node km vm NULL (root (min_right l' r')))) as Hmin2.
  { unfold N2, N1. by rewrite !lookup_insert_ne. }
  rewrite (unlock_both N2 a par' _ _ _ (lookup_insert_eq _ _ _) Hpn2) by done.
  apply (destructor_Ok N2 ∅ am _ Hmin2 (lookup_empty _)).
Qed.
End Inner.

(** ** [db_remove] *)

Lemma db_remove_absent env s t k :
  db_ok s t → to_map t !! k = None → db_remove env k s = Ok (0, s).
Proof.
  intros H Hv. destruct (enter_absent s t k H Hv) as [He Hstop].
  destruct (ok_parent s t k H) as (_ & [pn Hpn] & _). set (par' := (locate k head t).2) in *.
  apply ST_bind_inv in He as ([] & s1 & Hlock & He).
  apply ST_bind_inv in He as (s2 & s3 & Hget & He).
  unfold db_remove. run Hlock. run Hget. run He. rewrite Z.eqb_refl.
  run (unlock_Ok (nodes s) {[par' := WR]} par' _ WR Hpn (lookup_singleton_eq _ _) ltac:(by left)).
  rewrite delete_singleton_eq. destruct s as [N L]. pose proof (ok_locks _ _ H) as HL.
  simpl in *. by subst L.
Qed.

Lemma db_remove_present env s t k v :
  db_ok s t → to_map t !! k = Some v → (∀ n, malloc_str env n = true) →
  ∃ s', db_remove env k s = Ok (1, s') ∧ db_ok s' (tree_remove k t).
Proof.
  intros H Hv Hmem.
  destruct (enter_present s t k v H Hv)
    as (a & l & r & pn & Hst & He & Hn & Ha & Hl & Hr & Hnd & Hpn & Hpo & Hside).
  set (par' := (locate k head t).2) in *.
  apply ST_bind_inv in He as ([] & s1 & Hlock & He).
  apply ST_bind_inv in He as (s2 & s3 & Hget & He).
  unfold db_remove. run Hlock. run Hget. run He. rewrite (proj2 (Z.eqb_neq _ _) Ha).
  run (node_at_Ok (nodes s) (<[a := WR]> {[par' := WR]}) a _ Hn). cbn [rchild lchild key].
  destruct r as [|a' k' v' l' r'] eqn:Hreq.
  { rewrite Z.eqb_refl.
    destruct (remove_leaf_side s t k v a l Leaf l pn H Hv Hst Hpn Hpo Hn Hnd Hl) as [Hrun Hok]; auto.
    eexists. split; [exact Hrun|exact Hok]. }
  rewrite (proj2 (Z.eqb_neq _ _)) by apply Hr.
  destruct (decide (l = Leaf)) as [->|Hlne].
  { change (root Leaf) with NULL. rewrite Z.eqb_refl. rewrite <-Hreq in *.
    destruct (remove_leaf_side s t k v a Leaf r r pn H Hv Hst Hpn Hpo Hn Hnd Hr) as [Hrun Hok]; auto;
      [by rewrite Hreq..|]. eexists. split; [exact Hrun|exact Hok]. }
  rewrite (proj2 (Z.eqb_neq _ _)) by (by rewrite (root_NULL (nodes s))). rewrite <-Hreq in *.
  destruct (inner_mp_node env s t k v a l r a' k' v' l' r' pn
    H Hv Hst Hlne Hreq Hpn Hpo Hside Hn Ha Hl Hr Hnd Hmem) as (np & Hnp & Hnpa).
  eexists. split.
  - unfold par'. by run (inner_run env s t k v a l r a' k' v' l' r' pn H Hv Hst Hlne Hreq Hpn Hpo Hside Hn Ha Hl Hr Hnd Hmem
      np Hnp Hnpa).
  - by apply (inner_final env s t k v a l r a' k' v' l' r' pn H Hv Hst Hlne Hreq Hpn Hpo Hside Hn Ha Hl Hr Hnd Hmem
      np Hnp Hnpa).
Qed.

(** ** [db_cleanup] *)

(** Freeing a subtree frees its nodes and nothing else. *)
Lemma cleanup_recurs_Ok t N fuel :
  repr N t → NoDup (addrs t) → (height t < fuel)%nat →
  ∃ N', db_cleanup_recurs fuel (root t) (DB N ∅) = Ok (tt, DB N' ∅) ∧
    ∀ b, N' !! b = if decide (b ∈ addrs t) then None else N !! b.
Proof.
  revert N fuel. induction t as [|a k v l IHl r IHr]; intros N fuel Hrep Hnd Hfuel.
  all: destruct fuel as [|fuel]; [lia|]; cbn [db_cleanup_recurs root].
  { exists N. split; [done|]. intros b. by rewrite decide_False by set_solver. }
  destruct Hrep as (Ha & Hn & Hl & Hr). cbn [addrs] in Hnd |- *. simpl in Hfuel.
  apply NoDup_cons in Hnd as [Hna (Hndl & Hdis & Hndr)%NoDup_app]. rewrite elem_of_app in Hna.
  rewrite (proj2 (Z.eqb_neq _ _) Ha). run (node_at_Ok N ∅ a _ Hn). cbn [lchild].
  destruct (IHl N fuel Hl Hndl ltac:(lia)) as (N1 & Hrun1 & HN1). run Hrun1.
  assert (N1 !! a = Some (Node k v (root l) (root r))) as Hn1.
  { rewrite HN1, decide_False by auto. done. }
  run (node_at_Ok N1 ∅ a _ Hn1). cbn [rchild].
  destruct (IHr N1 fuel) as (N2 & Hrun2 & HN2); [|done|lia|].
  { eapply repr_frame; [|exact Hr]. intros b Hb. rewrite HN1, decide_False; [done|].
    intros Hb'. by apply (Hdis b). }
  run Hrun2.
  assert (N2 !! a = Some (Node k v (root l) (root r))) as Hn2.
  { rewrite HN2, decide_False by auto. done. }
  rewrite (destructor_Ok N2 ∅ a _ Hn2 (lookup_empty _)). eexists. split; [done|]. intros b.
  rewrite lookup_delete, HN2, HN1.
  destruct (decide (a = b)) as [->|Hab]; [by rewrite decide_True by set_solver|].
  destruct (decide (b ∈ addrs r)) as [Hbr|Hbr]; [by rewrite decide_True by set_solver|].
  destruct (decide (b ∈ addrs l)) as [Hbl|Hbl]; [by rewrite decide_True by set_solver|].
  rewrite decide_False by set_solver. done.
Qed.

(** All nodes but the static root are freed, each once. *)
Lemma db_cleanup_Ok s t :
  db_ok s t → ∃ s', db_cleanup s = Ok (tt, s') ∧ dom (nodes s') = {[head]} ∧ locks s' = ∅ ∧
    nodes s' !! head = Some (Node [] [] NULL (root t)).
Proof.
  intros H. destruct s as [N L]. pose proof (ok_locks _ _ H) as HL. simpl in HL. subst L.
  pose proof (ok_head _ _ H) as Hh. simpl in Hh. unfold db_cleanup. rewrite ST_get.
  run (node_at_Ok N ∅ head _ Hh). cbn [lchild].
  assert (db_cleanup_recurs (depth_fuel (DB N ∅)) NULL (DB N ∅) = Ok (tt, DB N ∅)) as Hnull by done.
  run Hnull. run (node_at_Ok N ∅ head _ Hh). cbn [rchild].
  pose proof (ok_nodup _ _ H) as [Hht Hnd]%NoDup_cons.
  destruct (cleanup_recurs_Ok t N (depth_fuel (DB N ∅)) (ok_repr _ _ H) Hnd
    (depth_fuel_enough _ _ ∅ H)) as (N' & Hrun & HN'). rewrite Hrun. eexists. split_and!; try done;
    [|simpl; by rewrite HN', decide_False].
  apply set_eq. intros b. rewrite elem_of_dom, elem_of_singleton. simpl. rewrite HN'.
  split.
  - intros [n Hb]. case_decide as Hin; [done|]. assert (b ∈ dom N) as Hd by (apply elem_of_dom; eauto).
    pose proof (ok_dom _ _ H) as Hdom. simpl (nodes _) in Hdom. rewrite Hdom in Hd.
    apply elem_of_list_to_set, elem_of_cons in Hd. naive_solver.
  - intros ->. rewrite decide_False by done. eauto.
Qed.

(** [db_cleanup] leaves the pointer of the root to the freed nodes: a query that
    comes later follows it. *)
Lemma query_after_cleanup s t :
  db_ok s t → t ≠ Leaf →
  ∃ s', db_cleanup s = Ok (tt, s') ∧ ∀ k len, db_query k len s' = Err BadAccess.
Proof.
  intros H Ht. destruct (db_cleanup_Ok s t H) as ([N L] & Hrun & Hdom & HL & Hh). simpl in *. subst L.
  exists (DB N ∅). split; [done|]. intros k len. unfold db_query.
  run (wrlock_Ok N ∅ head _ Hh (lookup_empty _)). rewrite ST_get. apply ST_bind_Err.
  unfold depth_fuel. cbn [search]. run (node_at_Ok N (<[head := WR]> ∅) head _ Hh). cbn [key lchild rchild].
  rewrite strcmp_nil. pose proof (ok_repr _ _ H) as Hr. pose proof (ok_nodup _ _ H) as [Hnd _]%NoDup_cons.
  destruct t as [|a k' v l r]; [done|]. destruct Hr as (Ha & _). cbn [root]. rewrite (proj2 (Z.eqb_neq _ _) Ha).
  apply ST_bind_Err. unfold pthread_rwlock_rdlock. apply ST_bind_Err. unfold node_at. simpl.
  rewrite (proj1 (not_elem_of_dom N a)); [done|]. rewrite Hdom. simpl in Hnd. set_solver.
Qed.
