(* ===== verification/DbCmd.v ===== *)
(** * Printing and the command language of the database:
    [db_print] and [interpret_command] of [7-database-haininz/db.c]. *)

From Stdlib Require Import ZArith Lia Ascii String.
From stdpp Require Import base gmap strings numbers option list.
From S2P Require Import Prelude Stdio Db DbTree DbProofs DbRemove.

Open Scope Z_scope.
Open Scope list_scope.

(** ** Printing *)

Definition eol : bytes := [chr 10].
Definition print_spaces (lvl : nat) : bytes := replicate lvl (chr 32).

(** [db_print_recurs]: the text written to [out]. *)
Fixpoint db_print_recurs (fuel : nat) (a : Z) (lvl : nat) : db bytes :=
  match fuel with
  | O => fail NoFuel
  | S fuel' =>
      if a =? NULL then mret (print_spaces lvl ++ text "(null)" ++ eol)
      else
        pthread_rwlock_rdlock a;;
        n ← node_at a;
        let line := if a =? head then text "(root)" ++ eol
                    else key n ++ text " " ++ value n ++ eol in
        left ← db_print_recurs fuel' (lchild n) (S lvl);
        n ← node_at a;
        right ← db_print_recurs fuel' (rchild n) (S lvl);
        pthread_rwlock_unlock a;;
        mret (print_spaces lvl ++ line ++ left ++ right)
  end.

(** Where [db_print] writes. *)
Inductive out_stream := Stdout | OutFile (name : bytes).

(** [db_print]: the status and the text written, if any; [fopen_w] says whether
    a file can be opened for writing. *)
Definition db_print (fopen_w : bytes → bool) (filename : option bytes)
    : db (Z * option (out_stream * bytes)) :=
  s ← get;
  let fuel := S (depth_fuel s) in
  match filename with
  | None => t ← db_print_recurs fuel head 0; mret (0, Some (Stdout, t))
  | Some f =>
      match skip_spaces f with
      | [] => t ← db_print_recurs fuel head 0; mret (0, Some (Stdout, t))
      | f' =>
          if negb (fopen_w f') then mret (-1, None)
          else t ← db_print_recurs fuel head 0; mret (0, Some (OutFile f', t))
      end
  end.

(** The picture of a tree: pre-order, one space per level. *)
Fixpoint show_tree (lvl : nat) (t : tree) : bytes :=
  match t with
  | Leaf => print_spaces lvl ++ text "(null)" ++ eol
  | T _ k v l r =>
      print_spaces lvl ++ (k ++ text " " ++ v ++ eol) ++ show_tree (S lvl) l ++ show_tree (S lvl) r
  end.

Definition show_db (t : tree) : bytes :=
  print_spaces 0 ++ (text "(root)" ++ eol) ++
  (print_spaces 1 ++ text "(null)" ++ eol) ++ show_tree 1 t.

Lemma print_recurs_Ok t N L fuel lvl :
  repr N t → NoDup (addrs t) → head ∉ addrs t → (∀ a, a ∈ addrs t → L !! a = None) →
  (height t < fuel)%nat →
  db_print_recurs fuel (root t) lvl (DB N L) = Ok (show_tree lvl t, DB N L).
Proof.
  revert L fuel lvl. induction t as [|a k v l IHl r IHr]; intros L fuel lvl Hrep Hnd Hh HL Hfuel.
  all: destruct fuel as [|fuel]; [lia|]; cbn [db_print_recurs root].
  { done. }
  destruct Hrep as (Ha & Hn & Hl & Hr). cbn [addrs] in Hnd, Hh, HL.
  apply NoDup_cons in Hnd as [Hna (Hndl & _ & Hndr)%NoDup_app]. rewrite elem_of_app in Hna.
  assert (L !! a = None) as HLa by (apply HL; set_solver). simpl in Hfuel.
  rewrite (proj2 (Z.eqb_neq _ _) Ha). run (rdlock_Ok N L a _ Hn HLa).
  set (L1 := <[a := RD 1]> L).
  assert (∀ b, b ≠ a → L !! b = None → L1 !! b = None) as HL1
    by (intros; unfold L1; by rewrite lookup_insert_ne).
  run (node_at_Ok N L1 a _ Hn). cbn [lchild rchild key value].
  rewrite (proj2 (Z.eqb_neq a head)) by set_solver.
  rewrite (ST_bind_Ok _ _ _ (show_tree (S lvl) l) (DB N L1)); cycle 1.
  { apply IHl; try done; [set_solver| |lia]. intros b Hb. apply HL1; [set_solver|apply HL; set_solver]. }
  run (node_at_Ok N L1 a _ Hn). cbn [rchild].
  rewrite (ST_bind_Ok _ _ _ (show_tree (S lvl) r) (DB N L1)); cycle 1.
  { apply IHr; try done; [set_solver| |lia]. intros b Hb. apply HL1; [set_solver|apply HL; set_solver]. }
  run (unlock_Ok N L1 a _ (RD 1) Hn (lookup_insert_eq _ _ _) ltac:(by right)).
  unfold L1. rewrite delete_insert_id by done. done.
Qed.

Lemma db_print_Ok fopen_w s t :
  db_ok s t → db_print fopen_w None s = Ok ((0, Some (Stdout, show_db t)), s).
Proof.
  intros H. destruct s as [N L]. pose proof (ok_locks _ _ H) as HL. simpl in HL. subst L.
  pose proof (ok_head _ _ H) as Hh. simpl in Hh. pose proof (ok_nodup _ _ H) as [Hht Hnd]%NoDup_cons.
  unfold db_print. rewrite ST_get. cbv zeta.
  rewrite (ST_bind_Ok _ _ _ (show_db t) (DB N ∅)); [done|]. cbn [db_print_recurs].
  change (head =? NULL) with false. change (head =? head) with true. cbv iota.
  run (rdlock_Ok N ∅ head _ Hh (lookup_empty _)). run (node_at_Ok N (<[head := RD 1]> ∅) head _ Hh).
  cbn [lchild rchild].
  rewrite (ST_bind_Ok _ _ _ (show_tree 1 Leaf) (DB N (<[head := RD 1]> ∅))); [|done].
  run (node_at_Ok N (<[head := RD 1]> ∅) head _ Hh). cbn [rchild].
  rewrite (ST_bind_Ok _ _ _ (show_tree 1 t) (DB N (<[head := RD 1]> ∅))); cycle 1.
  { apply print_recurs_Ok; try done; [apply H| |apply (depth_fuel_enough _ _ ∅ H)].
    intros a Ha. rewrite lookup_insert_ne; [done|]. by intros <-. }
  run (unlock_Ok N (<[head := RD 1]> ∅) head _ (RD 1) Hh (lookup_insert_eq _ _ _) ltac:(by right)).
  by rewrite delete_insert_id.
Qed.

(** ** Commands *)

(** ["%255s"]: white space is skipped, then up to 255 other bytes are read; the
    rest of the input is returned. *)
Fixpoint scan_chars (n : nat) (l : bytes) : bytes * bytes :=
  match n, l with
  | O, _ => ([], l)
  | _, [] => ([], [])
  | S n', c :: l' =>
      if isspace c then ([], l) else let '(w, rest) := scan_chars n' l' in (c :: w, rest)
  end.

Definition sscanf_255s (l : bytes) : option (bytes * bytes) :=
  match scan_chars 255 (skip_spaces l) with
  | ([], _) => None
  | r => Some r
  end.

Definition ill_formed : bytes := text "ill-formed command".

Section Commands.
Context (env : heap_env) (fopen_r : bytes → option bytes) (len : nat).

(** The loop over the lines of a file. *)
Fixpoint run_lines (interp : bytes → db bytes) (fuel : nat) (input : bytes) : db unit :=
  match fuel with
  | O => fail NoFuel
  | S fuel' =>
      match input with
      | [] => mret tt
      | _ =>
          let '(ibuf, rest) := fgets_chars 255 input in
          interp ibuf;;
          run_lines interp fuel' rest
      end
  end.

(** [interpret_command]: the contents of [response], a buffer of [len] bytes;
    [fuel] bounds the nesting of ['f'] commands. *)
Fixpoint interpret_command (fuel : nat) (command : bytes) : db bytes :=
  match fuel with
  | O => fail NoFuel
  | S fuel' =>
      let respond (m : bytes) : db bytes := mret (snprintf_s len m) in
      match command with
      | [] | [_] => respond ill_formed
      | c :: rest =>
          if ord c =? 113 then (* 'q' *)
            match sscanf_255s rest with
            | None => respond ill_formed
            | Some (name, _) =>
                response ← db_query name len;
                if (length response =? 0)%nat then respond not_found else mret response
            end
          else if ord c =? 97 then (* 'a' *)
            match sscanf_255s rest with
            | None => respond ill_formed
            | Some (name, rest') =>
                match sscanf_255s rest' with
                | None => respond ill_formed
                | Some (value, _) =>
                    r ← db_add env name value;
                    if negb (r =? 0) then respond (text "added")
                    else respond (text "already in database")
                end
            end
          else if ord c =? 100 then (* 'd' *)
            match sscanf_255s rest with
            | None => respond ill_formed
            | Some (name, _) =>
                r ← db_remove env name;
                if negb (r =? 0) then respond (text "removed")
                else respond (text "not in database")
            end
          else if ord c =? 102 then (* 'f' *)
            match sscanf_255s rest with
            | None => respond ill_formed
            | Some (name, _) =>
                match fopen_r name with
                | None => respond (text "bad file name")
                | Some input =>
                    run_lines (interpret_command fuel') (S (length input)) input;;
                    respond (text "file processed")
                end
            end
          else respond ill_formed
      end
  end.
End Commands.

(** ** The commands act on a finite map *)

Abbreviation table := (gmap bytes bytes).

Section Spec.
Context (fopen_r : bytes → option bytes) (len : nat).

(** What a line of input means for a table. *)
Inductive meaning :=
  | MIll
  | MQuery (k : bytes)
  | MAdd (k v : bytes)
  | MDelete (k : bytes)
  | MFile (input : bytes)
  | MNoFile.

Definition parse (command : bytes) : meaning :=
  match command with
  | [] | [_] => MIll
  | c :: rest =>
      if ord c =? 113 then
        match sscanf_255s rest with Some (k, _) => MQuery k | None => MIll end
      else if ord c =? 97 then
        match sscanf_255s rest with
        | Some (k, rest') => match sscanf_255s rest' with Some (v, _) => MAdd k v | None => MIll end
        | None => MIll
        end
      else if ord c =? 100 then
        match sscanf_255s rest with Some (k, _) => MDelete k | None => MIll end
      else if ord c =? 102 then
        match sscanf_255s rest with
        | Some (f, _) => match fopen_r f with Some input => MFile input | None => MNoFile end
        | None => MIll
        end
      else MIll
  end.

Fixpoint spec_lines (spec : bytes → table → option (bytes * table)) (fuel : nat) (input : bytes)
    (m : table) : option table :=
  match fuel with
  | O => None
  | S fuel' =>
      match input with
      | [] => Some m
      | _ =>
          let '(ibuf, rest) := fgets_chars 255 input in
          match spec ibuf m with Some (_, m') => spec_lines spec fuel' rest m' | None => None end
      end
  end.

(** The response and the table after a command; [None] when files include each
    other more than [fuel] deep. *)
Fixpoint spec_command (fuel : nat) (command : bytes) (m : table) : option (bytes * table) :=
  match fuel with
  | O => None
  | S fuel' =>
      match parse command with
      | MIll => Some (snprintf_s len ill_formed, m)
      | MQuery k => Some (snprintf_s len (default not_found (m !! k)), m)
      | MAdd k v =>
          match m !! k with
          | Some _ => Some (snprintf_s len (text "already in database"), m)
          | None => Some (snprintf_s len (text "added"), <[k := v]> m)
          end
      | MDelete k =>
          match m !! k with
          | Some _ => Some (snprintf_s len (text "removed"), delete k m)
          | None => Some (snprintf_s len (text "not in database"), m)
          end
      | MFile input =>
          match spec_lines (spec_command fuel') (S (length input)) input m with
          | Some m' => Some (snprintf_s len (text "file processed"), m')
          | None => None
          end
      | MNoFile => Some (snprintf_s len (text "bad file name"), m)
      end
  end.
End Spec.

(** The database represents a table. *)
Definition db_rep (s : db_state) (m : table) : Prop :=
  ∃ t, db_ok s t ∧ to_map t = m ∧ ∀ k v, m !! k = Some v → v ≠ [].

(** Memory never runs out, and new nodes have fresh addresses. *)
Definition env_ok (env : heap_env) : Prop :=
  (∀ N, ∃ a, malloc_node env N = Some a ∧ a ≠ NULL ∧ N !! a = None) ∧
  (∀ n, malloc_str env n = true).

Lemma scan_chars_length n l : (length (scan_chars n l).1 ≤ n)%nat.
Proof.
  revert l. induction n as [|n IH]; intros [|c l]; simpl; try lia.
  destruct (isspace c); simpl; [lia|]. specialize (IH l). destruct (scan_chars n l). simpl in *. lia.
Qed.

Lemma sscanf_short l w rest : sscanf_255s l = Some (w, rest) → (length w ≤ 255)%nat ∧ w ≠ [].
Proof.
  unfold sscanf_255s. pose proof (scan_chars_length 255 (skip_spaces l)) as Hlen.
  destruct (scan_chars 255 (skip_spaces l)) as [[|c w'] r]; [done|]. intros [= <- <-].
  split; [done|done].
Qed.

Lemma snprintf_s_nil len v : (1 < len)%nat → v ≠ [] → snprintf_s len v ≠ [].
Proof. intros Hl Hv. unfold snprintf_s. destruct v, len as [|[|len]]; simpl; lia || done. Qed.

Section Refine.
Context (env : heap_env) (fopen_r : bytes → option bytes) (len : nat).
Context (Henv : env_ok env) (Hlen : (1 < len)%nat).

Lemma db_rep_add s m k v :
  db_rep s m → (length k ≤ 255)%nat → (length v ≤ 255)%nat → v ≠ [] →
  ∃ s', db_add env k v s = Ok (if decide (is_Some (m !! k)) then 0 else 1, s') ∧
    db_rep s' (match m !! k with Some _ => m | None => <[k := v]> m end).
Proof.
  intros (t & Hok & <- & Hne) Hk Hv Hvn. destruct (to_map t !! k) as [v0|] eqn:Hlk.
  - exists s. rewrite decide_True by eauto. split; [by eapply db_add_present|]. by exists t.
  - destruct Henv as [Hm Hs]. destruct (Hm (nodes s)) as (a & Ha1 & Ha2 & Ha3).
    destruct (db_add_absent env s t k v a Hok Hlk ltac:(by split_and!) Hk Hv) as (s' & Hrun & Hok').
    exists s'. rewrite decide_False by (by intros [? ?]). split; [done|].
    exists (tree_add k v a t). split_and!; [done|apply to_map_add; [apply Hok|done]|].
    intros k0 v0 [[-> <-]|[_ Hl0]]%lookup_insert_Some; [done|by eapply Hne].
Qed.

Lemma db_rep_remove s m k :
  db_rep s m →
  ∃ s', db_remove env k s = Ok (if decide (is_Some (m !! k)) then 1 else 0, s') ∧
    db_rep s' (match m !! k with Some _ => delete k m | None => m end).
Proof.
  intros (t & Hok & <- & Hne). destruct (to_map t !! k) as [v0|] eqn:Hlk.
  - destruct (db_remove_present env s t k v0 Hok Hlk (proj2 Henv)) as (s' & Hrun & Hok').
    exists s'. rewrite decide_True by eauto. split; [done|].
    exists (tree_remove k t). split_and!; [done|eapply to_map_remove; [apply Hok|done]|].
    intros k0 v1 [_ Hl0]%lookup_delete_Some. by eapply Hne.
  - exists s. rewrite decide_False by (by intros [? ?]).
    split; [by eapply db_remove_absent|]. by exists t.
Qed.

Lemma db_rep_query s m k :
  db_rep s m →
  ∃ r, db_query k len s = Ok (r, s) ∧ (length r =? 0)%nat = false ∧
    r = snprintf_s len (default not_found (m !! k)).
Proof.
  intros (t & Hok & <- & Hne). eexists. split_and!; [by eapply db_query_Ok| |done].
  apply Nat.eqb_neq. intros Hnil%nil_length_inv. revert Hnil. apply snprintf_s_nil; [done|].
  destruct (to_map t !! k) as [v|] eqn:Hv; [by eapply Hne|done].
Qed.

(** A file is processed line by line. *)
Lemma run_lines_Ok (interp : bytes → db bytes) spec fuel input m m' s :
  (∀ c r m m' s, spec c m = Some (r, m') → db_rep s m →
     ∃ s', interp c s = Ok (r, s') ∧ db_rep s' m') →
  spec_lines spec fuel input m = Some m' → db_rep s m →
  ∃ s', run_lines interp fuel input s = Ok (tt, s') ∧ db_rep s' m'.
Proof.
  intros Hspec. revert input m s. induction fuel as [|fuel IH]; intros input m s; simpl; [done|].
  destruct input as [|c input]; [intros [= <-] Hrep; by exists s|].
  destruct (if ord c =? 10 then _ else _) as [ibuf rest].
  destruct (spec ibuf m) as [[r m1]|] eqn:Hs; [|done]. intros Hl Hrep.
  destruct (Hspec _ _ _ _ s Hs Hrep) as (s1 & Hrun & Hrep1). run Hrun. by eapply IH.
Qed.

Lemma interpret_command_Ok fuel c r m m' s :
  spec_command fopen_r len fuel c m = Some (r, m') → db_rep s m →
  ∃ s', interpret_command env fopen_r len fuel c s = Ok (r, s') ∧ db_rep s' m'.
Proof.
  revert c r m m' s. induction fuel as [|fuel IH]; intros c r m m' s; [done|].
  cbn [spec_command interpret_command]. intros Hspec Hrep. unfold parse in Hspec.
  destruct c as [|c [|c' rest]]; [simplify_eq/=; by exists s..|].
  repeat match type of Hspec with
    | context [ord c =? ?n] => destruct (ord c =? n)
    end.
  - destruct (sscanf_255s _) as [[k rest']|] eqn:Hk; [|simplify_eq/=; by exists s].
    destruct (db_rep_query s m k Hrep) as (resp & Hrun & Hne & ->). run Hrun. rewrite Hne.
    simplify_eq/=. by exists s.
  - destruct (sscanf_255s (c' :: rest)) as [[k rest']|] eqn:Hk; [|simplify_eq/=; by exists s].
    destruct (sscanf_255s rest') as [[v rest'']|] eqn:Hv; [|simplify_eq/=; by exists s].
    apply sscanf_short in Hk as [Hk _], Hv as [Hv Hvn].
    destruct (db_rep_add s m k v Hrep Hk Hv Hvn) as (s' & Hrun & Hrep'). run Hrun.
    destruct (m !! k); [rewrite decide_True by eauto|rewrite decide_False by (by intros [? ?])];
      simplify_eq/=; by exists s'.
  - destruct (sscanf_255s _) as [[k rest']|] eqn:Hk; [|simplify_eq/=; by exists s].
    destruct (db_rep_remove s m k Hrep) as (s' & Hrun & Hrep'). run Hrun.
    destruct (m !! k); [rewrite decide_True by eauto|rewrite decide_False by (by intros [? ?])];
      simplify_eq/=; by exists s'.
  - destruct (sscanf_255s _) as [[f rest']|] eqn:Hk; [|simplify_eq/=; by exists s].
    destruct (fopen_r f) as [input|]; [|simplify_eq/=; by exists s].
    destruct (spec_lines _ _ input m) as [m1|] eqn:Hl; [|done]. injection Hspec as <- <-.
    destruct (run_lines_Ok (interpret_command env fopen_r len fuel) _ _ _ _ _ s IH Hl Hrep)
      as (s' & Hrun & Hrep'). run Hrun. by exists s'.
  - simplify_eq/=. by exists s.
Qed.
End Refine.

(** Commands one after the other. *)
Fixpoint run_commands (env : heap_env) (fopen_r : bytes → option bytes) (len fuel : nat) (cs : list bytes) : db (list bytes) :=
  match cs with
  | [] => mret []
  | c :: cs' =>
      r ← interpret_command env fopen_r len fuel c;
      rs ← run_commands env fopen_r len fuel cs';
      mret (r :: rs)
  end.

Fixpoint spec_commands (fopen_r : bytes → option bytes) (len fuel : nat) (cs : list bytes) (m : table)
    : option (list bytes * table) :=
  match cs with
  | [] => Some ([], m)
  | c :: cs' =>
      match spec_command fopen_r len fuel c m with
      | Some (r, m') =>
          match spec_commands fopen_r len fuel cs' m' with
          | Some (rs, m'') => Some (r :: rs, m'')
          | None => None
          end
      | None => None
      end
  end.

Lemma run_commands_Ok env fopen_r len fuel cs rs m m' s :
  env_ok env → (1 < len)%nat → spec_commands fopen_r len fuel cs m = Some (rs, m') → db_rep s m →
  ∃ s', run_commands env fopen_r len fuel cs s = Ok (rs, s') ∧ db_rep s' m'.
Proof.
  intros Henv Hlen. revert rs m s. induction cs as [|c cs IH]; intros rs m s; simpl.
  { intros [= <- <-] Hrep. by exists s. }
  destruct (spec_command fopen_r len fuel c m) as [[r m1]|] eqn:Hc; [|done].
  destruct (spec_commands fopen_r len fuel cs m1) as [[rs' m2]|] eqn:Hcs; [|done].
  intros [= <- <-] Hrep.
  destruct (interpret_command_Ok env fopen_r len Henv Hlen _ _ _ _ _ s Hc Hrep) as (s1 & Hrun1 & Hrep1).
  destruct (IH _ _ _ Hcs Hrep1) as (s2 & Hrun2 & Hrep2). exists s2. split; [|done].
  run Hrun1. by run Hrun2.
Qed.

Lemma db_start_rep : db_rep db_start ∅.
Proof. exists Leaf. split_and!; [apply db_start_ok|done|]. intros k v. by rewrite lookup_empty. Qed.
