(* ===== verification/DbClaims.v ===== *)
(** * Properties of the database. *)

From Stdlib Require Import ZArith Lia Ascii String.
From stdpp Require Import base gmap strings numbers option list.
From S2P Require Import Prelude Db DbTree DbProofs DbRemove DbCmd.

Open Scope Z_scope.
Open Scope list_scope.

(** A memory allocator that always has room: the next address above all nodes. *)
Definition roomy : heap_env :=
  HeapEnv (λ N, Some (foldr Z.max head (map_to_list N).*1 + 8)) (λ _, true).

Lemma foldr_max_ge (l : list Z) d x : x ∈ l → x ≤ foldr Z.max d l.
Proof. induction l as [|y l IH]; simpl; [set_solver|]. intros [->|Hx%IH]%elem_of_cons; lia. Qed.

Lemma foldr_max_base (l : list Z) d : d ≤ foldr Z.max d l.
Proof. induction l; simpl; lia. Qed.

Lemma roomy_ok : env_ok roomy.
Proof.
  split; [|done]. intros N. eexists. split; [done|].
  pose proof (foldr_max_base (map_to_list N).*1 head) as Hb.
  split; [unfold NULL, head in *; lia|]. apply eq_None_not_Some. intros [n Hn].
  assert (foldr Z.max head (map_to_list N).*1 + 8 ∈ (map_to_list N).*1) as Hin.
  { apply list_elem_of_fmap. eexists (_, n). split; [done|]. by apply elem_of_map_to_list. }
  apply (foldr_max_ge _ head) in Hin. lia.
Qed.

(** C2: started empty, the database answers any sequence of command lines as a
    finite map from names to values does: the responses of [interpret_command],
    files of commands included, are those of the map, no lock stays held and
    no access is bad. *)
Theorem db_commands_correct (env : heap_env) (fopen_r : bytes → option bytes) (len fuel : nat)
    (cs rs : list bytes) (m : table) :
  env_ok env → (1 < len)%nat → spec_commands fopen_r len fuel cs ∅ = Some (rs, m) →
  ∃ s, run_commands env fopen_r len fuel cs db_start = Ok (rs, s) ∧ db_rep s m.
Proof. intros Henv Hlen Hs. eapply run_commands_Ok; [done..|apply db_start_rep]. Qed.

Lemma db_commands_correct_witness :
  ∃ s, run_commands roomy (λ _, None) 256 1
         [text "a cat meow"; text "a dog woof"; text "q cat"; text "d cat"; text "q cat"] db_start
       = Ok ([text "added"; text "added"; text "meow"; text "removed"; text "not found"], s) ∧
       db_rep s (delete (text "cat") (<[text "dog" := text "woof"]> (<[text "cat" := text "meow"]> ∅))).
Proof. apply (db_commands_correct roomy (λ _, None)); [apply roomy_ok|lia|vm_compute; reflexivity]. Defined.

(** C18: [db_remove] of a key that is present returns 1, frees exactly one node,
    leaves a search tree of the other entries, and releases every lock it
    took. *)
Theorem db_remove_correct (env : heap_env) (s : db_state) (t : tree) (k v : bytes) :
  db_ok s t → to_map t !! k = Some v → (∀ n, malloc_str env n = true) →
  ∃ s' t', db_remove env k s = Ok (1, s') ∧ db_ok s' t' ∧ to_map t' = delete k (to_map t) ∧
    size (nodes s') = pred (size (nodes s)).
Proof.
  intros H Hv Hm. destruct (db_remove_present env s t k v H Hv Hm) as (s' & Hrun & Hok).
  exists s', (tree_remove k t). split_and!; [done|done|by eapply to_map_remove; [apply H|]|].
  destruct (tree_remove_spec k v t (ok_bst _ _ H) Hv) as (_ & _ & Hp).
  rewrite <-!size_dom, (ok_dom _ _ H), (ok_dom _ _ Hok).
  rewrite !size_list_to_set by (apply Hok || apply H). simpl.
  by rewrite (Permutation_length Hp).
Qed.

(** A database with three nodes, the first with two children. *)
Definition three : db_state :=
  match run_commands roomy (λ _, None) 256 1 [text "a m 1"; text "a c 2"; text "a x 3"] db_start with
  | Ok (_, s) => s
  | Err _ => db_start
  end.

Definition three_tree : tree :=
  T 16 (text "m") (text "1") (T 24 (text "c") (text "2") Leaf Leaf) (T 32 (text "x") (text "3") Leaf Leaf).

Lemma three_ok : db_ok three three_tree.
Proof.
  split; try (vm_compute; reflexivity).
  - repeat split; vm_compute; discriminate || reflexivity.
  - vm_compute. repeat constructor; set_solver.
  - repeat split; try (vm_compute; reflexivity); intros k; vm_compute; set_solver.
  - vm_compute. lia.
Qed.

Lemma db_remove_correct_witness :
  ∃ s' t', db_remove roomy (text "m") three = Ok (1, s') ∧ db_ok s' t' ∧
    to_map t' = delete (text "m") (to_map three_tree) ∧ size (nodes s') = pred (size (nodes three)).
Proof.
  apply (db_remove_correct roomy three three_tree (text "m") (text "1"));
    [exact three_ok|vm_compute; reflexivity|done].
Defined.

(** C19: [db_add] on every branch.  When the key is there it returns 0 and changes
    nothing.  When it is new and memory is available, it returns 1 and adds the
    entry; strings of up to 255 bytes are stored whole, and every lock is
    released.  When [node_constructor] fails (a string of more than 256 bytes,
    or no memory), it changes nothing and nevertheless returns 1, the result
    that [interpret_command] reports as "added". *)
Theorem db_add_correct (env : heap_env) (s : db_state) (t : tree) (k v : bytes) :
  db_ok s t →
  match to_map t !! k with
  | Some _ => db_add env k v s = Ok (0, s)
  | None =>
      (∀ a, good_malloc env s a → (length k ≤ 255)%nat → (length v ≤ 255)%nat →
       ∃ s' t', db_add env k v s = Ok (1, s') ∧ db_ok s' t' ∧ to_map t' = <[k := v]> (to_map t)) ∧
      (no_node env s k v → db_add env k v s = Ok (1, s))
  end.
Proof.
  intros H. destruct (to_map t !! k) as [v0|] eqn:Hlk; [by eapply db_add_present|].
  split; [|by apply (db_add_no_node env s t)]. intros a Hm Hk Hv.
  destruct (db_add_absent env s t k v a H Hlk Hm Hk Hv) as (s' & Hrun & Hok).
  exists s', (tree_add k v a t). split_and!; [done..|]. apply to_map_add; [apply H|done].
Qed.

Lemma db_add_correct_witness :
  (∃ s' t', db_add roomy (text "q") (text "9") three = Ok (1, s') ∧ db_ok s' t' ∧
    to_map t' = <[text "q" := text "9"]> (to_map three_tree)) ∧
  db_add (HeapEnv (λ _, None) (λ _, true)) (text "q") (text "9") three = Ok (1, three).
Proof.
  split.
  - apply (proj1 (db_add_correct roomy three three_tree (text "q") (text "9") three_ok) 40);
      [repeat split; vm_compute; reflexivity || discriminate|vm_compute; lia|vm_compute; lia].
  - apply (proj2 (db_add_correct (HeapEnv (λ _, None) (λ _, true)) three three_tree (text "q") (text "9") three_ok)).
    right. right. left. reflexivity.
Defined.

(** [db_query] returns the stored value, cut to the buffer, or the text
    "not found", and leaves nodes and locks as they were. *)
Theorem db_query_correct (s : db_state) (t : tree) (k : bytes) (len : nat) :
  db_ok s t →
  db_query k len s = Ok (snprintf_s len (default not_found (to_map t !! k)), s).
Proof. apply db_query_Ok. Qed.

Lemma db_query_correct_witness :
  db_query (text "x") 256 three =
    Ok (snprintf_s 256 (default not_found (to_map three_tree !! text "x")), three).
Proof. apply (db_query_correct three three_tree (text "x") 256). exact three_ok. Defined.

(** [db_print] writes the pre-order picture of the tree and leaves nodes and
    locks as they were; [db_cleanup] frees every node but the static root,
    each exactly once. *)
Theorem db_print_cleanup_correct (fopen_w : bytes → bool) (s : db_state) (t : tree) :
  db_ok s t →
  db_print fopen_w None s = Ok ((0, Some (Stdout, show_db t)), s) ∧
  ∃ s', db_cleanup s = Ok (tt, s') ∧ dom (nodes s') = {[head]} ∧ locks s' = ∅.
Proof.
  intros H. split; [by apply db_print_Ok|].
  destruct (db_cleanup_Ok s t H) as (s' & Hrun & Hdom & Hl & _). by exists s'.
Qed.

Lemma db_print_cleanup_correct_witness :
  db_print (λ _, true) None three = Ok ((0, Some (Stdout, show_db three_tree)), three) ∧
  ∃ s', db_cleanup three = Ok (tt, s') ∧ dom (nodes s') = {[head]} ∧ locks s' = ∅.
Proof. apply (db_print_cleanup_correct (λ _, true) three three_tree). exact three_ok. Defined.
