(* ===== verification/DbThreads.v ===== *)
(** * The database used by several threads: [7-database-haininz/db.c] again.

    [Db] models the operations of [db.c] as one thread runs them.  Here the same
    operations are cut at their lock operations and at their accesses to nodes,
    each the operation of [Db] of that name, and any thread may take the next
    step.  A thread that finds a lock taken does not move. *)

From Stdlib Require Import ZArith Lia Ascii String.
From stdpp Require Import base gmap strings numbers option fin_maps relations list.
From S2P Require Import Prelude Db DbTree DbProofs.

Open Scope Z_scope.
Open Scope list_scope.

(** What a thread may call, and what it gets. *)
Inductive call :=
  | Query (k : bytes) (len : nat)
  | Add (k v : bytes)
  | Remove (k : bytes).

Inductive reply := Text (b : bytes) | Code (z : Z).

Definition call_key (c : call) : bytes :=
  match c with Query k _ | Add k _ | Remove k => k end.

(** The argument [write] of [search]. *)
Definition call_write (c : call) : bool :=
  match c with Query _ _ => false | Add _ _ | Remove _ => true end.

(** The commands pass strings of at most 255 bytes. *)
Definition fits (c : call) : Prop :=
  match c with Add k v => (length k ≤ 255 ∧ length v ≤ 255)%nat | _ => True end.

(** Where a thread is: in [search], from [Start] to [Miss] and [Hit], or in the
    rest of its operation. *)
Inductive at_db :=
  | Start (c : call)
  | Look (c : call) (parent : Z)
  | LockNext (c : call) (parent next : Z)
  | Compare (c : call) (parent next : Z)
  | Descend (c : call) (parent next : Z)
  | Miss (c : call) (parent : Z)
  | Hit (c : call) (parent target : Z)
  | ReadValue (k : bytes) (len : nat) (target : Z)
  | UnlockQuery (b : bytes) (target : Z)
  | UnlockAdd (target : Z)
  | Link (k v : bytes) (parent newnode : Z)
  | UnlockParent (parent : Z)
  | Splice (k : bytes) (parent dnode child : Z)
  | Walk (k : bytes) (parent dnode pnext next : Z)
  | Relink (k : bytes) (parent dnode pnext next : Z)
  | Copy (parent dnode next : Z)
  | UnlockPair (parent dnode victim : Z)
  | UnlockDnode (dnode victim : Z)
  | Destroy (victim : Z)
  | Done (r : reply).

Section Threads.
Context (env : heap_env).

(** [search] *)
Definition search_step (c : call) (p : at_db) : db at_db :=
  match p with
  | Look _ parent =>
      n ← node_at parent;
      let next := if strcmp (call_key c) (key n) <? 0 then lchild n else rchild n in
      mret (if next =? NULL then Miss c parent else LockNext c parent next)
  | LockNext _ parent next =>
      (if call_write c then pthread_rwlock_wrlock next else pthread_rwlock_rdlock next);;
      mret (Compare c parent next)
  | Compare _ parent next =>
      n ← node_at next;
      mret (if strcmp (call_key c) (key n) =? 0 then Hit c parent next else Descend c parent next)
  | Descend _ parent next => pthread_rwlock_unlock parent;; mret (Look c next)
  | _ => fail Blocked
  end.

(** [search] has returned NULL. *)
Definition miss_step (c : call) (parent : Z) : db at_db :=
  match c with
  | Query _ len => pthread_rwlock_unlock parent;; mret (Done (Text (snprintf_s len not_found)))
  | Add k v => newnode ← node_constructor env k v NULL NULL; mret (Link k v parent newnode)
  | Remove _ => pthread_rwlock_unlock parent;; mret (Done (Code 0))
  end.

(** [search] has found the key. *)
Definition hit_step (c : call) (parent target : Z) : db at_db :=
  match c with
  | Query k len => pthread_rwlock_unlock parent;; mret (ReadValue k len target)
  | Add _ _ => pthread_rwlock_unlock parent;; mret (UnlockAdd target)
  | Remove k =>
      d ← node_at target;
      mret (if rchild d =? NULL then Splice k parent target (lchild d)
            else if lchild d =? NULL then Splice k parent target (rchild d)
            else Walk k parent target target (rchild d))
  end.

(** The two-children case of [db_remove]. *)
Definition inner_step (p : at_db) : db at_db :=
  match p with
  | Walk k parent dnode pnext next =>
      n ← node_at next;
      mret (if lchild n =? NULL then Relink k parent dnode pnext next
            else Walk k parent dnode next (lchild n))
  | Relink k parent dnode pnext next =>
      n ← node_at next;
      set_pnext dnode pnext (rchild n);;
      mret (Copy parent dnode next)
  | Copy parent dnode next =>
      n ← node_at next;
      (if malloc_str env (length (key n) + 1) then mret tt else fail BadAccess);;
      (if malloc_str env (length (value n) + 1) then mret tt else fail BadAccess);;
      d ← node_at dnode;
      put_node dnode (Node (snprintf_s MAXLEN (key n)) (snprintf_s MAXLEN (value n)) (lchild d) (rchild d));;
      mret (UnlockPair parent dnode next)
  | _ => fail Blocked
  end.

(** A step of a thread. *)
Definition at_step (p : at_db) : db at_db :=
  match p with
  | Start c => pthread_rwlock_wrlock head;; mret (Look c head)
  | Look c _ | LockNext c _ _ | Compare c _ _ | Descend c _ _ => search_step c p
  | Miss c parent => miss_step c parent
  | Hit c parent target => hit_step c parent target
  | ReadValue _ len target => n ← node_at target; mret (UnlockQuery (snprintf_s len (value n)) target)
  | UnlockQuery b target => pthread_rwlock_unlock target;; mret (Done (Text b))
  | UnlockAdd target => pthread_rwlock_unlock target;; mret (Done (Code 0))
  | Link k _ parent newnode => set_child k parent newnode;; mret (UnlockParent parent)
  | UnlockParent parent => pthread_rwlock_unlock parent;; mret (Done (Code 1))
  | Splice _ parent dnode child =>
      d ← node_at dnode;
      set_child (key d) parent child;;
      mret (UnlockPair parent dnode dnode)
  | Walk _ _ _ _ _ | Relink _ _ _ _ _ | Copy _ _ _ => inner_step p
  | UnlockPair parent dnode victim => pthread_rwlock_unlock parent;; mret (UnlockDnode dnode victim)
  | UnlockDnode dnode victim => pthread_rwlock_unlock dnode;; mret (Destroy victim)
  | Destroy victim => node_destructor victim;; mret (Done (Code 1))
  | Done _ => fail Blocked
  end.

(** ** A thread on its own *)

Fixpoint drive (n : nat) (p : at_db) : db at_db :=
  match n with
  | O => mret p
  | S n' => match p with Done _ => mret p | _ => p' ← at_step p; drive n' p' end
  end.

(** The operations of [Db]. *)
Definition run_call (c : call) : db reply :=
  match c with
  | Query k len => b ← db_query k len; mret (Text b)
  | Add k v => z ← db_add env k v; mret (Code z)
  | Remove k => z ← db_remove env k; mret (Code z)
  end.

(** ** Many threads *)

Record shared := Shared { mem : db_state; callers : gmap Z at_db }.

Definition run_thread (i : Z) (s : shared) : result shared :=
  match callers s !! i with
  | None => Err Blocked
  | Some p =>
      match at_step p (mem s) with
      | Ok (p', d) => Ok (Shared d (<[i := p']> (callers s)))
      | Err f => Err f
      end
  end.

Definition idle (i : Z) (s : shared) : Prop :=
  match callers s !! i with None | Some (Done _) => True | _ => False end.

(** A thread calls an operation, or goes on with the one it is in. *)
Inductive move : shared → shared → Prop :=
  | move_call i c s : idle i s → fits c → move s (Shared (mem s) (<[i := Start c]> (callers s)))
  | move_step i s s' : run_thread i s = Ok s' → move s s'.

Definition start_shared : shared := Shared db_start ∅.

(** The walk to the successor and what follows, without the locks of the nodes
    on the way. *)
Definition inner (p : at_db) : bool :=
  match p with Walk _ _ _ _ _ | Relink _ _ _ _ _ | Copy _ _ _ => true | _ => false end.

(** A move after which no thread is there. *)
Definition outer_move (s s' : shared) : Prop :=
  move s s' ∧ ∀ i p, callers s' !! i = Some p → inner p = false.

(** ** What the threads should see: operations on a table, one at a time *)

Definition table_call (c : call) (m : gmap bytes bytes) : reply * gmap bytes bytes :=
  match c with
  | Query k len => (Text (snprintf_s len (default not_found (m !! k))), m)
  | Add k v => match m !! k with Some _ => (Code 0, m) | None => (Code 1, <[k := v]> m) end
  | Remove k => match m !! k with Some _ => (Code 1, delete k m) | None => (Code 0, m) end
  end.

(** A call that has not taken effect, or that has and will return the reply. *)
Inductive phase := Called (c : call) | Decided (r : reply).

Record atomic := Atomic { entries_of : gmap bytes bytes; phases : gmap Z phase }.

Inductive atomic_move : atomic → atomic → Prop :=
  | atomic_call i c a :
      match phases a !! i with None | Some (Decided _) => True | _ => False end →
      atomic_move a (Atomic (entries_of a) (<[i := Called c]> (phases a)))
  | atomic_effect i c a :
      phases a !! i = Some (Called c) →
      atomic_move a (Atomic (table_call c (entries_of a)).2
                       (<[i := Decided (table_call c (entries_of a)).1]> (phases a))).

(** The phase of a thread. *)
Definition phase_of (p : at_db) : phase :=
  match p with
  | Start c | Look c _ | LockNext c _ _ | Compare c _ _ | Descend c _ _ | Miss c _ | Hit c _ _ => Called c
  | ReadValue k len _ => Called (Query k len)
  | Link k v _ _ => Called (Add k v)
  | Splice k _ _ _ | Walk k _ _ _ _ | Relink k _ _ _ _ => Called (Remove k)
  | UnlockQuery b _ => Decided (Text b)
  | UnlockAdd _ => Decided (Code 0)
  | UnlockParent _ | Copy _ _ _ | UnlockPair _ _ _ | UnlockDnode _ _ | Destroy _ => Decided (Code 1)
  | Done r => Decided r
  end.
End Threads.
