(* ===== verification/DbThreadsAlone.v ===== *)
(** * A thread of [DbThreads] on its own does what [Db] says. *)

From Stdlib Require Import ZArith Lia Ascii String.
From stdpp Require Import base gmap strings numbers option fin_maps relations list.
From S2P Require Import Prelude Db DbTree DbProofs DbThreads.

Open Scope Z_scope.
Open Scope list_scope.

Section Alone.
Context (env : heap_env).

(** A number of steps leads from a place to an outcome. *)
Definition runs (p : at_db) (d : db_state) (x : result (at_db * db_state)) : Prop :=
  ∃ n, drive env n p d = x.

Definition is_done (p : at_db) : bool := match p with Done _ => true | _ => false end.

Lemma runs_stay p d : runs p d (Ok (p, d)).
Proof. by exists 0%nat. Qed.

Lemma drive_S n p d :
  is_done p = false →
  drive env (S n) p d = match at_step env p d with Ok (p', d') => drive env n p' d' | Err f => Err f end.
Proof. by destruct p. Qed.

Lemma runs_step p d p' d' x : is_done p = false → at_step env p d = Ok (p', d') → runs p' d' x → runs p d x.
Proof. intros Hp Hs [n Hn]. exists (S n). by rewrite drive_S, Hs. Qed.

Lemma runs_fault p d f : is_done p = false → at_step env p d = Err f → runs p d (Err f).
Proof. intros Hp Hs. exists 1%nat. by rewrite drive_S, Hs. Qed.

(** From [p] the thread does what the computation [m] of [Db] does, and is then at
    the place that [k] gives. *)
Definition follows {A} (p : at_db) (m : db A) (k : A → at_db) : Prop :=
  ∀ d, m d ≠ Err NoFuel →
  match m d with
  | Ok (a, d') => ∀ x, runs (k a) d' x → runs p d x
  | Err f => runs p d (Err f)
  end.

Lemma follows_ret {A} p (a : A) k : k a = p → follows p (mret a) k.
Proof. intros <- d _ x. exact id. Qed.

Lemma follows_bind {A B} p (m : db A) (f : A → db B) (k1 : A → at_db) k :
  follows p m k1 → (∀ a, follows (k1 a) (f a) k) → follows p (m ≫= f) k.
Proof.
  intros Hm Hf d Hd. specialize (Hm d). unfold mbind, ST_bind in *.
  destruct (m d) as [[a d']|e]; [|by apply Hm; intros [= ->]]. specialize (Hf a d' Hd).
  destruct (f a d') as [[b d'']|e]; [intros x Hx|]; apply Hm; auto.
Qed.

(** One step of the thread is one operation. *)
Lemma follows_step {A} p (m : db A) k :
  is_done p = false → (∀ d, at_step env p d = (a ← m; mret (k a)) d) → follows p m k.
Proof.
  intros Hp Hs d _. specialize (Hs d). unfold mbind, ST_bind in Hs.
  destruct (m d) as [[a d']|f]; [|by apply runs_fault]. intros x Hx. by eapply runs_step.
Qed.

Ltac one_step k := apply (follows_bind _ _ _ k); [by apply follows_step|].

(** Where [search] leaves a thread. *)
Definition after_search (c : call) (found : Z * Z) : at_db :=
  match c with
  | Query k len => if found.1 =? NULL then Done (Text (snprintf_s len not_found)) else ReadValue k len found.1
  | _ => if found.1 =? NULL then Miss c found.2 else Hit c found.2 found.1
  end.

Lemma follows_finish c parent next :
  follows (if next =? NULL then Miss c parent else Hit c parent next)
    (if call_write c then mret (next, parent) else pthread_rwlock_unlock parent;; mret (next, NULL)) (after_search c).
Proof.
  destruct c as [k len|k v|k]; cbn [call_write]; [|by apply follows_ret..].
  destruct (next =? NULL) eqn:Hn;
    [one_step (λ _ : unit, Done (Text (snprintf_s len not_found)))|one_step (λ _ : unit, ReadValue k len next)];
    intros []; apply follows_ret; simpl; by rewrite Hn.
Qed.

Lemma follows_search fuel c : ∀ parent,
  follows (Look c parent) (search fuel (call_key c) parent (call_write c) (call_write c)) (after_search c).
Proof.
  induction fuel as [|fuel IH]; intros parent; [by intros d []|]. cbn [search].
  one_step (λ n, let next := if strcmp (call_key c) (key n) <? 0 then lchild n else rchild n in
                 if next =? NULL then Miss c parent else LockNext c parent next).
  intros n. cbv zeta. set (next := if _ <? 0 then lchild n else rchild n). clearbody next.
  pose proof (follows_finish c parent NULL) as Hmiss. pose proof (follows_finish c parent next) as Hhit.
  destruct (next =? NULL) eqn:Hnull; [exact Hmiss|].
  one_step (λ _ : unit, Compare c parent next). intros [].
  one_step (λ n, if strcmp (call_key c) (key n) =? 0 then Hit c parent next else Descend c parent next).
  intros n'. destruct (strcmp (call_key c) (key n') =? 0); [exact Hhit|].
  one_step (λ _ : unit, Look c next). intros []. apply IH.
Qed.

Lemma follows_get {B} p (f : db_state → db B) k : (∀ s, follows p (f s) k) → follows p (get ≫= f) k.
Proof. intros Hf d. apply (Hf d d). Qed.

Lemma follows_ext {A} p (m m' : db A) k : (∀ d, m' d = m d) → follows p m k → follows p m' k.
Proof. intros He Hm d. rewrite He. apply Hm. Qed.

(** The beginning of every operation. *)
Lemma follows_enter {B} c (f : Z * Z → db B) k :
  (∀ x, follows (after_search c x) (f x) k) →
  follows (Start c) (pthread_rwlock_wrlock head;; s ← get;
    x ← search (depth_fuel s) (call_key c) head (call_write c) (call_write c); f x) k.
Proof.
  intros Hf. one_step (λ _ : unit, Look c head). intros []. apply follows_get. intros s.
  apply (follows_bind _ _ _ (after_search c)); [apply follows_search|exact Hf].
Qed.

Lemma follows_query k len : follows (Start (Query k len)) (db_query k len) (λ b, Done (Text b)).
Proof.
  apply (follows_enter (Query k len)). intros [target par]. cbn [after_search fst].
  destruct (target =? NULL); [by apply follows_ret|].
  one_step (λ n, UnlockQuery (snprintf_s len (value n)) target). intros n.
  one_step (λ _ : unit, Done (Text (snprintf_s len (value n)))). intros []. by apply follows_ret.
Qed.

Lemma follows_add k v : follows (Start (Add k v)) (db_add env k v) (λ z, Done (Code z)).
Proof.
  apply (follows_enter (Add k v)). intros [target par]. cbn [after_search fst snd].
  destruct (target =? NULL); cbn [negb].
  - one_step (Link k v par). intros new. one_step (λ _ : unit, UnlockParent par). intros [].
    one_step (λ _ : unit, Done (Code 1)). intros []. by apply follows_ret.
  - one_step (λ _ : unit, UnlockAdd target). intros []. one_step (λ _ : unit, Done (Code 0)). intros [].
    by apply follows_ret.
Qed.

(** The end of [db_remove]. *)
Lemma follows_release parent dnode victim :
  follows (UnlockPair parent dnode victim)
    (pthread_rwlock_unlock parent;; pthread_rwlock_unlock dnode;; node_destructor victim) (λ _, Done (Code 1)).
Proof.
  one_step (λ _ : unit, UnlockDnode dnode victim). intros []. one_step (λ _ : unit, Destroy victim). intros [].
  apply follows_step; [done|]. intros d. cbn. unfold mbind, ST_bind. by destruct (node_destructor victim d) as [[[] ?]|].
Qed.

Lemma follows_leftmost k parent dnode fuel : ∀ pnext next,
  follows (Walk k parent dnode pnext next) (leftmost fuel pnext next) (λ x, Relink k parent dnode x.1 x.2).
Proof.
  induction fuel as [|fuel IH]; intros pnext next; [by intros d []|]. cbn [leftmost].
  one_step (λ n, if lchild n =? NULL then Relink k parent dnode pnext next else Walk k parent dnode next (lchild n)).
  intros n. destruct (lchild n =? NULL); [by apply follows_ret|apply IH].
Qed.

(** Overwriting [dnode] with its successor. *)
Definition copy_node (dnode next : Z) (n : node) : db unit :=
  (if malloc_str env (length (key n) + 1) then mret tt else fail BadAccess);;
  (if malloc_str env (length (value n) + 1) then mret tt else fail BadAccess);;
  d ← node_at dnode;
  put_node dnode (Node (snprintf_s MAXLEN (key n)) (snprintf_s MAXLEN (value n)) (lchild d) (rchild d)).

(** Storing to [*pnext] does not change keys and values. *)
Lemma set_pnext_keeps dnode pnext next c d n d' :
  node_at next d = Ok (n, d) → set_pnext dnode pnext c d = Ok (tt, d') →
  ∃ n', node_at next d' = Ok (n', d') ∧ key n' = key n ∧ value n' = value n.
Proof.
  unfold set_pnext, put_node, node_at, deref, mbind, ST_bind. destruct (nodes d !! next) as [n0|] eqn:Hn; [|done].
  intros [= <-]. destruct (nodes d !! pnext) as [p|] eqn:Hp; [|done]. cbn.
  destruct (pnext =? dnode); rewrite Hp; cbn; intros [= <-]; cbn;
    (destruct (decide (pnext = next)) as [->|Hne];
      [rewrite lookup_insert_eq; rewrite Hn in Hp; injection Hp as <-; by eexists
      |rewrite lookup_insert_ne, Hn by done; by eexists]).
Qed.

Lemma node_at_same a d n d' : node_at a d = Ok (n, d') → d' = d.
Proof. unfold node_at, deref. destruct (nodes d !! a); [by intros [= _ <-]|done]. Qed.

(** [db_remove] once the key is found, with the reads of the thread. *)
Definition remove_found (parent dnode : Z) : db unit :=
  d ← node_at dnode;
  if rchild d =? NULL then
    (d' ← node_at dnode; set_child (key d') parent (lchild d));;
    pthread_rwlock_unlock parent;; pthread_rwlock_unlock dnode;; node_destructor dnode
  else if lchild d =? NULL then
    (d' ← node_at dnode; set_child (key d') parent (rchild d));;
    pthread_rwlock_unlock parent;; pthread_rwlock_unlock dnode;; node_destructor dnode
  else
    s ← get;
    x ← leftmost (depth_fuel s) dnode (rchild d);
    (n ← node_at x.2; set_pnext dnode x.1 (rchild n));;
    (n ← node_at x.2; copy_node dnode x.2 n);;
    pthread_rwlock_unlock parent;; pthread_rwlock_unlock dnode;; node_destructor x.2.

Lemma remove_found_eq parent dnode d :
  (d ← node_at dnode;
   if rchild d =? NULL then
     set_child (key d) parent (lchild d);;
     pthread_rwlock_unlock parent;; pthread_rwlock_unlock dnode;; node_destructor dnode;; mret 1
   else if lchild d =? NULL then
     set_child (key d) parent (rchild d);;
     pthread_rwlock_unlock parent;; pthread_rwlock_unlock dnode;; node_destructor dnode;; mret 1
   else remove_inner env dnode parent;; mret 1) d =
  (remove_found parent dnode;; mret 1) d.
Proof.
  unfold remove_found, remove_inner, mbind, ST_bind, get.
  destruct (node_at dnode d) as [[n d1]|] eqn:Hn; [|done]. pose proof (node_at_same _ _ _ _ Hn) as ->.
  destruct (rchild n =? NULL).
  { rewrite Hn. destruct (set_child _ _ _ d) as [[[] d2]|]; [|done].
    destruct (pthread_rwlock_unlock parent d2) as [[[] d3]|]; [|done].
    by destruct (pthread_rwlock_unlock dnode d3) as [[[] d4]|]. }
  destruct (lchild n =? NULL).
  { rewrite Hn. destruct (set_child _ _ _ d) as [[[] d2]|]; [|done].
    destruct (pthread_rwlock_unlock parent d2) as [[[] d3]|]; [|done].
    by destruct (pthread_rwlock_unlock dnode d3) as [[[] d4]|]. }
  rewrite Hn. destruct (leftmost _ dnode _ d) as [[[pnext next] d2]|]; [|done]. cbn [fst snd].
  destruct (node_at next d2) as [[n2 d3]|] eqn:Hn2; [|done]. pose proof (node_at_same _ _ _ _ Hn2) as ->.
  destruct (set_pnext dnode pnext (rchild n2) d2) as [[[] d4]|] eqn:Hp; [|done].
  destruct (set_pnext_keeps _ _ _ _ _ _ _ Hn2 Hp) as (n' & -> & Hk & Hv).
  unfold copy_node, mbind, ST_bind. rewrite Hk, Hv.
  destruct (malloc_str env (length (key n2) + 1)); [|done]. cbn.
  destruct (malloc_str env (length (value n2) + 1)); [|done]. cbn.
  destruct (node_at dnode d4) as [[n3 d5]|]; [|done].
  destruct (put_node dnode _ d5) as [[[] d6]|]; [|done].
  destruct (pthread_rwlock_unlock parent d6) as [[[] d7]|]; [|done].
  by destruct (pthread_rwlock_unlock dnode d7) as [[[] d8]|].
Qed.

Lemma follows_found k parent dnode : follows (Hit (Remove k) parent dnode) (remove_found parent dnode) (λ _, Done (Code 1)).
Proof.
  one_step (λ d, if rchild d =? NULL then Splice k parent dnode (lchild d)
                 else if lchild d =? NULL then Splice k parent dnode (rchild d)
                 else Walk k parent dnode dnode (rchild d)).
  intros d. destruct (rchild d =? NULL); [|destruct (lchild d =? NULL)].
  - apply (follows_bind _ _ _ (λ _ : unit, UnlockPair parent dnode dnode)); [|intros []; apply follows_release].
    apply follows_step; [done|]. intros d0. cbn. unfold mbind, ST_bind.
    by destruct (node_at dnode d0) as [[? ?]|].
  - apply (follows_bind _ _ _ (λ _ : unit, UnlockPair parent dnode dnode)); [|intros []; apply follows_release].
    apply follows_step; [done|]. intros d0. cbn. unfold mbind, ST_bind.
    by destruct (node_at dnode d0) as [[? ?]|].
  - apply follows_get. intros s. apply (follows_bind _ _ _ (λ x, Relink k parent dnode x.1 x.2)); [apply follows_leftmost|].
    intros [pnext next]. cbn [fst snd]. apply (follows_bind _ _ _ (λ _ : unit, Copy parent dnode next)).
    { apply follows_step; [done|]. intros d0. cbn. unfold mbind, ST_bind. by destruct (node_at next d0) as [[? ?]|]. }
    intros []. apply (follows_bind _ _ _ (λ _ : unit, UnlockPair parent dnode next)); [|intros []; apply follows_release].
    apply follows_step; [done|]. intros d0. cbn. unfold copy_node, mbind, ST_bind.
    repeat (case_match; try done).
Qed.

Lemma follows_remove k : follows (Start (Remove k)) (db_remove env k) (λ z, Done (Code z)).
Proof.
  apply (follows_enter (Remove k)). intros [dnode par]. cbn [after_search fst snd].
  destruct (dnode =? NULL).
  - one_step (λ _ : unit, Done (Code 0)). intros []. by apply follows_ret.
  - eapply follows_ext; [intros d; apply remove_found_eq|].
    apply (follows_bind _ _ _ (λ _ : unit, Done (Code 1))); [apply follows_found|]. intros []. by apply follows_ret.
Qed.

(** A call of a thread on its own has the outcome of the operation of [Db]. *)
Lemma alone_call c d :
  run_call env c d ≠ Err NoFuel →
  ∃ n, drive env n (Start c) d =
    match run_call env c d with Ok (r, d') => Ok (Done r, d') | Err f => Err f end.
Proof.
  assert (follows (Start c) (run_call env c) Done) as H.
  { destruct c as [k len|k v|k]; cbn [run_call]; (eapply follows_bind; [|by intros; apply follows_ret]);
      [apply follows_query|apply follows_add|apply follows_remove]. }
  intros Hd. specialize (H d Hd). destruct (run_call env c d) as [[r d']|f]; [|done]. apply H, runs_stay.
Qed.
End Alone.
