(* ===== verification/DbThreadsInv.v ===== *)
(** * What holds between the steps of the threads of [DbThreads].

    The nodes hold a search tree; the locks are those that the threads hold by
    their places; and a thread in [search] stands on the way that its key takes
    down the tree.  No thread is in the two-children case of [db_remove]. *)

From Stdlib Require Import ZArith Lia Ascii String.
From stdpp Require Import base gmap strings numbers option fin_maps relations list.
From S2P Require Import Prelude Db DbTree DbProofs DbThreads.

Open Scope Z_scope.
Open Scope list_scope.

(** ** The way of a key down a tree *)

(** The search for [k] in [t] passes [p] and goes on into the subtree [u]. *)
Fixpoint passes (k : bytes) (t : tree) (p : Z) (u : tree) : Prop :=
  match t with
  | Leaf => False
  | T a k' _ l r =>
      k ≠ k' ∧ (p = a ∧ u = (if decide (klt k k') then l else r) ∨
                passes k (if decide (klt k k') then l else r) p u)
  end.

(** The same with the node [par] above the tree. *)
Definition from (k : bytes) (par : Z) (t : tree) (p : Z) (u : tree) : Prop :=
  p = par ∧ u = t ∨ passes k t p u.

Lemma passes_in k t p u : passes k t p u → p ∈ addrs t.
Proof.
  induction t as [|a k' v l IHl r IHr]; [done|]. intros [_ [[-> _]|Hp]]; [by left|]. right.
  apply elem_of_app. case_decide; auto.
Qed.

Lemma from_in k t p u : from k head t p u → p ∈ head :: addrs t.
Proof. intros [[-> _]|Hp%passes_in]; [by left|by right]. Qed.

Lemma passes_root k t p u : passes k t p u → root u ≠ NULL → root u ∈ addrs t.
Proof.
  induction t as [|a k' v l IHl r IHr]; [done|]. intros [_ [[_ ->]|Hp]] Hr; right; apply elem_of_app;
    case_decide; auto; [left; destruct l|right; destruct r]; try done; by left.
Qed.

Lemma from_root k t p u : from k head t p u → root u ≠ NULL → root u ∈ addrs t.
Proof. intros [[_ ->]|Hp]; [|by eapply passes_root]. destruct t; [done|]. by left. Qed.

Lemma passes_repr N k t p u :
  repr N t → passes k t p u → repr N u ∧ ∃ n, N !! p = Some n ∧ side_child k n = root u.
Proof.
  induction t as [|a k' v l IHl r IHr]; [done|]. intros (Ha & Hn & Hl & Hr) [Hne [[-> ->]|Hp]].
  - split; [by case_decide|]. eexists. split; [exact Hn|]. unfold side_child. simpl. rewrite klt_ltb.
    by case_bool_decide; case_decide.
  - case_decide; auto.
Qed.

(** The node of the tree on the way, and the rest of the way. *)
Lemma from_repr N k t p u :
  N !! head = Some (Node [] [] NULL (root t)) → repr N t → from k head t p u →
  repr N u ∧ ∃ n, N !! p = Some n ∧ side_child k n = root u.
Proof.
  intros Hh Hr [[-> ->]|Hp]; [|by eapply passes_repr]. split; [done|]. eexists. split; [exact Hh|].
  unfold side_child. cbn [key]. by rewrite strcmp_nil.
Qed.

Lemma passes_next k t p n kn v l r :
  passes k t p (T n kn v l r) → k ≠ kn → passes k t n (if decide (klt k kn) then l else r).
Proof.
  induction t as [|a k' v' l' IHl r' IHr]; [done|]. intros [Hne [[-> Hu]|Hp]] Hk; (split; [done|]; right).
  - rewrite <- Hu. split; [done|]. by left.
  - case_decide; auto.
Qed.

Lemma from_next k par t p n kn v l r :
  from k par t p (T n kn v l r) → k ≠ kn → from k par t n (if decide (klt k kn) then l else r).
Proof.
  intros [[-> <-]|Hp] Hk; right; [|by eapply passes_next]. split; [done|]. by left.
Qed.

Lemma passes_locate k t p u : ∀ par, passes k t p u → stop k t = stop k u ∧ locate k par t = locate k p u.
Proof.
  induction t as [|a k' v l IHl r IHr]; intros par; [done|]. intros [Hne [[-> ->]|Hp]]; cbn [stop locate];
    rewrite !(decide_False _ _ Hne); [done|]. case_decide; auto.
Qed.

Lemma from_locate k par t p u : from k par t p u → stop k t = stop k u ∧ locate k par t = locate k p u.
Proof. intros [[-> ->]|Hp]; [done|]. by apply passes_locate. Qed.

(** ** The ways when the tree changes at one place *)

(** The subtree [x] at the place of a key is replaced by [u']: a leaf by
    anything, or the node [d] by its only child. *)
Definition small_change (x : tree) (d : Z) (u' : tree) : Prop :=
  x = Leaf ∨ ∃ k v l r, x = T d k v l r ∧ (r = Leaf ∧ u' = l ∨ l = Leaf ∧ u' = r).

Lemma passes_child k d k' v l r u' p u :
  (r = Leaf ∧ u' = l ∨ l = Leaf ∧ u' = r) → passes k (T d k' v l r) p u → p ≠ d → passes k u' p u.
Proof. intros Hu [_ [[-> _]|Hp]] Hd; [done|]. case_decide; by destruct Hu as [[-> ->]|[-> ->]]. Qed.

Lemma from_subst k0 u' d k t p u : ∀ par,
  small_change (stop k0 t) d u' → p ≠ d → from k par t p u →
  ∃ u2, from k par (subst k0 u' t) p u2 ∧ (p ≠ (locate k0 par t).2 → root u2 = root u).
Proof.
  induction t as [|a k' v l IHl r IHr]; intros par Hs Hd Hf.
  { destruct Hf as [[-> ->]|[]]. exists u'. split; [by left|done]. }
  cbn [stop subst locate] in *. destruct (decide (k0 = k')) as [->|Hne0].
  { destruct Hf as [[-> ->]|Hp]; [exists u'; split; [by left|done]|].
    destruct Hs as [|(kd & vd & ld & rd & [= -> -> -> -> ->] & Hu)]; [done|].
    exists u. split; [|done]. right. by eapply passes_child. }
  destruct Hf as [[-> ->]|[Hne Hp]].
  { eexists. split; [by left|]. by case_decide. }
  fold (from k a (if decide (klt k k') then l else r) p u) in Hp.
  destruct (decide (klt k0 k')) as [Hlt0|Hlt0], (decide (klt k k')) as [Hlt|Hlt] eqn:Hdec.
  - destruct (IHl a Hs Hd Hp) as (u2 & H2 & Hr). exists u2. split; [right|done]. cbn [passes]. rewrite Hdec. done.
  - exists u. split; [right|done]. cbn [passes]. by rewrite Hdec.
  - exists u. split; [right|done]. cbn [passes]. by rewrite Hdec.
  - destruct (IHr a Hs Hd Hp) as (u2 & H2 & Hr). exists u2. split; [right|done]. cbn [passes]. rewrite Hdec. done.
Qed.

(** ** The tree in memory *)

Record holds_tree (N : gmap Z node) (t : tree) : Prop := {
  ht_head : N !! head = Some (Node [] [] NULL (root t));
  ht_repr : repr N t;
  ht_nodup : NoDup (head :: addrs t);
  ht_bst : bst t;
}.

(** Linking [u] under the parent of the place of [k]. *)
Lemma link_tree N t k u pn :
  holds_tree N t → N !! (locate k head t).2 = Some pn → repr N u → (locate k head t).2 ∉ addrs u →
  NoDup (head :: addrs (subst k u t)) → bst (subst k u t) →
  holds_tree (<[(locate k head t).2 := with_child k pn (root u)]> N) (subst k u t).
Proof.
  intros [Hh Hr Hnd Hb] Hpn Hu Hpu Hnd' Hb'. set (p := (locate k head t).2) in *.
  pose proof Hnd as [Hht Hndt]%NoDup_cons.
  destruct (repr_subst N (<[p := with_child k pn (root u)]> N) k u t head Hr Hndt Hht) as [Hrepr Hroot].
  - intros a _ Ha. by rewrite lookup_insert_ne.
  - intros _. exists pn. fold p. by rewrite lookup_insert_eq.
  - eapply repr_frame; [|exact Hu]. intros a Ha. rewrite lookup_insert_ne; [done|]. by intros <-.
  - fold p in Hroot. split; [|done|done|done]. rewrite Hroot. case_decide as Hp.
    + rewrite Hp in *. rewrite lookup_insert_eq. rewrite Hh in Hpn. injection Hpn as <-.
      unfold with_child. cbn [key]. by rewrite strcmp_nil.
    + by rewrite lookup_insert_ne.
Qed.

(** A new leaf. *)
Lemma grow_tree N t k v p pn new :
  holds_tree N t → from k head t p Leaf → N !! p = Some pn → N !! new = Some (Node k v NULL NULL) →
  new ≠ NULL → new ∉ head :: addrs t →
  let t' := subst k (T new k v Leaf Leaf) t in
  holds_tree (<[p := with_child k pn new]> N) t' ∧ to_map t' = <[k := v]> (to_map t) ∧
  addrs t' ≡ₚ new :: addrs t ∧ to_map t !! k = None.
Proof.
  intros H Hf Hpn Hnew Hnn Hfresh t'. pose proof (from_locate _ _ _ _ _ Hf) as [Hstop Hloc]. simpl in Hstop, Hloc.
  assert (to_map t !! k = None) as Hk by (rewrite to_map_stop by apply H; by rewrite Hstop).
  assert (addrs t' ≡ₚ new :: addrs t) as Ha.
  { unfold t'. rewrite addrs_subst, (outer_stop k t), Hstop. simpl. by rewrite app_nil_r, Permutation_app_comm. }
  split_and!; [|unfold t'; rewrite <- tree_add_subst by done; apply to_map_add; [apply H|done]|done|done].
  assert (p = (locate k head t).2) as Hp by by rewrite Hloc. rewrite Hp in *.
  apply (link_tree N t k (T new k v Leaf Leaf)); [done|done| | | |].
  - simpl. done.
  - simpl. intros He%list_elem_of_singleton. apply Hfresh. rewrite <- He. by eapply from_in.
  - fold t'. rewrite Ha. pose proof (ht_nodup _ _ H) as [H1 H2]%NoDup_cons.
    apply not_elem_of_cons in Hfresh as [Hnh Hnt]. apply NoDup_cons. split; [|by apply NoDup_cons].
    apply not_elem_of_cons. auto.
  - rewrite <- tree_add_subst by done. apply bst_add, H.
Qed.

(** A node with at most one child is taken out. *)
Lemma splice_tree N t k p pn d kd v l r u :
  holds_tree N t → from k head t p (T d kd v l r) → kd = k → N !! p = Some pn →
  (r = Leaf ∧ u = l ∨ l = Leaf ∧ u = r) →
  let t' := subst k u t in
  holds_tree (<[p := with_child k pn (root u)]> N) t' ∧ to_map t' = delete k (to_map t) ∧
  addrs t ≡ₚ d :: addrs t' ∧ to_map t !! k = Some v.
Proof.
  intros H Hf -> Hpn Hu t'. pose proof (from_locate _ _ _ _ _ Hf) as [Hstop Hloc]. cbn [stop locate] in Hstop, Hloc.
  rewrite decide_True in Hstop by done. rewrite decide_True in Hloc by done. pose proof (ht_bst _ _ H) as Hb.
  assert (to_map t !! k = Some v) as Hk by (rewrite to_map_stop by done; by rewrite Hstop).
  assert (u = del_root d l r ∧ freed_root d l r = d) as [Hdel Hfree].
  { destruct Hu as [[-> ->]|[-> ->]]; [by destruct l|by destruct r]. }
  destruct (tree_remove_subst k t _ _ _ _ Hstop) as [Hrem Hfr]. rewrite <- Hdel in Hrem. fold t' in Hrem.
  destruct (tree_remove_spec k v t Hb Hk) as (Hb' & _ & Ha). rewrite Hfr, Hfree in Ha. rewrite Hrem in Hb', Ha.
  split_and!; [|rewrite <- Hrem; by eapply to_map_remove|done|done].
  assert (p = (locate k head t).2) as Hp by by rewrite Hloc.
  destruct (from_repr N k t p _ (ht_head _ _ H) (ht_repr _ _ H) Hf) as [(_ & _ & Hl & Hr) _].
  pose proof (ht_nodup _ _ H) as Hnd. rewrite Ha in Hnd. apply NoDup_cons in Hnd as [Hh [Hd Hnd']%NoDup_cons].
  pose proof (outer_stop k t) as Hos. rewrite Hstop in Hos.
  assert (p ∉ addrs (T d k v l r)) as Hpt.
  { intros Hin. pose proof (ht_nodup _ _ H) as [Hht Hnt]%NoDup_cons. rewrite Hos in Hnt, Hht. rewrite Hp in Hin.
    apply NoDup_app in Hnt as (_ & Hdis & _). destruct (locate_parent k head t) as [[He _]|Hpo].
    - apply Hht, elem_of_app. right. by rewrite He in Hin.
    - by apply (Hdis _ Hpo). }
  rewrite Hp in *. apply (link_tree N t k u); [done|done| | | |done].
  - by destruct Hu as [[-> ->]|[-> ->]].
  - intros Hin. apply Hpt. simpl. right. apply elem_of_app. destruct Hu as [[-> ->]|[-> ->]]; auto.
  - apply NoDup_cons. split; [|done]. intros Hin. apply Hh. by right.
Qed.

(** ** Locks *)

(** The root is always locked for writing, other nodes as the operation asks. *)
Definition mode (c : call) (a : Z) : bool := (a =? head) || call_write c.

(** The locks a thread holds, by its place. *)
Definition holds (p : at_db) : list (Z * bool) :=
  match p with
  | Start _ | Destroy _ | Done _ => []
  | Look c a | LockNext c a _ | Miss c a => [(a, mode c a)]
  | Compare c a b | Descend c a b | Hit c a b => [(a, mode c a); (b, mode c b)]
  | ReadValue _ _ a | UnlockQuery _ a => [(a, false)]
  | UnlockAdd a | Link _ _ a _ | UnlockParent a | UnlockDnode a _ => [(a, true)]
  | Splice _ a b _ | Walk _ a b _ _ | Relink _ a b _ _ | Copy a b _ | UnlockPair a b _ => [(a, true); (b, true)]
  end.

Definition occ (x : Z * bool) (l : list (Z * bool)) : Z :=
  foldr (λ y n, (if decide (y = x) then 1 else 0) + n) 0 l.

Lemma occ_nonneg x l : 0 ≤ occ x l.
Proof. induction l as [|y l IH]; unfold occ in *; simpl; [done|]. case_decide; lia. Qed.

Lemma occ_in x l : x ∈ l → 1 ≤ occ x l.
Proof.
  induction l as [|y l IH]; [by intros ?%not_elem_of_nil|]. pose proof (occ_nonneg x l) as H0. unfold occ in *. simpl.
  intros [->|Hx%IH]%elem_of_cons; [rewrite decide_True by done; lia|]. case_decide; lia.
Qed.

Lemma occ_pos x l : occ x l ≠ 0 → x ∈ l.
Proof.
  induction l as [|y l IH]; [done|]. unfold occ in *. simpl. case_decide; [subst; by left|]. intros Hn. right. by apply IH.
Qed.

#[export] Instance occ_Proper x : Proper (Permutation ==> eq) (occ x).
Proof.
  intros l l' Hp. induction Hp as [|y l l' _ IH|y z l|l l1 l2 _ IH1 _ IH2]; unfold occ in *; simpl; [done|by rewrite IH| |congruence].
  repeat case_decide; lia.
Qed.

Definition count (x : Z * bool) (cs : gmap Z at_db) : Z := msum (λ p, occ x (holds p)) cs.

(** The state of a lock, with so many writers and readers. *)
Definition lock_ok (h : option held) (w r : Z) : Prop :=
  match h with
  | None => w = 0 ∧ r = 0
  | Some WR => w = 1 ∧ r = 0
  | Some (RD n) => w = 0 ∧ r = Z.of_nat n ∧ 0 < r
  end.

Definition locks_ok (L : gmap Z held) (cs : gmap Z at_db) : Prop :=
  ∀ a, lock_ok (L !! a) (count (a, true) cs) (count (a, false) cs).

Lemma count_change x cs i p p' :
  cs !! i = Some p → count x (<[i := p']> cs) = count x cs - occ x (holds p) + occ x (holds p').
Proof. intros Hi. unfold count. by rewrite (msum_move _ _ _ _ p' Hi). Qed.

Lemma locks_same L cs i p p' :
  locks_ok L cs → cs !! i = Some p → holds p' ≡ₚ holds p → locks_ok L (<[i := p']> cs).
Proof. intros HL Hi Hp a. rewrite !(count_change _ _ _ _ _ Hi), Hp, !Z.sub_add. apply HL. Qed.

(** A thread that starts holds none. *)
Lemma locks_new L cs i p :
  locks_ok L cs → (∀ q, cs !! i = Some q → holds q = []) → holds p = [] → locks_ok L (<[i := p]> cs).
Proof.
  intros HL Hi Hp a. destruct (cs !! i) as [q|] eqn:Hq.
  - rewrite !(count_change _ _ _ _ _ Hq), Hp, (Hi q eq_refl), !Z.sub_add. apply HL.
  - unfold count. rewrite !msum_insert by done. rewrite Hp. apply HL.
Qed.

Lemma count_in x cs i p : cs !! i = Some p → x ∈ holds p → 1 ≤ count x cs.
Proof.
  intros Hi Hx. unfold count. rewrite (msum_delete _ _ _ _ Hi). pose proof (occ_in _ _ Hx).
  pose proof (msum_nonneg (λ p, occ x (holds p)) (delete i cs)) as H0.
  assert (0 ≤ msum (λ p, occ x (holds p)) (delete i cs)) by (apply H0; intros j q _; apply occ_nonneg). lia.
Qed.

(** A writer is alone. *)
Lemma exclusive L cs i j p q a b :
  locks_ok L cs → cs !! i = Some p → cs !! j = Some q → i ≠ j → (a, true) ∈ holds p → (a, b) ∉ holds q.
Proof.
  intros HL Hi Hj Hne Hp Hq. specialize (HL a).
  assert (delete i cs !! j = Some q) as Hj' by by rewrite lookup_delete_ne.
  pose proof (count_in _ _ _ _ Hi Hp) as H1.
  assert (count (a, true) cs = occ (a, true) (holds p) + count (a, true) (delete i cs)) as H2
    by by apply (msum_delete (λ p, occ (a, true) (holds p))).
  pose proof (occ_in _ _ Hp) as H3. destruct b.
  - pose proof (count_in _ _ _ _ Hj' Hq) as H4. destruct (L !! a) as [[]|]; simpl in HL; lia.
  - pose proof (count_in _ _ _ _ Hj Hq) as H4. destruct (L !! a) as [[]|]; simpl in HL; lia.
Qed.

(** A lock that is taken has a holder. *)
Lemma count_witness x cs : count x cs ≠ 0 → ∃ i p, cs !! i = Some p ∧ x ∈ holds p.
Proof.
  induction cs as [|i p cs Hi IH] using map_ind; [done|]. unfold count in *. rewrite msum_insert by done. intros Hc.
  destruct (decide (occ x (holds p) = 0)) as [H0|H0%occ_pos].
  - destruct IH as (j & q & Hj & Hq); [lia|]. exists j, q. split; [|done]. rewrite lookup_insert_ne; [done|]. by intros ->; congruence.
  - exists i, p. by rewrite lookup_insert_eq.
Qed.

Lemma held_by L cs a h : locks_ok L cs → L !! a = Some h → ∃ i p b, cs !! i = Some p ∧ (a, b) ∈ holds p.
Proof.
  intros HL Ha. specialize (HL a). rewrite Ha in HL. destruct h as [n|]; simpl in HL.
  - destruct (count_witness (a, false) cs) as (i & p & ? & ?); [lia|]. by exists i, p, false.
  - destruct (count_witness (a, true) cs) as (i & p & ? & ?); [lia|]. by exists i, p, true.
Qed.

Lemma occ_cons x y l : occ x (y :: l) = (if decide (y = x) then 1 else 0) + occ x l.
Proof. done. Qed.

(** How the counts change when a thread takes or gives back the lock of [a]. *)
Lemma count_take cs i p p' a w b v :
  cs !! i = Some p → holds p' ≡ₚ (a, w) :: holds p →
  count (b, v) (<[i := p']> cs) = count (b, v) cs + (if decide ((a, w) = (b, v)) then 1 else 0).
Proof. intros Hi Hp. rewrite (count_change _ _ _ _ _ Hi), Hp, occ_cons. lia. Qed.

Lemma count_give cs i p p' a w b v :
  cs !! i = Some p → holds p ≡ₚ (a, w) :: holds p' →
  count (b, v) (<[i := p']> cs) = count (b, v) cs - (if decide ((a, w) = (b, v)) then 1 else 0).
Proof. intros Hi Hp. rewrite (count_change _ _ _ _ _ Hi), Hp, occ_cons. lia. Qed.

(** Only the lock of [a] changes. *)
Lemma locks_at L L' cs cs' a :
  locks_ok L cs → (∀ b, b ≠ a → L' !! b = L !! b) →
  (∀ b v, b ≠ a → count (b, v) cs' = count (b, v) cs) →
  lock_ok (L' !! a) (count (a, true) cs') (count (a, false) cs') → locks_ok L' cs'.
Proof.
  intros HL HL' Hc Ha b. destruct (decide (b = a)) as [->|Hne]; [done|]. by rewrite HL', !Hc.
Qed.

Lemma lock_step (w : bool) N L cs i p p' a n :
  locks_ok L cs → cs !! i = Some p → N !! a = Some n → holds p' ≡ₚ (a, w) :: holds p →
  (if w then pthread_rwlock_wrlock a else pthread_rwlock_rdlock a) (DB N L) = Err Blocked ∧ is_Some (L !! a) ∨
  ∃ L', (if w then pthread_rwlock_wrlock a else pthread_rwlock_rdlock a) (DB N L) = Ok (tt, DB N L') ∧
    locks_ok L' (<[i := p']> cs).
Proof.
  intros HL Hi Hn Hp.
  assert (∀ b v, b ≠ a → count (b, v) (<[i := p']> cs) = count (b, v) cs) as Hother.
  { intros b v Hb. rewrite (count_take _ _ _ _ _ _ _ _ Hi Hp), decide_False by congruence. lia. }
  pose proof (count_take cs i p p' a w a true Hi Hp) as Ht. pose proof (count_take cs i p p' a w a false Hi Hp) as Hf.
  pose proof (HL a) as Ha. assert (∀ h b, b ≠ a → <[a := h]> L !! b = L !! b) as Hins by (intros; by rewrite lookup_insert_ne).
  unfold pthread_rwlock_wrlock, pthread_rwlock_rdlock, mbind, ST_bind, get, put.
  destruct w; rewrite (node_at_Ok N L a n Hn); cbn [locks]; destruct (L !! a) as [[m|]|] eqn:Hl; simpl in Ha; eauto;
    right; (eexists; split; [reflexivity|]);
    (eapply locks_at; [exact HL|by apply Hins|exact Hother|]); rewrite lookup_insert_eq, Ht, Hf;
    repeat case_decide; try congruence; simpl; lia.
Qed.

Lemma unlock_step (w : bool) N L cs i p p' a n :
  locks_ok L cs → cs !! i = Some p → N !! a = Some n → holds p ≡ₚ (a, w) :: holds p' →
  ∃ L', pthread_rwlock_unlock a (DB N L) = Ok (tt, DB N L') ∧ locks_ok L' (<[i := p']> cs).
Proof.
  intros HL Hi Hn Hp.
  assert (∀ b v, b ≠ a → count (b, v) (<[i := p']> cs) = count (b, v) cs) as Hother.
  { intros b v Hb. rewrite (count_give _ _ _ _ _ _ _ _ Hi Hp), decide_False by congruence. lia. }
  pose proof (count_give cs i p p' a w a true Hi Hp) as Ht. pose proof (count_give cs i p p' a w a false Hi Hp) as Hf.
  assert (1 ≤ count (a, w) cs) as H1 by (eapply count_in; [exact Hi|]; rewrite Hp; by left).
  pose proof (HL a) as Ha. unfold pthread_rwlock_unlock, mbind, ST_bind, get, put.
  rewrite (node_at_Ok N L a n Hn). cbn [locks].
  destruct (L !! a) as [[[|[|m]]|]|] eqn:Hl; simpl in Ha; try (destruct w; lia);
    (eexists; split; [reflexivity|]); (eapply locks_at; [exact HL| |exact Hother|]);
    try (intros b Hb; first [by rewrite lookup_insert_ne|by rewrite lookup_delete_ne]);
    rewrite ?lookup_insert_eq, ?lookup_delete_eq, Ht, Hf; destruct w;
    repeat case_decide; try congruence; simpl; lia.
Qed.

(** ** Places *)

(** Nodes outside the tree that only this thread knows: new, or taken out. *)
Definition private (p : at_db) : list Z :=
  match p with
  | Link _ _ _ a | UnlockPair _ a _ | UnlockDnode a _ | Destroy a => [a]
  | _ => []
  end.

(** The node [n] is next on the way of [k] after [p]. *)
Definition toward (t : tree) (k : bytes) (p n : Z) : Prop :=
  n ≠ NULL ∧ ∃ u, from k head t p u ∧ root u = n.

Definition node_is (N : gmap Z node) (a : Z) (P : node → Prop) : Prop := ∃ n, N !! a = Some n ∧ P n.

Definition place_ok (N : gmap Z node) (t : tree) (p : at_db) : Prop :=
  match p with
  | Start c => fits c
  | Look c a => fits c ∧ ∃ u, from (call_key c) head t a u
  | LockNext c a b | Compare c a b => fits c ∧ toward t (call_key c) a b
  | Descend c a b => fits c ∧ toward t (call_key c) a b ∧ node_is N b (λ n, key n ≠ call_key c)
  | Hit c a b => fits c ∧ toward t (call_key c) a b ∧ node_is N b (λ n, key n = call_key c)
  | Miss c a => fits c ∧ from (call_key c) head t a Leaf
  | ReadValue k _ a => a ∈ addrs t ∧ node_is N a (λ n, key n = k)
  | UnlockQuery _ a | UnlockAdd a => a ∈ addrs t
  | Link k v a new => from k head t a Leaf ∧ new ≠ NULL ∧ node_is N new (λ n, n = Node k v NULL NULL)
  | UnlockParent a => a ∈ head :: addrs t
  | Splice k a b c =>
      toward t k a b ∧
      node_is N b (λ n, key n = k ∧ (rchild n = NULL ∧ c = lchild n ∨ lchild n = NULL ∧ c = rchild n))
  | Walk _ _ _ _ _ | Relink _ _ _ _ _ | Copy _ _ _ => False
  | UnlockPair a b v => v = b ∧ a ∈ head :: addrs t
  | UnlockDnode b v => v = b
  | Destroy _ | Done _ => True
  end.

Definition private_ok (N : gmap Z node) (t : tree) (p : at_db) : Prop :=
  ∀ a, a ∈ private p → is_Some (N !! a) ∧ a ∉ head :: addrs t.

(** What a thread holds is in the tree or its own. *)
Lemma holds_in N t p a b : place_ok N t p → (a, b) ∈ holds p → a ∈ head :: addrs t ∨ a ∈ private p.
Proof.
  assert (∀ k x y, toward t k x y → x ∈ head :: addrs t ∧ y ∈ head :: addrs t) as Htw.
  { intros k x y (Hy & u & Hf & <-). split; [by eapply from_in|]. right. by eapply from_root. }
  destruct p; cbn [place_ok holds private]; intros Hp Hin; rewrite ?elem_of_cons, ?elem_of_nil in *; try done;
    repeat match goal with
    | H : _ ∧ _ |- _ => destruct H
    | H : ∃ _, _ |- _ => destruct H
    | H : toward _ _ _ _ |- _ => apply Htw in H as [? ?]
    | H : from _ _ _ _ _ |- _ => apply from_in in H
    | H : _ ∈ _ :: _ |- _ => rewrite elem_of_cons in H
    end; naive_solver.
Qed.

(** ** The invariant *)

Record Inv (N : gmap Z node) (L : gmap Z held) (cs : gmap Z at_db) (t : tree) : Prop := {
  inv_tree : holds_tree N t;
  inv_locks : locks_ok L cs;
  inv_place : ∀ i p, cs !! i = Some p → place_ok N t p;
  inv_private : ∀ i p, cs !! i = Some p → private_ok N t p;
  inv_disjoint : ∀ i j p q a, cs !! i = Some p → cs !! j = Some q → i ≠ j → a ∈ private p → a ∉ private q;
}.

(** Membership in a list that is spelled out. *)
Ltac mem := first [apply list_elem_of_here | apply list_elem_of_further; mem].

(** A place keeps its meaning when the nodes of its thread, the way it is on and
    its part of the tree are left alone. *)
Lemma place_frame N N' t t' q :
  place_ok N t q → holds_tree N' t' →
  (∀ a b, (a, b) ∈ holds q → N' !! a = N !! a) → (∀ a, a ∈ private q → N' !! a = N !! a) →
  (∀ k a b u, (a, b) ∈ holds q → from k head t a u → ∃ u', from k head t' a u' ∧ root u' = root u) →
  (∀ a b, (a, b) ∈ holds q → a ∈ addrs t → a ∈ addrs t') →
  place_ok N' t' q.
Proof.
  intros Hq Ht Hh Hp Hf Hin.
  assert (∀ k a b c, (a, c) ∈ holds q → toward t k a b → toward t' k a b) as Htw.
  { intros k a b c Ha (Hb & u & Hfr & Hr). split; [done|]. destruct (Hf _ _ _ _ Ha Hfr) as (u' & ? & ?). exists u'. split; [done|congruence]. }
  assert (∀ k a c, (a, c) ∈ holds q → from k head t a Leaf → from k head t' a Leaf) as Hleaf.
  { intros k a c Ha Hfr. destruct (Hf _ _ _ _ Ha Hfr) as (u' & Hfr' & Hr').
    destruct (from_repr N' k t' a u' (ht_head _ _ Ht) (ht_repr _ _ Ht) Hfr') as [Hu _].
    by rewrite (proj1 (root_NULL N' u' Hu) Hr') in Hfr'. }
  assert (∀ a b P, (a, b) ∈ holds q → node_is N a P → node_is N' a P) as Hn.
  { intros a b P Ha (n & Hna & HP). exists n. by rewrite (Hh _ _ Ha). }
  assert (∀ a b, (a, b) ∈ holds q → a ∈ head :: addrs t → a ∈ head :: addrs t') as Hin'.
  { intros a b Ha [->|Ht']%elem_of_cons; [by left|]. right. by eapply Hin. }
  destruct q; cbn [place_ok holds private] in *; destruct_and?; try done; split_and?; try done;
    try (eapply Htw; [mem|done]); try (eapply Hleaf; [mem|done]); try (eapply Hn; [mem|done]);
    try (eapply Hin; [mem|done]); try (eapply Hin'; [mem|done]).
  - match goal with H : ∃ _, _ |- _ => destruct H as [u Hfr] end.
    edestruct Hf as (u' & Hfr' & _); [mem|exact Hfr|by exists u'].
  - match goal with H : node_is N _ _ |- _ => destruct H as (n & Hna & HP) end.
    exists n. split; [|done]. rewrite Hp; [done|mem].
Qed.

Lemma tree_node N t a : holds_tree N t → a ∈ head :: addrs t → is_Some (N !! a).
Proof. intros H [->|Ha]%elem_of_cons; [by rewrite (ht_head _ _ H)|]. by apply (repr_in N t a (ht_repr _ _ H)). Qed.

(** A step of thread [i] keeps the invariant when it changes only nodes that the
    thread has locked for writing or that are its own, and leaves the ways past
    the others as they were. *)
Lemma Inv_change N L cs t i p p' N' L' t' :
  Inv N L cs t → cs !! i = Some p →
  holds_tree N' t' → locks_ok L' (<[i := p']> cs) → place_ok N' t' p' → private_ok N' t' p' →
  (∀ a, a ∈ private p' → a ∈ private p ∨ N !! a = None ∨ a ∈ addrs t) →
  (∀ a, (a, true) ∉ holds p → a ∉ private p → is_Some (N !! a) → N' !! a = N !! a) →
  (∀ k a u, (a, true) ∉ holds p → from k head t a u → ∃ u', from k head t' a u' ∧ root u' = root u) →
  (∀ a, (a, true) ∉ holds p → a ∈ addrs t → a ∈ addrs t') →
  (∀ a, a ∈ addrs t' → a ∈ addrs t ∨ a ∈ private p) →
  Inv N' L' (<[i := p']> cs) t'.
Proof.
  intros I Hi Ht' HL' Hp' Hpr' Hnew Hsame Hway Hstay Hcome.
  assert (∀ j q a, j ≠ i → cs !! j = Some q → a ∈ private q →
    ((a, true) ∉ holds p) ∧ (a ∉ private p) ∧ is_Some (N !! a) ∧ a ∉ head :: addrs t) as Hpriv.
  { intros j q a Hj Hq Ha. destruct (inv_private _ _ _ _ I j q Hq a Ha) as [Hs Hn].
    assert (a ∉ private p) as Hap by by eapply (inv_disjoint _ _ _ _ I j i).
    split_and!; try done. intros Hh. by destruct (holds_in N t p a true (inv_place _ _ _ _ I i p Hi) Hh). }
  assert (∀ j q a b, j ≠ i → cs !! j = Some q → (a, b) ∈ holds q →
    ((a, true) ∉ holds p) ∧ (a ∉ private p) ∧ is_Some (N !! a)) as Hheld.
  { intros j q a b Hj Hq Ha.
    assert ((a, true) ∉ holds p) as Hh by (intros Hh; by eapply (exclusive L cs i j p q a b (inv_locks _ _ _ _ I))).
    destruct (holds_in N t q a b (inv_place _ _ _ _ I j q Hq) Ha) as [Hin|Hin].
    - split_and!; [done| |by eapply tree_node; [apply I|]].
      intros Hap. by destruct (inv_private _ _ _ _ I i p Hi a Hap).
    - by destruct (Hpriv j q a Hj Hq Hin) as (? & ? & ? & _). }
  split; [done|done| | |].
  - intros j q. rewrite lookup_insert_Some. intros [[<- <-]|[Hj Hq]]; [done|].
    eapply place_frame; [by eapply (inv_place _ _ _ _ I)|done|..].
    + intros a b Ha. destruct (Hheld j q a b ltac:(done) Hq Ha) as (? & ? & ?). auto.
    + intros a Ha. destruct (Hpriv j q a ltac:(done) Hq Ha) as (? & ? & ? & _). auto.
    + intros k a b u Ha. destruct (Hheld j q a b ltac:(done) Hq Ha) as (? & ? & ?). auto.
    + intros a b Ha. destruct (Hheld j q a b ltac:(done) Hq Ha) as (? & ? & ?). auto.
  - intros j q. rewrite lookup_insert_Some. intros [[<- <-]|[Hj Hq]]; [done|]. intros a Ha.
    destruct (Hpriv j q a ltac:(done) Hq Ha) as (Hh & Hap & Hs & Hn). split; [by rewrite Hsame|].
    intros [->|Hin]%elem_of_cons; [apply Hn; by left|]. destruct (Hcome a Hin); [apply Hn; by right|done].
  - assert (∀ j q a, j ≠ i → cs !! j = Some q → a ∈ private p' → a ∉ private q) as Hdis.
    { intros j q a Hj Hq Ha Haq. destruct (Hpriv j q a Hj Hq Haq) as (_ & Hap & Hs & Hn).
      destruct (Hnew a Ha) as [?|[H0|Hin]]; [done|rewrite H0 in Hs; by destruct Hs|apply Hn; by right]. }
    intros j1 j2 q1 q2 a. rewrite !lookup_insert_Some. intros [[<- <-]|[Hj1 Hq1]] [[<- <-]|[Hj2 Hq2]] Hne Ha; [done| | |].
    + by eapply Hdis.
    + intros Ha'. by eapply (Hdis j1 q1 a).
    + by eapply (inv_disjoint _ _ _ _ I j1 j2).
Qed.

(** A step that changes no node. *)
Lemma Inv_quiet N L cs t i p p' L' :
  Inv N L cs t → cs !! i = Some p → locks_ok L' (<[i := p']> cs) → place_ok N t p' →
  (∀ a, a ∈ private p' → a ∈ private p) → Inv N L' (<[i := p']> cs) t.
Proof.
  intros I Hi HL Hp' Hpr. eapply (Inv_change N L cs t i p); try done; [apply I|..]; eauto.
  intros a Ha. by apply (inv_private _ _ _ _ I i p Hi), Hpr.
Qed.
