(* ===== verification/DbThreadsProofs.v ===== *)
(** * Every step of a thread of [DbThreads] keeps the invariant and acts on the
    table at most once. *)

From Stdlib Require Import ZArith Lia Ascii String.
From stdpp Require Import base gmap strings numbers option fin_maps relations list.
From S2P Require Import Prelude Stdio Db DbTree DbProofs DbRemove DbCmd DbThreads DbThreadsInv.

Open Scope Z_scope.
Open Scope list_scope.

(** ** The table in the tree *)

Lemma repr_entries N t a n : repr N t → a ∈ addrs t → N !! a = Some n → (key n, value n) ∈ entries t.
Proof.
  induction t as [|a' k v l IHl r IHr]; [by intros _ ?%not_elem_of_nil|]. intros (_ & Hn & Hl & Hr). cbn [entries addrs].
  intros [->|[Ha|Ha]%elem_of_app]%elem_of_cons Hna.
  - rewrite Hn in Hna. injection Hna as <-. by left.
  - right. apply elem_of_app. auto.
  - right. apply elem_of_app. auto.
Qed.

Lemma tree_entry N t a n :
  holds_tree N t → a ∈ addrs t → N !! a = Some n → to_map t !! key n = Some (value n).
Proof. intros H Ha Hn. apply to_map_entries; [apply H|]. eapply repr_entries; [apply H|done|done]. Qed.

Lemma missing_entry N t k p : holds_tree N t → from k head t p Leaf → to_map t !! k = None.
Proof. intros H [Hs _]%from_locate. rewrite to_map_stop by apply H. by rewrite Hs. Qed.

Lemma toward_in t k a b : toward t k a b → a ∈ head :: addrs t ∧ b ∈ addrs t.
Proof. intros (Hb & u & Hf & <-). split; [by eapply from_in|by eapply from_root]. Qed.

(** The subtree that a thread is about to enter. *)
Lemma toward_tree N t k a b :
  holds_tree N t → toward t k a b →
  ∃ kb v l r, from k head t a (T b kb v l r) ∧ N !! b = Some (Node kb v (root l) (root r)).
Proof.
  intros H (Hb & u & Hf & <-). destruct (from_repr _ _ _ _ _ (ht_head _ _ H) (ht_repr _ _ H) Hf) as [Hu _].
  destruct u as [|a' k' v l r]; [done|]. exists k', v, l, r. by destruct Hu as (_ & ? & _).
Qed.

Lemma holds_tree_frame N N' t :
  holds_tree N t → (∀ a, a ∈ head :: addrs t → N' !! a = N !! a) → holds_tree N' t.
Proof.
  intros [Hh Hr Hn Hb] Hf. split; [|eapply repr_frame; [|done]|done|done].
  - rewrite Hf; [done|by left].
  - intros a Ha. apply Hf. by right.
Qed.

Lemma in_tree_not_head N t a : holds_tree N t → a ∈ addrs t → a ≠ head.
Proof. intros H Ha ->. by pose proof (ht_nodup _ _ H) as [? _]%NoDup_cons. Qed.

Lemma mode_tree N t c a : holds_tree N t → a ∈ addrs t → mode c a = call_write c.
Proof. intros H Ha. unfold mode. by rewrite (proj2 (Z.eqb_neq _ _) (in_tree_not_head _ _ _ H Ha)). Qed.

(** ** Steps *)

(** A step takes no effect on the table, or all of the effect of the call. *)
Definition effect (m : gmap bytes bytes) (p : at_db) (m' : gmap bytes bytes) (p' : at_db) : Prop :=
  phase_of p' = phase_of p ∧ m' = m ∨
  ∃ c, phase_of p = Called c ∧ phase_of p' = Decided (table_call c m).1 ∧ m' = (table_call c m).2.

Section Steps.
Context (env : heap_env) (Henv : env_ok env).
Context (N : gmap Z node) (L : gmap Z held) (cs : gmap Z at_db) (t : tree) (i : Z) (I : Inv N L cs t).

(** The step can be taken and is a good one. *)
Definition good_step (p : at_db) : Prop :=
  ∃ p' N' L', at_step env p (DB N L) = Ok (p', DB N' L') ∧
    (inner p' = true ∨ ∃ t', Inv N' L' (<[i := p']> cs) t' ∧ effect (to_map t) p (to_map t') p').

(** The lock that a thread is about to take. *)
Definition wants (p : at_db) : option Z :=
  match p with Start _ => Some head | LockNext _ _ n => Some n | _ => None end.

Definition waits (p : at_db) : Prop :=
  at_step env p (DB N L) = Err Blocked ∧ ∃ a, wants p = Some a ∧ is_Some (L !! a).

(** A step that reads. *)
Lemma good_read p p' :
  cs !! i = Some p → at_step env p (DB N L) = Ok (p', DB N L) → holds p' ≡ₚ holds p → place_ok N t p' →
  private p' = private p → effect (to_map t) p (to_map t) p' → good_step p.
Proof.
  intros Hi Hs Hh Hp' Hpr He. exists p', N, L. split; [done|]. right. exists t. split; [|done].
  eapply Inv_quiet; [done|done| |done|by rewrite Hpr]. eapply locks_same; [apply I|done|done].
Qed.

(** A step that unlocks. *)
Lemma good_unlock p p' a w :
  cs !! i = Some p → is_Some (N !! a) →
  (∀ d, at_step env p d = (pthread_rwlock_unlock a;; mret p') d) → holds p ≡ₚ (a, w) :: holds p' → place_ok N t p' →
  (∀ b, b ∈ private p' → b ∈ private p) → effect (to_map t) p (to_map t) p' → good_step p.
Proof.
  intros Hi [n Hn] Hs Hh Hp' Hpr He.
  destruct (unlock_step w N L cs i p p' a n (inv_locks _ _ _ _ I) Hi Hn Hh) as (L' & Hu & HL').
  exists p', N, L'. split; [by rewrite Hs, (ST_bind_Ok _ _ _ _ _ Hu)|]. right. exists t. split; [|done].
  by eapply Inv_quiet.
Qed.

Lemma step_start c : cs !! i = Some (Start c) → waits (Start c) ∨ good_step (Start c).
Proof.
  intros Hi. pose proof (inv_place _ _ _ _ I i _ Hi) as Hp. pose proof (ht_head _ _ (inv_tree _ _ _ _ I)) as Hh.
  destruct (lock_step true N L cs i (Start c) (Look c head) head _ (inv_locks _ _ _ _ I) Hi Hh ltac:(done)) as [[Hl Hs]|(L' & Hl & HL')].
  - left. split; [|by exists head]. simpl. by rewrite (ST_bind_Err _ _ _ _ Hl).
  - right. exists (Look c head), N, L'. split; [simpl; by run Hl|]. right. exists t. split; [|by left].
    eapply Inv_quiet; [done|done|done| |done]. split; [done|]. exists t. by left.
Qed.

Lemma step_look c a : cs !! i = Some (Look c a) → good_step (Look c a).
Proof.
  intros Hi. destruct (inv_place _ _ _ _ I i _ Hi) as [Hfit [u Hf]]. pose proof (inv_tree _ _ _ _ I) as Ht.
  destruct (from_repr _ _ _ _ _ (ht_head _ _ Ht) (ht_repr _ _ Ht) Hf) as [Hu (n & Hn & Hside)].
  apply (good_read _ (if root u =? NULL then Miss c a else LockNext c a (root u))); [done|..].
  - simpl. run (node_at_Ok N L a n Hn). unfold side_child in Hside. by rewrite Hside.
  - by destruct (root u =? NULL).
  - destruct (Z.eqb_spec (root u) NULL) as [Hr|Hr]; simpl; [|split; [done|]; split; [done|]; by exists u].
    apply (root_NULL N u Hu) in Hr as ->. done.
  - by destruct (root u =? NULL).
  - left. by destruct (root u =? NULL).
Qed.

Lemma step_lock c a b : cs !! i = Some (LockNext c a b) → waits (LockNext c a b) ∨ good_step (LockNext c a b).
Proof.
  intros Hi. pose proof (inv_place _ _ _ _ I i _ Hi) as Hp. pose proof Hp as [Hfit Hw]. pose proof (inv_tree _ _ _ _ I) as Ht.
  destruct (toward_in _ _ _ _ Hw) as [_ Hb]. destruct (toward_tree _ _ _ _ _ Ht Hw) as (kb & v & l & r & _ & Hn).
  destruct (lock_step (call_write c) N L cs i (LockNext c a b) (Compare c a b) b _ (inv_locks _ _ _ _ I) Hi Hn)
    as [[Hl Hs]|(L' & Hl & HL')].
  - simpl. rewrite (mode_tree N t c b Ht Hb). apply Permutation_swap.
  - left. split; [|by exists b]. simpl. by rewrite (ST_bind_Err _ _ _ _ Hl).
  - right. exists (Compare c a b), N, L'. split; [simpl; by run Hl|]. right. exists t. split; [|by left].
    by eapply Inv_quiet.
Qed.

Lemma step_compare c a b : cs !! i = Some (Compare c a b) → good_step (Compare c a b).
Proof.
  intros Hi. destruct (inv_place _ _ _ _ I i _ Hi) as [Hfit Hw]. pose proof (inv_tree _ _ _ _ I) as Ht.
  destruct (toward_tree _ _ _ _ _ Ht Hw) as (kb & v & l & r & _ & Hn).
  apply (good_read _ (if strcmp (call_key c) kb =? 0 then Hit c a b else Descend c a b)); [done|..].
  - simpl. by run (node_at_Ok N L b _ Hn).
  - by destruct (strcmp (call_key c) kb =? 0).
  - rewrite strcmp_eqb. case_bool_decide; simpl; (split_and!; [done|done|by eexists]).
  - by destruct (strcmp (call_key c) kb =? 0).
  - left. by destruct (strcmp (call_key c) kb =? 0).
Qed.

Lemma step_descend c a b : cs !! i = Some (Descend c a b) → good_step (Descend c a b).
Proof.
  intros Hi. destruct (inv_place _ _ _ _ I i _ Hi) as (Hfit & Hw & n & Hn & Hk). pose proof (inv_tree _ _ _ _ I) as Ht.
  destruct (toward_tree _ _ _ _ _ Ht Hw) as (kb & v & l & r & Hf & Hn'). rewrite Hn in Hn'. injection Hn' as ->.
  destruct (toward_in _ _ _ _ Hw) as [Ha _].
  apply (good_unlock _ (Look c b) a (mode c a)); try done; [by eapply tree_node| |by left].
  split; [done|]. eexists. eapply from_next; [done|]. by apply not_eq_sym.
Qed.

Lemma step_miss c a : cs !! i = Some (Miss c a) → good_step (Miss c a).
Proof.
  intros Hi. destruct (inv_place _ _ _ _ I i _ Hi) as [Hfit Hf]. pose proof (inv_tree _ _ _ _ I) as Ht.
  pose proof (missing_entry _ _ _ _ Ht Hf) as Hk. pose proof (tree_node _ _ _ Ht (from_in _ _ _ _ Hf)) as Hn.
  destruct c as [k len|k v|k]; cbn [call_key] in *.
  - apply (good_unlock _ (Done (Text (snprintf_s len not_found))) a (mode (Query k len) a)); try done.
    right. exists (Query k len). simpl. by rewrite Hk.
  - destruct (proj1 Henv N) as (new & Hm & Hnn & Hfresh). destruct Hfit as [Hlk Hlv].
    assert (good_malloc env (DB N L) new) as Hg by (split_and!; [done..|]; apply Henv).
    pose proof (constructor_Ok env (DB N L) new k v NULL NULL L Hg Hlk Hlv) as Hc. cbn [nodes] in Hc.
    exists (Link k v a new), (<[new := Node k v NULL NULL]> N), L. split; [simpl; by run Hc|]. right. exists t. split; [|by left].
    assert (∀ b, is_Some (N !! b) → <[new := Node k v NULL NULL]> N !! b = N !! b) as Hold.
    { intros b Hb. rewrite lookup_insert_ne; [done|]. intros <-. rewrite Hfresh in Hb. by destruct Hb. }
    assert (new ∉ head :: addrs t) as Hnt.
    { intros Hin%(tree_node _ _ _ Ht). rewrite Hfresh in Hin. by destruct Hin. }
    eapply (Inv_change N L cs t i (Miss (Add k v) a)); try done; eauto.
    + eapply holds_tree_frame; [done|]. intros b Hb. apply Hold. by eapply tree_node.
    + eapply locks_same; [apply I|done|]. simpl. unfold mode. cbn [call_write]. by rewrite orb_true_r.
    + split_and!; [done|done|]. eexists. by rewrite lookup_insert_eq.
    + intros b ->%list_elem_of_singleton. by rewrite lookup_insert_eq.
    + intros b ->%list_elem_of_singleton. auto.
  - apply (good_unlock _ (Done (Code 0)) a (mode (Remove k) a)); try done.
    right. exists (Remove k). simpl. by rewrite Hk.
Qed.

Lemma step_hit c a b : cs !! i = Some (Hit c a b) → good_step (Hit c a b).
Proof.
  intros Hi. destruct (inv_place _ _ _ _ I i _ Hi) as (Hfit & Hw & n & Hn & Hk). pose proof (inv_tree _ _ _ _ I) as Ht.
  destruct (toward_in _ _ _ _ Hw) as [Ha Hb]. pose proof (tree_node _ _ _ Ht Ha) as Hna.
  pose proof (tree_entry _ _ _ _ Ht Hb Hn) as Hent. rewrite Hk in Hent.
  destruct c as [k len|k v|k]; cbn [call_key] in *.
  - apply (good_unlock _ (ReadValue k len b) a (mode (Query k len) a)); try done; [| |by left].
    + simpl. by rewrite (mode_tree N t _ b Ht Hb).
    + split; [done|]. by exists n.
  - apply (good_unlock _ (UnlockAdd b) a (mode (Add k v) a)); try done.
    + simpl. by rewrite (mode_tree N t _ b Ht Hb).
    + right. exists (Add k v). simpl. by rewrite Hent.
  - set (p' := if rchild n =? NULL then Splice k a b (lchild n) else
               if lchild n =? NULL then Splice k a b (rchild n) else Walk k a b b (rchild n)).
    assert (at_step env (Hit (Remove k) a b) (DB N L) = Ok (p', DB N L)) as Hs by (simpl; by run (node_at_Ok N L b n Hn)).
    destruct (inner p') eqn:Hin; [exists p', N, L; auto|].
    assert (mode (Remove k) a = true ∧ mode (Remove k) b = true) as [Hma Hmb].
    { unfold mode. cbn [call_write]. by rewrite !orb_true_r. }
    apply (good_read _ p'); [done|done|..]; unfold p' in *;
      (destruct (Z.eqb_spec (rchild n) NULL) as [Hr|Hr]; [|destruct (Z.eqb_spec (lchild n) NULL) as [Hl|Hl]; [|done]]);
      simpl; rewrite ?Hma, ?Hmb; try done; try (by left); (split; [done|]; exists n; auto).
Qed.

Lemma step_read k len a : cs !! i = Some (ReadValue k len a) → good_step (ReadValue k len a).
Proof.
  intros Hi. destruct (inv_place _ _ _ _ I i _ Hi) as (Ha & n & Hn & <-). pose proof (inv_tree _ _ _ _ I) as Ht.
  apply (good_read _ (UnlockQuery (snprintf_s len (value n)) a)); try done.
  - simpl. by run (node_at_Ok N L a n Hn).
  - right. eexists. split; [done|]. simpl. by rewrite (tree_entry _ _ _ _ Ht Ha Hn).
Qed.

(** The ways past unlocked nodes after a change under [a]. *)
Lemma ways_kept p k0 a b x u' :
  from k0 head t a x → small_change x b u' → stop k0 x = x → (locate k0 a x).2 = a → (a, true) ∈ holds p →
  (x ≠ Leaf → (b, true) ∈ holds p) →
  ∀ k q u, (q, true) ∉ holds p → from k head t q u → ∃ u2, from k head (subst k0 u' t) q u2 ∧ root u2 = root u.
Proof using.
  intros Hf Hx Hstop Hloc Ha Hb k q u Hq Hu. destruct (from_locate _ _ _ _ _ Hf) as [Hs Hl].
  assert ((locate k0 head t).2 = a) as Hla by by rewrite Hl.
  assert (∃ d, small_change (stop k0 t) d u' ∧ q ≠ d) as (d & Hd & Hqd).
  { rewrite Hs, Hstop. destruct x as [|]; [exists (q + 1); split; [by left|lia]|].
    exists b. split; [done|]. intros ->. by apply Hq, Hb. }
  destruct (from_subst k0 u' d k t q u head Hd Hqd Hu) as (u2 & H2 & Hr). exists u2. split; [done|].
  apply Hr. rewrite Hla. by intros ->.
Qed.

Lemma step_link k v a new : cs !! i = Some (Link k v a new) → good_step (Link k v a new).
Proof.
  intros Hi. destruct (inv_place _ _ _ _ I i _ Hi) as (Hf & Hnn & n & Hnew & ->). pose proof (inv_tree _ _ _ _ I) as Ht.
  destruct (inv_private _ _ _ _ I i _ Hi new ltac:(mem)) as [_ Hfresh].
  destruct (tree_node _ _ _ Ht (from_in _ _ _ _ Hf)) as [pn Hpn].
  destruct (grow_tree N t k v a pn new Ht Hf Hpn Hnew Hnn Hfresh) as (Ht' & Hmap & Haddr & Hk).
  set (t' := subst k (T new k v Leaf Leaf) t) in *.
  exists (UnlockParent a), (<[a := with_child k pn new]> N), L.
  split; [simpl; by run (set_child_Ok N L k a pn new Hpn)|]. right. exists t'.
  split; [|right; exists (Add k v); simpl; by rewrite Hk, Hmap].
  assert (a ∈ head :: addrs t') as Ha.
  { pose proof (from_in _ _ _ _ Hf) as [->|Hin]%elem_of_cons; [by left|]. right. rewrite Haddr. by right. }
  eapply (Inv_change N L cs t i (Link k v a new)); try done.
  - by eapply locks_same; [apply I|..].
  - intros b Hb. by apply not_elem_of_nil in Hb.
  - intros b Hb. by apply not_elem_of_nil in Hb.
  - intros b Hb _ _. rewrite lookup_insert_ne; [done|]. intros <-. apply Hb. mem.
  - intros k1 q u. by apply (ways_kept (Link k v a new) k a a Leaf); [done|left|done|done|mem|].
  - intros b _ Hb. rewrite Haddr. by right.
  - intros b. rewrite Haddr. intros [->|Hb]%elem_of_cons; [right; mem|by left].
Qed.

Lemma step_splice k a b c : cs !! i = Some (Splice k a b c) → good_step (Splice k a b c).
Proof.
  intros Hi. destruct (inv_place _ _ _ _ I i _ Hi) as (Hw & n & Hn & Hk & Hc). pose proof (inv_tree _ _ _ _ I) as Ht.
  destruct (toward_tree _ _ _ _ _ Ht Hw) as (kb & v & l & r & Hf & Hn'). rewrite Hn in Hn'. injection Hn' as ->.
  cbn [key lchild rchild] in *. destruct (toward_in _ _ _ _ Hw) as [Ha Hb]. destruct (tree_node _ _ _ Ht Ha) as [pn Hpn].
  destruct (from_repr _ _ _ _ _ (ht_head _ _ Ht) (ht_repr _ _ Ht) Hf) as [(_ & _ & Hl & Hr) _].
  assert (∃ u, (r = Leaf ∧ u = l ∨ l = Leaf ∧ u = r) ∧ c = root u) as (u & Hu & ->).
  { destruct Hc as [[Hr0 ->]|[Hl0 ->]]; [exists l|exists r]; (split; [|done]); [left|right]; (split; [|done]);
      [by apply (root_NULL N r Hr)|by apply (root_NULL N l Hl)]. }
  destruct (splice_tree N t k a pn b kb v l r u Ht Hf Hk Hpn Hu) as (Ht' & Hmap & Haddr & Hent).
  set (t' := subst k u t) in *. pose proof (ht_nodup _ _ Ht) as Hnd. rewrite Haddr in Hnd.
  apply NoDup_cons in Hnd as [Hhd [Hbt _]%NoDup_cons]. apply not_elem_of_cons in Hhd as [Hhb Hht].
  assert (a ≠ b) as Hab.
  { intros ->. destruct (from_locate _ _ _ _ _ Hf) as [_ Hloc]. cbn [locate] in Hloc. rewrite decide_True in Hloc by done.
    pose proof (locate_parent k head t) as Hlp. rewrite Hloc in Hlp. cbn [snd] in Hlp.
    destruct (from_locate _ _ _ _ _ Hf) as [Hs _]. cbn [stop] in Hs. rewrite decide_True in Hs by done.
    pose proof (outer_stop k t) as Hos. rewrite Hs in Hos. pose proof (ht_nodup _ _ Ht) as [_ Hndt]%NoDup_cons.
    rewrite Hos in Hndt. apply NoDup_app in Hndt as (_ & Hdis & _). destruct Hlp as [[-> _]|Hin]; [done|].
    apply (Hdis _ Hin). by left. }
  exists (UnlockPair a b b), (<[a := with_child k pn (root u)]> N), L.
  split; [simpl; run (node_at_Ok N L b _ Hn); cbn [key]; rewrite Hk; by run (set_child_Ok N L k a pn (root u) Hpn)|].
  right. exists t'. split; [|right; exists (Remove k); simpl; by rewrite Hent, Hmap].
  eapply (Inv_change N L cs t i (Splice k a b (root u))); try done.
  - by eapply locks_same; [apply I|..].
  - split; [done|]. apply elem_of_cons in Ha as [->|Ha]; [by left|]. rewrite Haddr in Ha.
    apply elem_of_cons in Ha as [->|Ha]; [done|by right].
  - intros x ->%list_elem_of_singleton. split; [by rewrite lookup_insert_ne, Hn|]. by apply not_elem_of_cons.
  - intros x ->%list_elem_of_singleton. auto.
  - intros x Hx _ _. rewrite lookup_insert_ne; [done|]. intros <-. apply Hx. mem.
  - intros k1 q u1. apply (ways_kept (Splice k a b (root u)) k a b (T b kb v l r)); [done| | | |mem|intros _; mem].
    + right. by exists kb, v, l, r.
    + cbn [stop]. by rewrite decide_True.
    + cbn [locate]. by rewrite decide_True.
  - intros x Hx. rewrite Haddr. intros [->|Hin]%elem_of_cons; [|done]. exfalso. apply Hx. mem.
  - intros x Hx. left. rewrite Haddr. by right.
Qed.

Lemma step_destroy a : cs !! i = Some (Destroy a) → good_step (Destroy a).
Proof.
  intros Hi. pose proof (inv_tree _ _ _ _ I) as Ht. destruct (inv_private _ _ _ _ I i _ Hi a ltac:(mem)) as [[n Hn] Hat].
  assert (L !! a = None) as Hl.
  { apply eq_None_not_Some. intros [h Hh]. destruct (held_by _ _ _ _ (inv_locks _ _ _ _ I) Hh) as (j & q & b & Hj & Hq).
    destruct (decide (j = i)) as [->|Hne]; [rewrite Hi in Hj; injection Hj as <-; by apply not_elem_of_nil in Hq|].
    destruct (holds_in N t q a b (inv_place _ _ _ _ I j q Hj) Hq) as [|Hpr]; [done|].
    apply (inv_disjoint _ _ _ _ I j i q (Destroy a) a Hj Hi Hne Hpr). mem. }
  exists (Done (Code 1)), (delete a N), L. split; [simpl; by run (destructor_Ok N L a n Hn Hl)|].
  right. exists t. split; [|by left]. eapply (Inv_change N L cs t i (Destroy a)); try done; eauto.
  - eapply holds_tree_frame; [done|]. intros b Hb. rewrite lookup_delete_ne; [done|]. by intros <-.
  - by eapply locks_same; [apply I|..].
  - intros b Hb. by apply not_elem_of_nil in Hb.
  - intros b Hb. by apply not_elem_of_nil in Hb.
  - intros b _ Hb _. rewrite lookup_delete_ne; [done|]. intros <-. apply Hb. mem.
Qed.

(** A thread that is not done waits for a lock or takes a good step. *)
Lemma step_good p : cs !! i = Some p → (∀ r, p ≠ Done r) → waits p ∨ good_step p.
Proof.
  intros Hi Hd. pose proof (inv_place _ _ _ _ I i p Hi) as Hp. pose proof (inv_tree _ _ _ _ I) as Ht.
  pose proof (inv_private _ _ _ _ I i p Hi) as Hpr.
  destruct p; try done; try (right; by first [apply step_look|apply step_compare|apply step_descend|apply step_miss|apply step_hit|apply step_read|apply step_link|apply step_splice|apply step_destroy]).
  - by apply step_start.
  - by apply step_lock.
  - right. apply (good_unlock _ (Done (Text b)) target false); try done; [|by left]. eapply tree_node; [done|by right].
  - right. apply (good_unlock _ (Done (Code 0)) target true); try done; [|by left]. eapply tree_node; [done|by right].
  - right. apply (good_unlock _ (Done (Code 1)) parent true); try done; [|by left]. by eapply tree_node.
  - destruct Hp as [-> Hp]. right. apply (good_unlock _ (UnlockDnode dnode dnode) parent true); try done; [|by left]. by eapply tree_node.
  - simpl in Hp. subst victim. right. apply (good_unlock _ (Destroy dnode) dnode true); try done; [|by left]. apply Hpr. mem.
  - by destruct (Hd r).
Qed.
End Steps.

(** ** Runs *)

(** The nodes hold a tree of the table [m]. *)
Definition table_is (d : db_state) (m : gmap bytes bytes) : Prop :=
  ∃ t, holds_tree (nodes d) t ∧ to_map t = m.

Definition phases_of (s : shared) : gmap Z phase := phase_of <$> callers s.

Lemma repr_unique N t1 : ∀ t2, repr N t1 → repr N t2 → root t1 = root t2 → t1 = t2.
Proof.
  induction t1 as [|a k v l IHl r IHr]; intros t2 H1 H2 Hr.
  { symmetry. apply (root_NULL N t2 H2). by rewrite <- Hr. }
  destruct t2 as [|a2 k2 v2 l2 r2]; [by destruct H1|]. simpl in Hr. subst a2.
  destruct H1 as (_ & Hn1 & Hl1 & Hr1), H2 as (_ & Hn2 & Hl2 & Hr2). rewrite Hn1 in Hn2. injection Hn2 as -> -> Hl Hr.
  by rewrite (IHl l2), (IHr r2).
Qed.

Lemma holds_tree_unique N t1 t2 : holds_tree N t1 → holds_tree N t2 → t1 = t2.
Proof.
  intros H1 H2. apply (repr_unique N); [apply H1|apply H2|]. pose proof (ht_head _ _ H1) as E1.
  pose proof (ht_head _ _ H2) as E2. rewrite E1 in E2. by injection E2.
Qed.

Section Runs.
Context (env : heap_env) (Henv : env_ok env).

Definition shared_ok (s : shared) (t : tree) : Prop := Inv (nodes (mem s)) (locks (mem s)) (callers s) t.

Lemma shared_table s t : shared_ok s t → table_is (mem s) (to_map t).
Proof. intros I. exists t. split; [apply I|done]. Qed.

Lemma start_ok : shared_ok start_shared Leaf.
Proof.
  unfold shared_ok, start_shared. cbn [mem callers].
  split; [|intros a; split; done|by intros i p ?%lookup_empty_Some..|by intros i j p q a ?%lookup_empty_Some].
  split; [done|done|apply NoDup_singleton|done].
Qed.

Lemma idle_holds s i p : idle i s → callers s !! i = Some p → holds p = [] ∧ private p = [].
Proof. unfold idle. intros Hi Hp. rewrite Hp in Hi. by destruct p. Qed.

(** A call begins. *)
Lemma call_ok s t i c :
  shared_ok s t → idle i s → fits c → shared_ok (Shared (mem s) (<[i := Start c]> (callers s))) t.
Proof.
  intros I Hidle Hfit. split; cbn [mem callers nodes locks].
  - apply I.
  - apply locks_new; [apply I| |done]. intros q Hq. by apply (idle_holds s i).
  - intros j q. rewrite lookup_insert_Some. intros [[<- <-]|[_ Hq]]; [done|by apply (inv_place _ _ _ _ I j)].
  - intros j q. rewrite lookup_insert_Some. intros [[<- <-]|[_ Hq]]; [|by apply (inv_private _ _ _ _ I j)].
    intros a Ha. by apply not_elem_of_nil in Ha.
  - intros j1 j2 q1 q2 a. rewrite !lookup_insert_Some. intros [[<- <-]|[_ Hq1]] [[<- <-]|[_ Hq2]] Hne Ha; try done.
    + by apply not_elem_of_nil in Ha.
    + by apply not_elem_of_nil.
    + by apply (inv_disjoint _ _ _ _ I j1 j2 q1 q2 a).
Qed.

(** One move is a move of the table or none. *)
Definition atomic_or_not (s : shared) (m : gmap bytes bytes) (s' : shared) (m' : gmap bytes bytes) : Prop :=
  phases_of s' = phases_of s ∧ m' = m ∨ atomic_move (Atomic m (phases_of s)) (Atomic m' (phases_of s')).

Lemma move_ok s t s' :
  shared_ok s t → outer_move env s s' → ∃ t', shared_ok s' t' ∧ atomic_or_not s (to_map t) s' (to_map t').
Proof.
  intros I [Hm Hout]. destruct Hm as [i c s Hidle Hfit|i s s' Hrun].
  - exists t. split; [by apply call_ok|]. right. unfold phases_of. cbn [callers]. rewrite fmap_insert. cbn [phase_of].
    apply (atomic_call i c (Atomic (to_map t) (phases_of s))). unfold phases_of. cbn [phases]. rewrite lookup_fmap.
    unfold idle in Hidle. by destruct (callers s !! i) as [[]|].
  - unfold run_thread in Hrun. destruct (callers s !! i) as [p|] eqn:Hi; [|done]. destruct s as [[N L] cs]. cbn [mem callers] in *.
    destruct (at_step env p (DB N L)) as [[p' d]|] eqn:Hs; [|done]. injection Hrun as <-.
    assert (∀ r, p ≠ Done r) as Hd by by intros r ->.
    destruct (step_good env Henv N L cs t i I p Hi Hd) as [[Hw _]|(p1 & N' & L' & Hs' & Hgood)]; [by rewrite Hs in Hw|].
    rewrite Hs in Hs'. injection Hs' as <- ->. destruct Hgood as [Hin|(t' & I' & He)].
    { rewrite (Hout i p') in Hin; [done|]. cbn [callers]. by rewrite lookup_insert_eq. }
    exists t'. split; [done|]. unfold atomic_or_not, phases_of. cbn [callers]. rewrite fmap_insert.
    assert ((phase_of <$> cs) !! i = Some (phase_of p)) as Hph by by rewrite lookup_fmap, Hi.
    destruct He as [[-> ->]|(c & Hc & -> & ->)]; [left; split; [by apply insert_id|done]|]. right.
    apply (atomic_effect i c (Atomic (to_map t) (phases_of (Shared (DB N L) cs)))). by rewrite <- Hc.
Qed.

Lemma outer_run_ok s :
  rtc (outer_move env) start_shared s →
  ∃ t, shared_ok s t ∧ rtc atomic_move (Atomic ∅ ∅) (Atomic (to_map t) (phases_of s)).
Proof.
  revert s. apply rtc_ind_r; [exists Leaf; split; [apply start_ok|apply rtc_refl]|].
  intros s s' _ Hm (t & I & Ha). destruct (move_ok s t s' I Hm) as (t' & I' & Hstep). exists t'. split; [done|].
  destruct Hstep as [[-> ->]|Hstep]; [done|]. by eapply rtc_r.
Qed.

(** A step fails only because the thread waits, or has nothing to do. *)
Lemma thread_faults s t i f : shared_ok s t → run_thread env i s = Err f → f = Blocked.
Proof.
  intros I. unfold run_thread. destruct (callers s !! i) as [p|] eqn:Hi; [|by intros [= <-]].
  destruct s as [[N L] cs]. cbn [mem callers] in *.
  assert ({∃ r, p = Done r} + {∀ r, p ≠ Done r}) as [[r ->]|Hd] by (destruct p; first [by right|by left; eexists]).
  { by intros [= <-]. }
  destruct (step_good env Henv N L cs t i I p Hi Hd) as [[-> _]|(p1 & N' & L' & -> & _)]; [by intros [= <-]|done].
Qed.

(** ** No deadlock *)

Lemma runs_on s t i p :
  shared_ok s t → callers s !! i = Some p → (∀ r, p ≠ Done r) → wants p = None → ∃ s', run_thread env i s = Ok s'.
Proof.
  intros I Hi Hd Hw. destruct s as [[N L] cs]. cbn [mem callers] in *.
  destruct (step_good env Henv N L cs t i I p Hi Hd) as [[_ (a & Ha & _)]|(p1 & N' & L' & Hs & _)]; [by rewrite Hw in Ha|].
  eexists. unfold run_thread. cbn [callers mem]. by rewrite Hi, Hs.
Qed.

(** A thread that waits for the root of [u], or holds it, leads to one that can
    move. *)
Lemma chain_moves s t u :
  shared_ok s t → repr (nodes (mem s)) u →
  ∀ i c a, callers s !! i = Some (LockNext c a (root u)) → root u ≠ NULL → ∃ j s', run_thread env j s = Ok s'.
Proof.
  intros I. induction u as [|b k v l IHl r IHr]; intros Hu i c a Hi Hb; [done|]. destruct s as [[N L] cs]. cbn [mem callers nodes root] in *.
  destruct Hu as (_ & Hn & Hl & Hr).
  destruct (step_good env Henv N L cs t i I _ Hi ltac:(done)) as [[_ (x & [= <-] & [h Hh])]|(p1 & N' & L' & Hs & _)].
  2:{ exists i. eexists. unfold run_thread. cbn [callers mem]. by rewrite Hi, Hs. }
  destruct (held_by _ _ _ _ (inv_locks _ _ _ _ I) Hh) as (j & q & w & Hj & Hq).
  assert (∀ r, q ≠ Done r) as Hqd by (intros r0 ->; by apply not_elem_of_nil in Hq).
  destruct (wants q) as [x|] eqn:Hw; [|exists j; by eapply (runs_on (Shared (DB N L) cs) t j q)].
  destruct q; try done; [by apply not_elem_of_nil in Hq|]. apply list_elem_of_singleton in Hq as [= <- _].
  pose proof (inv_place _ _ _ _ I j _ Hj) as [_ (Hnx & u' & Hf & Hru)]. pose proof (inv_tree _ _ _ _ I) as Ht.
  destruct (from_repr _ _ _ _ _ (ht_head _ _ Ht) (ht_repr _ _ Ht) Hf) as [_ (n & Hn' & Hside)].
  cbn [mem nodes callers] in *. subst next. rewrite Hn in Hn'. injection Hn' as <-. unfold side_child in Hside. cbn [key lchild rchild] in Hside.
  destruct (strcmp (call_key c0) k <? 0).
  - apply (IHl Hl j c0 b); by rewrite Hside.
  - apply (IHr Hr j c0 b); by rewrite Hside.
Qed.

Lemma some_moves s t i p :
  shared_ok s t → callers s !! i = Some p → (∀ r, p ≠ Done r) → ∃ j s', run_thread env j s = Ok s'.
Proof.
  intros I Hi Hd.
  assert (∀ j c a b, callers s !! j = Some (LockNext c a b) → ∃ j s', run_thread env j s = Ok s') as Hlock.
  { intros j c a b Hj. pose proof (inv_place _ _ _ _ I j _ Hj) as [_ (Hb & u & Hf & <-)]. pose proof (inv_tree _ _ _ _ I) as Ht.
    destruct (from_repr _ _ _ _ _ (ht_head _ _ Ht) (ht_repr _ _ Ht) Hf) as [Hu _]. by eapply chain_moves. }
  destruct (wants p) as [x|] eqn:Hw; [|exists i; by eapply runs_on].
  destruct p; try done; [|by eapply Hlock]. destruct s as [[N L] cs]. cbn [mem callers] in *.
  destruct (step_good env Henv N L cs t i I _ Hi Hd) as [[_ (y & [= <-] & [h Hh])]|(p1 & N' & L' & Hs & _)].
  2:{ exists i. eexists. unfold run_thread. cbn [callers mem]. by rewrite Hi, Hs. }
  destruct (held_by _ _ _ _ (inv_locks _ _ _ _ I) Hh) as (j & q & w & Hj & Hq).
  assert (∀ r, q ≠ Done r) as Hqd by (intros r0 ->; by apply not_elem_of_nil in Hq).
  destruct (wants q) as [x0|] eqn:Hwq; [|exists j; by eapply (runs_on (Shared (DB N L) cs) t j q)].
  destruct q; try done; [by apply not_elem_of_nil in Hq|]. by eapply Hlock.
Qed.
End Runs.
