(* ===== verification/DbThreadsClaims.v ===== *)
(** * Properties of the database under several threads. *)

From Stdlib Require Import ZArith Lia Ascii String.
From stdpp Require Import base gmap strings numbers option fin_maps relations list.
From S2P Require Import Prelude Stdio Db DbTree DbProofs DbRemove DbCmd DbClaims DbThreads DbThreadsAlone DbThreadsInv DbThreadsProofs.

Open Scope Z_scope.
Open Scope list_scope.

(** ** Schedules *)

(** Thread [i] calls an operation, or goes on. *)
Inductive act := Call (i : Z) (c : call) | Step (i : Z).

#[export] Instance idle_dec i s : Decision (idle i s).
Proof. unfold idle. destruct (callers s !! i) as [[]|]; apply _. Defined.

#[export] Instance fits_dec c : Decision (fits c).
Proof. destruct c; simpl; apply _. Defined.

Definition act_on (a : act) (s : shared) : option shared :=
  match a with
  | Call i c => if decide (idle i s ∧ fits c) then Some (Shared (mem s) (<[i := Start c]> (callers s))) else None
  | Step i => match run_thread roomy i s with Ok s' => Some s' | Err _ => None end
  end.

Fixpoint play (l : list act) (s : shared) : option shared :=
  match l with [] => Some s | a :: l' => match act_on a s with Some s' => play l' s' | None => None end end.

Lemma act_move a s s' : act_on a s = Some s' → move roomy s s'.
Proof.
  destruct a as [i c|i]; simpl.
  - case_decide as Hd; [|done]. intros [= <-]. destruct Hd. by apply move_call.
  - destruct (run_thread roomy i s) eqn:Hr; [|done]. intros [= <-]. by eapply move_step.
Qed.

Lemma play_rtc l : ∀ s s', play l s = Some s' → rtc (move roomy) s s'.
Proof.
  induction l as [|a l IH]; intros s s'; cbn [play]; [intros [= <-]; apply rtc_refl|].
  destruct (act_on a s) as [s1|] eqn:Ha; [|done]. intros Hp. eapply rtc_l; [by eapply act_move|by apply IH].
Qed.

(** Whether the schedule avoids the two-children case. *)
Fixpoint avoids (l : list act) (s : shared) : bool :=
  match l with
  | [] => true
  | a :: l' =>
      match act_on a s with
      | Some s' => bool_decide (map_Forall (λ _ p, inner p = false) (callers s')) && avoids l' s'
      | None => true
      end
  end.

Lemma play_outer l : ∀ s s', play l s = Some s' → avoids l s = true → rtc (outer_move roomy) s s'.
Proof.
  induction l as [|a l IH]; intros s s'; cbn [play avoids]; [intros [= <-] _; apply rtc_refl|].
  destruct (act_on a s) as [s1|] eqn:Ha; [|done]. intros Hp [Hb Hl]%andb_true_iff. apply bool_decide_eq_true in Hb.
  eapply rtc_l; [split; [by eapply act_move|exact Hb]|by apply IH].
Qed.

Definition steps (i : Z) (n : nat) : list act := replicate n (Step i).

(** A call run by one thread without interruption. *)
Definition whole (i : Z) (c : call) (n : nat) : list act := Call i c :: steps i n.

Definition state_after (l : list act) (s : shared) : shared := match play l s with Some s' => s' | None => s end.

(** Two additions and a query of a key that is being removed. *)
Definition busy : list act :=
  whole 1 (Add (text "m") (text "1")) 5 ++ whole 1 (Add (text "x") (text "2")) 9 ++
  [Call 2 (Add (text "c") (text "3")); Call 3 (Remove (text "x")); Call 4 (Query (text "x") 256)] ++
  steps 2 6 ++ steps 3 2 ++ steps 2 3 ++ steps 3 7 ++ steps 4 2.

Lemma busy_run : rtc (outer_move roomy) start_shared (state_after busy start_shared).
Proof.
  apply (play_outer busy); [|by vm_compute].
  assert (is_Some (play busy start_shared)) as [s Hs] by (by vm_compute; eexists).
  unfold state_after. by rewrite Hs.
Qed.

(** C3: the database is linearizable.  In a run in which no thread is in the
    two-children case of [db_remove], the nodes hold a table at every moment,
    and each move of a thread is no move of the table or one atomic move: a
    call takes its whole effect in one step between its begin and its end, and
    then returns the reply that the table gave it. *)
Theorem db_linearizable (env : heap_env) (s : shared) :
  env_ok env → rtc (outer_move env) start_shared s →
  ∃ m, table_is (mem s) m ∧ rtc atomic_move (Atomic ∅ ∅) (Atomic m (phases_of s)) ∧
    ∀ s', outer_move env s s' → ∃ m', table_is (mem s') m' ∧ atomic_or_not s m s' m'.
Proof.
  intros Henv Hr. destruct (outer_run_ok env Henv s Hr) as (t & I & Ha). exists (to_map t).
  split_and!; [by apply shared_table|done|]. intros s' Hm.
  destruct (move_ok env Henv s t s' I Hm) as (t' & I' & Hstep). exists (to_map t'). split; [by apply shared_table|done].
Qed.

Lemma db_linearizable_witness :
  ∃ m, table_is (mem (state_after busy start_shared)) m ∧
    rtc atomic_move (Atomic ∅ ∅) (Atomic m (phases_of (state_after busy start_shared))) ∧
    ∀ s', outer_move roomy (state_after busy start_shared) s' →
      ∃ m', table_is (mem s') m' ∧ atomic_or_not (state_after busy start_shared) m s' m'.
Proof. apply (db_linearizable roomy); [apply roomy_ok|apply busy_run]. Defined.

(** C7: in such a run no step of a thread faults (no freed node is touched, no
    lock is given back that is not held, no held lock is destroyed), and there
    is no deadlock: unless all calls have returned, some thread can move. *)
Theorem db_threads_safe (env : heap_env) (s : shared) :
  env_ok env → rtc (outer_move env) start_shared s →
  (∀ i f, run_thread env i s = Err f → f = Blocked) ∧
  ((∃ i p, callers s !! i = Some p ∧ ∀ r, p ≠ Done r) → ∃ i s', run_thread env i s = Ok s').
Proof.
  intros Henv Hr. destruct (outer_run_ok env Henv s Hr) as (t & I & _). split.
  - intros i f. by apply (thread_faults env Henv s t).
  - intros (i & p & Hi & Hp). by eapply some_moves.
Qed.

Lemma db_threads_safe_witness :
  (∀ i f, run_thread roomy i (state_after busy start_shared) = Err f → f = Blocked) ∧
  ((∃ i p, callers (state_after busy start_shared) !! i = Some p ∧ ∀ r, p ≠ Done r) →
   ∃ i s', run_thread roomy i (state_after busy start_shared) = Ok s').
Proof. apply (db_threads_safe roomy); [apply roomy_ok|apply busy_run]. Defined.



(** ** The two-children case *)

(** The key ["m"] with ["c"] on its left and ["x"] on its right, whose left child
    ["t"] comes next after ["m"]. *)
Definition grown : list act :=
  whole 0 (Add (text "m") (text "1")) 5 ++ whole 0 (Add (text "c") (text "2")) 9 ++
  whole 0 (Add (text "x") (text "3")) 9 ++ whole 0 (Add (text "t") (text "4")) 13.

(** A query of ["t"] gets so far, then ["m"] is removed, then the query goes on. *)
Definition overtaken (before after : nat) : list act :=
  whole 2 (Query (text "t") 256) before ++ whole 1 (Remove (text "m")) 12 ++ steps 2 after.

(** C37: the two-children case of [db_remove] takes the successor away without
    locking the way to it.  A query that is about to lock the successor locks a
    freed node; and a query that is just above it answers "not found" for a key
    that is in the database before and after and that no thread removes. *)
Theorem db_remove_race :
  (∃ s, rtc (move roomy) start_shared s ∧ run_thread roomy 2 s = Err BadAccess) ∧
  (∃ s s', rtc (move roomy) start_shared s ∧ (∀ i p, callers s !! i = Some p → ∃ r, p = Done r) ∧
     play (overtaken 9 2) s = Some s' ∧ callers s' !! 2 = Some (Done (Text not_found)) ∧
     (∃ d, db_query (text "t") 256 (mem s) = Ok (text "4", d)) ∧
     (∃ d, db_query (text "t") 256 (mem s') = Ok (text "4", d))).
Proof.
  split.
  - exists (state_after (grown ++ overtaken 10 0) start_shared). split; [|by vm_compute].
    apply (play_rtc (grown ++ overtaken 10 0)). by vm_compute.
  - exists (state_after grown start_shared), (state_after (grown ++ overtaken 9 2) start_shared). split_and!.
    + apply (play_rtc grown). by vm_compute.
    + assert (callers (state_after grown start_shared) = {[0 := Done (Code 1)]}) as -> by by vm_compute.
      intros i p [_ <-]%lookup_singleton_Some. by eexists.
    + by vm_compute.
    + by vm_compute.
    + eexists. by vm_compute.
    + eexists. by vm_compute.
Qed.
