(* ===== verification/Jobs.v ===== *)
(** * The job list of the shell: [5-shell-2-haininz/jobs.c].

    A singly linked list of heap-allocated elements with an iterator
    ([current]) that survives additions and removals.  The model keeps the
    elements by address; the abstraction is the list of jobs cut at the
    iterator. *)

From Stdlib Require Import ZArith Lia Ascii String.
From stdpp Require Import base gmap strings numbers option list.
From S2P Require Import Prelude Stdio.

Open Scope Z_scope.
Open Scope list_scope.

Inductive process_state_t := RUNNING | STOPPED.

#[export] Instance process_state_eq_dec : EqDecision process_state_t.
Proof. solve_decision. Defined.

(** [job_element_t]: what it says of a job, and its [next] pointer. *)
Record job := Job {
  jid : Z;
  pid : Z;
  state : process_state_t;
  command : bytes;
}.

Record job_element := Elem { job_of : job; next : Z }.

Record job_list := JobList {
  elems : gmap Z job_element;   (** the live elements by address *)
  head : Z;
  current : Z;
  shell_pid : Z;
}.

Abbreviation jl := (ST job_list).

Definition set_elems (e : gmap Z job_element) (J : job_list) : job_list :=
  JobList e (head J) (current J) (shell_pid J).
Definition set_head (h : Z) (J : job_list) : job_list :=
  JobList (elems J) h (current J) (shell_pid J).
Definition set_current (c : Z) (J : job_list) : job_list :=
  JobList (elems J) (head J) c (shell_pid J).

Definition elem_at (a : Z) : jl job_element := λ J, deref (elems J !! a) J.
Definition put_elem (a : Z) (e : job_element) : jl unit :=
  elem_at a;; modify (λ J, set_elems (<[a := e]> (elems J)) J).

(** [free(cur->command); free(cur)] *)
Definition free_elem (a : Z) : jl unit :=
  elem_at a;; modify (λ J, set_elems (delete a (elems J)) J).

(** The operations test [job_list == NULL] first. *)
Definition or_null {A} (d : A) (m : jl A) : ST (option job_list) A := λ s,
  match s with
  | None => Ok (d, None)
  | Some J => match m J with Ok (a, J') => Ok (a, Some J') | Err e => Err e end
  end.

(** Iterations of a loop over the list. *)
Definition list_fuel (J : job_list) : nat := S (size (elems J)).

(** [init_job_list]; [getpid] is the answer of the system. *)
Definition init_job_list (getpid : Z) : job_list := JobList ∅ NULL NULL getpid.

(** The loop of [cleanup_job_list]: the processes killed. *)
Fixpoint cleanup_loop (fuel : nat) (getpid cur : Z) : jl (list Z) :=
  match fuel with
  | O => fail NoFuel
  | S fuel' =>
      if cur =? NULL then mret []
      else
        e ← elem_at cur;
        J ← get;
        let killed := if getpid =? shell_pid J then [- pid (job_of e)] else [] in
        free_elem cur;;
        rest ← cleanup_loop fuel' getpid (next e);
        mret (killed ++ rest)
  end.

(** [cleanup_job_list]: the list itself is freed at the end. *)
Definition cleanup_job_list (getpid : Z) : ST (option job_list) (list Z) := λ s,
  match s with
  | None => Ok ([], None)
  | Some J =>
      match cleanup_loop (list_fuel J) getpid (head J) J with
      | Ok (killed, _) => Ok (killed, None)
      | Err e => Err e
      end
  end.

(** The walk to the last element. *)
Fixpoint last_elem (fuel : nat) (cur : Z) : jl Z :=
  match fuel with
  | O => fail NoFuel
  | S fuel' => e ← elem_at cur; if next e =? NULL then mret cur else last_elem fuel' (next e)
  end.

(** [add_job]; [malloc] gives the address of the new element, or NULL, which the
    code does not expect. *)
Definition add_job (malloc : gmap Z job_element → option Z)
    (jid pid : Z) (state : process_state_t) (command : option bytes) : jl Z :=
  match command with
  | None => mret (-1)
  | Some command =>
      J ← get;
      new ← deref (malloc (elems J));
      modify (λ J, set_elems (<[new := Elem (Job jid pid state command) NULL]> (elems J)) J);;
      (if head J =? NULL then
         modify (set_head new);;
         modify (set_current new)
       else
         cur ← last_elem (list_fuel J) (head J);
         e ← elem_at cur;
         put_elem cur (Elem (job_of e) new));;
      mret 0
  end.

(** The loop of [remove_job_jid] and [remove_job_pid], which differ in the test. *)
Fixpoint remove_loop (fuel : nat) (test : job → bool) (prev cur : Z) : jl Z :=
  match fuel with
  | O => fail NoFuel
  | S fuel' =>
      if cur =? NULL then mret (-1)
      else
        e ← elem_at cur;
        if test (job_of e) then
          (if negb (prev =? NULL) then
             p ← elem_at prev; put_elem prev (Elem (job_of p) (next e))
           else mret tt);;
          J ← get;
          (if head J =? cur then modify (set_head (next e)) else mret tt);;
          (if current J =? cur then modify (set_current (next e)) else mret tt);;
          free_elem cur;;
          mret 0
        else remove_loop fuel' test cur (next e)
  end.

Definition remove_job (test : job → bool) : jl Z :=
  J ← get; remove_loop (list_fuel J) test NULL (head J).

Definition remove_job_jid (j : Z) : jl Z := remove_job (λ b, jid b =? j).
Definition remove_job_pid (p : Z) : jl Z := remove_job (λ b, pid b =? p).

(** The loop of [update_job_jid] and [update_job_pid]. *)
Fixpoint update_loop (fuel : nat) (test : job → bool) (st : process_state_t) (cur : Z) : jl Z :=
  match fuel with
  | O => fail NoFuel
  | S fuel' =>
      if cur =? NULL then mret (-1)
      else
        e ← elem_at cur;
        if test (job_of e) then
          put_elem cur (Elem (Job (jid (job_of e)) (pid (job_of e)) st (command (job_of e))) (next e));;
          mret 0
        else update_loop fuel' test st (next e)
  end.

Definition update_job (test : job → bool) (st : process_state_t) : jl Z :=
  J ← get; update_loop (list_fuel J) test st (head J).

Definition update_job_jid (j : Z) (st : process_state_t) : jl Z := update_job (λ b, jid b =? j) st.
Definition update_job_pid (p : Z) (st : process_state_t) : jl Z := update_job (λ b, pid b =? p) st.

(** The loop of [get_job_pid] and [get_job_jid]. *)
Fixpoint get_loop (fuel : nat) (test : job → bool) (proj : job → Z) (cur : Z) : jl Z :=
  match fuel with
  | O => fail NoFuel
  | S fuel' =>
      if cur =? NULL then mret (-1)
      else
        e ← elem_at cur;
        if test (job_of e) then mret (proj (job_of e)) else get_loop fuel' test proj (next e)
  end.

Definition get_job (test : job → bool) (proj : job → Z) : jl Z :=
  J ← get; get_loop (list_fuel J) test proj (head J).

Definition get_job_pid (j : Z) : jl Z := get_job (λ b, jid b =? j) pid.
Definition get_job_jid (p : Z) : jl Z := get_job (λ b, pid b =? p) jid.

(** [get_next_pid] *)
Definition get_next_pid : jl Z :=
  J ← get;
  if current J =? NULL then
    modify (set_current (head J));;
    mret (-1)
  else
    e ← elem_at (current J);
    modify (set_current (next e));;
    mret (pid (job_of e)).

(** The bytes of a string literal. *)
Definition lit (s : String.string) : bytes := String.list_ascii_of_string s.

(** The line [jobs] prints for a job. *)
Definition job_line (j : job) : bytes :=
  lit "[" ++ print_dec (jid j) ++ lit "] (" ++ print_dec (pid j) ++ lit ") " ++
  (if decide (state j = RUNNING) then lit "Running" else lit "Stopped") ++ lit " " ++
  command j ++ [chr 10].

(** [jobs]: the lines printed; [printf_ok n] says whether the [n]-th call of
    [printf] succeeds, and a failure ends the shell. *)
Fixpoint jobs_loop (printf_ok : nat → bool) (fuel n : nat) (cur : Z) : jl bytes :=
  match fuel with
  | O => fail NoFuel
  | S fuel' =>
      if cur =? NULL then mret []
      else
        e ← elem_at cur;
        if negb (printf_ok n) then fail (Exit 1)
        else
          rest ← jobs_loop printf_ok fuel' (S n) (next e);
          mret (job_line (job_of e) ++ rest)
  end.

Definition jobs (printf_ok : nat → bool) : jl bytes :=
  J ← get; jobs_loop printf_ok (list_fuel J) 0 (head J).

(** ** Lists in memory *)

(** The list of elements from [p] on. *)
Fixpoint chain (E : gmap Z job_element) (p : Z) (l : list (Z * job)) : Prop :=
  match l with
  | [] => p = NULL
  | (a, j) :: l' => p = a ∧ a ≠ NULL ∧ ∃ n, E !! a = Some (Elem j n) ∧ chain E n l'
  end.

(** The address of the first element. *)
Definition first (l : list (Z * job)) : Z := match l with [] => NULL | (a, _) :: _ => a end.

(** The invariant: the elements are exactly those of the list, and the iterator
    is at the first element of [todo], or NULL when there is none. *)
Record list_ok (J : job_list) (done todo : list (Z * job)) : Prop := {
  lo_chain : chain (elems J) (head J) (done ++ todo);
  lo_nodup : NoDup ((done ++ todo).*1);
  lo_dom : dom (elems J) = list_to_set ((done ++ todo).*1);
  lo_current : current J = first todo;
}.

Lemma chain_first E p l : chain E p l → p = first l.
Proof. destruct l as [|[a j] l]; simpl; [done|]. by intros (-> & _). Qed.

Lemma chain_frame E E' p l : (∀ a, a ∈ l.*1 → E' !! a = E !! a) → chain E p l → chain E' p l.
Proof.
  revert p. induction l as [|[a j] l IH]; intros p Hf; [done|]. csimpl in *.
  intros (-> & Ha & n & Hn & Hc). split_and!; [done|done|]. exists n.
  rewrite Hf by set_solver. split; [done|]. apply IH; [set_solver|done].
Qed.

(** An element in the middle, with its pointer to the rest. *)
Lemma chain_mid E p l1 a j l2 :
  chain E p (l1 ++ (a, j) :: l2) → a ≠ NULL ∧ E !! a = Some (Elem j (first l2)) ∧ chain E (first l2) l2.
Proof.
  revert p. induction l1 as [|[b k] l1 IH]; intros p; simpl.
  - intros (-> & Ha & n & Hn & Hc). rewrite <-(chain_first _ _ _ Hc). done.
  - intros (_ & _ & n & _ & Hc). by eapply IH.
Qed.

Lemma list_length J done todo : list_ok J done todo → (length (done ++ todo) < list_fuel J)%nat.
Proof.
  intros H. unfold list_fuel. rewrite <-size_dom, (lo_dom _ _ _ H), size_list_to_set by apply H.
  rewrite length_fmap. lia.
Qed.

Lemma elem_at_Ok J a e : elems J !! a = Some e → elem_at a J = Ok (e, J).
Proof. unfold elem_at. by intros ->. Qed.

Lemma put_elem_Ok J a e e0 :
  elems J !! a = Some e0 → put_elem a e J = Ok (tt, set_elems (<[a := e]> (elems J)) J).
Proof. intros Ha. unfold put_elem. by run (elem_at_Ok J a e0 Ha). Qed.

Lemma free_elem_Ok J a e0 :
  elems J !! a = Some e0 → free_elem a J = Ok (tt, set_elems (delete a (elems J)) J).
Proof. intros Ha. unfold free_elem. by run (elem_at_Ok J a e0 Ha). Qed.

(** ** Searching *)

(** The first job that passes the test. *)
Fixpoint first_job (test : job → bool) (l : list (Z * job)) : option job :=
  match l with
  | [] => None
  | (_, j) :: l' => if test j then Some j else first_job test l'
  end.

(** A job of the list that passes the test, and those before it, which do not. *)
Lemma first_job_split test l j :
  first_job test l = Some j →
  ∃ l1 a l2, l = l1 ++ (a, j) :: l2 ∧ test j = true ∧ first_job test l1 = None.
Proof.
  induction l as [|[b k] l IH]; simpl; [done|]. destruct (test k) eqn:Hk.
  - intros [= ->]. by exists [], b, l.
  - intros (l1 & a & l2 & -> & Hj & H1)%IH. exists ((b, k) :: l1), a, l2. simpl. by rewrite Hk.
Qed.

Lemma first_job_app test d t :
  first_job test (d ++ t) = match first_job test d with Some j => Some j | None => first_job test t end.
Proof. induction d as [|[a j] d IH]; simpl; [done|]. by destruct (test j). Qed.

Lemma get_loop_Ok test proj J p l fuel :
  chain (elems J) p l → (length l < fuel)%nat →
  get_loop fuel test proj p J =
    Ok (match first_job test l with Some j => proj j | None => -1 end, J).
Proof.
  revert p fuel. induction l as [|[a j] l IH]; intros p [|fuel] Hc Hfuel; try (simpl in Hfuel; lia).
  - simpl in Hc. by subst p.
  - destruct Hc as (-> & Ha & n & Hn & Hc). cbn [get_loop first_job].
    rewrite (proj2 (Z.eqb_neq _ _) Ha). run (elem_at_Ok J a _ Hn). cbn [job_of next].
    destruct (test j); [done|]. apply IH; [done|]. simpl in Hfuel. lia.
Qed.

(** ** Updates *)

Fixpoint update_first (test : job → bool) (st : process_state_t) (l : list (Z * job)) : list (Z * job) :=
  match l with
  | [] => []
  | (a, j) :: l' =>
      if test j then (a, Job (jid j) (pid j) st (command j)) :: l' else (a, j) :: update_first test st l'
  end.

Lemma update_first_addrs test st l : (update_first test st l).*1 = l.*1.
Proof.
  induction l as [|[a j] l IH]; csimpl; [done|]. destruct (test j); csimpl; [done|]. by rewrite IH.
Qed.

Lemma update_loop_Ok test st J p l fuel :
  chain (elems J) p l → NoDup l.*1 → (length l < fuel)%nat →
  ∃ E', update_loop fuel test st p J =
      Ok (if first_job test l is Some _ then 0 else -1, set_elems E' J) ∧
    chain E' p (update_first test st l) ∧ dom E' = dom (elems J) ∧
    (∀ b, b ∉ l.*1 → E' !! b = elems J !! b).
Proof.
  revert p fuel. induction l as [|[a j] l IH]; intros p [|fuel] Hc Hnd Hfuel; try (simpl in Hfuel; lia).
  - simpl in Hc. subst p. exists (elems J). by destruct J.
  - destruct Hc as (-> & Ha & n & Hn & Hc). cbn [update_loop first_job update_first]. csimpl in *.
    apply NoDup_cons in Hnd as [Hna Hnd].
    rewrite (proj2 (Z.eqb_neq _ _) Ha). run (elem_at_Ok J a _ Hn). cbn [job_of next].
    destruct (test j).
    + run (put_elem_Ok J a (Elem (Job (jid j) (pid j) st (command j)) n) _ Hn).
      eexists. split; [done|]. split_and!.
      * split_and!; [done|done|]. exists n. rewrite lookup_insert_eq. split; [done|].
        eapply chain_frame; [|exact Hc]. intros b Hb. rewrite lookup_insert_ne; [done|]. by intros <-.
      * by apply dom_insert_lookup_L.
      * intros b Hb. rewrite lookup_insert_ne; [done|]. set_solver.
    + destruct (IH n fuel Hc Hnd ltac:(simpl in Hfuel; lia)) as (E' & Hrun & Hc' & Hd & Hf).
      exists E'. split_and!; [done| |done|].
      * split_and!; [done|done|]. exists n. split; [|done]. by rewrite Hf.
      * intros b Hb. apply Hf. set_solver.
Qed.

Lemma first_update test st l : first (update_first test st l) = first l.
Proof. destruct l as [|[a j] l]; simpl; [done|]. by destruct (test j). Qed.

(** The zipper of an update: the job is on one of the two sides. *)
Lemma update_first_app test st d t :
  update_first test st (d ++ t) =
    if first_job test d is Some _ then update_first test st d ++ t else d ++ update_first test st t.
Proof.
  induction d as [|[a j] d IH]; simpl; [done|]. destruct (test j); [done|].
  rewrite IH. by destruct (first_job test d).
Qed.

Definition updated (test : job → bool) (st : process_state_t) (d t : list (Z * job))
    : list (Z * job) * list (Z * job) :=
  if first_job test d is Some _ then (update_first test st d, t) else (d, update_first test st t).

Lemma update_job_Ok test st J d t :
  list_ok J d t →
  let '(d', t') := updated test st d t in
  ∃ J', update_job test st J = Ok (if first_job test (d ++ t) is Some _ then 0 else -1, J') ∧ list_ok J' d' t'.
Proof.
  intros H. destruct (update_loop_Ok test st J (Jobs.head J) (d ++ t) (list_fuel J)
    (lo_chain _ _ _ H) (lo_nodup _ _ _ H) (list_length _ _ _ H)) as (E' & Hrun & Hc & Hd & _).
  assert (∀ d' t', d' ++ t' = update_first test st (d ++ t) → first t' = first t →
    ∃ J', update_job test st J = Ok (if first_job test (d ++ t) is Some _ then 0 else -1, J') ∧ list_ok J' d' t') as Hgo.
  { intros d' t' Heq Hf. exists (set_elems E' J). split; [exact Hrun|].
    split; simpl; rewrite ?Heq, ?update_first_addrs, ?Hf; try done; try apply H.
    rewrite Hd. apply H. }
  unfold updated. destruct (first_job test d) eqn:Hfd; apply Hgo; try done.
  - by rewrite update_first_app, Hfd.
  - by rewrite update_first_app, Hfd.
  - apply first_update.
Qed.

(** ** Removals *)

Fixpoint remove_first (test : job → bool) (l : list (Z * job)) : list (Z * job) :=
  match l with
  | [] => []
  | (a, j) :: l' => if test j then l' else (a, j) :: remove_first test l'
  end.

Lemma remove_first_split test l1 a j l2 :
  first_job test l1 = None → test j = true → remove_first test (l1 ++ (a, j) :: l2) = l1 ++ l2.
Proof.
  induction l1 as [|[b k] l1 IH]; simpl; intros H1 Hj; [by rewrite Hj|].
  destruct (test k); [done|]. by rewrite IH.
Qed.

Lemma remove_first_none test l : first_job test l = None → remove_first test l = l.
Proof.
  induction l as [|[a j] l IH]; simpl; [done|]. destruct (test j); [done|]. intros. by rewrite IH.
Qed.

Lemma remove_first_app test d t :
  remove_first test (d ++ t) =
    if first_job test d is Some _ then remove_first test d ++ t else d ++ remove_first test t.
Proof.
  induction d as [|[a j] d IH]; simpl; [done|]. destruct (test j); [done|].
  rewrite IH. by destruct (first_job test d).
Qed.

(** The pointers after [cur], between [l1] and [l2], is taken out. *)
Definition unlink (J : job_list) (prev cur n : Z) : job_list :=
  let E1 := match elems J !! prev with
            | Some p => if prev =? NULL then elems J else <[prev := Elem (job_of p) n]> (elems J)
            | None => elems J
            end in
  JobList (delete cur E1) (if head J =? cur then n else head J)
          (if current J =? cur then n else current J) (shell_pid J).

Lemma unlink_NULL J cur n :
  unlink J NULL cur n =
    JobList (delete cur (elems J)) (if head J =? cur then n else head J)
            (if current J =? cur then n else current J) (shell_pid J).
Proof. unfold unlink. simpl. by destruct (elems J !! NULL). Qed.

(** The last address of a list, or [p] when it is empty. *)
Definition last_addr (p : Z) (l : list (Z * job)) : Z := default p (last l.*1).

Lemma last_addr_snoc p l a j : last_addr p (l ++ [(a, j)]) = a.
Proof. unfold last_addr. rewrite fmap_app. csimpl. by rewrite last_snoc. Qed.

(** The walk to the first job that passes the test. *)
Lemma remove_loop_walk test J l1 a j l2 prev p fuel :
  chain (elems J) p (l1 ++ (a, j) :: l2) → first_job test l1 = None → test j = true →
  (length l1 < fuel)%nat →
  ∃ fuel', remove_loop fuel test prev p J = remove_loop (S fuel') test (last_addr prev l1) a J.
Proof.
  revert prev p fuel. induction l1 as [|[b k] l1 IH]; intros prev p [|fuel] Hc H1 Hj Hfuel;
    try (simpl in Hfuel; lia).
  - destruct Hc as (-> & _). by exists fuel.
  - destruct Hc as (-> & Ha & n & Hn & Hc). cbn [remove_loop]. simpl in H1, Hfuel.
    rewrite (proj2 (Z.eqb_neq _ _) Ha). run (elem_at_Ok J b _ Hn). cbn [job_of next].
    destruct (test k); [done|]. destruct (IH b n fuel Hc H1 Hj ltac:(lia)) as (fuel' & ->).
    exists fuel'. f_equal. unfold last_addr. csimpl. destruct (l1.*1) as [|c l'] eqn:Hl; [done|].
    rewrite last_cons_cons. assert (is_Some (last (c :: l'))) as [x ->]; [|done].
    by apply last_is_Some.
Qed.

Lemma remove_loop_none test J l prev p fuel :
  chain (elems J) p l → first_job test l = None → (length l < fuel)%nat →
  remove_loop fuel test prev p J = Ok (-1, J).
Proof.
  revert prev p fuel. induction l as [|[b k] l IH]; intros prev p [|fuel] Hc H1 Hfuel;
    try (simpl in Hfuel; lia).
  - simpl in Hc. by subst p.
  - destruct Hc as (-> & Ha & n & Hn & Hc). cbn [remove_loop]. simpl in H1, Hfuel.
    rewrite (proj2 (Z.eqb_neq _ _) Ha). run (elem_at_Ok J b _ Hn). cbn [job_of next].
    destruct (test k); [done|]. apply IH; [done|done|lia].
Qed.

(** The step that takes [a] out. *)
Lemma remove_here test J j n prev a fuel :
  elems J !! a = Some (Elem j n) → a ≠ NULL → test j = true → prev ≠ a →
  (prev = NULL ∨ is_Some (elems J !! prev)) →
  remove_loop (S fuel) test prev a J = Ok (0, unlink J prev a n).
Proof.
  intros Hn Ha Hj Hne Hprev. cbn [remove_loop]. rewrite (proj2 (Z.eqb_neq _ _) Ha).
  run (elem_at_Ok J a _ Hn). cbn [job_of next]. rewrite Hj. unfold unlink.
  destruct (Z.eqb_spec prev NULL) as [Hp|Hp]; cbn [negb].
  - rewrite ST_ret_bind, ST_get.
    assert ((match elems J !! prev with Some _ => elems J | None => elems J end) = elems J) as ->
      by (by destruct (elems J !! prev)).
    destruct J as [E h c sp]. simpl in *.
    destruct (h =? a), (c =? a); rewrite ?ST_modify, ?ST_ret_bind;
      unfold free_elem, elem_at, mbind, ST_bind; simpl; by rewrite Hn.
  - destruct Hprev as [?|[e He]]; [done|]. rewrite He.
    rewrite (ST_bind_Ok _ _ _ tt (set_elems (<[prev := Elem (job_of e) n]> (elems J)) J)); cycle 1.
    { run (elem_at_Ok J prev _ He). by apply (put_elem_Ok J prev _ e). }
    rewrite ST_get. destruct J as [E h c sp]. simpl in *.
    assert (<[prev := Elem (job_of e) n]> E !! a = Some (Elem j n)) as Hn'
      by (by rewrite lookup_insert_ne).
    destruct (h =? a), (c =? a); rewrite ?ST_modify, ?ST_ret_bind;
      unfold free_elem, elem_at, mbind, ST_bind; simpl; by rewrite Hn'.
Qed.

(** Changing where an element points to. *)
Lemma chain_relink E E' p l1 b k m m' :
  chain E p (l1 ++ (b, k) :: m) → (∀ x, x ∈ l1.*1 → E' !! x = E !! x) →
  E' !! b = Some (Elem k (first m')) → chain E' (first m') m' → chain E' p (l1 ++ (b, k) :: m').
Proof.
  revert p. induction l1 as [|[c q] l1 IH]; intros p; csimpl.
  - intros (-> & Hb & _) _ Hb' Hm. split_and!; [done|done|]. eauto.
  - intros (-> & Hc & n & Hn & Hch) Hf Hb' Hm. split_and!; [done|done|]. exists n.
    rewrite Hf by set_solver. split; [done|]. apply IH; [done|set_solver|done|done].
Qed.

(** Taking out an element leaves the list without it. *)
Lemma chain_unlink J l1 a j l2 :
  chain (elems J) (head J) (l1 ++ (a, j) :: l2) → NoDup (l1 ++ (a, j) :: l2).*1 →
  let J' := unlink J (last_addr NULL l1) a (first l2) in
  chain (elems J') (head J') (l1 ++ l2) ∧ dom (elems J') = dom (elems J) ∖ {[a]}.
Proof.
  intros Hc Hnd J'. rewrite fmap_app in Hnd. csimpl in Hnd.
  apply NoDup_app in Hnd as (Hnd1 & Hdis & [Ha Hnd2]%NoDup_cons).
  destruct (chain_mid _ _ _ _ _ _ Hc) as (Hnull & Hn & Hc2).
  destruct l1 as [|[b k] l1 _] using rev_ind.
  - unfold J'. change (last_addr NULL []) with NULL. rewrite unlink_NULL. simpl.
    destruct Hc as (Hh & _). rewrite Hh, Z.eqb_refl. split; [|by rewrite dom_delete_L]. eapply chain_frame; [|exact Hc2].
    intros x Hx. rewrite lookup_delete_ne; [done|]. by intros <-.
  - rewrite <-app_assoc in Hc |- *. simpl in Hc |- *.
    destruct (chain_mid _ _ _ _ _ _ Hc) as (Hbn & Hb & _).
    rewrite fmap_app in Hdis, Hnd1. csimpl in Hdis. csimpl in Hnd1.
    apply NoDup_app in Hnd1 as (_ & Hdup & _).
    assert (b ≠ a ∧ b ∉ l2.*1) as [Hba Hb2].
    { destruct (not_elem_of_cons l2.*1 b a) as [Hin _]. apply Hin. apply Hdis. set_solver. }
    unfold J', unlink. rewrite last_addr_snoc. simpl. rewrite Hb, (proj2 (Z.eqb_neq _ _) Hbn). simpl.
    assert (head J ≠ a) as Hh.
    { intros Heq. destruct l1 as [|[c q] l1]; simpl in Hc; destruct Hc as (Hc & _).
      - congruence.
      - apply (Hdis c); [set_solver|]. rewrite <-Hc, Heq. set_solver. }
    rewrite (proj2 (Z.eqb_neq _ _) Hh). split.
    + eapply chain_relink; [exact Hc|..].
      * intros x Hx. rewrite lookup_delete_ne, lookup_insert_ne; [done|..].
        -- intros <-. apply (Hdup _ Hx). set_solver.
        -- intros <-. apply (Hdis a); set_solver.
      * by rewrite lookup_delete_ne, lookup_insert_eq.
      * eapply chain_frame; [|exact Hc2]. intros x Hx.
        rewrite lookup_delete_ne, lookup_insert_ne; [done|set_solver|set_solver].
    + rewrite dom_delete_L, dom_insert_lookup_L; [done|eauto].
Qed.

(** The two sides of the iterator after a removal. *)
Definition removed (test : job → bool) (d t : list (Z * job)) : list (Z * job) * list (Z * job) :=
  if first_job test d is Some _ then (remove_first test d, t) else (d, remove_first test t).

(** The removal of the first job that passes the test, found after [l1]. *)
Lemma remove_found test J l1 a j l2 :
  chain (elems J) (head J) (l1 ++ (a, j) :: l2) → NoDup (l1 ++ (a, j) :: l2).*1 →
  dom (elems J) = list_to_set (l1 ++ (a, j) :: l2).*1 → first_job test l1 = None → test j = true →
  let J' := unlink J (last_addr NULL l1) a (first l2) in
  remove_job test J = Ok (0, J') ∧ chain (elems J') (head J') (l1 ++ l2) ∧
  NoDup (l1 ++ l2).*1 ∧ dom (elems J') = list_to_set (l1 ++ l2).*1 ∧
  current J' = (if current J =? a then first l2 else current J) ∧ a ≠ NULL.
Proof.
  intros Hc Hnd Hdom H1 Hj J'.
  destruct (chain_mid _ _ _ _ _ _ Hc) as (Hnull & Hn & _).
  destruct (chain_unlink J l1 a j l2 Hc Hnd) as [Hc' Hdom'].
  assert (length l1 < list_fuel J)%nat as Hfuel.
  { unfold list_fuel. rewrite <-size_dom, Hdom, size_list_to_set, length_fmap, length_app by done.
    simpl. lia. }
  rewrite fmap_app in Hnd. csimpl in Hnd. rewrite <-Permutation_middle in Hnd.
  apply NoDup_cons in Hnd as [Hna Hnd]. rewrite <-fmap_app in Hnd, Hna.
  split_and!; try done.
  - destruct (remove_loop_walk test J l1 a j l2 NULL (head J) (list_fuel J) Hc H1 Hj Hfuel) as (fuel' & Heq).
    unfold remove_job. rewrite ST_get, Heq. apply (remove_here test J j); try done.
    + destruct l1 as [|[b k] l1 _] using rev_ind; [done|]. rewrite last_addr_snoc.
      intros ->. apply Hna. rewrite !fmap_app. csimpl. set_solver.
    + destruct l1 as [|[b k] l1 _] using rev_ind; [by left|right]. rewrite last_addr_snoc.
      rewrite <-app_assoc in Hc. destruct (chain_mid _ _ _ _ _ _ Hc) as (_ & -> & _). eauto.
  - unfold J'. rewrite Hdom', Hdom. apply set_eq. intros x.
    rewrite elem_of_difference, elem_of_singleton, !elem_of_list_to_set, !fmap_app. csimpl.
    rewrite fmap_app in Hna. rewrite !elem_of_app, elem_of_cons in *. naive_solver.
Qed.

Lemma remove_job_Ok test J d t :
  list_ok J d t →
  let '(d', t') := removed test d t in
  ∃ J', remove_job test J = Ok (if first_job test (d ++ t) is Some _ then 0 else -1, J') ∧
    list_ok J' d' t'.
Proof.
  intros H. pose proof H as [Hc Hnd Hdom Hcur]. unfold removed.
  destruct (first_job test d) as [j|] eqn:Hd.
  - destruct (first_job_split test d j Hd) as (l1 & a & m & -> & Hj & H1).
    rewrite remove_first_split by done. rewrite <-app_assoc in Hc, Hnd, Hdom |- *. simpl in Hc, Hnd, Hdom |- *.
    destruct (remove_found test J l1 a j (m ++ t) Hc Hnd Hdom H1 Hj) as (Hrun & Hc' & Hnd' & Hdom' & Hcur' & Hnull).
    eexists. split; [rewrite Hrun|].
    { by rewrite first_job_app, H1; simpl; rewrite Hj. }
    split; rewrite <-?app_assoc; try done. rewrite Hcur', Hcur, (proj2 (Z.eqb_neq _ _)); [done|].
    destruct t as [|[c q] t]; simpl; [done|]. intros ->.
    rewrite fmap_app in Hnd. csimpl in Hnd. apply NoDup_app in Hnd as (_ & _ & [Hna _]%NoDup_cons).
    apply Hna. rewrite fmap_app. csimpl. set_solver.
  - rewrite first_job_app, Hd. destruct (first_job test t) as [j|] eqn:Ht.
    + destruct (first_job_split test t j Ht) as (l1 & a & l2 & -> & Hj & H1).
      rewrite remove_first_split by done. rewrite app_assoc in Hc, Hnd, Hdom.
      assert (first_job test (d ++ l1) = None) as Hd1 by (by rewrite first_job_app, Hd).
      destruct (remove_found test J (d ++ l1) a j l2 Hc Hnd Hdom Hd1 Hj)
        as (Hrun & Hc' & Hnd' & Hdom' & Hcur' & Hnull).
      eexists. split; [exact Hrun|]. split; rewrite ?app_assoc; try done. rewrite Hcur', Hcur.
      destruct l1 as [|[c q] l1]; simpl; [by rewrite Z.eqb_refl|].
      rewrite (proj2 (Z.eqb_neq _ _)); [done|]. intros ->.
      rewrite fmap_app in Hnd. csimpl in Hnd. apply NoDup_app in Hnd as (_ & Hdis & _).
      apply (Hdis a); rewrite ?fmap_app; csimpl; set_solver.
    + exists J. split.
      * unfold remove_job. rewrite ST_get. apply (remove_loop_none test J (d ++ t)); [done| |by apply list_length].
        by rewrite first_job_app, Hd.
      * assert (remove_first test t = t) as -> by (by apply remove_first_none). done.
Qed.

(** ** Additions *)

Lemma last_elem_Ok J p l a j fuel :
  chain (elems J) p (l ++ [(a, j)]) → (length l < fuel)%nat → last_elem fuel p J = Ok (a, J).
Proof.
  revert p fuel. induction l as [|[b k] l IH]; intros p [|fuel] Hc Hfuel; try (simpl in Hfuel; lia).
  all: cbn [last_elem]; destruct Hc as (-> & Ha & n & Hn & Hc); run (elem_at_Ok J _ _ Hn); cbn [next].
  - simpl in Hc. by subst n.
  - rewrite (proj2 (Z.eqb_neq _ _)).
    + apply IH; [done|]. simpl in Hfuel. lia.
    + destruct l as [|[c q] l]; simpl in Hc; destruct Hc as (-> & ? & _); done.
Qed.

(** The two sides after an addition: at the end of what is still to visit, or
    of what was visited when the iterator is past the end. *)
Definition added (new : Z * job) (d t : list (Z * job)) : list (Z * job) * list (Z * job) :=
  match d, t with
  | [], [] => ([], [new])
  | _, [] => (d ++ [new], [])
  | _, _ => (d, t ++ [new])
  end.

Lemma added_app new d t : (added new d t).1 ++ (added new d t).2 = (d ++ t) ++ [new].
Proof. destruct d, t; simpl; rewrite ?app_nil_r, <-?app_assoc; done. Qed.

Lemma added_first new d t :
  d ++ t ≠ [] → first (added new d t).2 = first t.
Proof. destruct d, t as [|[a j] t]; done. Qed.

(** A new element linked behind the last one. *)
Lemma chain_snoc E p (l : list (Z * job)) b k a j :
  chain E p (l ++ [(b, k)]) → NoDup (l ++ [(b, k)]).*1 → a ∉ (l ++ [(b, k)]).*1 → a ≠ NULL →
  chain (<[b := Elem k a]> (<[a := Elem j NULL]> E)) p ((l ++ [(b, k)]) ++ [(a, j)]).
Proof.
  intros Hc Hnd Hna Ha. rewrite fmap_app in Hnd, Hna. csimpl in Hnd. csimpl in Hna.
  apply NoDup_app in Hnd as (_ & Hdis & _).
  assert (a ≠ b) as Hab by set_solver.
  rewrite <-app_assoc. simpl. eapply chain_relink; [exact Hc|..].
  - intros x Hx. rewrite !lookup_insert_ne; [done|..]; intros <-; [set_solver|].
    apply (Hdis b Hx). set_solver.
  - by rewrite lookup_insert_eq.
  - simpl. split_and!; [done|done|]. exists NULL. rewrite lookup_insert_ne, lookup_insert_eq by done. done.
Qed.

(** The addresses after an addition. *)
Lemma added_addrs (E E' : gmap Z job_element) (l : list (Z * job)) a j :
  dom E = list_to_set l.*1 → NoDup l.*1 → E !! a = None → dom E' = {[a]} ∪ dom E →
  NoDup (l ++ [(a, j)]).*1 ∧ dom E' = list_to_set (l ++ [(a, j)]).*1 ∧ a ∉ l.*1.
Proof.
  intros Hdom Hnd Hfresh Hdom'.
  assert (a ∉ l.*1) as Hna.
  { apply not_elem_of_dom in Hfresh. intros Hin. apply Hfresh. rewrite Hdom. by apply elem_of_list_to_set. }
  rewrite fmap_app. csimpl. split_and!; [| |done].
  - apply NoDup_app. split_and!; [done| |apply NoDup_singleton].
    intros x Hx ->%list_elem_of_singleton. done.
  - rewrite Hdom', Hdom. apply set_eq. intros x.
    rewrite elem_of_union, elem_of_singleton, !elem_of_list_to_set, elem_of_app, list_elem_of_singleton.
    tauto.
Qed.

Lemma add_job_Ok malloc J d t a i p st cmd :
  list_ok J d t → malloc (elems J) = Some a → a ≠ NULL → elems J !! a = None →
  let '(d', t') := added (a, Job i p st cmd) d t in
  ∃ J', add_job malloc i p st (Some cmd) J = Ok (0, J') ∧ list_ok J' d' t'.
Proof.
  intros H Hm Ha Hfresh. pose proof H as [Hc Hnd Hdom Hcur]. set (j := Job i p st cmd).
  unfold add_job. rewrite ST_get. unfold deref. rewrite Hm, ST_ret_bind, ST_modify. fold j.
  set (J1 := set_elems (<[a := Elem j NULL]> (elems J)) J).
  pose proof (added_app (a, j) d t) as Happ. pose proof (added_first (a, j) d t) as Hfirst.
  destruct (added (a, j) d t) as [d' t'] eqn:Hadd. simpl in Happ, Hfirst.
  destruct (decide (d ++ t = [])) as [Hdt|Hdt].
  - rewrite Hdt in Hc. simpl in Hc. rewrite Hc. apply app_eq_nil in Hdt as [-> ->].
    simpl in Hadd. injection Hadd as <- <-.
    destruct (added_addrs (elems J) (elems J1) [] a j Hdom Hnd Hfresh) as (Hnd' & Hdom' & _);
      [simpl; by rewrite dom_insert_L|].
    eexists. split; [done|]. split; try done. simpl. split_and!; [done|done|]. exists NULL.
    by rewrite lookup_insert_eq.
  - destruct (exists_last Hdt) as (l0 & [b k] & Hl). rewrite Hl in *.
    destruct (chain_mid _ _ _ _ _ _ Hc) as (Hb & Hbe & _). simpl in Hbe.
    destruct (added_addrs (elems J) (<[b := Elem k a]> (elems J1)) (l0 ++ [(b, k)]) a j Hdom Hnd Hfresh)
      as (Hnd' & Hdom' & Hna).
    { rewrite dom_insert_lookup_L; [simpl; by rewrite dom_insert_L|]. simpl.
      rewrite lookup_insert. case_decide; eauto. }
    assert (a ≠ b) as Hab by (rewrite fmap_app in Hna; csimpl in Hna; set_solver).
    assert (head J ≠ NULL) as Hh.
    { rewrite (chain_first _ _ _ Hc). destruct l0 as [|[c q] l0]; simpl; [done|]. by destruct Hc as (_ & ? & _). }
    rewrite (proj2 (Z.eqb_neq _ _) Hh).
    assert (chain (elems J1) (head J) (l0 ++ [(b, k)])) as Hc1.
    { eapply chain_frame; [|exact Hc]. intros y Hy. simpl. rewrite lookup_insert_ne; [done|]. by intros <-. }
    assert (length l0 < list_fuel J)%nat as Hfuel.
    { pose proof (list_length _ _ _ H) as Hlen. rewrite Hl, length_app in Hlen. simpl in Hlen. lia. }
    assert (elems J1 !! b = Some (Elem k NULL)) as Hb1 by (simpl; by rewrite lookup_insert_ne).
    rewrite (ST_bind_Ok _ _ _ tt (set_elems (<[b := Elem k a]> (elems J1)) J1)); cycle 1.
    { run (last_elem_Ok J1 (head J) l0 b k _ Hc1 Hfuel). run (elem_at_Ok J1 b _ Hb1).
      by apply (put_elem_Ok J1 b _ (Elem k NULL)). }
    eexists. split; [done|]. split; rewrite ?Happ; try done.
    + by apply chain_snoc.
    + simpl. rewrite Hcur, Hfirst by done. done.
Qed.

(** ** The iterator *)

Lemma get_next_pid_Ok J d t :
  list_ok J d t →
  ∃ J', get_next_pid J = Ok (match t with [] => -1 | (_, j) :: _ => pid j end, J') ∧
    match t with
    | [] => list_ok J' [] d
    | x :: t' => list_ok J' (d ++ [x]) t'
    end.
Proof.
  intros H. pose proof H as [Hc Hnd Hdom Hcur]. unfold get_next_pid. rewrite ST_get, Hcur.
  destruct t as [|[a j] t]; simpl.
  - rewrite ST_modify. eexists. split; [done|]. rewrite app_nil_r in Hc, Hnd, Hdom.
    split; simpl; try done. by rewrite (chain_first _ _ _ Hc).
  - destruct (chain_mid _ _ _ _ _ _ Hc) as (Ha & He & Hc'). rewrite (proj2 (Z.eqb_neq _ _) Ha).
    run (elem_at_Ok J a _ He). cbn [next job_of]. rewrite ST_modify. eexists. split; [done|].
    split; simpl; rewrite <-?app_assoc; done.
Qed.

(** ** Printing and cleaning up *)

Lemma jobs_loop_Ok printf_ok J p l fuel n :
  chain (elems J) p l → (length l < fuel)%nat → (∀ k, printf_ok k = true) →
  jobs_loop printf_ok fuel n p J = Ok (l ≫= (λ x, job_line (snd x)), J).
Proof.
  intros Hc Hfuel Hok. revert p fuel n Hc Hfuel.
  induction l as [|[a j] l IH]; intros p [|fuel] n Hc Hfuel; try (simpl in Hfuel; lia).
  - simpl in Hc. by subst p.
  - destruct Hc as (-> & Ha & n' & Hn & Hc). cbn [jobs_loop].
    rewrite (proj2 (Z.eqb_neq _ _) Ha). run (elem_at_Ok J a _ Hn). cbn [job_of next]. rewrite Hok. simpl.
    simpl in Hfuel. by run (IH n' fuel (S n) Hc ltac:(lia)).
Qed.

Lemma cleanup_loop_Ok g J p l fuel :
  chain (elems J) p l → NoDup l.*1 → (length l < fuel)%nat →
  ∃ J', cleanup_loop fuel g p J =
      Ok (if g =? shell_pid J then (λ x, - pid (snd x)) <$> l else [], J') ∧
    ∀ b, elems J' !! b = if decide (b ∈ l.*1) then None else elems J !! b.
Proof.
  revert J p fuel. induction l as [|[a j] l IH]; intros J p [|fuel] Hc Hnd Hfuel;
    try (simpl in Hfuel; lia).
  - simpl in Hc. subst p. exists J. split; [by destruct (g =? shell_pid J)|].
    intros b. by rewrite decide_False by set_solver.
  - destruct Hc as (-> & Ha & n & Hn & Hc). csimpl in *. apply NoDup_cons in Hnd as [Hna Hnd].
    rewrite (proj2 (Z.eqb_neq _ _) Ha). run (elem_at_Ok J a _ Hn). cbn [job_of next]. rewrite ST_get.
    cbv zeta. run (free_elem_Ok J a _ Hn).
    destruct (IH (set_elems (delete a (elems J)) J) n fuel) as (J' & Hrun & HJ').
    { eapply chain_frame; [|exact Hc]. intros b Hb. simpl. rewrite lookup_delete_ne; [done|]. by intros <-. }
    { done. }
    { lia. }
    run Hrun. exists J'. simpl in *. split; [by destruct (g =? shell_pid J)|].
    intros b. rewrite HJ'. destruct (decide (b ∈ l.*1)) as [Hb|Hb]; [by rewrite decide_True by set_solver|].
    destruct (decide (b = a)) as [->|Hba]; [rewrite decide_True, lookup_delete_eq by set_solver; done|].
    rewrite decide_False, lookup_delete_ne by set_solver. done.
Qed.
