(* ===== verification/JobsSpec.v ===== *)
(** * The contract of the job list.

    [jobs.h] as a machine on a list of jobs cut at the iterator, the refinement
    of it by [jobs.c], and the interface the shell is written against. *)

From Stdlib Require Import ZArith Lia Ascii.
From stdpp Require Import base gmap numbers option list.
From S2P Require Import Prelude Stdio Jobs.

Open Scope Z_scope.

(** ** The contract *)

(** Jobs the iterator has passed, and jobs it will visit. *)
Abbreviation joblog := (list job * list job)%type.

Inductive jop :=
  | JAdd (jid pid : Z) (st : process_state_t) (cmd : bytes)
  | JRemoveJid (jid : Z)
  | JRemovePid (pid : Z)
  | JUpdateJid (jid : Z) (st : process_state_t)
  | JUpdatePid (pid : Z) (st : process_state_t)
  | JGetPid (jid : Z)
  | JGetJid (pid : Z)
  | JNext.

(** The first job that passes a test, and lists without or with it changed. *)
Fixpoint find_job (test : job → bool) (l : list job) : option job :=
  match l with [] => None | j :: l' => if test j then Some j else find_job test l' end.

Fixpoint drop_job (test : job → bool) (l : list job) : list job :=
  match l with [] => [] | j :: l' => if test j then l' else j :: drop_job test l' end.

Fixpoint mark_job (test : job → bool) (st : process_state_t) (l : list job) : list job :=
  match l with
  | [] => []
  | j :: l' => if test j then Job (jid j) (pid j) st (command j) :: l' else j :: mark_job test st l'
  end.

(** Applies a change to the side that holds the first job found. *)
Definition on_side (test : job → bool) (f : list job → list job) (q : joblog) : joblog :=
  if find_job test q.1 is Some _ then (f q.1, q.2) else (q.1, f q.2).

Definition status (test : job → bool) (q : joblog) : Z :=
  if find_job test (q.1 ++ q.2) is Some _ then 0 else -1.

(** The answer of an operation and the log after it. *)
Definition jspec (o : jop) (q : joblog) : Z * joblog :=
  match o with
  | JAdd i p st cmd =>
      (0, match q with
          | ([], []) => ([], [Job i p st cmd])
          | (d, []) => (d ++ [Job i p st cmd], [])
          | (d, t) => (d, t ++ [Job i p st cmd])
          end)
  | JRemoveJid i => (status (λ j, jid j =? i) q, on_side (λ j, jid j =? i) (drop_job (λ j, jid j =? i)) q)
  | JRemovePid p => (status (λ j, pid j =? p) q, on_side (λ j, pid j =? p) (drop_job (λ j, pid j =? p)) q)
  | JUpdateJid i st =>
      (status (λ j, jid j =? i) q, on_side (λ j, jid j =? i) (mark_job (λ j, jid j =? i) st) q)
  | JUpdatePid p st =>
      (status (λ j, pid j =? p) q, on_side (λ j, pid j =? p) (mark_job (λ j, pid j =? p) st) q)
  | JGetPid i => (from_option pid (-1) (find_job (λ j, jid j =? i) (q.1 ++ q.2)), q)
  | JGetJid p => (from_option jid (-1) (find_job (λ j, pid j =? p) (q.1 ++ q.2)), q)
  | JNext => match q.2 with
             | [] => (-1, ([], q.1))
             | j :: t => (pid j, (q.1 ++ [j], t))
             end
  end.

(** ** The implementation *)

Definition run_jop (malloc : gmap Z job_element → option Z) (o : jop) : jl Z :=
  match o with
  | JAdd i p st cmd => add_job malloc i p st (Some cmd)
  | JRemoveJid i => remove_job_jid i
  | JRemovePid p => remove_job_pid p
  | JUpdateJid i st => update_job_jid i st
  | JUpdatePid p st => update_job_pid p st
  | JGetPid i => get_job_pid i
  | JGetJid p => get_job_jid p
  | JNext => get_next_pid
  end.

Fixpoint run_jops (malloc : gmap Z job_element → option Z) (os : list jop) : jl (list Z) :=
  match os with
  | [] => mret []
  | o :: os' => r ← run_jop malloc o; rs ← run_jops malloc os'; mret (r :: rs)
  end.

Fixpoint jspecs (os : list jop) (q : joblog) : list Z * joblog :=
  match os with
  | [] => ([], q)
  | o :: os' => let '(r, q1) := jspec o q in let '(rs, q2) := jspecs os' q1 in (r :: rs, q2)
  end.

(** [malloc] always finds room. *)
Definition malloc_ok (malloc : gmap Z job_element → option Z) : Prop :=
  ∀ E, ∃ a, malloc E = Some a ∧ a ≠ NULL ∧ E !! a = None.

Definition log_rep (J : job_list) (q : joblog) : Prop :=
  ∃ d t, list_ok J d t ∧ q = (d.*2, t.*2).

Lemma find_job_snd test l : find_job test l.*2 = first_job test l.
Proof. induction l as [|[a j] l IH]; csimpl; [done|]. by rewrite IH. Qed.

Lemma drop_job_snd test l : drop_job test l.*2 = (remove_first test l).*2.
Proof. induction l as [|[a j] l IH]; csimpl; [done|]. rewrite IH. by destruct (test j). Qed.

Lemma mark_job_snd test st l : mark_job test st l.*2 = (update_first test st l).*2.
Proof. induction l as [|[a j] l IH]; csimpl; [done|]. rewrite IH. by destruct (test j). Qed.

Lemma status_snd test (d t : list (Z * job)) :
  status test (d.*2, t.*2) = if first_job test (d ++ t) is Some _ then 0 else -1.
Proof. unfold status. simpl. by rewrite <-fmap_app, find_job_snd. Qed.

Lemma rep_remove test J q :
  log_rep J q →
  ∃ J', remove_job test J = Ok (status test q, J') ∧ log_rep J' (on_side test (drop_job test) q).
Proof.
  intros (d & t & H & ->). pose proof (remove_job_Ok test J d t H) as Hr.
  destruct (removed test d t) as [d' t'] eqn:Heq. destruct Hr as (J' & Hrun & H').
  exists J'. rewrite status_snd. split; [done|]. exists d', t'. split; [done|].
  unfold removed in Heq. unfold on_side. simpl. rewrite find_job_snd, !drop_job_snd.
  by destruct (first_job test d); simplify_eq.
Qed.

Lemma rep_update test st J q :
  log_rep J q →
  ∃ J', update_job test st J = Ok (status test q, J') ∧ log_rep J' (on_side test (mark_job test st) q).
Proof.
  intros (d & t & H & ->). pose proof (update_job_Ok test st J d t H) as Hr.
  destruct (updated test st d t) as [d' t'] eqn:Heq. destruct Hr as (J' & Hrun & H').
  exists J'. rewrite status_snd. split; [done|]. exists d', t'. split; [done|].
  unfold updated in Heq. unfold on_side. simpl. rewrite find_job_snd, !mark_job_snd.
  by destruct (first_job test d); simplify_eq.
Qed.

Lemma rep_get test proj J q :
  log_rep J q →
  ∃ J', get_job test proj J = Ok (from_option proj (-1) (find_job test (q.1 ++ q.2)), J') ∧ log_rep J' q.
Proof.
  intros (d & t & H & ->). exists J. split; [|by exists d, t].
  unfold get_job. rewrite ST_get. rewrite (get_loop_Ok test proj J (Jobs.head J) (d ++ t)).
  - simpl. rewrite <-fmap_app, find_job_snd. by destruct (first_job test (d ++ t)).
  - apply H.
  - by apply list_length.
Qed.

Lemma run_jop_Ok malloc o J q :
  malloc_ok malloc → log_rep J q →
  ∃ J', run_jop malloc o J = Ok ((jspec o q).1, J') ∧ log_rep J' (jspec o q).2.
Proof.
  intros Hm Hrep. destruct o as [i p st cmd| | | | | | |]; simpl; try (by apply rep_remove || by apply rep_update || by apply rep_get).
  - destruct Hrep as (d & t & H & ->). destruct (Hm (elems J)) as (a & Ha & Hnn & Hfresh).
    pose proof (add_job_Ok malloc J d t a i p st cmd H Ha Hnn Hfresh) as Hadd.
    destruct (added _ d t) as [d' t'] eqn:Heq. destruct Hadd as (J' & Hrun & H').
    exists J'. split; [done|]. exists d', t'. split; [done|].
    destruct d as [|x d], t as [|y t]; simpl in Heq; simplify_eq; csimpl; rewrite ?fmap_app; done.
  - destruct Hrep as (d & t & H & ->). destruct (get_next_pid_Ok J d t H) as (J' & Hrun & H').
    exists J'. destruct t as [|[a j] t]; csimpl; (split; [done|]).
    + by exists [], d.
    + exists (d ++ [(a, j)]), t. split; [done|]. by rewrite fmap_app.
Qed.

Lemma init_rep g : log_rep (init_job_list g) ([], []).
Proof. exists [], []. split; [|done]. split; simpl; try done. apply NoDup_nil_2. Qed.

Lemma run_jops_Ok malloc os J q :
  malloc_ok malloc → log_rep J q →
  ∃ J', run_jops malloc os J = Ok ((jspecs os q).1, J') ∧ log_rep J' (jspecs os q).2.
Proof.
  intros Hm. revert q J. induction os as [|o os IH]; intros q J Hrep; [by exists J|].
  destruct (run_jop_Ok malloc o J q Hm Hrep) as (J1 & Hrun1 & Hrep1). simpl.
  destruct (jspec o q) as [r q1]. destruct (IH q1 J1 Hrep1) as (J2 & Hrun2 & Hrep2).
  destruct (jspecs os q1) as [rs q2]. exists J2. split; [|done]. run Hrun1. by run Hrun2.
Qed.

(** An allocator that takes the next free address. *)
Definition bump (E : gmap Z job_element) : option Z :=
  Some (foldr Z.max 0 (map_to_list E).*1 + 8).

Lemma bump_ok : malloc_ok bump.
Proof.
  intros E. eexists. split; [done|].
  assert (∀ l : list Z, 0 ≤ foldr Z.max 0 l) as Hpos by (intros l; induction l; simpl; lia).
  assert (∀ (l : list Z) x, x ∈ l → x ≤ foldr Z.max 0 l) as Hmax.
  { intros l x. induction l as [|y l IH]; simpl; [set_solver|]. intros [->|Hx%IH]%elem_of_cons; lia. }
  split; [unfold NULL; specialize (Hpos (map_to_list E).*1); lia|].
  apply eq_None_not_Some. intros [e He].
  assert (foldr Z.max 0 (map_to_list E).*1 + 8 ∈ (map_to_list E).*1) as Hin%Hmax; [|lia].
  apply list_elem_of_fmap. eexists (_, e). split; [done|]. by apply elem_of_map_to_list.
Qed.

(** ** The interface

    What [sh.c] uses of a job list, and what it relies on: the table answers as
    a list of jobs does; [cleanup] kills the jobs if the caller is the process
    that made the table. *)
Class JobTable (T : Type) := {
  jt_op : jop → ST T Z;
  jt_jobs : ST T bytes;
  jt_cleanup : Z → T → result (list Z);
}.

Class JobTableOk (T : Type) `{JobTable T} (rep : T → Z → joblog → Prop) := {
  jt_op_ok o t sp q :
    rep t sp q → ∃ t', jt_op o t = Ok ((jspec o q).1, t') ∧ rep t' sp (jspec o q).2;
  jt_jobs_ok t sp q :
    rep t sp q → ∃ t', jt_jobs t = Ok ((q.1 ++ q.2) ≫= job_line, t') ∧ rep t' sp q;
  jt_cleanup_ok g t sp q :
    rep t sp q →
    jt_cleanup g t = Ok (if g =? sp then (λ j, - pid j) <$> (q.1 ++ q.2) else []);
}.

(** The contract is a table itself. *)
#[export] Instance ideal_table : JobTable (Z * joblog) := {
  jt_op o t := Ok ((jspec o t.2).1, (t.1, (jspec o t.2).2));
  jt_jobs t := Ok ((t.2.1 ++ t.2.2) ≫= job_line, t);
  jt_cleanup g t := Ok (if g =? t.1 then (λ j, - pid j) <$> (t.2.1 ++ t.2.2) else []);
}.

(** The linked list of [jobs.c] as a table. *)
Definition jobs_table (malloc : gmap Z job_element → option Z) (printf_ok : nat → bool)
    : JobTable job_list := {|
  jt_op := run_jop malloc;
  jt_jobs := jobs printf_ok;
  jt_cleanup g J := match cleanup_job_list g (Some J) with Ok (k, _) => Ok k | Err e => Err e end;
|}.

Definition jobs_rep (J : job_list) (sp : Z) (q : joblog) : Prop := log_rep J q ∧ shell_pid J = sp.

(** No operation changes [shell_pid]. *)
Definition keeps_pid {A} (m : jl A) : Prop := ∀ J a J', m J = Ok (a, J') → shell_pid J' = shell_pid J.

Lemma keeps_bind {A B} (m : jl A) (f : A → jl B) :
  keeps_pid m → (∀ a, keeps_pid (f a)) → keeps_pid (m ≫= f).
Proof. intros Hm Hf J b J2 (a & J1 & H1%Hm & H2%Hf)%ST_bind_inv. congruence. Qed.

Lemma keeps_ret {A} (a : A) : keeps_pid (mret a).
Proof. by intros J b J' [= _ <-]. Qed.

Lemma keeps_fail {A} e : keeps_pid (fail e : jl A).
Proof. by intros J b J'. Qed.

Lemma keeps_get : keeps_pid get.
Proof. by intros J b J' [= _ <-]. Qed.

Lemma keeps_modify f : (∀ J, shell_pid (f J) = shell_pid J) → keeps_pid (modify f).
Proof. by intros Hf J b J' [= _ <-]. Qed.

Lemma keeps_deref {A} (o : option A) : keeps_pid (deref o).
Proof. destruct o; [apply keeps_ret | apply keeps_fail]. Qed.

Lemma keeps_elem_at a : keeps_pid (elem_at a).
Proof. unfold elem_at. intros J e J'. destruct (elems J !! a); by intros [=]; subst. Qed.

Lemma keeps_if {A} (b : bool) (m1 m2 : jl A) : keeps_pid m1 → keeps_pid m2 → keeps_pid (if b then m1 else m2).
Proof. by destruct b. Qed.

Create HintDb keeps.
#[export] Hint Resolve keeps_bind keeps_ret keeps_fail keeps_get keeps_modify keeps_deref keeps_elem_at
  keeps_if : keeps.

Lemma keeps_put_elem a e : keeps_pid (put_elem a e).
Proof. unfold put_elem. auto with keeps. Qed.

Lemma keeps_free_elem a : keeps_pid (free_elem a).
Proof. unfold free_elem. auto with keeps. Qed.

#[export] Hint Resolve keeps_put_elem keeps_free_elem : keeps.

Lemma keeps_loops fuel :
  (∀ test prev cur, keeps_pid (remove_loop fuel test prev cur)) ∧
  (∀ test st cur, keeps_pid (update_loop fuel test st cur)) ∧
  (∀ test proj cur, keeps_pid (get_loop fuel test proj cur)) ∧
  (∀ cur, keeps_pid (last_elem fuel cur)) ∧
  (∀ ok n cur, keeps_pid (jobs_loop ok fuel n cur)).
Proof.
  induction fuel as [|fuel (H1 & H2 & H3 & H4 & H5)]; split_and!; intros; simpl; auto 12 with keeps.
Qed.

Lemma keeps_jop malloc o : keeps_pid (run_jop malloc o).
Proof.
  destruct o; cbn [run_jop]; unfold add_job, remove_job_jid, remove_job_pid, remove_job, update_job_jid,
    update_job_pid, update_job, get_job_pid, get_job_jid, get_job, get_next_pid.
  2-7: apply keeps_bind; [auto with keeps | intros J; apply keeps_loops].
  all: apply keeps_bind; [auto with keeps | intros J].
  - apply keeps_bind; [auto with keeps | intros new].
    apply keeps_bind; [auto with keeps | intros _].
    apply keeps_bind; [|auto with keeps]. apply keeps_if; [auto with keeps|].
    apply keeps_bind; [apply keeps_loops | auto with keeps].
  - auto 8 with keeps.
Qed.

Lemma keeps_jobs printf_ok : keeps_pid (jobs printf_ok).
Proof. unfold jobs. apply keeps_bind; [auto with keeps | intros J; apply keeps_loops]. Qed.

(** [jobs.c] keeps the promise, with memory available and a working [printf]. *)
Lemma jobs_table_ok malloc printf_ok :
  malloc_ok malloc → (∀ n, printf_ok n = true) →
  @JobTableOk job_list (jobs_table malloc printf_ok) jobs_rep.
Proof.
  intros Hm Hp. split.
  - intros o J sp q [Hrep Hsp]. destruct (run_jop_Ok malloc o J q Hm Hrep) as (J' & Hrun & Hrep').
    exists J'. split; [done|]. split; [done|]. by rewrite (keeps_jop malloc o _ _ _ Hrun).
  - intros J sp q [(d & t & H & ->) Hsp]. exists J. split; [|by split; [exists d, t|]].
    simpl. unfold jobs. rewrite ST_get, (jobs_loop_Ok _ J (Jobs.head J) (d ++ t)); [|apply H|by apply list_length|done].
    by rewrite <-fmap_app, list_fmap_bind.
  - intros g J sp q [(d & t & H & ->) Hsp].
    destruct (cleanup_loop_Ok g J (Jobs.head J) (d ++ t) (list_fuel J)) as (J' & Hrun & _);
      [apply H | apply H | by apply list_length|].
    cbn [jt_cleanup jobs_table fst snd]. unfold cleanup_job_list. rewrite Hrun, Hsp, <-fmap_app. destruct (g =? sp); [|done]. by rewrite <-list_fmap_compose.
Qed.
