(* ===== verification/JobsClaims.v ===== *)
(** * Properties of the job list: [jobs.c] against its contract. *)

From Stdlib Require Import ZArith Lia Ascii.
From stdpp Require Import base gmap numbers option list.
From S2P Require Import Prelude Stdio Jobs JobsSpec.

Open Scope Z_scope.

(** C26: any sequence of additions, removals, updates, lookups and steps of the
    iterator on a new job list runs without a bad access, in particular none
    through an element that was freed, and answers as a list of jobs with a
    position in it does. *)
Theorem job_list_correct (malloc : gmap Z job_element → option Z) (os : list jop) (g : Z) :
  malloc_ok malloc →
  ∃ J, run_jops malloc os (init_job_list g) = Ok ((jspecs os ([], [])).1, J) ∧
    log_rep J (jspecs os ([], [])).2.
Proof.
  intros Hm. apply run_jops_Ok; [done|apply init_rep].
Qed.

Lemma job_list_correct_witness :
  let os := [JAdd 1 100 RUNNING []; JAdd 2 200 RUNNING []; JAdd 3 300 STOPPED []; JNext;
             JRemovePid 200; JNext; JNext; JNext; JUpdateJid 3 RUNNING; JGetJid 300] in
  malloc_ok bump ∧
  ∃ J, run_jops bump os (init_job_list 7) = Ok ([0; 0; 0; 100; 0; 300; -1; 100; 0; 3], J) ∧
    log_rep J (jspecs os ([], [])).2.
Proof. intros os. split; [exact bump_ok|]. exact (job_list_correct bump os 7 bump_ok). Defined.

Lemma next_round malloc J d l :
  log_rep J (d, l) →
  ∃ J', run_jops malloc (replicate (S (length l)) JNext) J = Ok ((pid <$> l) ++ [-1], J') ∧
    log_rep J' ([], d ++ l).
Proof.
  revert d J. induction l as [|j l IH]; intros d J (d' & t' & H & Heq); simplify_eq/=;
    destruct (get_next_pid_Ok J d' t' H) as (J1 & Hrun1 & Hok1).
  - destruct t' as [|x t']; [|done]. exists J1. split; [by run Hrun1|]. exists [], d'.
    split; [done|]. by rewrite app_nil_r.
  - destruct t' as [|[a j'] t']; [done|]. simplify_eq/=.
    destruct (IH (d'.*2 ++ [j']) J1) as (J2 & Hrun2 & Hrep2).
    { exists (d' ++ [(a, j')]), t'. split; [done|]. by rewrite fmap_app. }
    exists J2. split; [run Hrun1; by run Hrun2|]. by rewrite <-app_assoc in Hrep2.
Qed.

(** A round of [get_next_pid] from the head visits every job once, in
    order, and then returns -1, at the head again. *)
Theorem get_next_pid_round (malloc : gmap Z job_element → option Z) (J : job_list) (l : list job) :
  log_rep J ([], l) →
  ∃ J', run_jops malloc (replicate (S (length l)) JNext) J = Ok ((pid <$> l) ++ [-1], J') ∧
    log_rep J' ([], l).
Proof. apply next_round. Qed.

(** A list of two jobs. *)
Definition two_jobs : list job := [Job 1 100 RUNNING []; Job 2 200 STOPPED []].

Definition two_list : job_list :=
  match run_jops bump [JAdd 1 100 RUNNING []; JAdd 2 200 STOPPED []] (init_job_list 7) with
  | Ok (_, J) => J
  | Err _ => init_job_list 7
  end.

Lemma two_list_rep : log_rep two_list ([], two_jobs).
Proof.
  destruct (run_jops_Ok bump [JAdd 1 100 RUNNING []; JAdd 2 200 STOPPED []] (init_job_list 7) ([], [])
    bump_ok (init_rep 7)) as (J & Hrun & Hrep).
  unfold two_list. rewrite Hrun. exact Hrep.
Qed.

Lemma get_next_pid_round_witness :
  ∃ J', run_jops bump [JNext; JNext; JNext] two_list = Ok ([100; 200; -1], J') ∧ log_rep J' ([], two_jobs).
Proof. exact (get_next_pid_round bump two_list two_jobs two_list_rep). Defined.
