(* ===== verification/ShellCommon.v ===== *)
(** * What the two shells share: tokens, parsing and system calls.

    [4-shell-1-haininz/sh.c] and [5-shell-2-haininz/sh.c] read a line, cut it
    into tokens, sort the tokens into arguments and redirections, and talk to
    the system.  A shell runs against a system whose answer to each call may
    depend on all calls made before: [os] maps the history, the call itself
    last, to a reply. *)

From Stdlib Require Import ZArith Lia Ascii String.
From stdpp Require Import base gmap strings numbers option list.
From S2P Require Import Prelude Stdio.

Open Scope Z_scope.
Open Scope list_scope.

Definition txt (s : String.string) : bytes := String.list_ascii_of_string s.

(** ** Tokens *)

(** The delimiters " \t\n". *)
Definition is_delim (c : ascii) : bool := (ord c =? 32) || (ord c =? 9) || (ord c =? 10).

(** The tokens that [strtok(command, " \t\n")] and the calls after it return. *)
Fixpoint tokens (cur : bytes) (l : bytes) : list bytes :=
  match l with
  | [] => match cur with [] => [] | _ => [rev cur] end
  | c :: l' =>
      if is_delim c
      then match cur with [] => tokens [] l' | _ => rev cur :: tokens [] l' end
      else tokens (c :: cur) l'
  end.

Definition strtok_all (command : bytes) : list bytes := tokens [] command.

(** ** [parse_command] *)

(** The variables of [parse_command], and the messages on [stderr]. *)
Record parsed := Parsed {
  args : list bytes;             (** [args[0 .. arg_count - 1]] *)
  input_redir : Z;
  output_redir : Z;
  input_file : option bytes;
  output_file : option bytes;
  skip_next : Z;
  amp_pos : Z;
  is_bg_job : Z;
  errors : list bytes;
}.

Definition arg_count (p : parsed) : Z := Z.of_nat (length (args p)).

Definition parse_start : parsed := Parsed [] 0 0 None None 0 (-1) 0 [].

(** [args] has room for 100 pointers. *)
Definition ARGS_SIZE : Z := 100.

Definition multiple_output : bytes := txt "syntax error: multiple output files" ++ [newline].
Definition multiple_input : bytes := txt "syntax error: multiple input files" ++ [newline].

Definition redirect_output (mode : Z) (p : parsed) : parsed :=
  Parsed (args p) (input_redir p) mode (input_file p) (output_file p) 2 (amp_pos p) (is_bg_job p)
    (if negb (output_redir p =? 0) then errors p ++ [multiple_output] else errors p).

Definition redirect_input (p : parsed) : parsed :=
  Parsed (args p) 1 (output_redir p) (input_file p) (output_file p) 1 (amp_pos p) (is_bg_job p)
    (if negb (input_redir p =? 0) then errors p ++ [multiple_input] else errors p).

Definition ampersand (p : parsed) : parsed :=
  Parsed (args p) (input_redir p) (output_redir p) (input_file p) (output_file p) (skip_next p)
    (arg_count p) (is_bg_job p) (errors p).

(** A token that is no operator: an argument, or the file of a redirection. *)
Definition plain_token (token : bytes) (p : parsed) : result parsed :=
  if skip_next p =? 0 then
    if arg_count p <? ARGS_SIZE then
      Ok (Parsed (args p ++ [token]) (input_redir p) (output_redir p) (input_file p) (output_file p)
            (skip_next p) (amp_pos p) (is_bg_job p) (errors p))
    else Err BadAccess
  else
    Ok (Parsed (args p) (input_redir p) (output_redir p)
          (if skip_next p =? 1 then Some token else input_file p)
          (if skip_next p =? 1 then output_file p
           else if skip_next p =? 2 then Some token else output_file p)
          0 (amp_pos p) (is_bg_job p) (errors p)).

(** The loop body; [amp] says whether "&" is an operator. *)
Definition parse_token (amp : bool) (token : bytes) (p : parsed) : result parsed :=
  if decide (token = txt ">") then Ok (redirect_output 1 p)
  else if decide (token = txt ">>") then Ok (redirect_output 2 p)
  else if decide (token = txt "<") then Ok (redirect_input p)
  else if amp && bool_decide (token = txt "&") then Ok (ampersand p)
  else plain_token token p.

Fixpoint parse_tokens (amp : bool) (ts : list bytes) (p : parsed) : result parsed :=
  match ts with
  | [] => Ok p
  | t :: ts' => match parse_token amp t p with Ok p' => parse_tokens amp ts' p' | Err e => Err e end
  end.

(** [parse_command]: the end of the arguments is marked by NULL, which needs
    room too; a "&" after the last argument makes a background job. *)
Definition parse_command (amp : bool) (command : bytes) : result parsed :=
  match parse_tokens amp (strtok_all command) parse_start with
  | Err e => Err e
  | Ok p =>
      if arg_count p <? ARGS_SIZE then
        Ok (Parsed (args p) (input_redir p) (output_redir p) (input_file p) (output_file p)
              (skip_next p) (amp_pos p) (if amp_pos p =? arg_count p then 1 else is_bg_job p) (errors p))
      else Err BadAccess
  end.

(** ** What a line means

    The grammar the parser implements: operators are removed, the first plain
    token after a redirection operator is its file, the others are the
    arguments. *)
Inductive tok := TOut | TAppend | TIn | TAmp | TWord (w : bytes).

Definition classify (amp : bool) (t : bytes) : tok :=
  if decide (t = txt ">") then TOut
  else if decide (t = txt ">>") then TAppend
  else if decide (t = txt "<") then TIn
  else if amp && bool_decide (t = txt "&") then TAmp
  else TWord t.

(** Where the next word goes. *)
Inductive slot := SArg | SIn | SOut.

Fixpoint words (s : slot) (ts : list tok) : list (slot * bytes) :=
  match ts with
  | [] => []
  | (TOut | TAppend) :: ts' => words SOut ts'
  | TIn :: ts' => words SIn ts'
  | TAmp :: ts' => words s ts'
  | TWord w :: ts' => (s, w) :: words SArg ts'
  end.

Definition slot_args (l : list (slot * bytes)) : list bytes :=
  omap (λ x, match x with (SArg, w) => Some w | _ => None end) l.

Definition last_of (f : slot → bool) (l : list (slot * bytes)) : option bytes :=
  last (omap (λ x, if f (fst x) then Some (snd x) else None) l).

Definition is_in (s : slot) : bool := match s with SIn => true | _ => false end.
Definition is_out (s : slot) : bool := match s with SOut => true | _ => false end.

(** The last redirection operator of each kind. *)
Fixpoint out_mode (m : Z) (ts : list tok) : Z :=
  match ts with
  | [] => m
  | TOut :: ts' => out_mode 1 ts'
  | TAppend :: ts' => out_mode 2 ts'
  | _ :: ts' => out_mode m ts'
  end.

Fixpoint in_mode (m : Z) (ts : list tok) : Z :=
  match ts with [] => m | TIn :: ts' => in_mode 1 ts' | _ :: ts' => in_mode m ts' end.

(** A "&" with no argument after it. *)
Fixpoint background (s : slot) (seen : bool) (ts : list tok) : bool :=
  match ts with
  | [] => seen
  | TAmp :: ts' => background s true ts'
  | (TOut | TAppend) :: ts' => background SOut seen ts'
  | TIn :: ts' => background SIn seen ts'
  | TWord _ :: ts' => background SArg (match s with SArg => false | _ => seen end) ts'
  end.

Definition slot_of (skip : Z) : slot := if skip =? 0 then SArg else if skip =? 1 then SIn else SOut.

Lemma last_of_cons f x l :
  last_of f (x :: l) = match last_of f l with
                       | Some w => Some w
                       | None => if f (fst x) then Some (snd x) else None
                       end.
Proof.
  unfold last_of. csimpl. destruct (f x.1); [|by destruct (last _)].
  rewrite last_cons. by destruct (last _).
Qed.

(** The meaning of a token list relative to a parser state. *)
Record parses (amp : bool) (ts : list tok) (p p' : parsed) : Prop := {
  ps_args : args p' = args p ++ slot_args (words (slot_of (skip_next p)) ts);
  ps_in : input_file p' =
    match last_of is_in (words (slot_of (skip_next p)) ts) with Some w => Some w | None => input_file p end;
  ps_out : output_file p' =
    match last_of is_out (words (slot_of (skip_next p)) ts) with Some w => Some w | None => output_file p end;
  ps_in_mode : input_redir p' = in_mode (input_redir p) ts;
  ps_out_mode : output_redir p' = out_mode (output_redir p) ts;
  ps_bg : (amp_pos p' =? arg_count p') =
    background (slot_of (skip_next p)) (amp_pos p =? arg_count p) ts;
  ps_flag : is_bg_job p' = is_bg_job p;
}.

(** An operator, or a word that is no argument: the parser goes on from [p1]. *)
Lemma parses_skip amp c ts p p1 p' :
  words (slot_of (skip_next p)) (c :: ts) = words (slot_of (skip_next p1)) ts →
  args p1 = args p → input_file p1 = input_file p → output_file p1 = output_file p →
  in_mode (input_redir p) (c :: ts) = in_mode (input_redir p1) ts →
  out_mode (output_redir p) (c :: ts) = out_mode (output_redir p1) ts →
  background (slot_of (skip_next p)) (amp_pos p =? arg_count p) (c :: ts) =
    background (slot_of (skip_next p1)) (amp_pos p1 =? arg_count p1) ts →
  is_bg_job p1 = is_bg_job p →
  parses amp ts p1 p' → parses amp (c :: ts) p p'.
Proof.
  intros Hw Ha Hi Ho Him Hom Hbg Hf [E1 E2 E3 E4 E5 E6 E7].
  split; rewrite ?Hw, ?Him, ?Hom, ?Hbg, <-?Ha, <-?Hi, <-?Ho, <-?Hf; done.
Qed.

(** The file of a redirection. *)
Lemma parses_file amp w ts p p' :
  skip_next p = 1 ∨ skip_next p = 2 →
  parses amp ts
    (Parsed (args p) (input_redir p) (output_redir p)
       (if skip_next p =? 1 then Some w else input_file p)
       (if skip_next p =? 1 then output_file p
        else if skip_next p =? 2 then Some w else output_file p)
       0 (amp_pos p) (is_bg_job p) (errors p)) p' →
  parses amp (TWord w :: ts) p p'.
Proof.
  destruct p as [ar ir om inf outf sk ap bg er]. cbn [skip_next].
  intros [-> | ->] [E1 E2 E3 E4 E5 E6 E7]; cbn in E2, E3, E6.
  all: split; try done; cbn [words slot_of Z.eqb Pos.eqb skip_next]; rewrite ?last_of_cons; cbn.
  all: try (rewrite E2; by destruct (last_of is_in _)).
  all: rewrite E3; by destruct (last_of is_out _).
Qed.

(** An argument. *)
Lemma parses_arg amp w ts p p' :
  skip_next p = 0 → amp_pos p ≤ arg_count p →
  parses amp ts
    (Parsed (args p ++ [w]) (input_redir p) (output_redir p) (input_file p) (output_file p)
       0 (amp_pos p) (is_bg_job p) (errors p)) p' →
  parses amp (TWord w :: ts) p p'.
Proof.
  destruct p as [ar ir om inf outf sk ap bg er]. unfold arg_count. cbn [skip_next amp_pos args].
  intros -> Hap [E1 E2 E3 E4 E5 E6 E7]; cbn in E1, E2, E3, E6.
  split; try done; cbn.
  - rewrite E1. by rewrite <-app_assoc.
  - rewrite E6. f_equal. unfold arg_count. cbn. rewrite length_app. simpl. apply Z.eqb_neq. lia.
Qed.

Lemma parse_token_classify amp t p :
  parse_token amp t p = match classify amp t with
                        | TOut => Ok (redirect_output 1 p)
                        | TAppend => Ok (redirect_output 2 p)
                        | TIn => Ok (redirect_input p)
                        | TAmp => Ok (ampersand p)
                        | TWord w => plain_token w p
                        end.
Proof. unfold parse_token, classify. repeat case_match; done. Qed.

(** The state of the loop between two tokens. *)
Definition parsing (p : parsed) : Prop :=
  (skip_next p = 0 ∨ skip_next p = 1 ∨ skip_next p = 2) ∧
  amp_pos p ≤ arg_count p ≤ ARGS_SIZE.

Definition room (c : list tok) (p : parsed) : Z :=
  arg_count p + Z.of_nat (length (slot_args (words (slot_of (skip_next p)) c))).

(** One token: the parser moves to a state from which the rest of the line
    means what the whole line meant before, or the array is full. *)
Lemma parse_token_step amp t c p :
  parsing p →
  match parse_token amp t p with
  | Ok p1 => parsing p1 ∧ room c p1 = room (classify amp t :: c) p ∧
             ∀ p', parses amp c p1 p' → parses amp (classify amp t :: c) p p'
  | Err e => e = BadAccess ∧ ARGS_SIZE < room (classify amp t :: c) p
  end.
Proof.
  intros [Hskip [Hamp Hcount]]. rewrite parse_token_classify.
  destruct (classify amp t) as [| | | |w].
  1-3: split; [split; [auto | done] | split; [done |]]; intros p' Hp';
    refine (parses_skip amp _ c p _ p' _ _ _ _ _ _ _ _ Hp'); done.
  - split; [split; [done|]; change (arg_count p ≤ arg_count p ≤ ARGS_SIZE); lia |].
    split; [done | intros p' Hp'].
    refine (parses_skip amp _ c p _ p' _ _ _ _ _ _ _ _ Hp'); try done.
    cbn [background]. f_equal. symmetry. apply Z.eqb_refl.
  - unfold plain_token. destruct Hskip as [Hs | Hs].
    + rewrite Hs. cbn [Z.eqb]. destruct (arg_count p <? ARGS_SIZE) eqn:Hlt.
      * split; [split; [auto|] | split; [|intros p' Hp']].
        -- unfold arg_count in *. cbn [args amp_pos]. rewrite length_app. simpl length. lia.
        -- unfold room, arg_count. cbn [args skip_next]. rewrite Hs, length_app.
           change (slot_of 0) with SArg. unfold slot_args. csimpl. lia.
        -- by apply parses_arg.
      * split; [done|]. unfold room. rewrite Hs.
        change (slot_of 0) with SArg. unfold slot_args. csimpl. lia.
    + assert ((skip_next p =? 0) = false) as -> by lia.
      split; [split; [auto | done] | split; [|intros p' Hp'; by apply parses_file]].
      unfold room. destruct Hs as [-> | ->]; done.
Qed.

(** Parsing succeeds exactly when the arguments fit the array. *)
Lemma parse_tokens_spec amp ts p :
  parsing p →
  if decide (room (classify amp <$> ts) p ≤ ARGS_SIZE)
  then ∃ p', parse_tokens amp ts p = Ok p' ∧ parses amp (classify amp <$> ts) p p'
  else parse_tokens amp ts p = Err BadAccess.
Proof.
  revert p. induction ts as [|t ts IH]; intros p Hp; csimpl.
  { destruct Hp as [_ [_ Hcount]]. rewrite decide_True by (unfold room; simpl; lia).
    exists p. split; [done|]. split; csimpl; rewrite ?app_nil_r; done. }
  pose proof (parse_token_step amp t (classify amp <$> ts) p Hp) as Hstep.
  destruct (parse_token amp t p) as [p1|e].
  - destruct Hstep as (Hp1 & Hroom & Hps). rewrite <-Hroom. specialize (IH p1 Hp1).
    case_decide; [|done]. destruct IH as (p' & Hrun & Hp'). eauto.
  - destruct Hstep as [-> Hfull]. rewrite decide_False by lia. done.
Qed.

(** What [parse_command] hands to [execute_command], by the grammar. *)
Record line_meaning := LineMeaning {
  lm_args : list bytes;
  lm_input : Z * option bytes;
  lm_output : Z * option bytes;
  lm_background : Z;
}.

Definition meaning (amp : bool) (command : bytes) : line_meaning :=
  let ts := classify amp <$> strtok_all command in
  let ws := words SArg ts in
  LineMeaning (slot_args ws) (in_mode 0 ts, last_of is_in ws) (out_mode 0 ts, last_of is_out ws)
    (if background SArg false ts then 1 else 0).

Definition handed (p : parsed) : line_meaning :=
  LineMeaning (args p) (input_redir p, input_file p) (output_redir p, output_file p) (is_bg_job p).

Lemma room_start c : room c parse_start = Z.of_nat (length (slot_args (words SArg c))).
Proof. done. Qed.

Lemma parse_command_spec amp command :
  if decide (Z.of_nat (length (lm_args (meaning amp command))) < ARGS_SIZE)
  then ∃ p, parse_command amp command = Ok p ∧ handed p = meaning amp command
  else parse_command amp command = Err BadAccess.
Proof.
  assert (parsing parse_start) as Hp by (split; [auto | done]).
  pose proof (parse_tokens_spec amp (strtok_all command) parse_start Hp) as Hspec.
  rewrite room_start in Hspec. unfold parse_command. cbn [meaning lm_args].
  set (ts := classify amp <$> strtok_all command) in *.
  case_decide as Hfit; [|rewrite Hspec, decide_False by lia; done].
  destruct Hspec as (p & -> & [E1 E2 E3 E4 E5 E6 E7]). cbn in E1, E2, E3, E4, E5, E6, E7.
  assert (arg_count p = Z.of_nat (length (slot_args (words SArg ts)))) as Hcount
    by (unfold arg_count; by rewrite E1).
  case_decide as Hlt.
  - rewrite (proj2 (Z.ltb_lt _ _)) by lia.
    eexists; split; [done|]. unfold handed, meaning. fold ts. cbn. rewrite E6, E1, E4, E5, E2, E3.
    f_equal; [by destruct (last_of is_in _) | by destruct (last_of is_out _) |].
    rewrite E7. by destruct (background _ _ _).
  - rewrite (proj2 (Z.ltb_ge _ _)) by lia. done.
Qed.

(** ** The system

    A program run by the shell and the kernel are not part of the sources: what
    a call returns is an input of the model.  It may depend on everything that
    happened before, which is what a [history] records. *)

(** The status that [waitpid] stores. *)
Inductive wstatus := WExited (n : Z) | WSignaled (n : Z) | WStopped (n : Z) | WContinued.

Inductive call :=
  | CChdir (path : bytes)
  | CLink (old new : bytes)
  | CUnlink (path : bytes)
  | CFork
  | CSetpgid (pid pgid : Z)
  | CTcsetpgrp (pgrp : Z)                      (** on [STDIN_FILENO] *)
  | CGetpgrp
  | CGetpid
  | CKill (pid sig : Z)
  | CSignal (sig : Z) (ignore : bool)          (** [SIG_IGN] or [SIG_DFL] *)
  | CClose (fd : Z)
  | COpen (path : option bytes) (flags : Z)
  | CExecv (argv : list bytes)
  | CExecvp (argv : list bytes)
  | CPipe (reader writer : Z)                  (** with the descriptors it stores *)
  | CDup2 (old new : Z).

Inductive event :=
  | Called (c : call) (r : Z)
  | Waited (pid options r : Z) (st : wstatus)
  | Stdout (text : bytes)
  | Stderr (text : bytes)
  | Perror (s : option bytes).

Abbreviation history := (list event).

Record system := System {
  sys_call : history → call → Z;
  (** [waitpid(pid, &status, options)]: what it returns and stores. *)
  sys_wait : history → Z → Z → Z * wstatus;
  (** What successive calls of [waitpid] that do not block report of the
      children, and the answer of the call that has nothing more to report. *)
  sys_changes : history → list (Z * wstatus) * Z;
}.

Abbreviation sh := (ST history).

(** Linux's values. *)
Definition O_RDONLY : Z := 0.
Definition O_WRONLY : Z := 1.
Definition O_CREAT : Z := 64.
Definition O_TRUNC : Z := 512.
Definition O_APPEND : Z := 1024.

Definition emit (e : event) : sh unit := modify (λ h, h ++ [e]).

(** How the execution of a command ends: the shell goes on, the process exits,
    or it is replaced by another program. *)
Inductive outcome := Continue | Exited (status : Z) | Execed.

#[export] Instance outcome_eq_dec : EqDecision outcome.
Proof. solve_decision. Defined.

Section Calls.
Context (os : system).

Definition syscall (c : call) : sh Z := λ h,
  let r := sys_call os h c in Ok (r, h ++ [Called c r]).

Definition waitpid (pid options : Z) : sh (Z * wstatus) := λ h,
  let r := sys_wait os h pid options in Ok (r, h ++ [Waited pid options r.1 r.2]).

(** ** Builtins of both shells *)

Definition cd_command (args : list bytes) : sh unit :=
  match args with
  | [_; dir] =>
      r ← syscall (CChdir dir);
      if negb (r =? 0) then emit (Perror (Some (txt "cd"))) else mret tt
  | _ => emit (Stderr (txt "cd: syntax error" ++ [newline]))
  end.

Definition ln_command (args : list bytes) : sh unit :=
  match args with
  | [_; old; new] =>
      r ← syscall (CLink old new);
      if negb (r =? 0) then emit (Perror (Some (txt "ln"))) else mret tt
  | _ => emit (Stderr (txt "ln: syntax error" ++ [newline]))
  end.

Definition rm_command (args : list bytes) : sh unit :=
  match args with
  | [_; file] =>
      r ← syscall (CUnlink file);
      if negb (r =? 0) then emit (Perror (Some (txt "rm"))) else mret tt
  | _ => emit (Stderr (txt "rm: syntax error" ++ [newline]))
  end.

(** ** Redirection in the child: whether all files could be opened *)

Definition open_input (p : parsed) : sh bool :=
  if negb (input_redir p =? 0) then
    syscall (CClose 0);;
    fd ← syscall (COpen (input_file p) O_RDONLY);
    if fd =? -1 then emit (Perror (input_file p));; mret false else mret true
  else mret true.

(** [mode == n && open(output_file, flags, 0777) == -1], with its error path. *)
Definition open_output_as (p : parsed) (mode flags : Z) : sh bool :=
  if output_redir p =? mode then
    fd ← syscall (COpen (output_file p) flags);
    if fd =? -1 then emit (Perror (output_file p));; mret false else mret true
  else mret true.

Definition open_output (p : parsed) : sh bool :=
  if negb (output_redir p =? 0) then
    syscall (CClose 1);;
    ok ← open_output_as p 1 (Z.lor (Z.lor O_WRONLY O_CREAT) O_TRUNC);
    if negb ok then mret false
    else open_output_as p 2 (Z.lor (Z.lor O_WRONLY O_CREAT) O_APPEND)
  else mret true.

Definition redirect (p : parsed) : sh bool :=
  if negb (input_redir p =? 0) || negb (output_redir p =? 0) then
    ok ← open_input p;
    if negb ok then mret false else open_output p
  else mret true.
End Calls.

(** ** Descriptors

    The descriptor table a history leaves behind: what each open descriptor
    refers to, a file opened with some flags, an end of a pipe or whatever it was
    at the start. *)
Inductive target := Inherited (fd : Z) | File (path : option bytes) (flags : Z) | PipeReader | PipeWriter.

Abbreviation fds := (gmap Z target).

Definition fd_step (t : fds) (e : event) : fds :=
  match e with
  | Called (CClose fd) _ => delete fd t
  | Called (COpen path flags) r => if 0 <=? r then <[r := File path flags]> t else t
  | Called (CPipe reader writer) r => if 0 <=? r then <[writer := PipeWriter]> (<[reader := PipeReader]> t) else t
  | Called (CDup2 old new) r =>
      if 0 <=? r then match t !! old with Some f => <[new := f]> t | None => t end else t
  | _ => t
  end.

Definition fd_table (t0 : fds) (h : history) : fds := foldl fd_step t0 h.

Lemma fd_table_snoc t0 h e : fd_table t0 (h ++ [e]) = fd_step (fd_table t0 h) e.
Proof. unfold fd_table. by rewrite foldl_app. Qed.

(** POSIX: [open] returns -1 or the lowest descriptor that is not open. *)
Definition lowest (t : fds) (r : Z) : Prop :=
  0 ≤ r ∧ t !! r = None ∧ ∀ k, 0 ≤ k < r → is_Some (t !! k).

Definition posix_open (os : system) (t0 : fds) : Prop :=
  ∀ h path flags, sys_call os h (COpen path flags) = -1 ∨
                  lowest (fd_table t0 h) (sys_call os h (COpen path flags)).

Lemma lowest_unique t r k : lowest t r → 0 ≤ k → t !! k = None →
  (∀ i, 0 ≤ i < k → is_Some (t !! i)) → r = k.
Proof.
  intros (Hr & Hnone & Hlow) Hk Hknone Hklow. destruct (Z.lt_trichotomy r k) as [?|[?|?]]; [|done|].
  - destruct (Hklow r) as [? ?]; [lia|congruence].
  - destruct (Hlow k) as [? ?]; [lia|congruence].
Qed.

(** Events of a redirection. *)
Definition plumbing (e : event) : Prop :=
  match e with Called (CClose _ | COpen _ _) _ | Perror _ => True | _ => False end.

(** An error message of [perror] is among the events. *)
Definition reported (h : history) : Prop := ∃ s, Perror s ∈ h.

Lemma reported_last h s : last h = Some (Perror s) → reported h.
Proof. intros Hl. exists s. by apply last_Some_elem_of. Qed.

Lemma reported_app h h' : reported h' → reported (h ++ h').
Proof. intros [s Hs]. exists s. apply elem_of_app. by right. Qed.

Definition out_target (p : parsed) : target :=
  File (output_file p)
    (if output_redir p =? 1 then Z.lor (Z.lor O_WRONLY O_CREAT) O_TRUNC
     else Z.lor (Z.lor O_WRONLY O_CREAT) O_APPEND).

Section Redirect.
Context (os : system) (t0 : fds) (Hposix : posix_open os t0).

(** Closing [fd] and opening a file with every lower descriptor in use: [fd] is
    the file, or the call failed. *)
Lemma reopen h fd path flags :
  0 ≤ fd → (∀ i, 0 ≤ i < fd → is_Some (fd_table t0 h !! i)) →
  let h1 := h ++ [Called (CClose fd) (sys_call os h (CClose fd))] in
  let r := sys_call os h1 (COpen path flags) in
  r = -1 ∨ fd_table t0 (h1 ++ [Called (COpen path flags) r]) = <[fd := File path flags]> (fd_table t0 h).
Proof.
  intros Hfd Hlow h1 r. destruct (Hposix h1 path flags) as [?|Hr]; [by left|right].
  assert (fd_table t0 h1 = delete fd (fd_table t0 h)) as Ht by apply fd_table_snoc.
  rewrite Ht in Hr. fold r in Hr.
  assert (r = fd) as ->.
  { eapply lowest_unique; [done|done|by rewrite lookup_delete_eq|].
    intros i Hi. rewrite lookup_delete_ne by lia. by apply Hlow. }
  rewrite fd_table_snoc, Ht. cbn [fd_step]. rewrite (proj2 (Z.leb_le 0 fd)) by done.
  by rewrite insert_delete_eq.
Qed.

Lemma open_input_Ok p h :
  ∃ b h', open_input os p h = Ok (b, h ++ h') ∧ Forall plumbing h' ∧ (b = false → reported h') ∧
    (b = true → fd_table t0 (h ++ h') =
       if input_redir p =? 0 then fd_table t0 h
       else <[0 := File (input_file p) O_RDONLY]> (fd_table t0 h)).
Proof.
  unfold open_input. destruct (input_redir p =? 0); cbn [negb].
  { exists true, []. by rewrite app_nil_r. }
  pose proof (reopen h 0 (input_file p) O_RDONLY ltac:(lia) ltac:(lia)) as Hopen.
  unfold mbind, ST_bind, syscall, emit, modify, mret, ST_ret. cbv zeta in *.
  destruct (_ =? -1) eqn:Hr.
  - do 2 eexists. rewrite <-!app_assoc. split; [done|]. split; [by repeat constructor|].
    split; [|done]. intros _. by eapply reported_last.
  - do 2 eexists. rewrite <-!app_assoc. split; [done|]. split; [by repeat constructor|]. split; [done|].
    intros _. apply Z.eqb_neq in Hr. destruct Hopen as [?|Ht]; [done|]. by rewrite <-app_assoc in Ht.
Qed.

Lemma open_output_Ok p h :
  (output_redir p = 0 ∨ output_redir p = 1 ∨ output_redir p = 2) → is_Some (fd_table t0 h !! 0) →
  ∃ b h', open_output os p h = Ok (b, h ++ h') ∧ Forall plumbing h' ∧ (b = false → reported h') ∧
    (b = true → fd_table t0 (h ++ h') =
       if output_redir p =? 0 then fd_table t0 h else <[1 := out_target p]> (fd_table t0 h)).
Proof.
  intros Hmode H0. unfold open_output, open_output_as, out_target.
  assert (∀ i, 0 ≤ i < 1 → is_Some (fd_table t0 h !! i)) as Hlow.
  { intros i Hi. by assert (i = 0) as -> by lia. }
  destruct Hmode as [-> | Hmode]; cbn [Z.eqb negb]. { exists true, []. by rewrite app_nil_r. }
  pose proof (λ flags, reopen h 1 (output_file p) flags ltac:(lia) Hlow) as Hopen.
  unfold mbind, ST_bind, syscall, emit, modify, mret, ST_ret. cbv zeta in *.
  destruct Hmode as [-> | ->]; cbn [Z.eqb negb Pos.eqb].
  all: destruct (_ =? -1) eqn:Hr; cbn [negb].
  all: do 2 eexists; rewrite <-!app_assoc; split; [done|]; split; [by repeat constructor|].
  all: split; [first [done | intros _; by eapply reported_last]|].
  all: intros Hb; try done; apply Z.eqb_neq in Hr.
  all: edestruct Hopen as [?|Ht]; [done|]; rewrite <-app_assoc in Ht; exact Ht.
Qed.

(** The redirections of a command, when all files open: descriptor 0 is the
    input file, 1 the output file with the flags of the operator, and every
    other descriptor is as before. *)
Lemma redirect_Ok p h :
  (output_redir p = 0 ∨ output_redir p = 1 ∨ output_redir p = 2) → is_Some (fd_table t0 h !! 0) →
  ∃ b h', redirect os p h = Ok (b, h ++ h') ∧ Forall plumbing h' ∧ (b = false → reported h') ∧
    (b = true → ∀ k, fd_table t0 (h ++ h') !! k =
       if (k =? 0) && negb (input_redir p =? 0) then Some (File (input_file p) O_RDONLY)
       else if (k =? 1) && negb (output_redir p =? 0) then Some (out_target p)
       else fd_table t0 h !! k).
Proof.
  intros Hmode H0. unfold redirect.
  destruct (negb (input_redir p =? 0) || negb (output_redir p =? 0)) eqn:Hany.
  - destruct (open_input_Ok p h) as (b & h1 & Hin & Hp1 & Hr1 & Ht1). run Hin.
    destruct b; cbn [negb]; [|exists false, h1; by auto]. specialize (Ht1 eq_refl).
    destruct (open_output_Ok p (h ++ h1)) as (b & h2 & Hout & Hp2 & Hr2 & Ht2); [done| |].
    { rewrite Ht1. destruct (input_redir p =? 0); [done|]. by rewrite lookup_insert_eq. }
    exists b, (h1 ++ h2). rewrite Hout, app_assoc. split; [done|]. split; [by apply Forall_app|].
    split; [intros Hb; by apply reported_app, Hr2|].
    intros ->. rewrite (Ht2 eq_refl), Ht1. intros k.
    destruct (output_redir p =? 0), (input_redir p =? 0); cbn [negb];
      rewrite ?andb_false_r, ?andb_true_r; try done.
    all: destruct (Z.eqb_spec k 0), (Z.eqb_spec k 1); subst; try done; try lia;
      by rewrite ?lookup_insert_ne, ?lookup_insert_eq, ?lookup_insert_ne by done.
  - apply orb_false_iff in Hany as [Hi Ho]. exists true, []. rewrite app_nil_r, Hi, Ho.
    split; [done|]. split; [done|]. split; [done|]. intros _ k. by rewrite !andb_false_r.
Qed.
End Redirect.

Lemma out_mode_cases m ts : (m = 0 ∨ m = 1 ∨ m = 2) → out_mode m ts = 0 ∨ out_mode m ts = 1 ∨ out_mode m ts = 2.
Proof. revert m. induction ts as [|[] ts IH]; intros m Hm; simpl; auto. Qed.

(** Events that leave the descriptors alone. *)
Definition no_fd (e : event) : Prop :=
  match e with Called (CClose _ | COpen _ _ | CPipe _ _ | CDup2 _ _) _ => False | _ => True end.

Lemma fd_table_app t0 h h' : fd_table t0 (h ++ h') = fd_table (fd_table t0 h) h'.
Proof. apply foldl_app. Qed.

Lemma fd_table_no_fd t0 h h' : Forall no_fd h' → fd_table t0 (h ++ h') = fd_table t0 h.
Proof.
  intros Hh. rewrite fd_table_app. generalize (fd_table t0 h) as t.
  induction Hh as [|e h' He Hh IH]; intros t; [done|]. cbn [fd_table foldl]. rewrite IH.
  by destruct e as [[]| | | |].
Qed.

(** ** Builtins: at most one call of the system, and messages *)
Definition builtin_event (e : event) : Prop :=
  match e with
  | Called (CChdir _ | CLink _ _ | CUnlink _) _ | Stderr _ | Perror _ => True
  | _ => False
  end.

Definition is_call (e : event) : bool := match e with Called _ _ => true | _ => false end.

Ltac solve_builtin :=
  unfold mbind, ST_bind, syscall, emit, modify; repeat case_match; simplify_eq;
  eexists; rewrite <-?app_assoc;
  (split; [done | split; [by repeat constructor | simpl; lia]]).

Lemma cd_command_Ok os args h :
  ∃ h', cd_command os args h = Ok (tt, h ++ h') ∧ Forall builtin_event h' ∧
        (length (List.filter is_call h') ≤ 1)%nat.
Proof. unfold cd_command. solve_builtin. Qed.

Lemma ln_command_Ok os args h :
  ∃ h', ln_command os args h = Ok (tt, h ++ h') ∧ Forall builtin_event h' ∧
        (length (List.filter is_call h') ≤ 1)%nat.
Proof. unfold ln_command. solve_builtin. Qed.

Lemma rm_command_Ok os args h :
  ∃ h', rm_command os args h = Ok (tt, h ++ h') ∧ Forall builtin_event h' ∧
        (length (List.filter is_call h') ≤ 1)%nat.
Proof. unfold rm_command. solve_builtin. Qed.

(** What a program finds in its descriptors: the files of the redirections,
    and what the shell had in the others. *)
Definition redirected (t : fds) (m : line_meaning) (k : Z) : option target :=
  if (k =? 0) && negb ((lm_input m).1 =? 0) then Some (File (lm_input m).2 O_RDONLY)
  else if (k =? 1) && negb ((lm_output m).1 =? 0) then
    Some (File (lm_output m).2
            (if (lm_output m).1 =? 1 then Z.lor (Z.lor O_WRONLY O_CREAT) O_TRUNC
             else Z.lor (Z.lor O_WRONLY O_CREAT) O_APPEND))
  else t !! k.

Lemma handed_mode amp command p :
  handed p = meaning amp command →
  output_redir p = 0 ∨ output_redir p = 1 ∨ output_redir p = 2.
Proof. unfold handed, meaning. intros [= _ _ _ -> _ _]. apply out_mode_cases. auto. Qed.

(** The lines the loop of [main] reads with [fgets] into [n + 1] bytes. *)
Fixpoint input_lines (n fuel : nat) (input : bytes) : list bytes :=
  match fuel, input with
  | O, _ | _, [] => []
  | S fuel', _ => let '(line, rest) := fgets_chars n input in line :: input_lines n fuel' rest
  end.

(** The messages of the parser. *)
Lemma stderr_errors p :
  Forall (λ e, ∃ s, e = Stderr s) (Stderr <$> errors p) ∧
  Forall builtin_event (Stderr <$> errors p) ∧ Forall no_fd (Stderr <$> errors p) ∧
  List.filter is_call (Stderr <$> errors p) = [].
Proof.
  induction (errors p) as [|e l (? & ? & ? & ?)]; csimpl; [by repeat constructor|].
  split; [constructor; eauto|]. split; [by constructor|]. split; [by constructor|done].
Qed.
