(* ===== verification/Shell1.v ===== *)
(** * The first shell: [4-shell-1-haininz/sh.c].

    A loop that reads lines, runs four builtins itself and everything else in a
    child process that it waits for. *)

From Stdlib Require Import ZArith Lia Ascii String.
From stdpp Require Import base gmap strings numbers option list.
From S2P Require Import Prelude Stdio ShellCommon.

Open Scope Z_scope.
Open Scope list_scope.

Definition MAX_INPUT_SIZE : nat := 1024.

(** [parse_command]: "&" is an ordinary word. *)
Definition parse_command (command : bytes) : result parsed := ShellCommon.parse_command false command.

Section Shell.
Context (os : system).

(** The child after [fork]. *)
Definition child (p : parsed) : sh outcome :=
  ok ← redirect os p;
  if negb ok then mret (Exited 1)
  else
    r ← syscall os (CExecv (args p));
    if r =? -1 then emit (Perror (Some (txt "execv")));; mret (Exited 1)
    else mret Execed.

(** The last branch of [execute_command]. *)
Definition run_program (p : parsed) : sh outcome :=
  pid ← syscall os CFork;
  if pid =? 0 then child p
  else
    waitpid os pid 0;;
    mret Continue.

(** [execute_command] *)
Definition execute_command (command : bytes) : sh outcome :=
  match parse_command command with
  | Err e => fail e
  | Ok p =>
      modify (λ h, h ++ (Stderr <$> errors p));;
      match args p with
      | [] => mret Continue
      | name :: _ =>
          if decide (name = txt "cd") then cd_command os (args p);; mret Continue
          else if decide (name = txt "ln") then ln_command os (args p);; mret Continue
          else if decide (name = txt "rm") then rm_command os (args p);; mret Continue
          else if decide (name = txt "exit") then mret (Exited 0)
          else run_program p
      end
  end.

(** [main]: the loop over the lines of the input.  Each turn reads at least one
    byte, so the length of the input bounds the number of turns. *)
Fixpoint main_loop (fuel : nat) (input : bytes) : sh outcome :=
  match fuel with
  | O => fail NoFuel
  | S fuel' =>
      match input with
      | [] => mret (Exited 0)
      | _ =>
          let '(line, rest) := fgets_chars (MAX_INPUT_SIZE - 1) input in
          o ← execute_command line;
          match o with Continue => main_loop fuel' rest | _ => mret o end
      end
  end.

Definition main (input : bytes) : sh outcome := main_loop (S (length input)) input.
End Shell.

(** ** Properties *)

Section Proofs.
Context (os : system).

(** Whether the words of a line name a program rather than a builtin. *)
Definition is_program (words : list bytes) : bool :=
  match words with
  | [] => false
  | name :: _ => negb (bool_decide (name ∈ [txt "cd"; txt "ln"; txt "rm"; txt "exit"]))
  end.

(** The child never comes back to the loop of the shell: it exits with status 1
    or becomes the program, with its descriptors redirected. *)
Lemma sh1_child_Ok t0 p command h :
  posix_open os t0 → is_Some (fd_table t0 h !! 0) → handed p = meaning false command →
  ∃ o h', child os p h = Ok (o, h ++ h') ∧
    (o = Exited 1 ∧ reported h' ∨
     o = Execed ∧ (∃ r, last h' = Some (Called (CExecv (lm_args (meaning false command))) r)) ∧
     ∀ k, fd_table t0 (h ++ h') !! k = redirected (fd_table t0 h) (meaning false command) k).
Proof.
  intros Hposix H0 Hp. pose proof (handed_mode _ _ _ Hp) as Hmode. rewrite <-Hp.
  destruct (redirect_Ok os t0 Hposix p h Hmode H0) as (b & h1 & Hrun & _ & Hrep & Ht).
  unfold child. run Hrun. destruct b; cbn [negb]; [|exists (Exited 1), h1; by auto].
  unfold mbind, ST_bind, syscall, emit, modify, mret, ST_ret. cbv zeta.
  destruct (_ =? -1); (do 2 eexists; rewrite <-!app_assoc; split; [done|]); [left|right].
  { split; [done|]. by apply reported_app; eapply reported_last. }
  split; [done|]. split; [eexists; by rewrite last_snoc|].
  intros k. rewrite app_assoc, fd_table_no_fd by by repeat constructor. by rewrite (Ht eq_refl).
Qed.
(** The branch for programs, from [fork] on. *)
Lemma sh1_program_Ok t0 p command h :
  posix_open os t0 → is_Some (fd_table t0 h !! 0) → handed p = meaning false command →
  ∃ o h', run_program os p h = Ok (o, h ++ h') ∧
    let f := sys_call os h CFork in
    (f ≠ 0 → o = Continue ∧ ∃ r st, h' = [Called CFork f; Waited f 0 r st]) ∧
    (f = 0 → o = Exited 1 ∧ reported h' ∨
     o = Execed ∧ (∃ r, last h' = Some (Called (CExecv (lm_args (meaning false command))) r)) ∧
     ∀ k, fd_table t0 (h ++ h') !! k = redirected (fd_table t0 h) (meaning false command) k).
Proof.
  intros Hposix H0 Hp. unfold run_program. unfold mbind at 1, ST_bind at 1, syscall at 1. cbv zeta.
  set (f := sys_call os h CFork). destruct (Z.eqb_spec f 0) as [Hf|Hf].
  - assert (fd_table t0 (h ++ [Called CFork f]) = fd_table t0 h) as Ht.
    { by apply fd_table_no_fd; repeat constructor. }
    destruct (sh1_child_Ok t0 p command (h ++ [Called CFork f]) Hposix) as (o & h1 & Hrun & Ho);
      [by rewrite Ht|done|].
    exists o, (Called CFork f :: h1). rewrite Hrun, <-app_assoc. split; [done|]. split; [done|].
    rewrite Ht, <-app_assoc in Ho. intros _. destruct Ho as [[? Hrep]|(? & (r & Hr) & Hk)].
    { left. split; [done|]. by apply (reported_app [_]). }
    right.
    split; [done|]. split; [|done]. exists r. rewrite last_cons, Hr. done.
  - do 2 eexists. unfold mbind, ST_bind, waitpid, mret, ST_ret. cbv zeta. rewrite <-app_assoc.
    split; [done|]. split; [|done]. intros _. split; [done|]. by do 2 eexists.
Qed.

(** What one line does. *)
Definition sh1_line (t0 : fds) (line : bytes) (h : history) (o : outcome) (h' : history) : Prop :=
  let m := meaning false line in
  if is_program (lm_args m) then
    ∃ errs rest, h' = errs ++ rest ∧ Forall (λ e, ∃ s, e = Stderr s) errs ∧
      let f := sys_call os (h ++ errs) CFork in
      (f ≠ 0 → o = Continue ∧ ∃ r st, rest = [Called CFork f; Waited f 0 r st]) ∧
      (f = 0 → o = Exited 1 ∧ reported rest ∨
       o = Execed ∧ (∃ r, last rest = Some (Called (CExecv (lm_args m)) r)) ∧
       ∀ k, fd_table t0 (h ++ h') !! k = redirected (fd_table t0 h) m k)
  else
    Forall builtin_event h' ∧ (length (List.filter is_call h') ≤ 1)%nat ∧
    o = (if decide (head (lm_args m) = Some (txt "exit")) then Exited 0 else Continue).

(** A builtin after the messages of the parser. *)
Lemma builtin_after p (c : sh unit) h :
  (∃ h', c (h ++ (Stderr <$> errors p)) = Ok (tt, (h ++ (Stderr <$> errors p)) ++ h') ∧
         Forall builtin_event h' ∧ (length (List.filter is_call h') ≤ 1)%nat) →
  ∃ h', (c;; mret Continue) (h ++ (Stderr <$> errors p)) = Ok (Continue, h ++ h') ∧
        Forall builtin_event h' ∧ (length (List.filter is_call h') ≤ 1)%nat.
Proof.
  intros (h1 & Hrun & Hb & Hc). exists ((Stderr <$> errors p) ++ h1). run Hrun. rewrite app_assoc.
  destruct (stderr_errors p) as (_ & Hs & _ & Hf).
  split; [done|]. split; [by apply Forall_app|]. by rewrite List.filter_app, Hf.
Qed.

Lemma execute_line t0 line h :
  posix_open os t0 → is_Some (fd_table t0 h !! 0) →
  Z.of_nat (length (lm_args (meaning false line))) < ARGS_SIZE →
  ∃ o h', execute_command os line h = Ok (o, h ++ h') ∧ sh1_line t0 line h o h'.
Proof.
  intros Hposix H0 Hlen. pose proof (parse_command_spec false line) as Hparse.
  rewrite decide_True in Hparse by done. destruct Hparse as (p & Hp & Hm).
  unfold execute_command, parse_command, sh1_line. rewrite Hp, ST_modify. cbv zeta.
  assert (args p = lm_args (meaning false line)) as Ha by (by rewrite <-Hm). rewrite <-Ha.
  destruct (stderr_errors p) as (Hs1 & Hs2 & Hs3 & Hs4).
  destruct (args p) as [|name rest] eqn:Hargs; cbn [is_program head].
  { exists Continue, (Stderr <$> errors p). split; [done|]. rewrite Hs4. split; [done|]. simpl. split; [lia|done]. }
  case_decide as H1; [|case_decide as H2; [|case_decide as H3; [|case_decide as H4]]].
  - destruct (builtin_after p _ h (cd_command_Ok os (name :: rest) _)) as (h' & Hrun & Hb & Hc).
    exists Continue, h'. split; [exact Hrun|]. by subst name.
  - destruct (builtin_after p _ h (ln_command_Ok os (name :: rest) _)) as (h' & Hrun & Hb & Hc).
    exists Continue, h'. split; [exact Hrun|]. by subst name.
  - destruct (builtin_after p _ h (rm_command_Ok os (name :: rest) _)) as (h' & Hrun & Hb & Hc).
    exists Continue, h'. split; [exact Hrun|]. by subst name.
  - subst name. exists (Exited 0), (Stderr <$> errors p). rewrite Hs4. split; [done|]. split; [done|]. simpl. split; [lia|done].
  - rewrite bool_decide_false by set_solver. cbn [negb].
    destruct (sh1_program_Ok t0 p line (h ++ (Stderr <$> errors p)) Hposix) as (o & h' & Hrun & Hpar & Hchild);
      [by rewrite fd_table_no_fd|done|].
    exists o, ((Stderr <$> errors p) ++ h'). rewrite Hrun, app_assoc. split; [done|].
    exists (Stderr <$> errors p), h'. split; [done|]. split; [done|].
    split; [exact Hpar|]. intros Hf. specialize (Hchild Hf).
    rewrite (fd_table_no_fd t0 h _ Hs3), <-Ha in Hchild. exact Hchild.
Qed.
Lemma sh1_line_fd t0 line h h' :
  sh1_line t0 line h Continue h' → fd_table t0 (h ++ h') = fd_table t0 h.
Proof.
  unfold sh1_line. cbv zeta. case_match.
  - intros (errs & rest & -> & Herrs & Hpar & Hchild). apply fd_table_no_fd, Forall_app. split.
    + eapply Forall_impl; [done|]. by intros ? [? ->].
    + destruct (decide (sys_call os (h ++ errs) CFork = 0)) as [Hf|Hf].
      * by destruct (Hchild Hf) as [[? ?]|[? ?]].
      * destruct (Hpar Hf) as (_ & r & st & ->). by repeat constructor.
  - intros (Hb & _). apply fd_table_no_fd. eapply Forall_impl; [done|]. by intros [[]| | | |].
Qed.

Definition fits (line : bytes) : Prop := Z.of_nat (length (lm_args (meaning false line))) < ARGS_SIZE.

Lemma main_loop_Ok t0 fuel input h :
  posix_open os t0 → is_Some (fd_table t0 h !! 0) → (length input < fuel)%nat →
  Forall fits (input_lines (MAX_INPUT_SIZE - 1) fuel input) →
  ∃ o h', main_loop os fuel input h = Ok (o, h ++ h') ∧ o ≠ Continue ∧
    ((∀ h0, sys_call os h0 CFork ≠ 0) → o = Exited 0).
Proof.
  intros Hposix. revert input h. induction fuel as [|fuel IH]; intros input h H0 Hfuel Hfits; [lia|].
  cbn [main_loop]. destruct input as [|c input]; [exists (Exited 0), []; by rewrite app_nil_r|].
  cbn [input_lines] in Hfits.
  pose proof (fgets_chars_progress (MAX_INPUT_SIZE - 1) (c :: input) ltac:(done) ltac:(done)) as Hprog.
  destruct (fgets_chars (MAX_INPUT_SIZE - 1) (c :: input)) as [line rest]. cbn [snd] in Hprog.
  apply Forall_cons in Hfits as [Hline Hrest].
  destruct (execute_line t0 line h Hposix H0 Hline) as (o & h1 & Hrun & Hl). run Hrun.
  destruct (decide (o = Continue)) as [->|Hne].
  - destruct (IH rest (h ++ h1)) as (o & h2 & Hrun2 & Ho & Hpar);
      [by rewrite (sh1_line_fd _ _ _ _ Hl)|lia|done|].
    exists o, (h1 ++ h2). by rewrite Hrun2, app_assoc.
  - exists o, h1. split; [by destruct o|]. split; [done|]. intros Hfork.
    revert Hl. unfold sh1_line. cbv zeta. case_match.
    + intros (errs & r & _ & _ & Hpar & _). by destruct (Hpar (Hfork _)).
    + intros (_ & _ & ->). revert Hne. by case_decide.
Qed.
End Proofs.
