(* ===== verification/Shell2.v ===== *)
(** * The second shell: [5-shell-2-haininz/sh.c].

    Job control on top of the first shell: process groups, the terminal, and a
    table of jobs.  The shell is written against the interface [JobTable] of
    the job list. *)

From Stdlib Require Import ZArith Lia Ascii String.
From stdpp Require Import base gmap strings numbers option list.
From S2P Require Import Prelude Stdio Jobs JobsSpec ShellCommon.

Open Scope Z_scope.
Open Scope list_scope.

Definition MAX_INPUT_SIZE : nat := 1024.

(** Linux's values. *)
Definition SIGINT : Z := 2.
Definition SIGKILL : Z := 9.
Definition SIGCONT : Z := 18.
Definition SIGTSTP : Z := 20.
Definition SIGTTOU : Z := 22.
Definition WNOHANG : Z := 1.
Definition WUNTRACED : Z := 2.
Definition WCONTINUED : Z := 8.

(** [parse_command]: "&" after the last argument asks for a background job. *)
Definition parse_command (command : bytes) : result parsed := ShellCommon.parse_command true command.

(** The globals [job_list] and [jid], and what has happened so far. *)
Record shell (T : Type) := Shell { hist : history; table : T; counter : Z }.
Arguments Shell {T} hist table counter.
Arguments hist {T} s.
Arguments table {T} s.
Arguments counter {T} s.

Section Shell.
Context (os : system) {T : Type} `{JobTable T}.

Abbreviation cmd := (ST (shell T)).

Definition on_hist {A} (m : sh A) : cmd A := λ s,
  match m (hist s) with
  | Ok (a, h) => Ok (a, Shell h (table s) (counter s))
  | Err e => Err e
  end.

Definition on_table {A} (m : ST T A) : cmd A := λ s,
  match m (table s) with
  | Ok (a, t) => Ok (a, Shell (hist s) t (counter s))
  | Err e => Err e
  end.

Definition add_job (jid pid : Z) (st : process_state_t) (command : bytes) : cmd Z :=
  on_table (jt_op (JAdd jid pid st command)).
Definition remove_job_pid (pid : Z) : cmd Z := on_table (jt_op (JRemovePid pid)).
Definition update_job_pid (pid : Z) (st : process_state_t) : cmd Z := on_table (jt_op (JUpdatePid pid st)).
Definition get_job_pid (jid : Z) : cmd Z := on_table (jt_op (JGetPid jid)).
Definition get_job_jid (pid : Z) : cmd Z := on_table (jt_op (JGetJid pid)).

Definition call (c : call) : cmd Z := on_hist (syscall os c).
Definition put_out (b : bytes) : cmd unit := on_hist (emit (Stdout b)).
Definition put_err (b : bytes) : cmd unit := on_hist (emit (Stderr b)).
Definition perror (s : option bytes) : cmd unit := on_hist (emit (Perror s)).

(** The global [jid]. *)
Definition get_jid : cmd Z := λ s, Ok (counter s, s).
Definition incr_jid : cmd unit := λ s,
  if counter s =? 2 ^ 31 - 1 then Err SignedOverflow
  else Ok (tt, Shell (hist s) (table s) (counter s + 1)).

(** "[%d] (%d)" *)
Definition tag (jid pid : Z) : bytes :=
  txt "[" ++ print_dec jid ++ txt "] (" ++ print_dec pid ++ txt ")".

Definition suspended_line (jid pid sig : Z) : bytes :=
  tag jid pid ++ txt " suspended by signal " ++ print_dec sig ++ [newline].

Definition killed_line (pid sig : Z) : bytes :=
  txt "(" ++ print_dec pid ++ txt ") terminated by signal " ++ print_dec sig ++ [newline].

(** [cleanup_job_list(job_list)]; [getpid()] does not change between its calls,
    and one is recorded. *)
Fixpoint kill_jobs (pids : list Z) : cmd unit :=
  match pids with
  | [] => mret tt
  | p :: pids' =>
      r ← call (CKill p SIGKILL);
      (if r <? 0 then perror (Some (txt "kill")) else mret tt);;
      kill_jobs pids'
  end.

Definition cleanup_job_list : cmd unit := λ s,
  match call CGetpid s with
  | Err e => Err e
  | Ok (g, s1) =>
      match jt_cleanup g (table s1) with
      | Err e => Err e
      | Ok pids => kill_jobs pids s1
      end
  end.

(** [check_background_job]: the loop over the changes of the children. *)
Definition reap_options : Z := Z.lor (Z.lor WNOHANG WUNTRACED) WCONTINUED.

Definition report_change (cur_pid : Z) (status : wstatus) : cmd unit :=
  cur_jid ← get_job_jid cur_pid;
  match status with
  | WExited n =>
      put_out (tag cur_jid cur_pid ++ txt " terminated with exit status " ++ print_dec n ++ [newline]);;
      remove_job_pid cur_pid;; mret tt
  | WSignaled n =>
      put_out (tag cur_jid cur_pid ++ txt " terminated by signal " ++ print_dec n ++ [newline]);;
      remove_job_pid cur_pid;; mret tt
  | WStopped n =>
      update_job_pid cur_pid STOPPED;;
      put_out (suspended_line cur_jid cur_pid n)
  | WContinued =>
      update_job_pid cur_pid RUNNING;;
      put_out (tag cur_jid cur_pid ++ txt " resumed" ++ [newline])
  end.

Fixpoint reap (changes : list (Z * wstatus)) (last : Z) : cmd unit :=
  match changes with
  | [] => on_hist (emit (Waited (-1) reap_options last WContinued))
  | (cur_pid, status) :: rest =>
      on_hist (emit (Waited (-1) reap_options cur_pid status));;
      if cur_pid >? 0 then report_change cur_pid status;; reap rest last
      else mret tt
  end.

Definition check_background_job : cmd unit := λ s,
  let '(changes, last) := sys_changes os (hist s) in reap changes last s.

(** The builtin [fg]: a wrong number of arguments is reported, and the command
    goes on. *)
Definition fg_command (args : list bytes) : cmd unit :=
  (if negb (length args =? 2)%nat then put_err (txt "fg: syntax error" ++ [newline]) else mret tt);;
  arg ← deref (args !! 1%nat);
  let fg_jid := atoi (tail arg) in
  fg_pid ← get_job_pid fg_jid;
  (if fg_pid =? -1 then put_err (txt "Job " ++ print_dec fg_jid ++ txt " not found" ++ [newline]) else mret tt);;
  call (CTcsetpgrp fg_pid);;
  r ← call (CKill (- fg_pid) SIGCONT);
  (if r <? 0 then perror (Some (txt "kill(SIGCONT)")) else mret tt);;
  '(cur_pid, status) ← on_hist (waitpid os fg_pid WUNTRACED);
  (if cur_pid >? 0 then
     match status with
     | WStopped n =>
         update_job_pid fg_pid STOPPED;;
         put_out (suspended_line fg_jid fg_pid n)
     | WExited _ => remove_job_pid fg_pid;; mret tt
     | WSignaled n =>
         put_err (killed_line fg_pid n);;
         remove_job_pid fg_pid;; mret tt
     | WContinued => mret tt
     end
   else mret tt);;
  g ← call CGetpgrp;
  call (CTcsetpgrp g);;
  mret tt.

(** The builtin [bg]. *)
Definition bg_command (args : list bytes) : cmd unit :=
  (if negb (length args =? 2)%nat then put_err (txt "bg: syntax error" ++ [newline]) else mret tt);;
  arg ← deref (args !! 1%nat);
  let bg_jid := atoi (tail arg) in
  bg_pid ← get_job_pid bg_jid;
  (if bg_pid =? -1 then put_err (txt "Job " ++ print_dec bg_jid ++ txt " not found" ++ [newline]) else mret tt);;
  r ← call (CKill (- bg_pid) SIGCONT);
  (if r <? 0 then perror (Some (txt "kill(SIGCONT)")) else mret tt);;
  update_job_pid bg_pid RUNNING;;
  mret tt.

(** The child after [fork]. *)
Definition child (p : parsed) : cmd outcome :=
  call (CSetpgid 0 0);;
  (if is_bg_job p =? 0 then g ← call CGetpgrp; call (CTcsetpgrp g);; mret tt else mret tt);;
  ok ← on_hist (redirect os p);
  if negb ok then cleanup_job_list;; mret (Exited 1)
  else
    call (CSignal SIGINT false);;
    call (CSignal SIGTSTP false);;
    call (CSignal SIGTTOU false);;
    r ← call (CExecv (args p));
    if r =? -1 then
      perror (Some (txt "execv"));;
      cleanup_job_list;;
      mret (Exited 1)
    else mret Execed.

(** The parent of a foreground process. *)
Definition wait_foreground (name : bytes) (pid : Z) : cmd unit :=
  '(cur_pid, status) ← on_hist (waitpid os pid (Z.lor WUNTRACED WCONTINUED));
  (if cur_pid >? 0 then
     match status with
     | WSignaled n =>
         put_out (killed_line cur_pid n);;
         remove_job_pid cur_pid;; mret tt
     | WStopped n =>
         jid ← get_jid;
         add_job jid cur_pid STOPPED name;;
         put_out (suspended_line jid cur_pid n);;
         incr_jid
     | WExited _ | WContinued => mret tt
     end
   else mret tt);;
  g ← call CGetpgrp;
  call (CTcsetpgrp g);;
  mret tt.

(** The parent of a background process. *)
Definition add_background (name : bytes) (pid : Z) : cmd unit :=
  jid ← get_jid;
  add_job jid pid RUNNING name;;
  put_out (tag jid pid ++ [newline]);;
  incr_jid.

Definition run_program (name : bytes) (p : parsed) : cmd outcome :=
  pid ← call CFork;
  if pid =? 0 then child p
  else
    (if is_bg_job p =? 0 then wait_foreground name pid else add_background name pid);;
    check_background_job;;
    mret Continue.

(** [execute_command] *)
Definition execute_command (command : bytes) : cmd outcome :=
  match parse_command command with
  | Err e => fail e
  | Ok p =>
      on_hist (modify (λ h, h ++ (Stderr <$> errors p)));;
      match args p with
      | [] => check_background_job;; mret Continue
      | name :: _ =>
          if decide (name = txt "cd") then
            on_hist (cd_command os (args p));; check_background_job;; mret Continue
          else if decide (name = txt "ln") then
            on_hist (ln_command os (args p));; check_background_job;; mret Continue
          else if decide (name = txt "rm") then
            on_hist (rm_command os (args p));; check_background_job;; mret Continue
          else if decide (name = txt "exit") then cleanup_job_list;; mret (Exited 0)
          else if decide (name = txt "jobs") then
            lines ← on_table jt_jobs;
            put_out lines;; check_background_job;; mret Continue
          else if decide (name = txt "fg") then fg_command (args p);; check_background_job;; mret Continue
          else if decide (name = txt "bg") then bg_command (args p);; check_background_job;; mret Continue
          else run_program name p
      end
  end.

(** The loop of [main], which ends with the input. *)
Fixpoint main_loop (fuel : nat) (input : bytes) : cmd outcome :=
  match fuel with
  | O => fail NoFuel
  | S fuel' =>
      match input with
      | [] => cleanup_job_list;; mret (Exited 0)
      | _ =>
          let '(line, rest) := fgets_chars (MAX_INPUT_SIZE - 1) input in
          o ← execute_command line;
          match o with Continue => main_loop fuel' rest | _ => mret o end
      end
  end.

(** [main], from the calls of [signal] on. *)
Definition main (input : bytes) : cmd outcome :=
  call (CSignal SIGINT true);;
  call (CSignal SIGTSTP true);;
  call (CSignal SIGTTOU true);;
  main_loop (S (length input)) input.
End Shell.
