(* ===== verification/Shell2Proofs.v ===== *)
(** * The second shell over any job table that keeps its promise.

    The shell cannot tell a table that satisfies [JobTableOk] from the list of
    jobs of the contract: both runs have the same history, outcome and counter.
    Properties of the shell are then proved with the list. *)

From Stdlib Require Import ZArith Lia Ascii String.
From stdpp Require Import base gmap strings numbers option list.
From S2P Require Import Prelude Stdio Jobs JobsSpec ShellCommon Shell2.

Open Scope Z_scope.
Open Scope list_scope.

Section Sim.
Context (os : system) {T : Type} `{JobTable T} (rep : T → Z → joblog → Prop) `{!JobTableOk T rep}.

Abbreviation ideal := (Z * joblog)%type.

Definition related (s1 : shell T) (s2 : shell ideal) : Prop :=
  hist s1 = hist s2 ∧ counter s1 = counter s2 ∧ rep (table s1) (table s2).1 (table s2).2.

(** Two computations that cannot be told apart. *)
Definition sim {A} (m1 : ST (shell T) A) (m2 : ST (shell ideal) A) : Prop :=
  ∀ s1 s2, related s1 s2 →
    match m1 s1, m2 s2 with
    | Ok (a1, s1'), Ok (a2, s2') => a1 = a2 ∧ related s1' s2'
    | Err e1, Err e2 => e1 = e2
    | _, _ => False
    end.

Lemma sim_ret {A} (a : A) : sim (mret a) (mret a).
Proof. by intros s1 s2 Hs. Qed.

Lemma sim_fail {A} e : sim (fail e : ST _ A) (fail e).
Proof. by intros s1 s2 Hs. Qed.

Lemma sim_bind {A B} m1 m2 (f1 : A → ST (shell T) B) f2 :
  sim m1 m2 → (∀ a, sim (f1 a) (f2 a)) → sim (m1 ≫= f1) (m2 ≫= f2).
Proof.
  intros Hm Hf s1 s2 Hs. specialize (Hm s1 s2 Hs). unfold mbind, ST_bind.
  destruct (m1 s1) as [[a1 s1']|], (m2 s2) as [[a2 s2']|]; try done.
  destruct Hm as [-> Hs']. by apply Hf.
Qed.

Lemma sim_hist {A} (m : sh A) : sim (on_hist m) (on_hist m).
Proof.
  intros s1 s2 (Hh & Hc & Ht). unfold on_hist. rewrite Hh. by destruct (m (hist s2)) as [[a h]|].
Qed.

Lemma sim_op o : sim (on_table (jt_op o)) (on_table (jt_op o)).
Proof.
  intros s1 s2 (Hh & Hc & Ht). unfold on_table.
  destruct (jt_op_ok o _ _ _ Ht) as (t' & -> & Ht'). simpl. by rewrite Hh, Hc.
Qed.

Lemma sim_jobs : sim (on_table jt_jobs) (on_table jt_jobs).
Proof.
  intros s1 s2 (Hh & Hc & Ht). unfold on_table.
  destruct (jt_jobs_ok _ _ _ Ht) as (t' & -> & Ht'). simpl. by rewrite Hh, Hc.
Qed.

Lemma sim_deref {A} (o : option A) : sim (deref o) (deref o).
Proof. destruct o; [apply sim_ret | apply sim_fail]. Qed.

Lemma sim_if {A} (b : bool) m1 m2 n1 n2 :
  sim m1 n1 → sim m2 n2 → sim (A := A) (if b then m1 else m2) (if b then n1 else n2).
Proof. by destruct b. Qed.

Lemma sim_get_jid : sim get_jid get_jid.
Proof. intros s1 s2 Hs. pose proof Hs as (Hh & Hc & Ht). unfold get_jid. by rewrite Hc. Qed.

Lemma sim_incr_jid : sim incr_jid incr_jid.
Proof.
  intros s1 s2 (Hh & Hc & Ht). unfold incr_jid. rewrite Hc. destruct (_ =? _); [done|].
  by rewrite Hh.
Qed.

Create HintDb sim.
#[local] Hint Resolve sim_ret sim_fail sim_bind sim_hist sim_op sim_jobs sim_deref sim_if
  sim_get_jid sim_incr_jid : sim.

(** Follows the structure of two copies of a program. *)
Ltac sim := repeat first
  [ solve [auto 2 with sim nocore] | apply sim_bind; [|intros] | apply sim_if | progress intros | case_match ].

Lemma sim_kill_jobs pids : sim (kill_jobs os pids) (kill_jobs os pids).
Proof. induction pids as [|p pids IH]; simpl; unfold call, perror; sim. Qed.

Lemma sim_cleanup : sim (cleanup_job_list os) (cleanup_job_list os).
Proof.
  intros s1 s2 Hs. unfold cleanup_job_list.
  pose proof (sim_hist (syscall os CGetpid) s1 s2 Hs) as Hg. unfold call. revert Hg.
  destruct (on_hist _ s1) as [[g1 s1']|], (on_hist _ s2) as [[g2 s2']|]; try done.
  intros [-> Hs']. pose proof Hs' as (_ & _ & Ht). rewrite (jt_cleanup_ok g2 _ _ _ Ht).
  by apply sim_kill_jobs.
Qed.

Lemma sim_reap changes last : sim (reap changes last) (reap changes last).
Proof.
  induction changes as [|[p st] changes IH]; simpl; [auto with sim|].
  unfold report_change, get_job_jid, put_out, remove_job_pid, update_job_pid. sim.
Qed.

Lemma sim_check : sim (check_background_job os) (check_background_job os).
Proof.
  intros s1 s2 Hs. unfold check_background_job. destruct Hs as (Hh & Hc & Ht). rewrite Hh.
  destruct (sys_changes os (hist s2)) as [changes last]. by apply sim_reap.
Qed.

#[local] Hint Resolve sim_kill_jobs sim_cleanup sim_check : sim.

Lemma sim_fg args : sim (fg_command os args) (fg_command os args).
Proof.
  unfold fg_command, call, put_err, put_out, perror, get_job_pid, remove_job_pid, update_job_pid. sim.
Qed.

Lemma sim_bg args : sim (bg_command os args) (bg_command os args).
Proof. unfold bg_command, call, put_err, perror, get_job_pid, update_job_pid. sim. Qed.

Lemma sim_child p : sim (child os p) (child os p).
Proof. unfold child, call, perror. sim. Qed.

Lemma sim_wait name pid : sim (wait_foreground os name pid) (wait_foreground os name pid).
Proof. unfold wait_foreground, call, put_out, remove_job_pid, add_job. sim. Qed.

Lemma sim_background name pid : sim (add_background name pid) (add_background name pid).
Proof. unfold add_background, put_out, add_job. sim. Qed.

#[local] Hint Resolve sim_fg sim_bg sim_child sim_wait sim_background : sim.

Lemma sim_execute command : sim (execute_command os command) (execute_command os command).
Proof.
  unfold execute_command, run_program, call, put_out. sim.
Qed.

#[local] Hint Resolve sim_execute : sim.

Lemma sim_main_loop fuel input : sim (main_loop os fuel input) (main_loop os fuel input).
Proof.
  revert input. induction fuel as [|fuel IH]; intros input; [apply sim_fail|]. cbn [main_loop]. sim.
Qed.

Lemma sim_main input : sim (main os input) (main os input).
Proof. unfold main, call. sim. apply sim_main_loop. Qed.
End Sim.

(** ** The shell over the list of jobs *)

Abbreviation ishell := (shell (Z * joblog)).

(** The jobs of the table. *)
Definition all_jobs (s : ishell) : list job := (table s).2.1 ++ (table s).2.2.

(** The invariant: job numbers are distinct, and below the next one. *)
Record ids_ok (s : ishell) : Prop := {
  ids_distinct : NoDup (jid <$> all_jobs s);
  ids_below : Forall (λ j, 1 ≤ jid j < counter s) (all_jobs s);
  ids_counter : 1 ≤ counter s;
}.

Lemma drop_sublist test l : sublist (drop_job test l) l.
Proof. induction l as [|j l IH]; simpl; [done|]. destruct (test j); by constructor. Qed.

Lemma mark_jids test st l : jid <$> mark_job test st l = jid <$> l.
Proof. induction l as [|j l IH]; csimpl; [done|]. destruct (test j); csimpl; [done|]. by rewrite IH. Qed.

(** The table after a lookup, a removal or an update: a sublist of the numbers. *)
Definition no_add (o : jop) : Prop := match o with JAdd _ _ _ _ | JNext => False | _ => True end.

Lemma on_side_sublist test f q :
  (∀ l, sublist (jid <$> f l) (jid <$> l)) →
  sublist (jid <$> ((on_side test f q).1 ++ (on_side test f q).2)) (jid <$> (q.1 ++ q.2)).
Proof.
  intros Hf. unfold on_side. case_match; simpl; rewrite !fmap_app; by apply sublist_app.
Qed.

Lemma jspec_sublist o q :
  no_add o → sublist (jid <$> ((jspec o q).2.1 ++ (jspec o q).2.2)) (jid <$> (q.1 ++ q.2)).
Proof.
  destruct o; intros Ho; try done; cbn [jspec snd]; apply on_side_sublist; intros l;
    first [apply fmap_sublist, drop_sublist | by rewrite mark_jids].
Qed.

Lemma ids_ok_op o s q :
  no_add o → ids_ok s → q = (jspec o (table s).2).2 →
  ids_ok (Shell (hist s) ((table s).1, q) (counter s)).
Proof.
  intros Ho [Hd Hb Hc] ->. pose proof (jspec_sublist o (table s).2 Ho) as Hsub. split.
  - by eapply sublist_NoDup.
  - apply Forall_forall. intros j Hj. simpl.
    assert (jid j ∈ jid <$> all_jobs s) as (k & -> & Hk)%list_elem_of_fmap.
    { eapply elem_of_sublist; [|exact Hsub]. apply list_elem_of_fmap. eauto. }
    rewrite Forall_forall in Hb. by apply Hb.
  - done.
Qed.

(** ** The terminal *)

(** The process group the terminal belongs to after a history, by the calls of
    [tcsetpgrp] that succeed. *)
Definition owner_step (o : Z) (e : event) : Z :=
  match e with Called (CTcsetpgrp g) r => if r =? 0 then g else o | _ => o end.

Definition owner (o : Z) (h : history) : Z := foldl owner_step o h.

Lemma owner_app o h h' : owner o (h ++ h') = owner (owner o h) h'.
Proof. apply foldl_app. Qed.

(** Histories that do not touch the terminal, and those that end with giving it
    to [g]. *)
Definition calm (h : history) : Prop :=
  Forall (λ e, match e with Called (CTcsetpgrp _) _ => False | _ => True end) h.

Definition home (g : Z) (h : history) : Prop := ∀ o, owner o h = g.

Definition any_events (h : history) : Prop := True.

Lemma owner_calm o h : calm h → owner o h = o.
Proof.
  intros Hh. revert o. induction Hh as [|e h He Hh IH]; intros o; [done|].
  cbn [owner foldl]. etrans; [apply IH|]. by destruct e as [[]| | | |].
Qed.

(** Kinds of histories that are closed under composition. *)
Class Composes (H : history → Prop) : Prop := {
  composes_nil : H [];
  composes_app h h' : H h → H h' → H (h ++ h');
}.

#[export] Instance calm_composes : Composes calm.
Proof. split; [constructor|]. intros. by apply Forall_app. Qed.

#[export] Instance any_composes : Composes any_events.
Proof. by split. Qed.

(** ** Triples

    [runs n H P m]: from a state with the invariant [m] does not fault, keeps
    the invariant, raises the counter by at most [n], adds events of kind [H]
    to the history, and returns a value that satisfies [P]. *)
Definition runs {A} (n : Z) (H : history → Prop) (P : A → Prop) (m : ST ishell A) : Prop :=
  ∀ s, ids_ok s → counter s + n ≤ 2 ^ 31 - 1 →
    ∃ a h' t' c', m s = Ok (a, Shell (hist s ++ h') t' c') ∧
      ids_ok (Shell (hist s ++ h') t' c') ∧ counter s ≤ c' ≤ counter s + n ∧ H h' ∧ P a.

Lemma runs_seq n1 n2 (H1 H2 H3 : history → Prop) {A B} P Q (m : ST ishell A) (f : A → ST ishell B) :
  (∀ h h', H1 h → H2 h' → H3 (h ++ h')) → 0 ≤ n1 → 0 ≤ n2 →
  runs n1 H1 P m → (∀ a, P a → runs n2 H2 Q (f a)) → runs (n1 + n2) H3 Q (m ≫= f).
Proof.
  intros HH Hn1 Hn2 Hm Hf s Hs Hc.
  destruct (Hm s Hs ltac:(lia)) as (a & h1 & t1 & c1 & Hrun & Hs1 & Hc1 & He1 & Ha).
  destruct (Hf a Ha _ Hs1) as (b & h2 & t2 & c2 & Hrun2 & Hs2 & Hc2 & He2 & Hb); [simpl in *; lia|].
  simpl in *. exists b, (h1 ++ h2), t2, c2. rewrite app_assoc. split; [by run Hrun|].
  split; [done|]. split; [lia|]. auto.
Qed.

Lemma runs_bind n H `{!Composes H} {A B} P Q (m : ST ishell A) (f : A → ST ishell B) :
  0 ≤ n → runs 0 H P m → (∀ a, P a → runs n H Q (f a)) → runs n H Q (m ≫= f).
Proof.
  intros Hn Hm Hf. rewrite <-(Z.add_0_l n). apply (runs_seq 0 n H H H P Q); [apply composes_app|lia|done|done|done].
Qed.

Lemma runs_weaken n n' (H H' : history → Prop) {A} (P P' : A → Prop) m :
  n ≤ n' → (∀ h, H h → H' h) → (∀ a, P a → P' a) → runs n H P m → runs n' H' P' m.
Proof.
  intros Hn HE HP Hm s Hs Hc. destruct (Hm s Hs ltac:(lia)) as (a & h & t & c & Hrun & Hs' & Hc' & He & Ha).
  exists a, h, t, c. split_and!; [done|done|lia|lia|auto|auto].
Qed.

Lemma runs_ret n H `{!Composes H} {A} (P : A → Prop) (a : A) : 0 ≤ n → P a → runs n H P (mret a).
Proof.
  intros Hn Ha s Hs Hc. exists a, [], (table s), (counter s). rewrite app_nil_r.
  destruct s. split_and!; try done; simpl; try lia. apply composes_nil.
Qed.

Lemma runs_if n H {A} (P : A → Prop) (b : bool) m1 m2 :
  runs n H P m1 → runs n H P m2 → runs n H P (if b then m1 else m2).
Proof. by destruct b. Qed.

Lemma ids_ok_hist s h : ids_ok s → ids_ok (Shell h (table s) (counter s)).
Proof. intros []. by split. Qed.

Lemma runs_hist n (H : history → Prop) {A} (P : A → Prop) (m : sh A) :
  0 ≤ n → (∀ h, ∃ a h', m h = Ok (a, h ++ h') ∧ H h' ∧ P a) → runs n H P (on_hist m).
Proof.
  intros Hn Hm s Hs Hc. unfold on_hist. destruct (Hm (hist s)) as (a & h' & -> & He & Ha).
  exists a, h', (table s), (counter s). split_and!; try done; [by apply ids_ok_hist|lia].
Qed.

Lemma runs_emit n (H : history → Prop) e : 0 ≤ n → H [e] → runs n H (λ _, True) (on_hist (emit e)).
Proof. intros Hn He. apply runs_hist; [done|]. intros h. by exists tt, [e]. Qed.

Lemma runs_op n H `{!Composes H} o : 0 ≤ n → no_add o → runs n H (λ _, True) (on_table (jt_op o)).
Proof.
  intros Hn Ho s Hs Hc. unfold on_table. simpl. do 3 eexists. exists (counter s). rewrite app_nil_r.
  split_and!; try done; [by eapply ids_ok_op|lia|apply composes_nil].
Qed.

Lemma runs_jobs n H `{!Composes H} : 0 ≤ n → runs n H (λ _, True) (on_table jt_jobs).
Proof.
  intros Hn s Hs Hc. unfold on_table. simpl. do 3 eexists. exists (counter s). rewrite app_nil_r.
  split_and!; try done; [by apply ids_ok_hist|lia|apply composes_nil].
Qed.

(** A new job takes the next number. *)
Lemma runs_add_job H `{!Composes H} name pid st (line : Z → bytes) :
  (∀ b, H [Stdout b]) →
  runs 1 H (λ _, True) (jid ← get_jid; add_job jid pid st name;; put_out (line jid);; incr_jid).
Proof.
  intros HE s [Hd Hb Hc] Hn. destruct s as [h [sp [d t]] c]. cbn [counter] in *.
  unfold get_jid, add_job, put_out, on_hist, on_table, emit, modify, incr_jid, mbind, ST_bind.
  cbn [hist table counter jt_op ideal_table fst snd jspec].
  rewrite (proj2 (Z.eqb_neq _ _)) by lia. do 4 eexists. split; [done|].
  assert (∀ q, q.1 ++ q.2 = (d ++ t) ++ [Job c pid st name] →
    ids_ok (Shell (h ++ [Stdout (line c)]) (sp, q) (c + 1))) as Hids.
  { intros q Hq. split; unfold all_jobs in *; cbn [table snd counter] in *; [| |lia]; rewrite Hq.
    - rewrite fmap_app. apply NoDup_app. split; [done|]. split; [|apply NoDup_singleton].
      intros i (j & -> & Hj)%list_elem_of_fmap. rewrite Forall_forall in Hb. specialize (Hb j Hj).
      csimpl. rewrite list_elem_of_singleton. lia.
    - apply Forall_app. split; [eapply Forall_impl; [exact Hb|]; simpl; intros; lia|].
      apply Forall_singleton. simpl. lia. }
  split; [|split; [lia|done]]. apply Hids. destruct d, t; simpl; by rewrite ?app_nil_r, <-?app_assoc.
Qed.

Section Commands.
Context (os : system).

Lemma runs_call n (H : history → Prop) c :
  0 ≤ n → (∀ r, H [Called c r]) → runs n H (λ _, True) (call os c).
Proof. intros Hn Hc. apply runs_hist; [done|]. intros h. by do 2 eexists. Qed.

Lemma runs_waitpid n (H : history → Prop) p o :
  0 ≤ n → (∀ r st, H [Waited p o r st]) → runs n H (λ _, True) (on_hist (waitpid os p o)).
Proof. intros Hn Hc. apply runs_hist; [done|]. intros h. by do 2 eexists. Qed.

(** Follows the structure of a program whose events all have the kind asked for. *)
Ltac runs_step := first
  [ apply runs_ret; [apply _ | lia | done]
  | apply runs_op; [apply _ | lia | done]
  | apply runs_jobs; [apply _ | lia]
  | apply runs_emit; [lia | by repeat constructor]
  | apply runs_call; [lia | intros; by repeat constructor]
  | apply runs_waitpid; [lia | intros; by repeat constructor]
  | apply (runs_bind _ _ (λ _, True)); [lia | | intros ? _]
  | apply runs_if
  | case_match ].
Ltac runs := unfold put_out, put_err, perror, get_job_pid, get_job_jid, remove_job_pid,
    update_job_pid; repeat runs_step.

Lemma runs_kill_jobs pids : runs 0 calm (λ _, True) (kill_jobs os pids).
Proof. induction pids as [|p pids IH]; cbn [kill_jobs]; runs. done. Qed.

Lemma runs_cleanup : runs 0 calm (λ _, True) (cleanup_job_list os).
Proof.
  intros s Hs Hc. unfold cleanup_job_list.
  destruct (runs_call 0 calm CGetpid ltac:(lia) ltac:(intros; by repeat constructor) s Hs Hc)
    as (a & h1 & t1 & c1 & -> & Hs1 & Hc1 & He1 & _).
  cbn [jt_cleanup ideal_table].
  destruct (runs_kill_jobs (if a =? t1.1 then (λ j, - pid j) <$> (t1.2.1 ++ t1.2.2) else []) _ Hs1)
    as (u & h2 & t2 & c2 & Hrun & Hs2 & Hc2 & He2 & _); [simpl in *; lia|].
  cbn [table hist counter] in *. exists u, (h1 ++ h2), t2, c2. rewrite Hrun, app_assoc.
  split_and!; try done; try lia. by apply composes_app.
Qed.

Lemma runs_reap changes last : runs 0 calm (λ _, True) (reap changes last).
Proof.
  induction changes as [|[p st] changes IH]; cbn [reap]; unfold report_change; runs. done.
Qed.

Lemma runs_check : runs 0 calm (λ _, True) (check_background_job os).
Proof.
  intros s Hs Hc. unfold check_background_job. destruct (sys_changes os (hist s)) as [changes last].
  by apply runs_reap.
Qed.

Lemma redirect_total p h : ∃ b h', redirect os p h = Ok (b, h ++ h').
Proof.
  unfold redirect, open_input, open_output, open_output_as, mbind, ST_bind, syscall, emit, modify, mret, ST_ret.
  repeat case_match; simplify_eq.
  all: first [ eexists _, []; rewrite app_nil_r; reflexivity
             | do 2 eexists; rewrite <-?app_assoc; reflexivity ].
Qed.

(** Giving the terminal back. *)
Definition owns (g : Z) : Prop :=
  (∀ h, sys_call os h CGetpgrp = g) ∧ (∀ h, sys_call os h (CTcsetpgrp g) = 0).

Lemma runs_regain g :
  owns g → runs 0 (home g) (λ _, True) (g ← call os CGetpgrp; call os (CTcsetpgrp g);; mret tt).
Proof.
  intros [Hg Htc] s Hs Hc. unfold call, on_hist, syscall, mbind, ST_bind, mret, ST_ret.
  cbv zeta. cbn [hist table counter]. rewrite !Hg, !Htc. do 4 eexists. rewrite <-app_assoc. split; [done|].
  split_and!; try done; [by apply ids_ok_hist|lia].
Qed.

(** Anything, then a part that gives the terminal back. *)
Lemma runs_then n g {A B} P Q (m : ST ishell A) (f : A → ST ishell B) :
  0 ≤ n → runs 0 any_events P m → (∀ a, P a → runs n (home g) Q (f a)) → runs n (home g) Q (m ≫= f).
Proof.
  intros Hn Hm Hf. rewrite <-(Z.add_0_l n).
  apply (runs_seq 0 n any_events (home g) _ P Q); [|lia|done|done|done].
  intros h h' _ Hh' o. by rewrite owner_app.
Qed.

Ltac runs_home g := repeat first
  [ apply runs_regain; done
  | apply (runs_then _ g (λ _, True)); [lia | by runs | intros ? _]
  | match goal with |- runs _ _ _ (let '(_, _) := ?x in _) => destruct x end ].

Lemma runs_fg g args :
  owns g → is_Some (args !! 1%nat) → runs 0 (home g) (λ _, True) (fg_command os args).
Proof. intros Hg [arg Harg]. unfold fg_command. rewrite Harg. cbn [deref]. runs_home g. Qed.

Lemma runs_bg args : is_Some (args !! 1%nat) → runs 0 calm (λ _, True) (bg_command os args).
Proof. intros [arg Harg]. unfold bg_command. rewrite Harg. cbn [deref]. runs. Qed.

Lemma runs_wait g name pid : owns g → runs 1 (home g) (λ _, True) (wait_foreground os name pid).
Proof.
  intros Hg. unfold wait_foreground. apply (runs_then _ g (λ _, True)); [lia | by runs | intros [p st] _].
  rewrite <-(Z.add_0_r 1).
  apply (runs_seq 1 0 any_events (home g) _ (λ _, True)); [|lia|lia| |intros; by apply runs_regain].
  { intros h h' _ Hh' o. by rewrite owner_app. }
  apply runs_if; [|by runs]. destruct st; try by runs. by apply runs_add_job.
Qed.

Lemma runs_background name pid : runs 1 calm (λ _, True) (add_background name pid).
Proof. apply runs_add_job; [apply _|]. intros b. by repeat constructor. Qed.

(** The child ends here. *)
Lemma runs_child p : runs 0 any_events (λ o, o ≠ Continue) (child os p).
Proof.
  assert (runs 0 any_events (λ _, True) (cleanup_job_list os)) as Hclean.
  { by eapply runs_weaken; [| | |apply runs_cleanup]. }
  unfold child. repeat (apply (runs_bind _ _ (λ _, True)); [lia | by runs | intros ? _]).
  apply (runs_bind _ _ (λ _, True)); [lia | | intros ok _].
  { apply runs_hist; [lia|]. intros h. destruct (redirect_total p h) as (b & h' & ->). by do 2 eexists. }
  apply runs_if.
  - apply (runs_bind _ _ (λ _, True)); [lia | done | intros ? _]. by runs.
  - do 4 (apply (runs_bind _ _ (λ _, True)); [lia | by runs | intros ? _]).
    apply runs_if; [|by runs].
    apply (runs_bind _ _ (λ _, True)); [lia | by runs | intros ? _].
    apply (runs_bind _ _ (λ _, True)); [lia | done | intros ? _]. by runs.
Qed.

(** Histories after which the terminal, if it was [g]'s, is [g]'s again. *)
Definition returns (g : Z) (h : history) : Prop := owner g h = g.

#[export] Instance returns_composes g : Composes (returns g).
Proof. split; [done|]. intros h h' Hh Hh'. unfold returns. by rewrite owner_app, Hh. Qed.

Lemma calm_returns g h : calm h → returns g h.
Proof. apply owner_calm. Qed.

Lemma home_returns g h : home g h → returns g h.
Proof. intros Hh. apply Hh. Qed.

#[export] Instance forall_composes (E : event → Prop) : Composes (Forall E).
Proof. split; [constructor|]. intros. by apply Forall_app. Qed.

(** What the child of a program line does. *)
Definition child_ends (t0 : fds) (line : bytes) (h : history) (o : outcome) (h' : history) : Prop :=
  o = Exited 1 ∧ reported h' ∨
  o = Execed ∧ (∃ r, last h' = Some (Called (CExecv (lm_args (meaning true line))) r)) ∧
  ∀ k, fd_table t0 (h ++ h') !! k = redirected (fd_table t0 h) (meaning true line) k.

Lemma child_pre p :
  runs 0 (Forall no_fd) (λ _, True)
    (if is_bg_job p =? 0 then g ← call os CGetpgrp; call os (CTcsetpgrp g);; mret tt else mret tt).
Proof. runs. Qed.

(** A failed child cleans up and exits. *)
Lemma child_fails t0 line h h1 t c :
  ids_ok (Shell (h ++ h1) t c) → c ≤ 2 ^ 31 - 1 → reported h1 →
  ∃ o h' t' c', (cleanup_job_list os;; mret (Exited 1)) (Shell (h ++ h1) t c)
                  = Ok (o, Shell (h ++ h') t' c') ∧ child_ends t0 line h o h'.
Proof.
  intros Hs Hc [e He]. destruct (runs_cleanup _ Hs) as (u & h2 & t2 & c2 & Hrun & _); [simpl; lia|].
  run Hrun. simpl. do 4 eexists. rewrite <-app_assoc. split; [done|]. left. split; [done|].
  exists e. apply elem_of_app. by left.
Qed.

Lemma call_Ok c (s : ishell) :
  call os c s = Ok (sys_call os (hist s) c,
    Shell (hist s ++ [Called c (sys_call os (hist s) c)]) (table s) (counter s)).
Proof. done. Qed.

Lemma child_Ok t0 p line s :
  posix_open os t0 → is_Some (fd_table t0 (hist s) !! 0) → handed p = meaning true line →
  ids_ok s → counter s ≤ 2 ^ 31 - 1 →
  ∃ o h' t' c', child os p s = Ok (o, Shell (hist s ++ h') t' c') ∧ child_ends t0 line (hist s) o h'.
Proof.
  intros Hposix H0 Hp Hs Hc. pose proof (handed_mode _ _ _ Hp) as Hmode. unfold child.
  destruct (runs_call 0 (Forall no_fd) (CSetpgid 0 0) ltac:(lia) ltac:(intros; by repeat constructor) s Hs
    ltac:(lia)) as (u & h1 & t1 & c1 & Hrun1 & Hs1 & Hc1 & He1 & _). run Hrun1.
  destruct (child_pre p _ Hs1) as (u2 & h2 & t2 & c2 & Hrun2 & Hs2 & Hc2 & He2 & _); [simpl in *; lia|].
  run Hrun2. clear Hrun1 Hrun2. cbn [hist counter] in *.
  set (hp := (hist s ++ h1) ++ h2) in *.
  assert (fd_table t0 hp = fd_table t0 (hist s)) as Ht.
  { unfold hp. rewrite !fd_table_no_fd; done. }
  destruct (redirect_Ok os t0 Hposix p hp Hmode) as (b & h3 & Hredir & _ & Hrep & Hfds); [by rewrite Ht|].
  assert (on_hist (redirect os p) (Shell hp t2 c2) = Ok (b, Shell (hp ++ h3) t2 c2)) as Hrun3.
  { unfold on_hist. cbn [hist]. by rewrite Hredir. }
  run Hrun3. assert (hp = hist s ++ (h1 ++ h2)) as Heq by (unfold hp; by rewrite app_assoc).
  assert (ids_ok (Shell (hp ++ h3) t2 c2)) as Hs3 by apply (ids_ok_hist _ _ Hs2).
  destruct b; cbn [negb].
  - do 4 (run (call_Ok _ _); cbn [hist table counter]).
    set (h4 := ((((hp ++ h3) ++ _) ++ _) ++ _) ++ _).
    assert (∃ h5 e, h4 = hist s ++ h5 ++ [e] ∧ (∃ r, e = Called (CExecv (args p)) r) ∧
      fd_table t0 h4 = fd_table t0 (hp ++ h3)) as (h5 & e & Heq4 & (r & ->) & Ht4).
    { eexists ((h1 ++ h2) ++ h3 ++ [_; _; _]), _.
      split; [unfold h4; rewrite Heq, <-!app_assoc; reflexivity|].
      split; [by eexists|]. unfold h4. by rewrite !fd_table_no_fd by by repeat constructor. }
    destruct (_ =? -1).
    + unfold perror, on_hist at 1, emit, modify, mbind at 1, ST_bind at 1. cbn [hist table counter].
      rewrite Heq4, <-app_assoc. apply child_fails; [apply (ids_ok_hist _ _ Hs3)|lia|].
      apply reported_app. by eapply reported_last.
    + do 4 eexists. rewrite Heq4. split; [done|]. right. split; [done|].
      rewrite <-Hp. split; [exists r; by rewrite last_snoc|].
      intros k. by rewrite <-Heq4, Ht4, (Hfds eq_refl), Ht.
  - rewrite Heq, <-app_assoc in *. apply child_fails; [done|lia|]. by apply reported_app, Hrep.
Qed.

(** ** Whole lines, in the process that is the shell *)

Definition fits (line : bytes) : Prop := Z.of_nat (length (lm_args (meaning true line))) < ARGS_SIZE.

(** [fg] and [bg] have an argument. *)
Definition has_operand (line : bytes) : Prop :=
  ∀ name rest, lm_args (meaning true line) = name :: rest →
    name ∈ [txt "fg"; txt "bg"] → rest ≠ [].

Definition parent_outcome (o : outcome) : Prop := o = Continue ∨ o = Exited 0.

Lemma runs_end g : runs 0 (returns g) parent_outcome (check_background_job os;; mret Continue).
Proof.
  apply (runs_bind _ _ (λ _, True)); [lia| |intros _ _].
  - eapply runs_weaken; [| | |apply runs_check]; [lia|apply calm_returns|done].
  - apply runs_ret; [apply _|lia|by left].
Qed.

Lemma runs_checked n g {A} (m : ST ishell A) :
  0 ≤ n → runs n (returns g) (λ _, True) m →
  runs n (returns g) parent_outcome (m ≫= λ _, check_background_job os;; mret Continue).
Proof.
  intros Hn Hm. rewrite <-(Z.add_0_r n).
  apply (runs_seq n 0 (returns g) (returns g) _ (λ _, True)); [apply composes_app|done|lia|done|].
  intros _ _. apply runs_end.
Qed.

Lemma runs_calm n g {A} (m : ST ishell A) :
  0 ≤ n → runs 0 calm (λ _, True) m → runs n (returns g) (λ _, True) m.
Proof. intros Hn Hm. by eapply runs_weaken; [| | |exact Hm]; [|apply calm_returns|]. Qed.

Lemma builtin_calm h : Forall builtin_event h → calm h.
Proof. intros Hh. eapply Forall_impl; [exact Hh|]. by intros [[]| | | |]. Qed.

Lemma runs_builtin g args (c : system → list bytes → sh unit) :
  (∀ h, ∃ h', c os args h = Ok (tt, h ++ h') ∧ Forall builtin_event h' ∧
              (length (List.filter is_call h') ≤ 1)%nat) →
  runs 1 (returns g) (λ _, True) (on_hist (c os args)).
Proof.
  intros Hc. apply runs_hist; [lia|]. intros h. destruct (Hc h) as (h' & -> & Hb & _).
  exists tt, h'. split_and!; [done|by apply calm_returns, builtin_calm|done].
Qed.

Lemma runs_program g name p :
  owns g → (∀ h, sys_call os h CFork ≠ 0) →
  runs 1 (returns g) parent_outcome (run_program os name p).
Proof.
  intros Hg Hfork s Hs Hc. unfold run_program. run (call_Ok CFork s).
  rewrite (proj2 (Z.eqb_neq _ _) (Hfork _)).
  destruct (runs_checked 1 g (if is_bg_job p =? 0 then wait_foreground os name (sys_call os (hist s) CFork)
      else add_background name (sys_call os (hist s) CFork)) ltac:(lia)) with
    (s := Shell (hist s ++ [Called CFork (sys_call os (hist s) CFork)]) (table s) (counter s))
    as (o & h' & t' & c' & Hrun & Hs' & Hc' & Hh' & Ho).
  - apply runs_if.
    + eapply runs_weaken; [| | |by apply runs_wait]; [done|apply home_returns|done].
    + eapply runs_weaken; [| | |apply runs_background]; [done|apply calm_returns|done].
  - by apply ids_ok_hist.
  - done.
  - cbn [hist counter] in *. exists o, (Called CFork (sys_call os (hist s) CFork) :: h'), t', c'.
    rewrite Hrun. rewrite <-app_assoc in *. split_and!; try done; lia.
Qed.

Lemma execute_parent g line :
  owns g → (∀ h, sys_call os h CFork ≠ 0) → fits line → has_operand line →
  runs 1 (returns g) parent_outcome (execute_command os line).
Proof.
  intros Hg Hfork Hfits Hop. pose proof (parse_command_spec true line) as Hparse.
  rewrite decide_True in Hparse by done. destruct Hparse as (p & Hp & Hm).
  unfold execute_command, parse_command. rewrite Hp.
  assert (args p = lm_args (meaning true line)) as Ha by (by rewrite <-Hm).
  apply (runs_bind _ _ (λ _, True)); [lia| |intros _ _].
  { apply runs_hist; [lia|]. intros h. exists tt, (Stderr <$> errors p). split_and!; try done.
    apply calm_returns. clear. induction (errors p); by constructor. }
  destruct (args p) as [|name rest].
  { eapply (runs_weaken 0 1 (returns g) _ parent_outcome); [lia|done|done|].
    apply runs_end. }
  repeat case_decide.
  1-3: apply runs_checked; [lia|]; apply (runs_builtin g (name :: rest)); intros h.
  1: apply cd_command_Ok. 1: apply ln_command_Ok. 1: apply rm_command_Ok.
  - apply (runs_bind _ _ (λ _, True)); [lia| |intros _ _].
    + apply runs_calm; [lia|apply runs_cleanup].
    + apply runs_ret; [apply _|lia|by right].
  - apply (runs_bind _ _ (λ _, True)); [lia|apply runs_jobs; [apply _|lia]|intros lines _].
    apply runs_checked; [lia|]. apply runs_emit; [lia|done].
  - apply runs_checked; [lia|]. eapply (runs_weaken 0 1 (home g)); [lia|apply home_returns|done|].
    apply runs_fg; [done|]. destruct rest; [|done]. by destruct (Hop name []); [|set_solver|].
  - apply runs_checked; [lia|]. apply runs_calm; [lia|]. apply runs_bg.
    destruct rest; [|done]. by destruct (Hop name []); [|set_solver|].
  - by apply runs_program.
Qed.

(** Lines that name a program. *)
Definition is_program (words : list bytes) : bool :=
  match words with
  | [] => false
  | name :: _ => negb (bool_decide (name ∈ txt <$> ["cd"; "ln"; "rm"; "exit"; "jobs"; "fg"; "bg"]%string))
  end.

Lemma child_ends_later t0 line h h1 o h' :
  Forall no_fd h1 → child_ends t0 line (h ++ h1) o h' → child_ends t0 line h o (h1 ++ h').
Proof.
  intros Hh1. unfold child_ends. rewrite (fd_table_no_fd t0 h h1 Hh1), <-app_assoc.
  intros [[-> Hrep]|(-> & (r & Hr) & Hk)]; [left; split; [done|by apply reported_app]|right].
  split; [done|]. split; [|done]. exists r. by rewrite last_app, Hr.
Qed.

(** A line that names a program, in the child. *)
Lemma execute_child t0 line s :
  posix_open os t0 → is_Some (fd_table t0 (hist s) !! 0) → fits line →
  is_program (lm_args (meaning true line)) = true → (∀ h, sys_call os h CFork = 0) →
  ids_ok s → counter s ≤ 2 ^ 31 - 1 →
  ∃ o h' t' c', execute_command os line s = Ok (o, Shell (hist s ++ h') t' c') ∧
                child_ends t0 line (hist s) o h'.
Proof.
  intros Hposix H0 Hfits Hprog Hfork Hs Hc. pose proof (parse_command_spec true line) as Hparse.
  rewrite decide_True in Hparse by done. destruct Hparse as (p & Hp & Hm).
  unfold execute_command, parse_command. rewrite Hp.
  assert (args p = lm_args (meaning true line)) as Ha by (by rewrite <-Hm). rewrite <-Ha in Hprog.
  destruct (stderr_errors p) as (_ & _ & Hs3 & _).
  assert (on_hist (modify (λ h, h ++ (Stderr <$> errors p))) s =
    Ok (tt, Shell (hist s ++ (Stderr <$> errors p)) (table s) (counter s))) as Hrun by done.
  run Hrun. destruct (args p) as [|name rest]; [done|].
  apply negb_true_iff, bool_decide_eq_false in Hprog. csimpl in Hprog.
  do 7 (rewrite decide_False by set_solver).
  unfold run_program. run (call_Ok CFork _). rewrite !Hfork. cbn [Z.eqb hist table counter].
  set (h1 := (Stderr <$> errors p) ++ [Called CFork 0]).
  assert (Forall no_fd h1) as Hh1 by (apply Forall_app; split; [done|by repeat constructor]).
  rewrite <-app_assoc. fold h1.
  destruct (child_Ok t0 p line (Shell (hist s ++ h1) (table s) (counter s)) Hposix)
    as (o & h' & t' & c' & Hchild & Hends); [cbn [hist]; by rewrite fd_table_no_fd|done|by apply ids_ok_hist|done|].
  exists o, (h1 ++ h'), t', c'. cbn [hist] in *. rewrite Hchild, <-app_assoc. split; [done|].
  by apply child_ends_later.
Qed.

(** The whole session: every line raises the counter by at most one. *)
Lemma main_loop_parent g fuel input :
  owns g → (∀ h, sys_call os h CFork ≠ 0) → (length input < fuel)%nat →
  Forall (λ l, fits l ∧ has_operand l) (input_lines (MAX_INPUT_SIZE - 1) fuel input) →
  runs (Z.of_nat (length input)) (returns g) (λ o, o = Exited 0) (main_loop os fuel input).
Proof.
  intros Hg Hfork. revert input. induction fuel as [|fuel IH]; intros input Hfuel Hlines; [lia|].
  cbn [main_loop]. destruct input as [|c input].
  { apply (runs_bind _ _ (λ _, True)); [lia| |intros _ _].
    - apply runs_calm; [lia|apply runs_cleanup].
    - apply runs_ret; [apply _|simpl; lia|done]. }
  cbn [input_lines] in Hlines.
  pose proof (fgets_chars_progress (MAX_INPUT_SIZE - 1) (c :: input) ltac:(done) ltac:(done)) as Hprog.
  destruct (fgets_chars (MAX_INPUT_SIZE - 1) (c :: input)) as [line rest]. cbn [snd] in Hprog.
  apply Forall_cons in Hlines as [[Hfit Hop] Hlines].
  apply (runs_weaken (1 + Z.of_nat (length rest)) _ (returns g) _ (λ o, o = Exited 0)); [lia|done|done|].
  apply (runs_seq 1 (Z.of_nat (length rest)) (returns g) (returns g) _ parent_outcome);
    [apply composes_app|lia|lia|by apply execute_parent|].
  intros o [-> | ->].
  - apply IH; [lia|done].
  - apply runs_ret; [apply _|lia|done].
Qed.

Lemma main_parent g input :
  owns g → (∀ h, sys_call os h CFork ≠ 0) →
  Forall (λ l, fits l ∧ has_operand l) (input_lines (MAX_INPUT_SIZE - 1) (S (length input)) input) →
  runs (Z.of_nat (length input)) (returns g) (λ o, o = Exited 0) (main os input).
Proof.
  intros Hg Hfork Hlines. unfold main.
  do 3 (apply (runs_bind _ _ (λ _, True)); [lia|apply runs_call; [lia|done]|intros ? _]).
  apply main_loop_parent; [done|done|lia|done].
Qed.
End Commands.

(** ** From the list of jobs to any table *)

Lemma sim_run {T A} (rep : T → Z → joblog → Prop) m1 m2 s1 s2 (a : A) s2' :
  sim rep m1 m2 → related rep s1 s2 → m2 s2 = Ok (a, s2') →
  ∃ s1', m1 s1 = Ok (a, s1') ∧ related rep s1' s2'.
Proof.
  intros Hsim Hs Hrun. specialize (Hsim s1 s2 Hs). rewrite Hrun in Hsim.
  destruct (m1 s1) as [[a1 s1']|]; [|done]. destruct Hsim as [-> Hs']. eauto.
Qed.

(** The shell with the job list of [jobs.c]: the list is well formed, the job
    numbers are distinct and below the counter. *)
Definition shell_ok (s : shell job_list) : Prop :=
  ∃ sp q, jobs_rep (table s) sp q ∧ ids_ok (Shell (hist s) (sp, q) (counter s)).

Lemma shell_ok_init g h : shell_ok (Shell h (init_job_list g) 1).
Proof.
  exists g, ([], []). split; [split; [apply init_rep|done]|]. split; [apply NoDup_nil_2|constructor|done].
Qed.

(** A triple about the list of jobs, for the shell with [jobs.c]. *)
Lemma runs_concrete n H {A} P (m1 : ST (shell job_list) A) (m2 : ST ishell A) s :
  sim jobs_rep m1 m2 → runs n H P m2 → shell_ok s → counter s + n ≤ 2 ^ 31 - 1 →
  ∃ a s' h', m1 s = Ok (a, s') ∧ hist s' = hist s ++ h' ∧ H h' ∧ P a ∧ shell_ok s' ∧
    counter s ≤ counter s' ≤ counter s + n.
Proof.
  intros Hsim Hruns (sp & q & Hrep & Hids) Hc.
  destruct (Hruns _ Hids Hc) as (a & h' & [sp' q'] & c' & Hrun & Hids' & Hc' & Hh & Ha).
  assert (related jobs_rep s (Shell (hist s) (sp, q) (counter s))) as Hrel by done.
  destruct (sim_run jobs_rep m1 m2 s _ a _ Hsim Hrel Hrun) as (s' & Hrun' & Hh' & Hc1 & Hrep').
  cbn in *. exists a, s', h'. rewrite Hc1. split_and!; try done; try lia.
  exists sp', q'. split; [done|]. rewrite Hh', Hc1. done.
Qed.
