(* ===== verification/ShellClaims.v ===== *)
(** * The shells: properties.

    Parsing, a line and a session of the first shell, and a line and a session
    of the second one with the job list of [jobs.c]. *)

From Stdlib Require Import ZArith Lia Ascii String.
From stdpp Require Import base gmap strings numbers option list.
From S2P Require Import Prelude Stdio Jobs JobsSpec ShellCommon Shell1 Shell2 Shell2Proofs.

Open Scope Z_scope.
Open Scope list_scope.

(** The second shell over [jobs.c]. *)
Section WithJobs.
Context (os : system) (malloc : gmap Z job_element → option Z) (printf_ok : nat → bool).

Definition sh2_execute (line : bytes) : ST (Shell2.shell job_list) outcome :=
  @Shell2.execute_command os job_list (jobs_table malloc printf_ok) line.

Definition sh2_main (input : bytes) : ST (Shell2.shell job_list) outcome :=
  @Shell2.main os job_list (jobs_table malloc printf_ok) input.
End WithJobs.

(** The state [main] starts from. *)
Definition sh2_start (getpid : Z) : Shell2.shell job_list := Shell2.Shell [] (init_job_list getpid) 1.

(** C27: the parser of both shells implements the grammar: with fewer than 100
    arguments it hands over the words that are no operator and no file, the last
    input and output file with the last operator of each kind, and whether a
    "&" follows the last argument; with 100 or more it writes past the end of
    [args]. *)
Theorem parse_command_grammar (amp : bool) (command : bytes) :
  if decide (Z.of_nat (length (lm_args (meaning amp command))) < ARGS_SIZE)
  then ∃ p, ShellCommon.parse_command amp command = Ok p ∧ handed p = meaning amp command
  else ShellCommon.parse_command amp command = Err BadAccess.
Proof. apply parse_command_spec. Qed.

(** C28: a line of the first shell.  A builtin makes at most one system call and
    the shell goes on, or exits with 0 for [exit].  For a program the shell
    forks; the parent waits for that child and goes on; the child never returns
    to the loop: it becomes the program, with descriptor 0 and 1 on the files of
    the redirections and all others as they were, or reports an error and exits
    with 1. *)
Theorem shell1_line_correct (os : system) (t0 : fds) (line : bytes) (h : history) :
  posix_open os t0 → is_Some (fd_table t0 h !! 0) → Shell1.fits line →
  ∃ o h', Shell1.execute_command os line h = Ok (o, h ++ h') ∧ Shell1.sh1_line os t0 line h o h'.
Proof. intros Hposix H0 Hfits. by apply Shell1.execute_line. Qed.

(** A system that opens every file at the lowest descriptor, and is the child
    of every fork ([pid] 0) or the parent. *)
Definition std_fds : fds := <[0 := Inherited 0]> (<[1 := Inherited 1]> {[ 2 := Inherited 2 ]}).

Definition demo_os (pid : Z) : system := System
  (λ h c, match c with
          | CFork => pid
          | CGetpgrp => 77
          | COpen _ _ => match fd_table std_fds h !! 0, fd_table std_fds h !! 1 with
                         | None, _ => 0
                         | Some _, None => 1
                         | Some _, Some _ => -1
                         end
          | _ => 0
          end)
  (λ _ p _, (if p =? -1 then 500 else p, WStopped 20)) (λ _, ([(500, WContinued); (501, WExited 1)], 0)).

Lemma demo_posix pid : posix_open (demo_os pid) std_fds.
Proof.
  intros h path flags. cbn [sys_call demo_os]. destruct (fd_table std_fds h !! 0) eqn:H0; [|right].
  - destruct (fd_table std_fds h !! 1) eqn:H1; [by left|right]. split; [lia|]. split; [done|].
    intros k Hk. by assert (k = 0) as -> by lia.
  - split; [lia|]. split; [done|]. intros k Hk. lia.
Qed.

Definition demo_line : bytes := txt "cat -n < in.txt >> out.txt".

Lemma shell1_line_correct_witness :
  ∃ o h', Shell1.execute_command (demo_os 0) demo_line [] = Ok (o, [] ++ h') ∧
          Shell1.sh1_line (demo_os 0) std_fds demo_line [] o h'.
Proof.
  apply (shell1_line_correct (demo_os 0) std_fds demo_line []).
  - apply demo_posix.
  - by eexists.
  - by vm_compute.
Defined.

(** A session of the first shell ends: whatever the input, if no line has
    100 arguments the loop reads all of it or stops at [exit]; in the process
    that started it the outcome is exit status 0. *)
Theorem shell1_session (os : system) (t0 : fds) (input : bytes) (h : history) :
  posix_open os t0 → is_Some (fd_table t0 h !! 0) →
  Forall Shell1.fits (input_lines (Shell1.MAX_INPUT_SIZE - 1) (S (length input)) input) →
  ∃ o h', Shell1.main os input h = Ok (o, h ++ h') ∧ o ≠ Continue ∧
    ((∀ h0, sys_call os h0 CFork ≠ 0) → o = Exited 0).
Proof. intros Hposix H0 Hfits. apply (Shell1.main_loop_Ok os t0); [done|done|lia|done]. Qed.

Definition demo_input : bytes := txt "cd /tmp" ++ [newline] ++ demo_line ++ [newline; newline] ++ txt "rm x".

Lemma shell1_session_witness :
  ∃ o h', Shell1.main (demo_os 9) demo_input [] = Ok (o, [] ++ h') ∧ o ≠ Continue ∧
    ((∀ h0, sys_call (demo_os 9) h0 CFork ≠ 0) → o = Exited 0).
Proof.
  apply (shell1_session (demo_os 9) std_fds demo_input []).
  - apply demo_posix.
  - by eexists.
  - change (input_lines _ _ _) with [txt "cd /tmp" ++ [newline]; demo_line ++ [newline]; [newline]; txt "rm x"].
    repeat (apply Forall_cons; split); [by vm_compute..|constructor].
Defined.





Definition demo_session : bytes :=
  txt "/bin/sleep 5" ++ [newline] ++ txt "jobs" ++ [newline] ++ txt "fg %1" ++ [newline].


(** C24: the job list of [jobs.c] is a correct table for the shell: on any input
    and with any system, children included, the shell with the linked list and
    the shell with a mathematical list of jobs have the same outcome, or the
    same fault, and the same history. *)
Theorem shell2_refines_job_table (os : system) (malloc : gmap Z job_element → option Z)
    (printf_ok : nat → bool) (getpid : Z) (input : bytes) :
  malloc_ok malloc → (∀ n, printf_ok n = true) →
  match sh2_main os malloc printf_ok input (sh2_start getpid),
        Shell2.main os input (Shell2.Shell [] (getpid, ([], [])) 1) with
  | Ok (o1, s1), Ok (o2, s2) =>
      o1 = o2 ∧ Shell2.hist s1 = Shell2.hist s2 ∧ Shell2.counter s1 = Shell2.counter s2 ∧
      jobs_rep (Shell2.table s1) (Shell2.table s2).1 (Shell2.table s2).2
  | Err e1, Err e2 => e1 = e2
  | _, _ => False
  end.
Proof.
  intros Hm Hp. apply (@sim_main os job_list (jobs_table malloc printf_ok) jobs_rep).
  - by apply jobs_table_ok.
  - split; [done|]. split; [done|]. split; [apply init_rep|done].
Qed.

Lemma shell2_refines_job_table_witness :
  match sh2_main (demo_os 500) bump (λ _, true) demo_session (sh2_start 77),
        Shell2.main (demo_os 500) demo_session (Shell2.Shell [] (77, ([], [])) 1) with
  | Ok (o1, s1), Ok (o2, s2) =>
      o1 = o2 ∧ Shell2.hist s1 = Shell2.hist s2 ∧ Shell2.counter s1 = Shell2.counter s2 ∧
      jobs_rep (Shell2.table s1) (Shell2.table s2).1 (Shell2.table s2).2
  | Err e1, Err e2 => e1 = e2
  | _, _ => False
  end.
Proof. exact (shell2_refines_job_table (demo_os 500) bump (λ _, true) 77 demo_session bump_ok (λ _, eq_refl)). Defined.

(** C25: the child of a program line of the second shell never returns to the
    loop: it becomes the program, with the descriptors redirected as the line
    says, or reports an error and exits with 1. *)
Theorem shell2_child_correct (os : system) (malloc : gmap Z job_element → option Z)
    (printf_ok : nat → bool) (t0 : fds) (line : bytes) (s : Shell2.shell job_list) :
  malloc_ok malloc → (∀ n, printf_ok n = true) → posix_open os t0 →
  is_Some (fd_table t0 (Shell2.hist s) !! 0) → (∀ h, sys_call os h CFork = 0) →
  fits line → is_program (lm_args (meaning true line)) = true →
  shell_ok s → Shell2.counter s ≤ 2 ^ 31 - 1 →
  ∃ o s' h', sh2_execute os malloc printf_ok line s = Ok (o, s') ∧ Shell2.hist s' = Shell2.hist s ++ h' ∧
    child_ends t0 line (Shell2.hist s) o h'.
Proof.
  intros Hm Hp Hposix H0 Hfork Hfits Hprog (sp & q & Hrep & Hids) Hc.
  destruct (execute_child os t0 line (Shell2.Shell (Shell2.hist s) (sp, q) (Shell2.counter s)) Hposix)
    as (o & h' & t' & c' & Hrun & Hends); [done..|].
  assert (sim jobs_rep (sh2_execute os malloc printf_ok line) (Shell2.execute_command os line)) as Hsim.
  { apply (@sim_execute os job_list (jobs_table malloc printf_ok) jobs_rep). by apply jobs_table_ok. }
  assert (related jobs_rep s (Shell2.Shell (Shell2.hist s) (sp, q) (Shell2.counter s))) as Hrel by done.
  destruct (sim_run _ _ _ _ _ _ _ Hsim Hrel Hrun) as (s' & Hrun' & Hh & _).
  by exists o, s', h'.
Qed.

Lemma shell2_child_correct_witness :
  ∃ o s' h', sh2_execute (demo_os 0) bump (λ _, true) demo_line (sh2_start 77) = Ok (o, s') ∧
    Shell2.hist s' = Shell2.hist (sh2_start 77) ++ h' ∧
    child_ends std_fds demo_line (Shell2.hist (sh2_start 77)) o h'.
Proof.
  apply (shell2_child_correct (demo_os 0) bump (λ _, true) std_fds demo_line (sh2_start 77)).
  - exact bump_ok.
  - done.
  - apply demo_posix.
  - by eexists.
  - done.
  - by vm_compute.
  - by vm_compute.
  - apply shell_ok_init.
  - done.
Defined.

Definition history_of (r : result (outcome * Shell2.shell job_list)) : history :=
  match r with Ok (_, s) => Shell2.hist s | Err _ => [] end.

(** [fg] and [bg] go on after an error.  Without an operand the syntax error
    is reported and the command reads [args[1]], which is NULL.  And [fg] of a job
    that does not exist hands the terminal to group -1, sends SIGCONT to process
    1 and waits for any child; when that child is then found stopped, it is
    reported as job 7 with process -1. *)
Theorem fg_bad_operand (os : system) (malloc : gmap Z job_element → option Z)
    (printf_ok : nat → bool) (s : Shell2.shell job_list) :
  (sh2_execute os malloc printf_ok (txt "fg") s = Err BadAccess ∧
   sh2_execute os malloc printf_ok (txt "bg") s = Err BadAccess) ∧
  take 5 (history_of (sh2_execute (demo_os 500) bump (λ _, true) (txt "fg %7") (sh2_start 77))) =
    [Stderr (txt "Job 7 not found" ++ [newline]);
     Called (CTcsetpgrp (-1)) 0; Called (CKill 1 Shell2.SIGCONT) 0;
     Waited (-1) Shell2.WUNTRACED 500 (WStopped 20);
     Stdout (txt "[7] (-1) suspended by signal 20" ++ [newline])].
Proof. split; [done|]. vm_compute. reflexivity. Qed.
