(* ===== verification/TestSignals.v ===== *)
(** * Processes that receive signals.

    What the test programs of the second shell do, as a small language of
    statements, and what POSIX says about signals, stopping and waiting; and a
    search of all states that a program can reach, with its soundness. *)

From Stdlib Require Import ZArith Lia Ascii String.
From stdpp Require Import base gmap strings numbers option list.
From S2P Require Import Prelude Stdio Jobs JobsSpec ShellCommon Shell2.

Open Scope Z_scope.
Open Scope list_scope.

(** Linux's values; the other ones are in [Shell2]. *)
Definition SIGQUIT : Z := 3.
Definition SIGSTOP : Z := 19.

(** Who gets a signal: the process itself, its group as [kill(-getpid(), ...)] or
    [kill(0, ...)] name it, or the other process of a family. *)
Inductive recipient := Self | GroupByPid | OwnGroup | Relative.

(** Statements without statements in them.  [RobustWait] is a call of
    [robust_wait] whose value is not used; [CheckedWait] is
    [if (robust_wait(n) == -1) return -1;]. *)
Inductive basic :=
  | Write (fd : Z) (text : bytes)
  | Printf (text : bytes)
  | Say_error (s : bytes)                       (** [perror] *)
  | Close (fd : Z)
  | Kill (t : recipient) (sig : Z) (complaint : bytes)
  | RobustWait (n : Z)
  | CheckedWait (n : Z)
  | Pause
  | SetCont                                     (** [cont = 1;] *)
  | SpinUntilCont                               (** [while (!cont);] *)
  | Exec (argv : list bytes)
  | WaitChild
  | Return (status : Z)
  | Crash.                                      (** undefined behaviour *)

Inductive stmt :=
  | Do (b : basic)
  | Sigaction (sig : Z) (handler : list basic)
  | Block (sig : Z)                             (** [sigprocmask] *)
  | Forever (body : list basic)                 (** [while (1) body] *)
  | Fork (forever : bool) (child : list basic) (failed : list basic).

#[export] Instance recipient_eq_dec : EqDecision recipient.
Proof. solve_decision. Defined.
#[export] Instance basic_eq_dec : EqDecision basic.
Proof. solve_decision. Defined.
#[export] Instance stmt_eq_dec : EqDecision stmt.
Proof. solve_decision. Defined.
#[export] Instance wstatus_eq_dec : EqDecision wstatus.
Proof. solve_decision. Defined.

(** What is written to a descriptor, and the messages of [perror]. *)
Inductive output := Wrote (fd : Z) (text : bytes) | Complained (s : bytes).

Inductive mode :=
  | Running
  | Stopped (sig : Z)
  | Ended (st : wstatus)
  | Became (argv : list bytes)
  | Undefined.

#[export] Instance output_eq_dec : EqDecision output.
Proof. solve_decision. Defined.
#[export] Instance mode_eq_dec : EqDecision mode.
Proof. solve_decision. Defined.

(** A process: the code of [main] below the code of the handlers that interrupt
    it, each with the mask to restore at its end. *)
Record proc := Proc {
  status : mode;
  cont : bool;
  mask : gset Z;
  pending : gset Z;
  closed : gset Z;
  buffer : bytes;
  written : list output;
  stack : list (gset Z * list stmt);
  handlers : gmap Z (list basic);
}.

#[export] Instance proc_eq_dec : EqDecision proc.
Proof. solve_decision. Defined.

Definition set_stack (k : list (gset Z * list stmt)) (p : proc) : proc :=
  Proc (status p) (cont p) (mask p) (pending p) (closed p) (buffer p) (written p) k (handlers p).
Definition set_handlers (h : gmap Z (list basic)) (p : proc) : proc :=
  Proc (status p) (cont p) (mask p) (pending p) (closed p) (buffer p) (written p) (stack p) h.
Definition set_mask (m : gset Z) (p : proc) : proc :=
  Proc (status p) (cont p) m (pending p) (closed p) (buffer p) (written p) (stack p) (handlers p).
Definition set_pending (s : gset Z) (p : proc) : proc :=
  Proc (status p) (cont p) (mask p) s (closed p) (buffer p) (written p) (stack p) (handlers p).
Definition set_status (m : mode) (p : proc) : proc :=
  Proc m (cont p) (mask p) (pending p) (closed p) (buffer p) (written p) (stack p) (handlers p).
Definition set_cont (b : bool) (p : proc) : proc :=
  Proc (status p) b (mask p) (pending p) (closed p) (buffer p) (written p) (stack p) (handlers p).
Definition set_closed (s : gset Z) (p : proc) : proc :=
  Proc (status p) (cont p) (mask p) (pending p) s (buffer p) (written p) (stack p) (handlers p).
Definition set_output (b : bytes) (w : list output) (p : proc) : proc :=
  Proc (status p) (cont p) (mask p) (pending p) (closed p) b w (stack p) (handlers p).

(** A process that is no more runs nothing and keeps no signal. *)
Definition finish (m : mode) (p : proc) : proc := set_stack [] (set_pending ∅ (set_status m p)).

(** ** [robust_wait] *)

Definition wait_sec (n : Z) : Z := Z.quot n 4.
Definition wait_nsec (n : Z) : Z := Z.rem n 4 * 25 * 10000000.

(** [nanosleep] accepts the time. *)
Definition waitable (n : Z) : bool := (0 <=? wait_sec n) && (0 <=? wait_nsec n) && (wait_nsec n <? 10 ^ 9).

(** What follows when [nanosleep] fails. *)
Definition wait_failed : list stmt := [Do (Say_error (lit "nanosleep")); Do (Return 1)].

(** ** Signals *)

Definition stops : gset Z := {[SIGSTOP; SIGTSTP]}.

(** A signal arrives.  SIGCONT resumes a stopped process whatever it does with the
    signal; SIGCONT and the stopping signals cancel each other. *)
Definition send (sig : Z) (p : proc) : option proc :=
  match status p with
  | Running | Stopped _ =>
      Some
        (if bool_decide (sig = SIGKILL) then finish (Ended (WSignaled SIGKILL)) p
         else if bool_decide (sig = SIGCONT) then
           let p := set_pending (pending p ∖ stops) (set_status Running p) in
           if bool_decide (is_Some (handlers p !! SIGCONT) ∨ SIGCONT ∈ mask p)
           then set_pending ({[SIGCONT]} ∪ pending p) p else p
         else if bool_decide (sig ∈ stops) then set_pending ({[sig]} ∪ pending p ∖ {[SIGCONT]}) p
         else set_pending ({[sig]} ∪ pending p) p)
  | _ => None
  end.

(** The pending signals that can be acted on: SIGSTOP cannot be blocked. *)
Definition deliverable (p : proc) : gset Z := pending p ∖ (mask p ∖ {[SIGSTOP]}).

(** A handler interrupts the call in which the process waits. *)
Definition interrupted (code : list stmt) : list stmt :=
  match code with
  | Do (RobustWait _ | CheckedWait _) :: _ => wait_failed
  | Do (Pause | WaitChild) :: code' => code'
  | _ => code
  end.

Definition interrupt_top (k : list (gset Z * list stmt)) : list (gset Z * list stmt) :=
  match k with
  | (m, code) :: k' => (m, interrupted code) :: k'
  | [] => []
  end.

(** A pending signal is acted on.  A process that is about to wait may be in the
    call already ([inside]) or not. *)
Definition deliver (sig : Z) (inside : bool) (p : proc) : option proc :=
  match status p with
  | Running =>
      if bool_decide (sig ∈ deliverable p) then
        let p := set_pending (pending p ∖ {[sig]}) p in
        match (if bool_decide (sig = SIGSTOP) then None else handlers p !! sig) with
        | Some h => Some (set_mask ({[sig]} ∪ mask p) (set_stack ((mask p, Do <$> h) :: (if inside then interrupt_top (stack p) else stack p)) p))
        | None =>
            Some (if bool_decide (sig ∈ stops) then set_status (Stopped sig) p
                  else if bool_decide (sig = SIGCONT) then p
                  else finish (Ended (WSignaled sig)) p)
        end
      else None
  | _ => None
  end.

(** ** Running *)

Inductive effect := NoEffect | Signal (sig : Z) | Forked (child : proc).

Section Machine.
(** Whether the process leads its group, as the shell arranges, and whether its
    output is a terminal. *)
Context (leader tty : bool).

(** [write], which fails on a closed descriptor; [printf] keeps the text back
    unless the output is a terminal. *)
Definition emit_to (fd : Z) (text : bytes) (p : proc) : proc :=
  if bool_decide (fd ∈ closed p) then p else set_output (buffer p) (written p ++ [Wrote fd text]) p.

Definition emit_printf (text : bytes) (p : proc) : proc :=
  if tty then emit_to 1 text p else set_output (buffer p ++ text) (written p) p.

(** [exit]: what was kept back is written. *)
Definition exits (n : Z) (p : proc) : proc :=
  let p := match buffer p with [] => p | b => emit_to 1 b p end in
  finish (Ended (WExited (n mod 256))) (set_output [] (written p) p).

(** One basic statement; [code] is what follows it and [gone] says that there is
    no child to wait for.  [None] means that the process waits. *)
Definition run_basic (gone : bool) (b : basic) (p : proc) : option (proc * effect) :=
  match b with
  | Write fd text => Some (emit_to fd text p, NoEffect)
  | Printf text => Some (emit_printf text p, NoEffect)
  | Say_error s => Some (set_output (buffer p) (written p ++ [Complained s]) p, NoEffect)
  | Close fd => Some (set_closed ({[fd]} ∪ closed p) p, NoEffect)
  | Kill Relative sig _ => Some (p, Signal sig)
  | Kill t sig complaint =>
      if leader || negb (bool_decide (t = GroupByPid)) then p ← send sig p; Some (p, NoEffect)
      else Some (match complaint with [] => p | s => emit_to 2 s p end, NoEffect)
  | RobustWait n | CheckedWait n =>
      if waitable n then None
      else Some (exits 1 (set_output (buffer p) (written p ++ [Complained (lit "nanosleep")]) p), NoEffect)
  | Pause => None
  | SetCont => Some (set_cont true p, NoEffect)
  | SpinUntilCont => if cont p then Some (p, NoEffect) else None
  | Exec _ => None
  | WaitChild => if gone then Some (p, NoEffect) else None
  | Return n => Some (exits n p, NoEffect)
  | Crash => Some (finish Undefined p, NoEffect)
  end.

(** One statement of a process with nothing to deliver. *)
Definition run_one (gone : bool) (p : proc) : option (proc * effect) :=
  match stack p with
  | [] => None
  | (m, []) :: [] => Some (exits 0 p, NoEffect)
  | (m, []) :: k => Some (set_mask m (set_stack k p), NoEffect)
  | (m, s :: code) :: k =>
      let next := set_stack ((m, code) :: k) p in
      match s with
      | Do b => run_basic gone b next
      | Sigaction sig h => Some (set_handlers (<[sig := h]> (handlers p)) next, NoEffect)
      | Block sig => Some (set_mask ({[sig]} ∪ mask p) next, NoEffect)
      | Forever [] => None
      | Forever body => Some (set_stack ((m, (Do <$> body) ++ s :: code) :: k) p, NoEffect)
      | Fork _ _ _ => None
      end
  end.

(** What happens to a process: it runs, a wait is over, a call of [exec] or [fork]
    answers, or a signal arrives or is acted on. *)
Inductive label := Run | Tick | Answer (ok : bool) | Arrive (sig : Z) | Act (sig : Z) (inside : bool).

#[export] Instance label_eq_dec : EqDecision label.
Proof. solve_decision. Defined.

(** The end of a wait.  The value of [robust_wait] is not defined when it returns,
    and [CheckedWait] looks at it. *)
Definition tick (p : proc) : option proc :=
  match stack p with
  | (m, Do (RobustWait n) :: code) :: k => if waitable n then Some (set_stack ((m, code) :: k) p) else None
  | (m, Do (CheckedWait n) :: code) :: k => if waitable n then Some (finish Undefined p) else None
  | _ => None
  end.

Definition answer (ok : bool) (p : proc) : option (proc * effect) :=
  match stack p with
  | (m, Do (Exec argv) :: code) :: k =>
      Some (if ok then finish (Became argv) p else set_stack ((m, code) :: k) p, NoEffect)
  | (m, Fork forever child failed :: code) :: k =>
      Some (if ok then
              (set_stack ((m, code) :: k) p,
               Forked (Proc Running (cont p) (mask p) ∅ (closed p) (buffer p) []
                 [(∅, if forever then [Forever child; Do (Return 0)] else Do <$> child)] (handlers p)))
            else (set_stack ((m, (Do <$> failed) ++ code) :: k) p, NoEffect))
  | _ => None
  end.

Definition quiet (p : proc) : bool := bool_decide (status p = Running) && bool_decide (deliverable p = ∅).

Definition step (gone : bool) (l : label) (p : proc) : option (proc * effect) :=
  match l with
  | Run => if quiet p then run_one gone p else None
  | Tick => if quiet p then p ← tick p; Some (p, NoEffect) else None
  | Answer ok => if quiet p then answer ok p else None
  | Arrive sig => p ← send sig p; Some (p, NoEffect)
  | Act sig inside => p ← deliver sig inside p; Some (p, NoEffect)
  end.

(** ** Families: a process and the child it may have created *)

Record family := Family { parent : proc; child : option proc }.

#[export] Instance family_eq_dec : EqDecision family.
Proof. solve_decision. Defined.

Definition is_ended (p : proc) : bool := match status p with Ended _ => true | _ => false end.

(** A signal for a process that is there. *)
Definition signal (sig : Z) (p : proc) : proc := default p (send sig p).

Definition family_step (l : bool * label) (f : family) : option family :=
  let '(in_child, l) := l in
  if in_child then
    c ← child f;
    r ← step true l c;
    match r with
    | (c, NoEffect) => Some (Family (parent f) (Some c))
    | (c, Signal sig) => Some (Family (signal sig (parent f)) (Some c))
    | (_, Forked _) => None
    end
  else
    r ← step (match child f with Some c => is_ended c | None => true end) l (parent f);
    match r with
    | (p, NoEffect) => Some (Family p (child f))
    | (p, Signal sig) => Some (Family p (signal sig <$> child f))
    | (p, Forked c) => Some (Family p (Some c))
    end.

Definition family_steps (ls : list (bool * label)) (f : family) : option family :=
  foldl (λ f l, f ≫= family_step l) (Some f) ls.

(** A program at its start. *)
Definition started (code : list stmt) : family :=
  Family (Proc Running false ∅ ∅ ∅ [] [] [(∅, code)] ∅) None.

(** A program whose handlers are in place. *)
Definition is_setup (s : stmt) : bool := match s with Sigaction _ _ | Block _ => true | _ => false end.

Fixpoint setup_steps (code : list stmt) : nat :=
  match code with s :: code' => if is_setup s then S (setup_steps code') else O | [] => O end.

Definition ready (code : list stmt) : family :=
  default (started code) (family_steps (replicate (setup_steps code) (false, Run)) (started code)).

(** ** All schedules

    What is written does not decide what happens: a state is searched without
    it. *)

Definition blank (p : proc) : proc := set_output [] [] p.
Definition blank_family (f : family) : family := Family (blank (parent f)) (blank <$> child f).

(** The schedules in which only the labels of [allowed] occur. *)
Definition reaches (allowed : list (bool * label)) (f g : family) : Prop :=
  ∃ ls, Forall (λ l, l ∈ allowed) ls ∧ family_steps ls f = Some g.

Definition successors (allowed : list (bool * label)) (f : family) : list family :=
  omap (λ l, blank_family <$> family_step l f) allowed.

(** The states found from [todo], those of [seen] included. *)
Fixpoint explore (fuel : nat) (allowed : list (bool * label)) (todo seen : list family) : list family :=
  match fuel with
  | O => todo ++ seen
  | S fuel' =>
      match todo with
      | [] => seen
      | f :: todo' =>
          if bool_decide (f ∈ seen) then explore fuel' allowed todo' seen
          else explore fuel' allowed (successors allowed f ++ todo') (f :: seen)
      end
  end.

(** Every run of allowed steps comes to a state with [goal], within [n] steps. *)
Fixpoint inevitable (n : nat) (allowed : list (bool * label)) (goal : family → bool) (f : family) : bool :=
  goal f ||
  match n with
  | O => false
  | S n' =>
      let next := successors allowed f in
      negb (bool_decide (next = [])) && forallb (inevitable n' allowed goal) next
  end.

(** The same as a property: the process can move until it is there. *)
Inductive must (allowed : list (bool * label)) (goal : family → bool) (f : family) : Prop :=
  | must_now : goal f = true → must allowed goal f
  | must_step :
      (∃ l g, l ∈ allowed ∧ family_step l f = Some g) →
      (∀ l g, l ∈ allowed → family_step l f = Some g → must allowed goal g) → must allowed goal f.

(** A set of states that no step leaves. *)
Definition closed_set (allowed : list (bool * label)) (states : list family) : bool :=
  forallb (λ f, forallb (λ g, bool_decide (g ∈ states)) (successors allowed f)) states.

(** All states reached from [f] satisfy [good]. *)
Definition always (fuel : nat) (allowed : list (bool * label)) (good : family → bool) (f : family) : bool :=
  let states := explore fuel allowed [blank_family f] [] in
  bool_decide (blank_family f ∈ states) && closed_set allowed states && forallb good states.
End Machine.

(** ** Soundness of the search *)

Section Search.
Context (leader tty : bool).

Abbreviation family_step := (family_step leader tty).
Abbreviation family_steps := (family_steps leader tty).
Abbreviation reaches := (reaches leader tty).

(** Two results that differ only in what has been written. *)
Definition blank_effect (e : effect) : effect := match e with Forked c => Forked (blank c) | _ => e end.
Definition blank_result (r : proc * effect) : proc * effect := (blank r.1, blank_effect r.2).

Ltac by_cases := unfold finish, set_stack, set_handlers, set_mask, set_pending, set_status, set_cont, set_closed, set_output in *;
  cbn in *; repeat (case_match; cbn in *; simplify_eq); try done.

Lemma send_blank sig p : send sig (blank p) = blank <$> send sig p.
Proof. destruct p. unfold send, blank. by_cases. Qed.

Lemma deliver_blank sig b p : deliver sig b (blank p) = blank <$> deliver sig b p.
Proof. destruct p. unfold deliver, deliverable, blank. by_cases. Qed.

(** Writing changes nothing but the output. *)
Lemma blank_emit_to fd text p : blank (emit_to fd text p) = blank p.
Proof. unfold emit_to. by case_bool_decide. Qed.

Lemma blank_emit_printf b text p : blank (emit_printf b text p) = blank p.
Proof. unfold emit_printf. destruct b; [apply blank_emit_to|done]. Qed.

Lemma blank_exits n p : blank (exits n p) = finish (Ended (WExited (n mod 256))) (blank p).
Proof.
  unfold exits. set (q := match buffer p with [] => p | b => emit_to 1 b p end).
  assert (blank q = blank p) as <- by (unfold q; destruct (buffer p); [done|apply blank_emit_to]). done.
Qed.

Lemma run_basic_blank gone b p :
  blank_result <$> run_basic leader tty gone b (blank p) = blank_result <$> run_basic leader tty gone b p.
Proof.
  unfold blank_result. destruct b as [fd text|text|m|fd|t sig m|n|n| | | |argv| |n|];
    cbn [run_basic fmap option_fmap option_map fst snd]; try done.
  - by rewrite !blank_emit_to.
  - by rewrite !blank_emit_printf.
  - rewrite send_blank. destruct t; try done; destruct (leader || _); try (by destruct (send sig p));
      destruct m; cbn [fst snd fmap option_fmap option_map]; by rewrite ?blank_emit_to.
  - destruct (waitable n); [done|]. cbn [fst snd fmap option_fmap option_map]. by rewrite !blank_exits.
  - destruct (waitable n); [done|]. cbn [fst snd fmap option_fmap option_map]. by rewrite !blank_exits.
  - change (cont (blank p)) with (cont p). by destruct (cont p).
  - by destruct gone.
  - by rewrite !blank_exits.
Qed.

Lemma run_one_blank gone p :
  blank_result <$> run_one leader tty gone (blank p) = blank_result <$> run_one leader tty gone p.
Proof.
  unfold run_one. change (stack (blank p)) with (stack p). destruct (stack p) as [|[m [|s code]] k]; [done|..].
  - destruct k; [|done]. unfold blank_result. cbn [fst snd fmap option_fmap option_map]. by rewrite !blank_exits.
  - destruct s as [b|sig h|sig|body|]; try done; [|by destruct body].
    change (set_stack ((m, code) :: k) (blank p)) with (blank (set_stack ((m, code) :: k) p)). apply run_basic_blank.
Qed.

Lemma step_blank gone l p :
  blank_result <$> step leader tty gone l (blank p) = blank_result <$> step leader tty gone l p.
Proof.
  unfold step. change (quiet (blank p)) with (quiet p). destruct l as [| |ok|sig|sig b].
  - destruct (quiet p); [apply run_one_blank|done].
  - destruct (quiet p); [|done]. unfold tick. change (stack (blank p)) with (stack p). by repeat case_match.
  - destruct (quiet p); [|done]. unfold answer. change (stack (blank p)) with (stack p).
    by destruct ok; repeat case_match; simplify_eq.
  - rewrite send_blank. by destruct (send sig p).
  - rewrite deliver_blank. by destruct (deliver sig b p).
Qed.

Lemma signal_blank sig p : signal sig (blank p) = blank (signal sig p).
Proof. unfold signal. rewrite send_blank. by destruct (send sig p). Qed.

Lemma family_step_blank l f :
  blank_family <$> family_step l (blank_family f) = blank_family <$> family_step l f.
Proof.
  destruct l as [[] l], f as [p c]; unfold family_step; cbn [parent child blank_family].
  - destruct c as [c|]; [|done]. cbn. pose proof (step_blank true l c) as H.
    destruct (step leader tty true l (blank c)) as [[c1 e1]|], (step leader tty true l c) as [[c2 e2]|]; try done.
    apply (inj Some), pair_equal_spec in H as [H1 H2]. cbn [fst snd] in *.
    destruct e1, e2; cbn in H2; try done; [|injection H2 as ->]; unfold blank_family; cbn; by rewrite ?signal_blank, H1.
  - assert (match blank <$> c with Some c => is_ended c | None => true end =
            match c with Some c => is_ended c | None => true end) as -> by by destruct c.
    set (gone := match c with Some c => is_ended c | None => true end). pose proof (step_blank gone l p) as H.
    destruct (step leader tty gone l (blank p)) as [[c1 e1]|], (step leader tty gone l p) as [[c2 e2]|]; try done.
    apply (inj Some), pair_equal_spec in H as [H1 H2]. cbn [fst snd] in *.
    destruct e1 as [|sig|c'], e2 as [|sig'|c'']; cbn in H2; try done; cbn [mbind option_bind fmap option_fmap option_map];
      unfold blank_family; cbn [parent child]; rewrite H1; [by destruct c| |].
    + injection H2 as ->. destruct c; [|done]. cbn. by rewrite signal_blank.
    + apply (f_equal (λ e, match e with Forked x => x | _ => c' end)) in H2. cbv beta iota in H2.
      cbn [fmap option_fmap option_map]. by rewrite H2.
Qed.

Lemma family_steps_snoc ls l f : family_steps (ls ++ [l]) f = family_steps ls f ≫= family_step l.
Proof. unfold TestSignals.family_steps. by rewrite foldl_app. Qed.

(** A closed set that holds the start holds every state that can be reached. *)
Lemma closed_reaches allowed states f g :
  closed_set leader tty allowed states = true → blank_family f ∈ states → reaches allowed f g → blank_family g ∈ states.
Proof.
  intros Hclosed Hf (ls & Hls & Hg). revert g Hg. induction ls as [|l ls IH] using rev_ind; intros g.
  { by intros [= <-]. }
  apply Forall_app in Hls as [Hls [Hl _]%Forall_cons]. rewrite family_steps_snoc.
  intros (g1 & Hg1 & Hstep)%bind_Some. specialize (IH Hls g1 Hg1).
  unfold closed_set in Hclosed. rewrite forallb_forall in Hclosed.
  specialize (Hclosed _ (proj1 (list_elem_of_In _ _) IH)). rewrite forallb_forall in Hclosed.
  apply (bool_decide_eq_true_1 _), Hclosed, list_elem_of_In. unfold successors. apply list_elem_of_omap.
  exists l. split; [done|]. rewrite family_step_blank. by rewrite Hstep.
Qed.

(** What the search finds holds under every schedule. *)
Lemma always_sound fuel allowed (good : family → bool) f g :
  always leader tty fuel allowed good f = true → reaches allowed f g → good (blank_family g) = true.
Proof.
  unfold always. intros [[Hin Hclosed]%andb_true_iff Hgood]%andb_true_iff Hg.
  apply bool_decide_eq_true_1 in Hin. rewrite forallb_forall in Hgood. apply Hgood, list_elem_of_In.
  by apply (closed_reaches allowed _ f).
Qed.

(** The goal does not look at what has been written. *)
Lemma inevitable_must n allowed goal : (∀ f, goal (blank_family f) = goal f) →
  ∀ f, inevitable leader tty n allowed goal (blank_family f) = true → must leader tty allowed goal f.
Proof.
  intros Hgoal. induction n as [|n IH]; intros f; cbn [inevitable]; rewrite Hgoal.
  { rewrite orb_false_r. apply must_now. }
  intros [Hnow|[Hmove Hnext]%andb_true_iff]%orb_true_iff; [by apply must_now|].
  assert (∀ l g, family_step l f = Some g → l ∈ allowed →
    blank_family g ∈ successors leader tty allowed (blank_family f)) as Hsucc.
  { intros l g Hg Hl. apply list_elem_of_omap. exists l. split; [done|]. by rewrite family_step_blank, Hg. }
  apply must_step.
  - apply negb_true_iff, bool_decide_eq_false_1 in Hmove.
    destruct (successors leader tty allowed (blank_family f)) as [|g gs] eqn:Hs; [done|].
    assert (g ∈ successors leader tty allowed (blank_family f)) as Hg by (rewrite Hs; by left).
    apply list_elem_of_omap in Hg as (l & Hl & Hg). rewrite family_step_blank in Hg.
    apply fmap_Some in Hg as (g' & Hg' & _). by exists l, g'.
  - intros l g Hl Hg. apply IH. rewrite forallb_forall in Hnext. apply Hnext, list_elem_of_In. by eapply Hsucc.
Qed.

(** Whenever a label of [trigger] is taken in a reachable state, the goal is
    inevitable. *)
Definition leads (trigger own : list (bool * label)) (n : nat) (goal : family → bool) (f : family) : bool :=
  forallb (inevitable leader tty n own goal) (successors leader tty trigger f).

Lemma leads_sound fuel allowed trigger own n goal f0 l f g :
  (∀ f, goal (blank_family f) = goal f) →
  always leader tty fuel allowed (leads trigger own n goal) f0 = true →
  reaches allowed f0 f → l ∈ trigger → family_step l f = Some g → must leader tty own goal g.
Proof.
  intros Hgoal Halways Hf Hl Hg. pose proof (always_sound _ _ _ _ _ Halways Hf) as Hleads.
  unfold leads in Hleads. rewrite forallb_forall in Hleads. apply (inevitable_must n); [done|].
  apply Hleads, list_elem_of_In, list_elem_of_omap. exists l. split; [done|]. by rewrite family_step_blank, Hg.
Qed.

(** A terminal makes no difference but to what is written. *)
Lemma step_tty gone l p :
  blank_result <$> step leader tty gone l p = blank_result <$> step leader true gone l p.
Proof.
  destruct tty; [done|]. destruct l; try done. unfold step. destruct (quiet p); [|done]. unfold run_one.
  destruct (stack p) as [|[m [|[b| | | |] code]] k]; try done. destruct b; try done.
  unfold run_basic, blank_result. cbn [fst snd fmap option_fmap option_map]. by rewrite !blank_emit_printf.
Qed.

Lemma family_step_tty l f :
  blank_family <$> family_step l f = blank_family <$> TestSignals.family_step leader true l f.
Proof.
  destruct l as [[] l], f as [p c]; unfold TestSignals.family_step; cbn [parent child].
  - destruct c as [c|]; [|done]. cbn [mbind option_bind]. pose proof (step_tty true l c) as H.
    destruct (step leader tty true l c) as [[c1 e1]|], (step leader true true l c) as [[c2 e2]|]; try done.
    apply (inj Some), pair_equal_spec in H as [H1 H2]. cbn [fst snd] in *.
    destruct e1, e2; cbn in H2; try done; [|injection H2 as ->]; unfold blank_family; cbn; by rewrite H1.
  - set (gone := match c with Some c => is_ended c | None => true end). pose proof (step_tty gone l p) as H.
    destruct (step leader tty gone l p) as [[c1 e1]|], (step leader true gone l p) as [[c2 e2]|]; try done.
    apply (inj Some), pair_equal_spec in H as [H1 H2]. cbn [fst snd] in *.
    destruct e1 as [|sig|c'], e2 as [|sig'|c'']; cbn in H2; try done; cbn [mbind option_bind fmap option_fmap option_map];
      unfold blank_family; cbn [parent child]; rewrite H1; [done|by injection H2 as ->|].
    apply (f_equal (λ e, match e with Forked x => x | _ => c' end)) in H2. cbv beta iota in H2.
    cbn [fmap option_fmap option_map]. by rewrite H2.
Qed.

Lemma successors_tty allowed f : successors leader tty allowed f = successors leader true allowed f.
Proof.
  unfold successors. induction allowed as [|l ls IH]; [done|]. cbn [omap list_omap]. by rewrite family_step_tty, IH.
Qed.

Lemma inevitable_tty n allowed goal : ∀ f, inevitable leader tty n allowed goal f = inevitable leader true n allowed goal f.
Proof.
  induction n as [|n IH]; intros f; cbn [inevitable]; [done|]. rewrite successors_tty. do 2 f_equal.
  generalize (successors leader true allowed f) as gs. induction gs as [|g gs IHgs]; cbn; [done|]. by rewrite IH, IHgs.
Qed.

Lemma leads_tty trigger own n goal f : leads trigger own n goal f = forallb (inevitable leader true n own goal) (successors leader true trigger f).
Proof.
  unfold leads. rewrite successors_tty. generalize (successors leader true trigger f) as gs.
  induction gs as [|g gs IH]; cbn; [done|]. by rewrite inevitable_tty, IH.
Qed.

Lemma explore_tty allowed n : ∀ todo seen, explore leader tty n allowed todo seen = explore leader true n allowed todo seen.
Proof.
  induction n as [|n IH]; intros todo seen; cbn [explore]; [done|]. destruct todo as [|f todo]; [done|].
  by rewrite successors_tty, !IH.
Qed.

Lemma always_tty fuel allowed good good' f f' :
  blank_family f = blank_family f' → (∀ g, good g = good' g) →
  always leader tty fuel allowed good f = always leader true fuel allowed good' f'.
Proof.
  intros Hf Hgood. unfold always. rewrite Hf, explore_tty. set (states := explore leader true fuel allowed _ _). f_equal; [f_equal|].
  - assert (∀ gs, forallb (λ f, forallb (λ g, bool_decide (g ∈ states)) (successors leader tty allowed f)) gs =
      forallb (λ f, forallb (λ g, bool_decide (g ∈ states)) (successors leader true allowed f)) gs) as Hgs; [|apply Hgs].
    intros gs. induction gs as [|g gs IH]; cbn; [done|]. by rewrite successors_tty, IH.
  - generalize states as gs. induction gs as [|g gs IH]; cbn; [done|]. by rewrite Hgood, IH.
Qed.
End Search.
