(* ===== verification/TestPrograms.v ===== *)
(** * The test programs of the second shell that wait and handle signals:
    [5-shell-2-haininz/shell_2_tests/shell_2_tests_quick/programs].

    A program is the statements it runs for its arguments [argv]; [pid] is its
    process.  Variables are evaluated beforehand, as they do not change.
    [sigaction] and [sigprocmask] do not fail for the signals used here. *)

From Stdlib Require Import ZArith Lia Ascii String.
From stdpp Require Import base gmap strings numbers option list.
From S2P Require Import Prelude Stdio Jobs JobsSpec ShellCommon Shell2 TestSignals.

Open Scope Z_scope.
Open Scope list_scope.

Definition line (s : string) : bytes := lit s ++ [newline].

(** [fprintf(stderr, ...); exit(status);] *)
Definition usage (text : bytes) (status : Z) : list stmt := [Do (Write 2 text); Do (Return status)].

Definition argv0 (argv : list bytes) : bytes := default [] (argv !! 0%nat).

(** ** Programs that wait and end *)

Definition myspin (argv : list bytes) : list stmt :=
  match argv with
  | [_; n] => [Do (RobustWait (atoi n)); Do (Return 0)]
  | _ =>
      [Do (Write 2 (lit "Given: " ++ print_dec (Z.of_nat (length argv)) ++ lit " arguments"));
       Do (Write 2 (lit "Usage: " ++ argv0 argv ++ line " <n>")); Do (Return 0)]
  end.

Definition exit_status (argv : list bytes) : list stmt :=
  match argv with
  | _ :: delay :: status :: _ => [Do (RobustWait (atoi delay)); Do (Return (atoi status))]
  | _ => usage (lit "error: usage: " ++ argv0 argv ++ line " <delay> <status>") 1
  end.

Definition myint (argv : list bytes) : list stmt :=
  match argv with
  | [_; n] => [Do (RobustWait (atoi n)); Do (Kill Self SIGINT (lit "kill (int) error")); Do (Return 0)]
  | _ => usage (lit "error: usage: " ++ argv0 argv ++ line " <n>") 0
  end.

Definition mystop (argv : list bytes) : list stmt :=
  match argv with
  | [_; n] => [Do (RobustWait (atoi n)); Do (Kill GroupByPid SIGTSTP (lit "kill (tstp) error")); Do (Return 0)]
  | _ => usage (lit "Usage: " ++ argv0 argv ++ line " <n>") 0
  end.

(** The child of a failed [fork] is not there to be waited for. *)
Definition mysplit (argv : list bytes) : list stmt :=
  match argv with
  | [_; n] => [Fork false [RobustWait (atoi n); Return 0] []; Do WaitChild; Do (Return 0)]
  | _ => usage (lit "Usage: " ++ argv0 argv ++ line " <n>") 0
  end.

(** The start of [mypid], [sigint_n], [sigtstp_n] and [sigstop_n]. *)
Definition announce (pid : Z) (argv : list bytes) (rest : list stmt) : list stmt :=
  if 2 <? Z.of_nat (length argv) then usage (lit "error: usage: " ++ argv0 argv ++ line " [<delay>]") 1
  else
    [Do (Write 1 (print_dec pid ++ [newline])); Do (Close 1)] ++
    match argv with _ :: delay :: _ => [Do (RobustWait (atoi delay))] | _ => [] end ++ rest.

Definition mypid (pid : Z) (argv : list bytes) : list stmt := announce pid argv [Do (Return 0)].

Definition sigint_n (pid : Z) (argv : list bytes) : list stmt :=
  announce pid argv [Do (Kill GroupByPid SIGINT []); Do Pause; Do (Return 2)].

Definition sigtstp_n (pid : Z) (argv : list bytes) : list stmt :=
  announce pid argv [Do (Kill GroupByPid SIGTSTP []); Do Pause; Do (Return 2)].

Definition sigstop_n (pid : Z) (argv : list bytes) : list stmt :=
  announce pid argv [Do (Kill GroupByPid SIGSTOP []); Do Pause; Do (Return 2)].

(** [buf] of [delay.c] has 128 bytes. *)
Definition delay (argv : list bytes) : list stmt :=
  match argv with
  | _ :: n :: prog :: args =>
      Do (RobustWait (atoi n)) ::
      (if 128 <? Z.of_nat (length prog) + 12 then [Do Crash]
       else [Do (Write 1 (lit "Executing " ++ prog ++ [newline])); Do (Exec (prog :: args));
             Do (Say_error (lit "execv")); Do (Return 126)])
  | _ => usage (lit "error: usage: " ++ argv0 argv ++ line " <delay> <prog> [<arg>*]") 127
  end.

Definition delayed_echo (argv : list bytes) : list stmt :=
  match argv with
  | _ :: n :: msg :: args =>
      [Do (RobustWait (atoi n)); Do (Exec (lit "/bin/echo" :: msg :: args));
       Do (Say_error (lit "exec echo")); Do (Return 1)]
  | _ => usage (lit "error: usage: " ++ argv0 argv ++ line " <delay> <msg> ...") 1
  end.

(** [argv[argc]] is a null pointer, which ["%s"] follows. *)
Definition segfault (argv : list bytes) : list stmt := [Do Crash].

(** ** Programs with handlers *)

Definition sigint_ignore : list stmt :=
  [Sigaction SIGINT [Write 1 (line "Received SIGINT.")];
   Do (Write 1 (line "This program ignores SIGINT." ++ [newline]));
   Do (Write 1 (line "It loops forever, printing a message each time SIGINT is received." ++ [newline]));
   Do (Write 1 (line "SIGINT should not remove this program from the jobs list." ++ [newline]));
   Do (Write 1 (line "Looping.")); Forever []].

Definition sigint_replace : list stmt :=
  [Sigaction SIGINT [Kill GroupByPid SIGTSTP []]; Do (Write 1 (line "kill me with SIGQUIT!")); Forever [Pause]].

Definition sigtstp_replace : list stmt :=
  [Sigaction SIGTSTP [Kill GroupByPid SIGINT []]; Do (Write 1 (line "Don't TSTP me I'll die :(")); Forever [Pause]].

Definition sigcont_ignore : list stmt :=
  [Sigaction SIGCONT [SetCont; Write 1 (line "Received SIGCONT."); Kill OwnGroup SIGSTOP []];
   Sigaction SIGINT [Write 0 (line "Exiting."); Return 0];
   Do (Write 1 (line "This program loops until it receives a SIGTSTP or other stop signal." ++ [newline]));
   Do (Write 1 (line "It has a signal handler for SIGCONT that re-sends a SIGTSTP," ++
                line "so that it can never actually be resumed once stopped." ++ [newline]));
   Do (Write 1 (line "Use it to test that processes are moved into the foreground correctly." ++ [newline]));
   Do (Write 1 (line "Looping."));
   Forever [SpinUntilCont; Write 1 (line "Received SIGCONT.")]; Do (Return 0)].

Definition sigcont_mask : list stmt :=
  [Block SIGCONT; Do (Printf (line "SIGCONT blocked")); Forever [Pause; Printf (line "Received signal")];
   Do (Return 0)].

(** [argv[1]] is not checked. *)
Definition sigcont_n (argv : list bytes) : list stmt :=
  match argv with
  | _ :: n :: _ =>
      [Fork true [RobustWait (atoi n); Kill Relative SIGCONT []] [Say_error (lit "fork"); Return 1];
       Do (Kill Self SIGTSTP []); Do (Kill Relative SIGINT []); Do (RobustWait (atoi n)); Do (Return 0)]
  | _ => [Do Crash]
  end.

(** ** Programs that count to ten *)

Definition counting : list stmt :=
  Do (Printf (line "Waiting")) ::
  (seqZ 1 10 ≫= λ i, [Do (CheckedWait 1); Do (Printf (print_dec i ++ [newline]))]) ++
  [Do (Printf (line "Done")); Do (Return 0)].

Definition exit_hand : list basic := [Write 2 (line "Exit"); Kill Self SIGKILL []].

Definition dieonwake : list stmt := Sigaction SIGCONT exit_hand :: counting.

Definition mixup : list stmt :=
  [Sigaction SIGINT [Write 2 (line "Sleep"); Kill Self SIGSTOP []];
   Sigaction SIGQUIT [Write 2 (line "Sleep"); Kill Self SIGSTOP []];
   Sigaction SIGTSTP exit_hand] ++ counting.

Definition ignore_all : list stmt :=
  [Sigaction SIGINT [Write 2 (line "SIGINT")]; Sigaction SIGTSTP [Write 2 (line "SIGTSTP")];
   Sigaction SIGQUIT [Write 2 (line "SIGQUIT")]] ++ counting.
