(* ===== verification/TestPlumbing.v ===== *)
(** * The test programs of the second shell that redirect, connect and inspect
    processes: [33sh_to_file.c], [33sh_append_file.c], [33sh_pipe.c] and
    [check_process_state.c]. *)

From Stdlib Require Import ZArith Lia Ascii String.
From stdpp Require Import base gmap strings numbers option list.
From S2P Require Import Prelude Stdio MdriverTrace Jobs JobsSpec ShellCommon Shell2.

Open Scope Z_scope.
Open Scope list_scope.

(** ** Programs on descriptors *)

Section Plumbing.
Context (os : system).
(** The descriptors that [pipe] stores. *)
Context (pipe_ends : history → Z * Z).

Definition redirect_usage (prog : bytes) : bytes :=
  txt "error: usage: " ++ prog ++ txt " <file> <prog> [arg]*" ++ [newline].

(** [execvp], which returns only when it fails. *)
Definition execvp (argv : list bytes) (failed : Z) : sh outcome :=
  r ← syscall os (CExecvp argv);
  if r =? -1 then emit (Perror (Some (txt "execv")));; mret (Exited failed) else mret Execed.

(** What both programs do; [flags] are those of [open]. *)
Definition redirect_stdout (flags : Z) (argv : list bytes) : sh outcome :=
  match argv with
  | _ :: file :: prog :: args =>
      syscall os (CClose 1);;
      fd ← syscall os (COpen (Some file) flags);
      if fd <? 0 then emit (Perror (Some (txt "open")));; mret (Exited 1)
      else assertb (fd =? 1);; execvp (prog :: args) 1
  | _ => emit (Stderr (redirect_usage (default [] (argv !! 0%nat))));; mret (Exited 1)
  end.

Definition to_file_main : list bytes → sh outcome :=
  redirect_stdout (Z.lor (Z.lor O_CREAT O_TRUNC) O_WRONLY).

Definition append_file_main : list bytes → sh outcome :=
  redirect_stdout (Z.lor (Z.lor O_CREAT O_APPEND) O_WRONLY).

Definition PIPE_SPLIT : bytes := txt "-TO-".

(** The arguments before and after the first [PIPE_SPLIT], if there is one. *)
Fixpoint split_pipe (args : list bytes) : list bytes * option (list bytes) :=
  match args with
  | [] => ([], None)
  | a :: args' =>
      if bool_decide (a = PIPE_SPLIT) then ([], Some args')
      else let '(before, after) := split_pipe args' in (a :: before, after)
  end.

Definition pipe_usage (prog : bytes) : bytes :=
  txt "error: usage " ++ prog ++ txt " <exec1> [arg]* " ++ PIPE_SPLIT ++ txt " <exec2> [arg]*" ++ [newline].

(** The child reads. *)
Definition pipe_reader (p0 p1 : Z) (argv : list bytes) : sh outcome :=
  r ← syscall os (CDup2 p0 0);
  if r <? 0 then emit (Perror (Some (txt "dup2")));; mret (Exited 4)
  else syscall os (CClose p0);; syscall os (CClose p1);; execvp argv 5.

(** The parent writes. *)
Definition pipe_writer (p0 p1 reader : Z) (argv : list bytes) : sh outcome :=
  assertb (negb (reader =? 0));;
  r ← syscall os (CDup2 p1 1);
  if r <? 0 then
    emit (Perror (Some (txt "dup2")));;
    syscall os (CKill (- reader) SIGKILL);;
    mret (Exited 6)
  else syscall os (CClose p0);; syscall os (CClose p1);; execvp argv 5.

(** [33sh_pipe.c]; the result of [fork] says which of the two processes this is. *)
Definition pipe_main (argv : list bytes) : sh outcome :=
  let usage := emit (Stderr (pipe_usage (default [] (argv !! 0%nat))));; mret (Exited 1) in
  match split_pipe (tail argv) with
  | ((_ :: _) as exec1, Some ((_ :: _) as exec2)) =>
      h ← get;
      let '(p0, p1) := pipe_ends h in
      r ← syscall os (CPipe p0 p1);
      if r <? 0 then emit (Perror (Some (txt "pipe")));; mret (Exited 2)
      else
        reader ← syscall os CFork;
        if reader =? -1 then emit (Perror (Some (txt "fork")));; mret (Exited 3)
        else if reader =? 0 then pipe_reader p0 p1 exec2
        else pipe_writer p0 p1 reader exec1
  | _ => usage
  end.
End Plumbing.

(** ** [check_process_state.c] *)

Definition BUFSIZE : Z := 16.

(** [sprintf(buf, ...)]: the text and its end must fit. *)
Definition sprintf_buf (text : bytes) : result bytes :=
  if Z.of_nat (length text) <? BUFSIZE then Ok text else Err BadAccess.

(** [fscanf(stat, "%d %s %c", &id, buf, &status)]: the three values, if there are so
    many. *)
Definition scan_stat (stat : bytes) : result (option (Z * ascii)) :=
  match fscanf_d stat None with
  | Err f => Err f
  | Ok (None, _) => Ok None
  | Ok (Some id, rest) =>
      match span_word (skip_spaces rest) with
      | ([], _) => Ok None
      | (w, rest) =>
          if BUFSIZE <=? Z.of_nat (length w) then Err BadAccess
          else match skip_spaces rest with c :: _ => Ok (Some (id, c)) | [] => Ok None end
      end
  end.

Definition state_name (c : ascii) : bytes :=
  if bool_decide (c = "R"%char) then txt "running"
  else if bool_decide (c = "D"%char) then txt "blocking"
  else if bool_decide (c = "S"%char) then txt "sleeping"
  else if bool_decide (c = "Z"%char) then txt "zombie"
  else if bool_decide (c = "T"%char) then txt "suspended"
  else txt "unknown state".

Definition state_line (id : Z) (text : bytes) : bytes := txt "(" ++ print_dec id ++ txt "): " ++ text ++ [newline].

(** One round of the loop, for a line from which [id] was read; [files] is what
    the file of a path holds.  After a failed [fscanf], [id] is the number that
    was read, if there was one. *)
Definition report_state (files : bytes → option bytes) (id : Z) : result bytes :=
  match sprintf_buf (txt "/proc/" ++ print_dec id ++ txt "/stat") with
  | Err f => Err f
  | Ok path =>
      match files path with
      | None => sprintf_buf (state_line id (txt "does not exist"))
      | Some stat =>
          match scan_stat stat with
          | Err f => Err f
          | Ok None =>
              let id := match fscanf_d stat None with Ok (Some id', _) => id' | _ => id end in
              sprintf_buf (state_line id (txt "error parsing state"))
          | Ok (Some (id, c)) => sprintf_buf (state_line id (state_name c))
          end
      end
  end.

(** [read_states]: what is written. *)
Fixpoint read_states (fuel : nat) (files : bytes → option bytes) (input : bytes) (out : list bytes) : result (list bytes) :=
  match fuel with
  | O => Err NoFuel
  | S fuel' =>
      match fgets_chars (Z.to_nat BUFSIZE - 1) input with
      | ([], _) => Ok out
      | (buf, rest) =>
          match fscanf_d buf None with
          | Err f => Err f
          | Ok (None, _) => read_states fuel' files rest out
          | Ok (Some id, _) =>
              match report_state files id with
              | Err f => Err f
              | Ok text => read_states fuel' files rest (out ++ [text])
              end
          end
      end
  end.

(** [main]: the files of the arguments, or the standard input when there are
    none. *)
Inductive check_out := States (texts : list bytes) | CouldNotOpen (name : bytes).

Fixpoint check_files (open : bytes → option bytes) (files : bytes → option bytes) (names : list bytes)
    (out : list check_out) : result (list check_out) :=
  match names with
  | [] => Ok out
  | name :: names' =>
      match open name with
      | Some text =>
          match read_states (S (length text)) files text [] with
          | Ok ts => check_files open files names' (out ++ [States ts])
          | Err f => Err f
          end
      | None => check_files open files names' (out ++ [CouldNotOpen name])
      end
  end.

Definition check_main (open files : bytes → option bytes) (stdin : bytes) (argv : list bytes) : result (list check_out) :=
  match tail argv with
  | [] =>
      match read_states (S (length stdin)) files stdin [] with
      | Ok ts => Ok [States ts]
      | Err f => Err f
      end
  | names => check_files open files names []
  end.
