(* ===== verification/TestPlumbingClaims.v ===== *)
(** * The test programs on descriptors and processes: properties. *)

From Stdlib Require Import ZArith Lia Ascii String.
From stdpp Require Import base gmap strings numbers option list.
From S2P Require Import Prelude Stdio MdriverTrace Jobs JobsSpec ShellCommon Shell2 TestPlumbing.

Open Scope Z_scope.
Open Scope list_scope.

(** ** Redirection *)

Lemma syscall_bind {B} os c (k : Z → sh B) h :
  (syscall os c ≫= k) h = k (sys_call os h c) (h ++ [Called c (sys_call os h c)]).
Proof. done. Qed.

Lemma execvp_ends os argv n h :
  ∃ o h', execvp os argv n h = Ok (o, h ++ h') ∧ Forall no_fd h' ∧
    (o = Execed ∧ (∃ r, h' = [Called (CExecvp argv) r]) ∨ o = Exited n ∧ reported h').
Proof.
  unfold execvp, syscall, mbind, ST_bind, emit, modify, mret, ST_ret. destruct (_ =? -1).
  - eexists _, [_; _]. split; [by rewrite <-app_assoc|]. split; [by repeat constructor|]. right. split; [done|].
    exists (Some (txt "execv")). set_solver.
  - eexists _, [_]. split; [done|]. split; [by repeat constructor|]. left. eauto.
Qed.

(** [33sh_to_file] and [33sh_append_file], with the standard input open: the
    process becomes the program with its standard output redirected to the file,
    and no other descriptor changed, or reports an error and exits with 1; too few
    arguments are an error.  With the standard input closed the file gets
    descriptor 0, and the assertion fails. *)
Theorem redirect_programs (os : system) (t0 : fds) (h : history) (flags : Z) (main : list bytes → sh outcome) :
  posix_open os t0 →
  (main = to_file_main os ∧ flags = Z.lor (Z.lor O_CREAT O_TRUNC) O_WRONLY ∨
   main = append_file_main os ∧ flags = Z.lor (Z.lor O_CREAT O_APPEND) O_WRONLY) →
  (∀ a file prog args, is_Some (fd_table t0 h !! 0) →
     ∃ o h', main (a :: file :: prog :: args) h = Ok (o, h ++ h') ∧
       (o = Execed ∧ (∃ r, last h' = Some (Called (CExecvp (prog :: args)) r)) ∧
          fd_table t0 (h ++ h') = <[1 := File (Some file) flags]> (fd_table t0 h) ∨
        o = Exited 1 ∧ reported h')) ∧
  (∀ a file prog args, fd_table t0 h !! 0 = None →
     main (a :: file :: prog :: args) h = Err AssertFail ∨
     ∃ h', main (a :: file :: prog :: args) h = Ok (Exited 1, h ++ h') ∧ reported h') ∧
  (∀ argv, (length argv < 3)%nat → main argv h = Ok (Exited 1, h ++ [Stderr (redirect_usage (default [] (argv !! 0%nat)))])).
Proof.
  intros Hposix Hmain. assert (main = redirect_stdout os flags) as -> by (by destruct Hmain as [[-> ->]|[-> ->]]).
  clear Hmain. split_and!.
  - intros a file prog args H0. unfold redirect_stdout, syscall, mbind, ST_bind, emit, modify, mret, ST_ret.
    set (c := sys_call os h (CClose 1)). set (h1 := h ++ [Called (CClose 1) c]).
    set (r := sys_call os h1 (COpen (Some file) flags)).
    assert (fd_table t0 h1 = delete 1 (fd_table t0 h)) as Ht by (unfold h1; by rewrite fd_table_snoc).
    destruct (Hposix h1 (Some file) flags) as [Hr|Hr]; fold r in Hr.
    + rewrite Hr. cbn [Z.ltb Z.compare]. eexists _, [_; _; _]. unfold h1. split; [by rewrite <-!app_assoc|]. right. split; [done|].
      exists (Some (txt "open")). set_solver.
    + assert (r = 1) as Hr1.
      { apply (lowest_unique _ _ 1 Hr); [lia|by rewrite Ht, lookup_delete_eq|]. intros k Hk.
        assert (k = 0) as -> by lia. rewrite Ht, lookup_delete_ne by done. done. }
      rewrite Hr1. cbn [Z.ltb Z.compare]. set (h2 := h1 ++ [Called (COpen (Some file) flags) 1]).
      destruct (execvp_ends os (prog :: args) 1 h2) as (o & h' & Hrun & Hfd & Ho).
      exists o, ([Called (CClose 1) c; Called (COpen (Some file) flags) 1] ++ h').
      split; [rewrite <-Hr1 in *; subst h1 h2; cbn; rewrite Hr1 in *; cbn; rewrite Hrun; by rewrite <-!app_assoc|].
      assert (h ++ [Called (CClose 1) c; Called (COpen (Some file) flags) 1] ++ h' = h2 ++ h') as Eq
        by (unfold h2, h1; by rewrite <-!app_assoc).
      destruct Ho as [[-> [r' ->]]|[-> [s Hs]]]; [left|right; split; [done|exists s; set_solver]].
      split_and!; [done|by exists r'|]. rewrite Eq, fd_table_no_fd by done. unfold h2. rewrite fd_table_snoc. cbn.
      by rewrite Ht, insert_delete_eq.
  - intros a file prog args H0. unfold redirect_stdout, syscall, mbind, ST_bind, emit, modify, mret, ST_ret.
    set (h1 := h ++ [Called (CClose 1) _]).
    set (r := sys_call os h1 (COpen (Some file) flags)).
    destruct (Hposix h1 (Some file) flags) as [Hr|Hr]; fold r in Hr.
    + right. rewrite Hr. cbn [Z.ltb Z.compare]. eexists [_; _; _]. unfold h1. split; [by rewrite <-!app_assoc|].
      exists (Some (txt "open")). set_solver.
    + left. assert (r = 0) as ->; [|done]. apply (lowest_unique _ _ 0 Hr); [lia| |lia].
      unfold h1. rewrite fd_table_snoc. cbn. by rewrite lookup_delete_ne.
  - intros [|a [|b [|c argv]]] Hlen; try done. simpl in Hlen. lia.
Qed.

(** ** The pipe *)

(** [t'] is [t] with [std] connected to an end of a pipe that is otherwise
    closed. *)
Definition wired (t : fds) (std : Z) (f : target) (p0 p1 : Z) (t' : fds) : Prop :=
  t' !! std = Some f ∧ t' !! p0 = None ∧ t' !! p1 = None ∧ ∀ k, k ≠ std → k ≠ p0 → k ≠ p1 → t' !! k = t !! k.

Lemma wired_pipe (t : fds) p0 p1 std f :
  p0 ≠ p1 → p0 ≠ std → p1 ≠ std →
  wired t std f p0 p1 (delete p1 (delete p0 (<[std := f]> (<[p1 := PipeWriter]> (<[p0 := PipeReader]> t))))).
Proof.
  intros H01 H0 H1. split_and!.
  - by rewrite !lookup_delete_ne, lookup_insert_eq by done.
  - by rewrite lookup_delete_ne, lookup_delete_eq by done.
  - by rewrite lookup_delete_eq.
  - intros k Hk Hk0 Hk1. by rewrite !lookup_delete_ne, !lookup_insert_ne by done.
Qed.

(** How a process of the pipe ends: as a program, or with an error. *)
Definition piped (t0 t : fds) (h : history) (std : Z) (f : target) (p0 p1 : Z) (argv : list bytes)
    (r : result (outcome * history)) : Prop :=
  ∃ o h', r = Ok (o, h ++ h') ∧
    ((∃ n, o = Exited n ∧ 2 ≤ n ≤ 6 ∧ reported h') ∨
     ∃ x, o = Execed ∧ last h' = Some (Called (CExecvp argv) x) ∧ wired t std f p0 p1 (fd_table t0 (h ++ h'))).

(** What happened before. *)
Lemma piped_after t0 t h e std f p0 p1 argv r :
  piped t0 t (h ++ e) std f p0 p1 argv r → piped t0 t h std f p0 p1 argv r.
Proof.
  intros (o & h' & -> & Ho). exists o, (e ++ h'). rewrite app_assoc. split; [done|].
  destruct Ho as [(n & -> & Hn & s & Hs)|(x & -> & Hx & Hw)]; [left|right].
  - exists n. split; [done|]. split; [done|]. exists s. set_solver.
  - exists x. by rewrite last_app, Hx.
Qed.

(** After the call of [dup2]. *)
Lemma plumb_ends os t0 t p0 p1 old std f argv h r :
  0 ≤ r → p0 ≠ p1 → p0 ≠ std → p1 ≠ std →
  fd_table t0 h = <[p1 := PipeWriter]> (<[p0 := PipeReader]> t) → fd_table t0 h !! old = Some f →
  piped t0 t h std f p0 p1 argv
    ((syscall os (CClose p0);; syscall os (CClose p1);; execvp os argv 5) (h ++ [Called (CDup2 old std) r])).
Proof.
  intros Hr H01 H0 H1 Ht Hold. rewrite !syscall_bind.
  set (h1 := h ++ [Called (CDup2 old std) r]). set (c0 := sys_call os h1 (CClose p0)).
  set (h2 := h1 ++ [Called (CClose p0) c0]). set (c1 := sys_call os h2 (CClose p1)).
  set (h3 := h2 ++ [Called (CClose p1) c1]).
  assert (fd_table t0 h3 = delete p1 (delete p0 (<[std := f]> (fd_table t0 h)))) as Ht3.
  { unfold h3, h2, h1. rewrite !fd_table_snoc. cbn. by rewrite (proj2 (Z.leb_le _ _) Hr), Hold. }
  apply (piped_after _ _ _ [Called (CDup2 old std) r]), (piped_after _ _ _ [Called (CClose p0) c0]),
    (piped_after _ _ _ [Called (CClose p1) c1]). fold h1 h2 h3.
  destruct (execvp_ends os argv 5 h3) as (o & h' & Hrun & Hfd & Ho). exists o, h'. split; [done|].
  destruct Ho as [[-> [x ->]]|[-> Hs]]; [right|left; exists 5; split; [done|]; split; [lia|done]].
  exists x. split_and!; [done|done|]. rewrite fd_table_no_fd, Ht3, Ht by done. by apply wired_pipe.
Qed.

Lemma reader_ends os t0 t p0 p1 argv h :
  p0 ≠ p1 → p0 ≠ 0 → p1 ≠ 0 → fd_table t0 h = <[p1 := PipeWriter]> (<[p0 := PipeReader]> t) →
  piped t0 t h 0 PipeReader p0 p1 argv (pipe_reader os p0 p1 argv h).
Proof.
  intros H01 H0 H1 Ht. unfold pipe_reader. rewrite syscall_bind.
  set (d := sys_call os h (CDup2 p0 0)). destruct (Z.ltb_spec d 0) as [Hd|Hd].
  - apply (piped_after _ _ _ [Called (CDup2 p0 0) d]). exists (Exited 4), [Perror (Some (txt "dup2"))]. split; [done|]. left. exists 4. split; [done|]. split; [lia|].
    exists (Some (txt "dup2")). set_solver.
  - apply plumb_ends; try done. by rewrite Ht, lookup_insert_ne, lookup_insert_eq by done.
Qed.

Lemma writer_ends os t0 t p0 p1 reader argv h :
  reader ≠ 0 → p0 ≠ p1 → p0 ≠ 1 → p1 ≠ 1 → fd_table t0 h = <[p1 := PipeWriter]> (<[p0 := PipeReader]> t) →
  piped t0 t h 1 PipeWriter p0 p1 argv (pipe_writer os p0 p1 reader argv h).
Proof.
  intros Hr H01 H0 H1 Ht. unfold pipe_writer. rewrite (proj2 (Z.eqb_neq _ _) Hr). cbn [negb assertb]. rewrite ST_ret_bind.
  rewrite syscall_bind.
  set (d := sys_call os h (CDup2 p1 1)). destruct (Z.ltb_spec d 0) as [Hd|Hd].
  - apply (piped_after _ _ _ [Called (CDup2 p1 1) d]). eexists _, [_; _]. split; [unfold emit, modify, syscall, mbind, ST_bind, mret, ST_ret; by rewrite <-app_assoc|].
    left. exists 6. split; [done|]. split; [lia|]. exists (Some (txt "dup2")). set_solver.
  - apply plumb_ends; try done. by rewrite Ht, lookup_insert_eq.
Qed.

(** [33sh_pipe exec1 -TO- exec2], when [pipe] gives two new descriptors above the
    standard ones.  The child becomes [exec2] with the reading end as standard
    input and the parent becomes [exec1] with the writing end as standard output;
    both ends are closed and no other descriptor is changed; or an error is
    reported.  Without a split, or with nothing on one side of it, nothing is
    called. *)
Theorem pipe_connects (os : system) (pipe_ends : history → Z * Z) (t0 : fds) (h : history) (a : bytes) (args : list bytes) :
  let p := pipe_ends h in
  let r := sys_call os h (CPipe p.1 p.2) in
  let pid := sys_call os (h ++ [Called (CPipe p.1 p.2) r]) CFork in
  2 < p.1 → 2 < p.2 → p.1 ≠ p.2 →
  match split_pipe args with
  | ((_ :: _) as exec1, Some ((_ :: _) as exec2)) =>
      if bool_decide (pid = 0)
      then piped t0 (fd_table t0 h) h 0 PipeReader p.1 p.2 exec2 (pipe_main os pipe_ends (a :: args) h)
      else piped t0 (fd_table t0 h) h 1 PipeWriter p.1 p.2 exec1 (pipe_main os pipe_ends (a :: args) h)
  | _ => pipe_main os pipe_ends (a :: args) h = Ok (Exited 1, h ++ [Stderr (pipe_usage a)])
  end.
Proof.
  cbv zeta. unfold pipe_main. destruct (pipe_ends h) as [p0 p1] eqn:Hp. cbn [fst snd tail].
  set (r := sys_call os h (CPipe p0 p1)). set (pid := sys_call os (h ++ [Called (CPipe p0 p1) r]) CFork). intros Hp0 Hp1 Hne.
  destruct (split_pipe args) as [[|e1 exec1] [[|e2 exec2]|]]; try done.
  rewrite ST_get, Hp, syscall_bind. fold r.
  set (h1 := h ++ [Called (CPipe p0 p1) r]).
  assert (∀ std f argv n s, 2 ≤ n ≤ 6 →
    piped t0 (fd_table t0 h) h1 std f p0 p1 argv (Ok (Exited n, h1 ++ [Perror s]))) as Herr.
  { intros std f argv n s Hn. exists (Exited n), [Perror s]. split; [done|]. left. exists n. split; [done|]. split; [done|]. exists s. set_solver. }
  destruct (Z.ltb_spec r 0) as [Hneg|Hpos].
  { case_bool_decide; apply (piped_after _ _ _ [Called (CPipe p0 p1) r]); apply Herr; lia. }
  rewrite syscall_bind. change (sys_call os h1 CFork) with pid. set (h2 := h1 ++ [Called CFork pid]).
  assert (fd_table t0 h2 = <[p1 := PipeWriter]> (<[p0 := PipeReader]> (fd_table t0 h))) as Ht.
  { unfold h2, h1. rewrite !fd_table_snoc. cbn. by rewrite (proj2 (Z.leb_le _ _) Hpos). }
  case_bool_decide as Hpid; apply (piped_after _ _ _ [Called (CPipe p0 p1) r]), (piped_after _ _ _ [Called CFork pid]); fold h1 h2.
  - rewrite (proj2 (Z.eqb_neq pid (-1))), (proj2 (Z.eqb_eq _ _) Hpid) by lia. apply reader_ends; lia || done.
  - destruct (Z.eqb_spec pid (-1)) as [Hf|Hf].
    + exists (Exited 3), [Perror (Some (txt "fork"))]. split; [done|]. left. exists 3. split; [done|]. split; [lia|].
      exists (Some (txt "fork")). set_solver.
    + rewrite (proj2 (Z.eqb_neq pid 0)) by done. apply writer_ends; lia || done.
Qed.

(** ** [check_process_state] *)

Lemma dec_digits_length fuel : ∀ u acc k, 10 ^ Z.of_nat k ≤ u → (k < fuel)%nat →
  (length acc + k + 1 ≤ length (dec_digits fuel u acc))%nat.
Proof.
  induction fuel as [|fuel IH]; intros u acc k Hu Hk; [lia|]. cbn [dec_digits].
  assert (∀ f v a, (length a ≤ length (dec_digits f v a))%nat) as Hmono.
  { intros f. induction f as [|f IHf]; intros v a; cbn [dec_digits]; [done|]. destruct (_ =? 0); cbn; [lia|].
    etrans; [|apply IHf]. cbn. lia. }
  destruct (Z.eqb_spec (u / 10) 0) as [H0|H0].
  - destruct k as [|k]; [cbn; lia|]. rewrite Nat2Z.inj_succ, Z.pow_succ_r in Hu by lia.
    pose proof (Z.pow_pos_nonneg 10 (Z.of_nat k) ltac:(lia) ltac:(lia)). Z.to_euclidean_division_equations; lia.
  - destruct k as [|k]; [etrans; [|apply Hmono]; cbn; lia|]. etrans; [|apply (IH _ _ k)]; [cbn; lia| |lia].
    rewrite Nat2Z.inj_succ, Z.pow_succ_r in Hu by lia. Z.to_euclidean_division_equations; lia.
Qed.

(** A process of five digits. *)
Lemma print_dec_long id : 10 ^ 4 ≤ id → (5 ≤ length (print_dec id))%nat.
Proof.
  intros H. unfold print_dec. rewrite (proj2 (Z.ltb_ge _ _)) by lia.
  apply (dec_digits_length 10 id [] 4); [done|lia].
Qed.

Lemma print_dec_nonempty id : (1 ≤ length (print_dec id))%nat.
Proof.
  unfold print_dec. destruct (Z.ltb_spec id 0); [cbn [length]; lia|]. destruct (decide (id = 0)) as [->|]; [vm_compute; lia|].
  apply (dec_digits_length 10 id [] 0); [|lia]. change (10 ^ Z.of_nat 0) with 1. lia.
Qed.

Lemma sprintf_long text : (16 ≤ length text)%nat → sprintf_buf text = Err BadAccess.
Proof. intros H. unfold sprintf_buf, BUFSIZE. by rewrite (proj2 (Z.ltb_ge _ _)) by lia. Qed.

Lemma length_state_line id text : length (state_line id text) = (length (print_dec id) + length text + 5)%nat.
Proof. unfold state_line. rewrite !length_app. cbn. lia. Qed.

Definition stat_path (id : Z) : bytes := txt "/proc/" ++ print_dec id ++ txt "/stat".

(** The buffer of 16 bytes is too small for what the program writes into it: the
    path of a process with five digits, the report that a process does not exist
    or that its file cannot be parsed, and the state of most other ones.  What is
    reported is a state whose name has at most ten letters and digits together
    with the process. *)
Theorem check_state_overflows (files : bytes → option bytes) (id : Z) :
  (10 ^ 4 ≤ id → report_state files id = Err BadAccess) ∧
  (files (stat_path id) = None → report_state files id = Err BadAccess) ∧
  (∀ text, report_state files id = Ok text →
     ∃ stat id' c, files (stat_path id) = Some stat ∧ scan_stat stat = Ok (Some (id', c)) ∧
       text = state_line id' (state_name c) ∧ (length (print_dec id') + length (state_name c) ≤ 10)%nat).
Proof.
  assert (∀ i t, (10 < length (print_dec i) + length t)%nat → sprintf_buf (state_line i t) = Err BadAccess) as Hline.
  { intros i t Ht. apply sprintf_long. rewrite length_state_line. lia. }
  assert (∀ p, sprintf_buf (stat_path id) = Ok p → p = stat_path id) as Hpath.
  { intros p. unfold sprintf_buf. case_match; [by intros [= <-]|done]. }
  unfold report_state. fold (stat_path id). split_and!.
  - intros Hid%print_dec_long. rewrite sprintf_long; [done|]. unfold stat_path. rewrite !length_app. cbn. lia.
  - intros Hnone. destruct (sprintf_buf (stat_path id)) as [p|f] eqn:Hp.
    + rewrite (Hpath p eq_refl), Hnone. apply Hline. pose proof (print_dec_nonempty id). cbn. lia.
    + revert Hp. unfold sprintf_buf. case_match; [done|]. by intros [= <-].
  - intros text. destruct (sprintf_buf (stat_path id)) as [p|f] eqn:Hp; [|done]. rewrite (Hpath p eq_refl).
    destruct (files (stat_path id)) as [stat|].
    + destruct (scan_stat stat) as [[[id' c]|]|f] eqn:Hs; [| |done].
      * intros Htext. exists stat, id', c. split_and!; [done|done| |].
        -- revert Htext. unfold sprintf_buf. case_match; [by intros [= <-]|done].
        -- destruct (decide (10 < length (print_dec id') + length (state_name c))%nat); [by rewrite Hline in Htext|lia].
      * cbv zeta. rewrite Hline; [done|]. set (i := match fscanf_d stat None with Ok (Some id', _) => id' | _ => id end).
        pose proof (print_dec_nonempty i). cbn. lia.
    + rewrite Hline; [done|]. pose proof (print_dec_nonempty id). cbn. lia.
Qed.

(** The loop over the lines ends. *)
Lemma fscanf_d_fuel input old : fscanf_d input old ≠ Err NoFuel.
Proof. unfold fscanf_d. by repeat case_match. Qed.

Lemma sprintf_buf_fuel text : sprintf_buf text ≠ Err NoFuel.
Proof. unfold sprintf_buf. by case_match. Qed.

Lemma report_state_fuel files id : report_state files id ≠ Err NoFuel.
Proof.
  unfold report_state, scan_stat. destruct (sprintf_buf _) eqn:H1; [|intros [= ->]; by eapply sprintf_buf_fuel].
  destruct (files _) as [stat|]; [|apply sprintf_buf_fuel].
  destruct (fscanf_d stat None) as [[[id'|] rest]|f] eqn:H2; [|apply sprintf_buf_fuel|intros [= ->]; by eapply fscanf_d_fuel].
  destruct (span_word _) as [[|c w] rest']; [apply sprintf_buf_fuel|]. destruct (BUFSIZE <=? _); [done|].
  destruct (skip_spaces rest'); apply sprintf_buf_fuel.
Qed.

Theorem read_states_ends (files : bytes → option bytes) (input : bytes) (out : list bytes) :
  read_states (S (length input)) files input out ≠ Err NoFuel.
Proof.
  enough (∀ n input out, (length input < n)%nat → read_states n files input out ≠ Err NoFuel) as H by (apply H; lia).
  clear input out. intros n. induction n as [|n IH]; intros input out Hn; [lia|]. cbn [read_states].
  pose proof (fgets_chars_split (Z.to_nat BUFSIZE - 1) input) as Hsplit.
  destruct (fgets_chars (Z.to_nat BUFSIZE - 1) input) as [[|c buf] rest]; [done|]. cbn in Hsplit.
  assert (length rest < n)%nat as Hrest by (rewrite <-Hsplit in Hn; cbn in Hn; rewrite length_app in Hn; lia).
  destruct (fscanf_d (c :: buf) None) as [[[id|] r]|f] eqn:Hs; [|by apply IH|intros [= ->]; by eapply fscanf_d_fuel].
  destruct (report_state files id) eqn:Hr; [by apply IH|]. intros [= ->]. by eapply report_state_fuel.
Qed.
