(* ===== verification/TestClaims.v ===== *)
(** * The test programs of the second shell: properties. *)

From Stdlib Require Import ZArith Lia Ascii String.
From stdpp Require Import base gmap strings numbers option list.
From S2P Require Import Prelude Stdio Jobs JobsSpec ShellCommon Shell2 TestSignals TestPrograms.

Open Scope Z_scope.
Open Scope list_scope.

(** ** Schedules *)

Definition signals : list Z := [SIGINT; SIGQUIT; SIGTSTP; SIGSTOP; SIGCONT].

(** A signal is acted on, in or before a call that waits. *)
Definition acts (in_child : bool) (sig : Z) : list (bool * label) :=
  [(in_child, Act sig true); (in_child, Act sig false)].

(** What a process does by itself, and the same with the signals [sigs] arriving
    at any time. *)
Definition own (in_child : bool) : list (bool * label) :=
  [(in_child, Run); (in_child, Tick); (in_child, Answer true); (in_child, Answer false)] ++
  (signals ≫= acts in_child).

Definition under (sigs : list Z) : list (bool * label) := own false ++ ((λ s, (false, Arrive s)) <$> sigs).

Definition in_modes (ms : list mode) (f : family) : bool := bool_decide (status (parent f) ∈ ms).

Section Programs.
Context (tty : bool).

(** Under every schedule in which only the signals [sigs] arrive, once the
    handlers are in place, the program is in one of the modes [ms]. *)
Definition stays (sigs : list Z) (ms : list mode) (code : list stmt) : Prop :=
  ∀ f, reaches true tty (under sigs) (ready true tty code) f → status (parent f) ∈ ms.

(** And when it acts on [sig], it comes to one of the modes [ms] by itself. *)
Definition reacts (sigs : list Z) (sig : Z) (ms : list mode) (code : list stmt) : Prop :=
  ∀ f g l, reaches true tty (under sigs) (ready true tty code) f → l ∈ acts false sig →
    family_step true tty l f = Some g → must true tty (own false) (in_modes ms) g.

(** Both, for several signals. *)
Definition obeys (sigs : list Z) (ms : list mode) (rs : list (Z * list mode)) (code : list stmt) : Prop :=
  stays sigs ms code ∧ Forall (λ r, reacts sigs r.1 r.2 code) rs.

(** One search decides it. *)
Definition check (sigs : list Z) (ms : list mode) (rs : list (Z * list mode)) (f : family) : bool :=
  in_modes ms f &&
  forallb (λ r, forallb (inevitable true true 12 (own false) (in_modes r.2)) (successors true true (acts false r.1) f)) rs.

Lemma obeys_by fuel sigs ms rs code :
  blank_family (ready true tty code) = blank_family (ready true true code) →
  always true true fuel (under sigs) (check sigs ms rs) (ready true true code) = true → obeys sigs ms rs code.
Proof.
  intros Hready H. assert (∀ good, (∀ g, check sigs ms rs g = true → good g = true) →
    always true true fuel (under sigs) good (ready true true code) = true) as Himpl.
  { intros good Hgood. unfold always in *. apply andb_true_iff in H as [-> H]. cbn [andb].
    rewrite forallb_forall in H |- *. auto. }
  split.
  - intros f Hf. apply (bool_decide_eq_true_1 _).
    apply (always_sound true tty fuel (under sigs) (in_modes ms) (ready true tty code) f); [|done].
    rewrite (always_tty true tty _ _ _ (in_modes ms) _ _ Hready) by done. apply Himpl. by intros g [? _]%andb_true_iff.
  - apply Forall_forall. intros r Hr f g l Hf Hl Hg.
    apply (leads_sound true tty fuel (under sigs) (acts false r.1) (own false) 12 (in_modes r.2) (ready true tty code) l f g); try done.
    rewrite (always_tty true tty _ _ _ _ _ _ Hready (leads_tty true tty _ _ _ _)). apply Himpl.
    intros x [_ Hx]%andb_true_iff. rewrite forallb_forall in Hx. by apply Hx, list_elem_of_In.
Qed.
End Programs.

(** ** Waiting *)

(** [robust_wait(n)] asks for [n] quarters of a second, not for [n] seconds; a
    negative [n] makes [nanosleep] fail. *)
Theorem robust_wait_time (n : Z) :
  waitable n = bool_decide (0 ≤ n) ∧ wait_sec n * 10 ^ 9 + wait_nsec n = n * 250000000 ∧
  (0 ≤ n → 0 ≤ wait_nsec n < 10 ^ 9).
Proof.
  unfold waitable, wait_sec, wait_nsec. pose proof (Z.quot_rem' n 4) as Hn.
  destruct (Z.lt_trichotomy n 0) as [Hneg|[->|Hpos]]; [|by split_and!|].
  - pose proof (Z.rem_bound_pos_neg n 4 ltac:(lia) ltac:(lia)) as Hr. pose proof (Z.quot_opp_l n 4 ltac:(lia)) as Ho.
    assert (0 ≤ Z.quot (- n) 4) by (apply Z.quot_pos; lia).
    rewrite bool_decide_eq_false_2 by lia. split_and!; lia.
  - pose proof (Z.rem_bound_pos n 4 ltac:(lia) ltac:(lia)). assert (0 ≤ Z.quot n 4) by (apply Z.quot_pos; lia).
    rewrite bool_decide_eq_true_2 by lia. split_and!; lia.
Qed.

Section Alone.
Context (tty : bool) (goal : family → bool).

Abbreviation musts := (must true tty (own false) goal).

Definition at_rest (p : proc) : Prop := status p = Running ∧ pending p = ∅.

Lemma own_inv l : l ∈ own false →
  l = (false, Run) ∨ l = (false, Tick) ∨ (∃ ok, l = (false, Answer ok)) ∨ ∃ sig b, l = (false, Act sig b).
Proof.
  unfold own. intros [Hl|(sig & Hl & _)%list_elem_of_bind]%elem_of_app; [set_solver|].
  unfold acts in Hl. apply elem_of_cons in Hl as [->|Hl]; [eauto 8|]. apply elem_of_cons in Hl as [->|Hl]; [eauto 8|].
  by apply elem_of_nil in Hl.
Qed.

Lemma rest_quiet p : at_rest p → quiet p = true ∧ ∀ sig b, deliver sig b p = None.
Proof.
  intros [Hs Hp]. unfold quiet, deliver, deliverable. rewrite Hs, Hp. split; [|intros sig b].
  - rewrite !bool_decide_eq_true_2; [done|set_solver|done].
  - rewrite bool_decide_eq_false_2; [done|set_solver].
Qed.

(** The next statement is run; nothing else can happen. *)
Lemma must_run p p' :
  at_rest p → run_one true tty true p = Some (p', NoEffect) → tick p = None → (∀ ok, answer ok p = None) →
  musts (Family p' None) → musts (Family p None).
Proof.
  intros Hrest Hrun Htick Hans Hnext. destruct (rest_quiet p Hrest) as [Hq Hd].
  apply must_step; [exists (false, Run); eexists; split; [by left|]; cbn; by rewrite Hq, Hrun|].
  intros l g [->|[->|[[ok ->]|(sig & b & ->)]]]%own_inv; cbn; rewrite ?Hq, ?Hrun, ?Htick, ?Hans, ?Hd; try done.
  by intros [= <-].
Qed.

(** A wait comes to its end. *)
Lemma must_wait p m n code k :
  at_rest p → stack p = (m, Do (RobustWait n) :: code) :: k → 0 ≤ n →
  musts (Family (set_stack ((m, code) :: k) p) None) → musts (Family p None).
Proof.
  intros Hrest Hst Hn Hnext. destruct (rest_quiet p Hrest) as [Hq Hd].
  assert (waitable n = true) as Hw by (rewrite (proj1 (robust_wait_time n)); by apply bool_decide_eq_true_2).
  assert (run_one true tty true p = None) as Hrun by (unfold run_one; rewrite Hst; cbn; by rewrite Hw).
  assert (tick p = Some (set_stack ((m, code) :: k) p)) as Htick by (unfold tick; by rewrite Hst, Hw).
  assert (∀ ok, answer ok p = None) as Hans by (intros ok; unfold answer; by rewrite Hst).
  apply must_step; [exists (false, Tick); eexists; split; [by right; left|]; cbn; by rewrite Hq, Htick|].
  intros l g [->|[->|[[ok ->]|(sig & b & ->)]]]%own_inv; cbn; rewrite ?Hq, ?Hrun, ?Htick, ?Hans, ?Hd; try done.
  by intros [= <-].
Qed.

(** [exec] succeeds or not. *)
Lemma must_exec p m argv code k :
  at_rest p → stack p = (m, Do (Exec argv) :: code) :: k →
  musts (Family (finish (Became argv) p) None) → musts (Family (set_stack ((m, code) :: k) p) None) →
  musts (Family p None).
Proof.
  intros Hrest Hst Hyes Hno. destruct (rest_quiet p Hrest) as [Hq Hd].
  assert (run_one true tty true p = None) as Hrun by (unfold run_one; by rewrite Hst).
  assert (tick p = None) as Htick by (unfold tick; by rewrite Hst).
  assert (∀ ok, answer ok p = Some (if ok then finish (Became argv) p else set_stack ((m, code) :: k) p, NoEffect)) as Hans
    by (intros ok; unfold answer; by rewrite Hst).
  apply must_step; [exists (false, Answer true); eexists; split; [set_solver|]; cbn; by rewrite Hq, Hans|].
  intros l g [->|[->|[[ok ->]|(sig & b & ->)]]]%own_inv; cbn; rewrite ?Hq, ?Hrun, ?Htick, ?Hans, ?Hd; try done.
  intros [= <-]. by destruct ok.
Qed.

(** A single pending signal without a handler is acted on. *)
Lemma must_act p sig p' :
  status p = Running → pending p = {[sig]} → mask p = ∅ → sig ∈ signals →
  (∀ b, deliver sig b p = Some p') → musts (Family p' None) → musts (Family p None).
Proof.
  intros Hs Hp Hm Hsig Hd Hnext.
  assert (quiet p = false) as Hq.
  { unfold quiet, deliverable. rewrite Hp, Hm, (bool_decide_eq_false_2 (_ = ∅)), andb_false_r; [done|set_solver]. }
  apply must_step.
  - exists (false, Act sig true). eexists. split; [|cbn; by rewrite Hd]. unfold own. apply elem_of_app. right.
    apply list_elem_of_bind. exists sig. split; [by left|done].
  - intros l g [->|[->|[[ok ->]|(s & b & ->)]]]%own_inv; cbn; rewrite ?Hq; try done.
    destruct (decide (s = sig)) as [->|Hne]; [rewrite Hd; by intros [= <-]|].
    unfold deliver. rewrite Hs, bool_decide_eq_false_2; [done|]. unfold deliverable. rewrite Hp. set_solver.
Qed.
End Alone.

(** ** A logic for programs that no signal disturbs *)

Section Logic.
Context (tty : bool) (ms : list mode).

(** The code [code], run by a process without handlers, comes to one of the modes
    [ms], and can always move until it does. *)
Definition arrives (code : list stmt) : Prop :=
  ∀ p, at_rest p → mask p = ∅ → handlers p = ∅ → stack p = [(∅, code)] →
    must true tty (own false) (in_modes ms) (Family p None).

Lemma must_mode p c : status p ∈ ms → must true tty (own false) (in_modes ms) (Family p c).
Proof. intros H. by apply must_now, bool_decide_eq_true_2. Qed.

Lemma arrives_wait n code : 0 ≤ n → arrives code → arrives (Do (RobustWait n) :: code).
Proof. intros Hn H p Hrest Hm Hh Hst. eapply must_wait; [done..|]. by apply H. Qed.

(** Statements that only write. *)
Lemma arrives_output b code f :
  (∀ p, run_basic true tty true b p = Some (f p, NoEffect)) →
  (∀ p, status (f p) = status p ∧ pending (f p) = pending p ∧ mask (f p) = mask p ∧
        handlers (f p) = handlers p ∧ stack (f p) = stack p) →
  (∀ p ok, stack p = [(∅, Do b :: code)] → tick p = None ∧ answer ok p = None) →
  arrives code → arrives (Do b :: code).
Proof.
  intros Hrun Hf Hother H p Hrest Hm Hh Hst.
  apply (must_run _ _ _ (f (set_stack [(∅, code)] p))); [done| |apply (Hother p true Hst)|intros ok; apply (Hother p ok Hst)|].
  - unfold run_one. by rewrite Hst, Hrun.
  - destruct (Hf (set_stack [(∅, code)] p)) as (Es & Ep & Em & Eh & Ek). apply H; [split|..]; rewrite ?Es, ?Ep, ?Em, ?Eh, ?Ek; done || apply Hrest.
Qed.

Lemma arrives_write fd text code : arrives code → arrives (Do (Write fd text) :: code).
Proof.
  apply (arrives_output _ _ (emit_to fd text)); [done|intros p; unfold emit_to; by case_bool_decide|].
  intros p ok Hst. unfold tick, answer. by rewrite Hst.
Qed.

Lemma arrives_error text code : arrives code → arrives (Do (Say_error text) :: code).
Proof.
  apply (arrives_output _ _ (λ p, set_output (buffer p) (written p ++ [Complained text]) p)); [done|done|].
  intros p ok Hst. unfold tick, answer. by rewrite Hst.
Qed.

Lemma arrives_close fd code : arrives code → arrives (Do (Close fd) :: code).
Proof.
  apply (arrives_output _ _ (λ p, set_closed ({[fd]} ∪ closed p) p)); [done|done|].
  intros p ok Hst. unfold tick, answer. by rewrite Hst.
Qed.

Lemma arrives_return n code : Ended (WExited (n mod 256)) ∈ ms → arrives (Do (Return n) :: code).
Proof.
  intros Hms p Hrest Hm Hh Hst. eapply must_run; [done|unfold run_one; by rewrite Hst|unfold tick; by rewrite Hst|
    intros ok; unfold answer; by rewrite Hst|]. by apply must_mode.
Qed.

(** A signal of its own: without a handler it stops or ends the process. *)
Lemma arrives_kill t sig text code :
  t ≠ Relative → sig = SIGINT ∨ sig = SIGTSTP ∨ sig = SIGSTOP →
  (if bool_decide (sig = SIGINT) then Ended (WSignaled SIGINT) else Stopped sig) ∈ ms →
  arrives (Do (Kill t sig text) :: code).
Proof.
  intros Ht Hsig Hms p [Hs Hp] Hm Hh Hst. set (q := set_pending {[sig]} (set_stack [(∅, code)] p)).
  eapply (must_run _ _ _ q); [done| |unfold tick; by rewrite Hst|intros ok; unfold answer; by rewrite Hst|].
  { unfold run_one. rewrite Hst. cbn [run_basic]. assert (send sig (set_stack [(∅, code)] p) = Some q) as Hsend.
    { unfold send, q. cbn [status pending set_stack]. rewrite Hs, Hp. by destruct Hsig as [-> |[-> | ->]]. }
    rewrite Hsend. by destruct t. }
  assert (sig ∈ signals) as Hin by (destruct Hsig as [-> |[-> | ->]]; by apply (bool_decide_unpack _)).
  assert (∀ b, deliver sig b q = Some (if bool_decide (sig = SIGINT)
    then finish (Ended (WSignaled SIGINT)) (set_pending ∅ q) else set_status (Stopped sig) (set_pending ∅ q))) as Hd.
  { intros b. unfold deliver, deliverable, q. cbn [status pending mask handlers set_pending set_stack].
    rewrite Hs, Hm, Hh, lookup_empty. by destruct Hsig as [-> |[-> | ->]]. }
  eapply must_act; [exact Hs|done|exact Hm|exact Hin|exact Hd|]. apply must_mode. by destruct Hsig as [-> |[-> | ->]].
Qed.

Lemma arrives_exec argv code : Became argv ∈ ms → arrives code → arrives (Do (Exec argv) :: code).
Proof.
  intros Hms H p Hrest Hm Hh Hst. eapply must_exec; [done..|by apply must_mode|]. by apply H.
Qed.

End Logic.

Create HintDb programs.
#[export] Hint Resolve arrives_wait arrives_write arrives_error arrives_close arrives_return arrives_exec : programs.
#[export] Hint Constructors list_elem_of : programs.
#[export] Hint Extern 1 (arrives _ _ (Do (Kill _ _ _) :: _)) => apply arrives_kill; [done|by auto|by left] : programs.





(** The programs that count to ten, each number after a second, never get there.
    Without a signal the first wait ends in undefined behaviour: [robust_wait] has
    no value to return, and the value is compared with -1.  And [ignore_all] does
    not ignore the signals it catches: a handler interrupts [nanosleep], and the
    program exits with 1. *)
Theorem counting_programs_fail (tty : bool) :
  obeys tty [] [Running; Undefined] [] dieonwake ∧ obeys tty [] [Running; Undefined] [] mixup ∧
  obeys tty [] [Running; Undefined] [] ignore_all ∧
  obeys tty [SIGINT; SIGTSTP] [Running; Ended (WExited 1); Undefined]
    [(SIGINT, [Ended (WExited 1); Undefined]); (SIGTSTP, [Ended (WExited 1); Undefined])] ignore_all.
Proof. split_and!; (apply (obeys_by tty 5000); [by destruct tty|vm_compute; reflexivity]). Qed.

(** What [ignore_all] writes when a SIGINT interrupts the first wait. *)
Example ignore_all_interrupted :
  match family_steps true true
          (replicate 4 (false, Run) ++ [(false, Arrive SIGINT); (false, Act SIGINT true)] ++ replicate 4 (false, Run))
          (started ignore_all) with
  | Some f => written (parent f) = [Wrote 1 (line "Waiting"); Wrote 2 (line "SIGINT"); Complained (lit "nanosleep")] ∧
              status (parent f) = Ended (WExited 1)
  | None => False
  end.
Proof. vm_compute. split; reflexivity. Qed.

(** ** Programs with a child *)

Definition together : list (bool * label) := own false ++ own true.

(** [sigcont_n] ends only after it has stopped its child, which it has to thank for
    being continued; [mysplit] always ends, and with it its child. *)
Definition child_over (f : family) : bool :=
  match status (parent f), child f with
  | Ended _, Some c => bool_decide (status c = Ended (WSignaled SIGINT)) || bool_decide (SIGINT ∈ pending c)
  | _, _ => true
  end.

Theorem forking_programs :
  (∀ f, reaches true true together (started (sigcont_n [lit "sigcont_n"; lit "4"])) f →
     status (parent f) ∈ [Running; Stopped SIGTSTP; Ended (WExited 0); Ended (WExited 1)] ∧ child_over (blank_family f) = true) ∧
  must true true together (λ f, in_modes [Ended (WExited 0)] f && default true (is_ended <$> child f))
    (started (mysplit [lit "mysplit"; lit "4"])).
Proof.
  split.
  - assert (always true true 5000 together
      (λ f, in_modes [Running; Stopped SIGTSTP; Ended (WExited 0); Ended (WExited 1)] f && child_over f)
      (started (sigcont_n [lit "sigcont_n"; lit "4"])) = true) as H by (vm_compute; reflexivity).
    intros f Hf. apply (always_sound _ _ _ _ _ _ _ H) in Hf as [Hm Hc]%andb_true_iff.
    split; [by apply (bool_decide_eq_true_1 _) in Hm|done].
  - apply (inevitable_must true true 12); [by intros [p [c|]]|vm_compute; reflexivity].
Qed.
