(* ===== verification/Server.v ===== *)
(** * The threads of the database server: [7-database-haininz/server.c] and the
    listener of [7-database-haininz/comm.c].

    The server runs a main thread, a thread that waits for SIGINT, a listener
    and one thread per client.  They share the doubly linked list of clients,
    the count of client threads and the stop flag, each under a mutex, and the
    flag [accepting_clients], which has none.  A thread is a program counter;
    a step is one lock operation, one access to shared memory or one library
    call, and any thread may take the next one. *)

From Stdlib Require Import ZArith Lia Ascii String.
From stdpp Require Import base gmap strings numbers option list fin_maps functions relations.
From S2P Require Import Prelude Db ShellCommon.

Open Scope Z_scope.
Open Scope list_scope.

(** ** State *)

Inductive mutex := thread_list_mutex | server_mutex | go_mutex.

#[export] Instance mutex_eq_dec : EqDecision mutex.
Proof. solve_decision. Defined.

(** [client_t]; [thread] is stored by [pthread_create]. *)
Record client := Client {
  thread : option Z;
  cxstr : Z;
  prev : Z;
  next : Z;
}.

(** Where a thread is in [run_client]. *)
Inductive run_client_pc :=
  | TestAccepting
  | CountLock | CountIncr | CountUnlock
  | LinkLock | LinkNext | LinkPrev | LinkHead | LinkUnlock
  | Serve
  | Exec.

(** In [client_control_wait]: [WaitBlocked] is inside [pthread_cond_wait],
    [WaitRelock] its return, and the last two are the handler of a thread
    cancelled there. *)
Inductive client_control_wait_pc :=
  | WaitLock | WaitTest | WaitSleep | WaitBlocked | WaitRelock | WaitUnlock
  | WaitCancelled | WaitCancelUnlock.

Inductive thread_cleanup_pc :=
  | UnlinkLock | UnlinkNext | UnlinkPrev | UnlinkUnlock
  | LeaveLock | LeaveDecr | LeaveDestroy | LeaveSignal | LeaveUnlock.

Inductive delete_all_pc := DelLock | DelHead | DelWalk (current : Z) | DelUnlock.

(** Who called [delete_all]. *)
Inductive caller := FromMain | FromMonitor.

Inductive client_control_stop_pc := StopLock | StopSet | StopUnlock.

Inductive client_control_release_pc := GoLock | GoSet | GoBroadcast | GoUnlock.

Inductive monitor_signal_pc := SigWait | SigReport.

Inductive sig_handler_destructor_pc := SigCancel | SigJoin | SigFree.

(** The listener, and the constructor of clients it calls. *)
Inductive listener_pc :=
  | Setup | Accept
  | ClientAlloc (stream : Z) | ClientCreate (client : Z) | ClientDetach (client : Z).

Inductive main_pc :=
  | Constructing | Starting
  | Reading | Printing
  | Refusing
  | DrainLock | DrainTest | DrainSleep | DrainWait | DrainRelock | DrainUnlock
  | CleaningUp | ListenerCancel | ListenerJoin.

Inductive pc :=
  | Run_client (p : run_client_pc)
  | Client_control_wait (p : client_control_wait_pc)
  | Thread_cleanup (p : thread_cleanup_pc)
  | Delete_all (k : caller) (p : delete_all_pc)
  | Client_control_stop (p : client_control_stop_pc)
  | Client_control_release (p : client_control_release_pc)
  | Monitor_signal (p : monitor_signal_pc)
  | Sig_handler_destructor (p : sig_handler_destructor_pc)
  | Listener (p : listener_pc)
  | Main (p : main_pc)
  | Exited.

(** A thread: the client it was created with, and its program counter. *)
Record thr := Thr { arg : Z; at_pc : pc }.

(** The threads that exist once. *)
Definition main_tid : Z := 0.
Definition monitor_tid : Z := 1.
Definition listener_tid : Z := 2.

Record server := Server {
  clients : gmap Z client;            (** the live [client_t]s by address *)
  streams : gset Z;                   (** the open connections *)
  thread_list_head : Z;
  num_client_threads : Z;
  stopped : Z;
  accepting_clients : Z;
  owner : mutex → option Z;           (** who holds each mutex *)
  threads : gmap Z thr;
  cancels : gset Z;                   (** threads with a pending cancellation *)
  handler_live : bool;                (** whether the [sig_handler_t] is allocated *)
  cleaned : bool;                     (** whether [db_cleanup] has run *)
}.

Definition start_server : server :=
  Server ∅ ∅ NULL 0 0 1 (λ _, None) {[ main_tid := Thr NULL (Main Constructing) ]} ∅ false false.

Definition set_clients x s := Server x (streams s) (thread_list_head s) (num_client_threads s) (stopped s) (accepting_clients s) (owner s) (threads s) (cancels s) (handler_live s) (cleaned s).
Definition set_streams x s := Server (clients s) x (thread_list_head s) (num_client_threads s) (stopped s) (accepting_clients s) (owner s) (threads s) (cancels s) (handler_live s) (cleaned s).
Definition set_head x s := Server (clients s) (streams s) x (num_client_threads s) (stopped s) (accepting_clients s) (owner s) (threads s) (cancels s) (handler_live s) (cleaned s).
Definition set_num x s := Server (clients s) (streams s) (thread_list_head s) x (stopped s) (accepting_clients s) (owner s) (threads s) (cancels s) (handler_live s) (cleaned s).
Definition set_stopped x s := Server (clients s) (streams s) (thread_list_head s) (num_client_threads s) x (accepting_clients s) (owner s) (threads s) (cancels s) (handler_live s) (cleaned s).
Definition set_accepting x s := Server (clients s) (streams s) (thread_list_head s) (num_client_threads s) (stopped s) x (owner s) (threads s) (cancels s) (handler_live s) (cleaned s).
Definition set_owner x s := Server (clients s) (streams s) (thread_list_head s) (num_client_threads s) (stopped s) (accepting_clients s) x (threads s) (cancels s) (handler_live s) (cleaned s).
Definition set_threads x s := Server (clients s) (streams s) (thread_list_head s) (num_client_threads s) (stopped s) (accepting_clients s) (owner s) x (cancels s) (handler_live s) (cleaned s).
Definition set_cancels x s := Server (clients s) (streams s) (thread_list_head s) (num_client_threads s) (stopped s) (accepting_clients s) (owner s) (threads s) x (handler_live s) (cleaned s).
Definition set_handler x s := Server (clients s) (streams s) (thread_list_head s) (num_client_threads s) (stopped s) (accepting_clients s) (owner s) (threads s) (cancels s) x (cleaned s).
Definition set_cleaned x s := Server (clients s) (streams s) (thread_list_head s) (num_client_threads s) (stopped s) (accepting_clients s) (owner s) (threads s) (cancels s) (handler_live s) x.

Abbreviation sv := (ST server).

(** ** What the environment decides

    [Go] lets an ordinary step happen (a call succeeds, a command or a signal
    arrives), [Fail] makes a library call fail or a client hang up, [Cancel]
    acts on a pending cancellation, [Spurious] wakes a waiting thread for no
    reason, [Pick n] chooses a new address, stream or thread, and [Line] is what
    main reads. *)
Inductive event := Go | Fail | Cancel | Spurious | Pick (n : Z) | Line (cmd : bytes).

(** A step that cannot be taken now. *)
Definition disabled : sv unit := fail Blocked.

(** ** Threads, locks and memory *)

Definition goto (t : Z) (p : pc) : sv unit := λ s,
  match threads s !! t with
  | Some th => Ok (tt, set_threads (<[t := Thr (arg th) p]> (threads s)) s)
  | None => Err BadAccess
  end.

Definition pthread_mutex_lock (t : Z) (m : mutex) : sv unit := λ s,
  match owner s m with
  | None => Ok (tt, set_owner (<[m := Some t]> (owner s)) s)
  | Some _ => Err Blocked
  end.

(** Unlocking a mutex that the thread does not hold is undefined. *)
Definition pthread_mutex_unlock (t : Z) (m : mutex) : sv unit := λ s,
  if decide (owner s m = Some t) then Ok (tt, set_owner (<[m := None]> (owner s)) s) else Err BadAccess.

Definition client_at (a : Z) : sv client := λ s, deref (clients s !! a) s.

Definition put_client (a : Z) (c : client) : sv unit :=
  client_at a;; modify (λ s, set_clients (<[a := c]> (clients s)) s).

(** [pthread_cancel]: the thread must exist. *)
Definition pthread_cancel (t : option Z) : sv unit := λ s,
  match t with
  | Some t =>
      match threads s !! t with
      | Some th =>
          match at_pc th with
          | Exited => Err BadAccess
          | _ => Ok (tt, set_cancels ({[t]} ∪ cancels s) s)
          end
      | None => Err BadAccess
      end
  | None => Err BadAccess
  end.

Definition has_exited (t : Z) (s : server) : bool :=
  match threads s !! t with
  | Some th => match at_pc th with Exited => true | _ => false end
  | None => false
  end.

(** [pthread_cond_broadcast(&client_control.go)] *)
Definition wake_client (th : thr) : thr :=
  match at_pc th with
  | Client_control_wait WaitBlocked => Thr (arg th) (Client_control_wait WaitRelock)
  | _ => th
  end.

Definition broadcast_go : sv unit := modify (λ s, set_threads (wake_client <$> threads s) s).

(** [pthread_cond_signal(&server_control.server_cond)]: only main waits. *)
Definition signal_server : sv unit := λ s,
  match threads s !! main_tid with
  | Some (Thr a (Main DrainWait)) =>
      Ok (tt, set_threads (<[main_tid := Thr a (Main DrainRelock)]> (threads s)) s)
  | _ => Ok (tt, s)
  end.

(** [comm_shutdown(client->cxstr)]: closing a stream twice is undefined. *)
Definition comm_shutdown (f : Z) : sv unit := λ s,
  if decide (f ∈ streams s) then Ok (tt, set_streams (streams s ∖ {[f]}) s) else Err BadAccess.

(** [client_destructor] *)
Definition client_destructor (a : Z) : sv unit :=
  if a =? NULL then mret tt
  else
    c ← client_at a;
    comm_shutdown (cxstr c);;
    modify (λ s, set_clients (delete a (clients s)) s).

(** ** Client threads *)

(** Acting on a pending cancellation at a cancellation point. *)
Definition cancelled (t : Z) (s : server) : bool := bool_decide (t ∈ cancels s).

(** [run_client].  [comm_serve] returns a command or fails; with a cancellation
    pending it does not return, and neither need [interpret_command], which
    reads files. *)
Definition run_client_step (t a : Z) (p : run_client_pc) (e : event) : sv unit :=
  s ← get;
  match p, e with
  | TestAccepting, Go =>
      if accepting_clients s =? 0 then goto t Exited else goto t (Run_client CountLock)
  | CountLock, Go =>
      assertb (negb (a =? NULL));;
      pthread_mutex_lock t server_mutex;; goto t (Run_client CountIncr)
  | CountIncr, Go => modify (set_num (num_client_threads s + 1));; goto t (Run_client CountUnlock)
  | CountUnlock, Go => pthread_mutex_unlock t server_mutex;; goto t (Run_client LinkLock)
  | LinkLock, Go => pthread_mutex_lock t thread_list_mutex;; goto t (Run_client LinkNext)
  | LinkNext, Go =>
      c ← client_at a;
      put_client a (Client (thread c) (cxstr c) (prev c) (thread_list_head s));;
      goto t (Run_client LinkPrev)
  | LinkPrev, Go =>
      (if negb (thread_list_head s =? NULL) then
         h ← client_at (thread_list_head s);
         put_client (thread_list_head s) (Client (thread h) (cxstr h) a (next h))
       else mret tt);;
      goto t (Run_client LinkHead)
  | LinkHead, Go => modify (set_head a);; goto t (Run_client LinkUnlock)
  | LinkUnlock, Go => pthread_mutex_unlock t thread_list_mutex;; goto t (Run_client Serve)
  | Serve, (Go | Fail | Cancel) =>
      c ← client_at a;
      (if decide (cxstr c ∈ streams s) then mret tt else fail BadAccess);;
      match cancelled t s, e with
      | true, Cancel | false, Fail => goto t (Thread_cleanup UnlinkLock)
      | false, Go => goto t (Client_control_wait WaitLock)
      | _, _ => disabled
      end
  | Exec, Go => goto t (Run_client Serve)
  | Exec, Cancel => if cancelled t s then goto t (Thread_cleanup UnlinkLock) else disabled
  | _, _ => disabled
  end.

(** [client_control_wait] *)
Definition client_control_wait_step (t : Z) (p : client_control_wait_pc) (e : event) : sv unit :=
  s ← get;
  match p, e with
  | WaitLock, Go => pthread_mutex_lock t go_mutex;; goto t (Client_control_wait WaitTest)
  | WaitTest, Go =>
      if stopped s =? 0 then goto t (Client_control_wait WaitUnlock)
      else goto t (Client_control_wait WaitSleep)
  | WaitSleep, Go => pthread_mutex_unlock t go_mutex;; goto t (Client_control_wait WaitBlocked)
  | WaitBlocked, Spurious => goto t (Client_control_wait WaitRelock)
  | WaitBlocked, Cancel => if cancelled t s then goto t (Client_control_wait WaitCancelled) else disabled
  | WaitRelock, Go => pthread_mutex_lock t go_mutex;; goto t (Client_control_wait WaitTest)
  | WaitUnlock, Go => pthread_mutex_unlock t go_mutex;; goto t (Run_client Exec)
  | WaitCancelled, Go => pthread_mutex_lock t go_mutex;; goto t (Client_control_wait WaitCancelUnlock)
  | WaitCancelUnlock, Go => pthread_mutex_unlock t go_mutex;; goto t (Thread_cleanup UnlinkLock)
  | _, _ => disabled
  end.

(** [thread_cleanup] *)
Definition thread_cleanup_step (t a : Z) (p : thread_cleanup_pc) (e : event) : sv unit :=
  s ← get;
  match p, e with
  | UnlinkLock, Go =>
      if a =? NULL then goto t Exited
      else pthread_mutex_lock t thread_list_mutex;; goto t (Thread_cleanup UnlinkNext)
  | UnlinkNext, Go =>
      c ← client_at a;
      (if negb (next c =? NULL) then
         n ← client_at (next c);
         put_client (next c) (Client (thread n) (cxstr n) (prev c) (next n))
       else mret tt);;
      goto t (Thread_cleanup UnlinkPrev)
  | UnlinkPrev, Go =>
      c ← client_at a;
      (if negb (prev c =? NULL) then
         q ← client_at (prev c);
         put_client (prev c) (Client (thread q) (cxstr q) (prev q) (next c))
       else modify (set_head (next c)));;
      goto t (Thread_cleanup UnlinkUnlock)
  | UnlinkUnlock, Go => pthread_mutex_unlock t thread_list_mutex;; goto t (Thread_cleanup LeaveLock)
  | LeaveLock, Go => pthread_mutex_lock t server_mutex;; goto t (Thread_cleanup LeaveDecr)
  | LeaveDecr, Go => modify (set_num (num_client_threads s - 1));; goto t (Thread_cleanup LeaveDestroy)
  | LeaveDestroy, Go => client_destructor a;; goto t (Thread_cleanup LeaveSignal)
  | LeaveSignal, Go => signal_server;; goto t (Thread_cleanup LeaveUnlock)
  | LeaveUnlock, Go => pthread_mutex_unlock t server_mutex;; goto t Exited
  | _, _ => disabled
  end.

(** [delete_all] *)
Definition delete_all_step (t : Z) (k : caller) (p : delete_all_pc) (e : event) : sv unit :=
  s ← get;
  match p, e with
  | DelLock, Go => pthread_mutex_lock t thread_list_mutex;; goto t (Delete_all k DelHead)
  | DelHead, Go => goto t (Delete_all k (DelWalk (thread_list_head s)))
  | DelWalk current, Go =>
      if current =? NULL then goto t (Delete_all k DelUnlock)
      else
        c ← client_at current;
        pthread_cancel (thread c);;
        goto t (Delete_all k (DelWalk (next c)))
  | DelUnlock, Go =>
      pthread_mutex_unlock t thread_list_mutex;;
      goto t (match k with FromMain => Main DrainLock | FromMonitor => Monitor_signal SigWait end)
  | _, _ => disabled
  end.

(** [client_control_stop] *)
Definition client_control_stop_step (t : Z) (p : client_control_stop_pc) (e : event) : sv unit :=
  match p, e with
  | StopLock, Go => pthread_mutex_lock t go_mutex;; goto t (Client_control_stop StopSet)
  | StopSet, Go => modify (set_stopped 1);; goto t (Client_control_stop StopUnlock)
  | StopUnlock, Go => pthread_mutex_unlock t go_mutex;; goto t (Main Reading)
  | _, _ => disabled
  end.

(** [client_control_release] *)
Definition client_control_release_step (t : Z) (p : client_control_release_pc) (e : event) : sv unit :=
  match p, e with
  | GoLock, Go => pthread_mutex_lock t go_mutex;; goto t (Client_control_release GoSet)
  | GoSet, Go => modify (set_stopped 0);; goto t (Client_control_release GoBroadcast)
  | GoBroadcast, Go => broadcast_go;; goto t (Client_control_release GoUnlock)
  | GoUnlock, Go => pthread_mutex_unlock t go_mutex;; goto t (Main Reading)
  | _, _ => disabled
  end.

(** ** The other threads *)

(** [monitor_signal]: [sigwait] and [fprintf] are cancellation points. *)
Definition monitor_signal_step (t : Z) (p : monitor_signal_pc) (e : event) : sv unit :=
  s ← get;
  (if handler_live s then mret tt else fail BadAccess);;
  match p, e with
  | SigWait, Go => if cancelled t s then disabled else goto t (Monitor_signal SigReport)
  | SigWait, Fail => fail (Exit 1)
  | SigReport, Go => goto t (Delete_all FromMonitor DelLock)
  | (SigWait | SigReport), Cancel => if cancelled t s then goto t Exited else disabled
  | _, _ => disabled
  end.

(** [sig_handler_constructor]: a thread of its own that handles SIGINT. *)
Definition sig_handler_constructor (t : Z) (e : event) : sv unit :=
  match e with
  | Fail => fail (Exit 1)
  | Go =>
      modify (set_handler true);;
      modify (λ s, set_threads (<[monitor_tid := Thr NULL (Monitor_signal SigWait)]> (threads s)) s);;
      goto t (Main Starting)
  | _ => disabled
  end.

(** [sig_handler_destructor] *)
Definition sig_handler_destructor_step (t : Z) (p : sig_handler_destructor_pc) (e : event) : sv unit :=
  s ← get;
  match p, e with
  | SigCancel, Go => pthread_cancel (Some monitor_tid);; goto t (Sig_handler_destructor SigJoin)
  | SigJoin, Go => if has_exited monitor_tid s then goto t (Sig_handler_destructor SigFree) else disabled
  | SigFree, Go => modify (set_handler false);; goto t (Main Refusing)
  | _, _ => disabled
  end.

(** [listener] of [comm.c]: it accepts connections for ever. *)
Definition listener_step (t : Z) (p : listener_pc) (e : event) : sv unit :=
  s ← get;
  match p, e with
  | Setup, Fail => fail (Exit 1)
  | Setup, Go => goto t (Listener Accept)
  | Accept, Cancel => if cancelled t s then goto t Exited else disabled
  | Accept, Fail => goto t (Listener Accept)
  | Accept, Pick f =>
      if cancelled t s || bool_decide (f ∈ streams s) then disabled
      else modify (set_streams ({[f]} ∪ streams s));; goto t (Listener (ClientAlloc f))
  | _, _ => disabled
  end.

(** [client_constructor], called by the listener. *)
Definition client_constructor_step (t : Z) (p : listener_pc) (e : event) : sv unit :=
  s ← get;
  match p, e with
  | ClientAlloc _, Fail => fail AssertFail
  | ClientAlloc f, Pick a =>
      if (a =? NULL) || bool_decide (is_Some (clients s !! a)) then disabled
      else
        modify (set_clients (<[a := Client None f NULL NULL]> (clients s)));;
        goto t (Listener (ClientCreate a))
  | ClientCreate _, Fail => fail (Exit 1)
  | ClientCreate a, Pick t' =>
      if bool_decide (is_Some (threads s !! t')) || (t' <=? listener_tid) then disabled
      else
        c ← client_at a;
        put_client a (Client (Some t') (cxstr c) (prev c) (next c));;
        modify (λ s, set_threads (<[t' := Thr a (Run_client TestAccepting)]> (threads s)) s);;
        goto t (Listener (ClientDetach a))
  | ClientDetach a, Go =>
      c ← client_at a;
      goto t (Listener Accept)
  | _, _ => disabled
  end.

(** [main] *)
Definition main_step (t : Z) (p : main_pc) (e : event) : sv unit :=
  s ← get;
  match p, e with
  | Constructing, _ => sig_handler_constructor t e
  | Starting, Fail => fail (Exit 1)
  | Starting, Go =>
      modify (set_threads (<[listener_tid := Thr NULL (Listener Setup)]> (threads s)));;
      goto t (Main Reading)
  | Reading, Line cmd =>
      match strtok_all cmd with
      | [] => fail BadAccess
      | token :: _ =>
          if decide (token = text "p") then goto t (Main Printing)
          else if decide (token = text "g") then goto t (Client_control_release GoLock)
          else if decide (token = text "s") then goto t (Client_control_stop StopLock)
          else goto t (Main Reading)
      end
  | Reading, Fail => goto t (Sig_handler_destructor SigCancel)
  | Printing, Go => goto t (Main Reading)
  | Refusing, Go => modify (set_accepting 0);; goto t (Delete_all FromMain DelLock)
  | DrainLock, Go => pthread_mutex_lock t server_mutex;; goto t (Main DrainTest)
  | DrainTest, Go => goto t (Main (if num_client_threads s >? 0 then DrainSleep else DrainUnlock))
  | DrainSleep, Go => pthread_mutex_unlock t server_mutex;; goto t (Main DrainWait)
  | DrainWait, Spurious => goto t (Main DrainRelock)
  | DrainRelock, Go => pthread_mutex_lock t server_mutex;; goto t (Main DrainTest)
  | DrainUnlock, Go => pthread_mutex_unlock t server_mutex;; goto t (Main CleaningUp)
  | CleaningUp, Go => modify (set_cleaned true);; goto t (Main ListenerCancel)
  | ListenerCancel, Go => pthread_cancel (Some listener_tid);; goto t (Main ListenerJoin)
  | ListenerJoin, Go => if has_exited listener_tid s then goto t Exited else disabled
  | _, _ => disabled
  end.

(** ** The whole server *)

Definition thread_step (t : Z) (th : thr) (e : event) : sv unit :=
  match at_pc th with
  | Run_client p => run_client_step t (arg th) p e
  | Client_control_wait p => client_control_wait_step t p e
  | Thread_cleanup p => thread_cleanup_step t (arg th) p e
  | Delete_all k p => delete_all_step t k p e
  | Client_control_stop p => client_control_stop_step t p e
  | Client_control_release p => client_control_release_step t p e
  | Monitor_signal p => monitor_signal_step t p e
  | Sig_handler_destructor p => sig_handler_destructor_step t p e
  | Listener ((Setup | Accept) as p) => listener_step t p e
  | Listener p => client_constructor_step t p e
  | Main p => main_step t p e
  | Exited => disabled
  end.

(** A step of thread [t]; when main has returned the process is over. *)
Definition exec (t : Z) (e : event) (s : server) : result server :=
  match threads s !! t with
  | None => Err Blocked
  | Some th =>
      if has_exited main_tid s then Err Blocked
      else match thread_step t th e s with
           | Ok (_, s') => Ok s'
           | Err f => Err f
           end
  end.

Definition step (s s' : server) : Prop := ∃ t e, exec t e s = Ok s'.

Definition reachable : server → Prop := rtc step start_server.

(** A schedule: who moves, and what the environment decides. *)
Fixpoint run_schedule (l : list (Z * event)) (s : server) : result server :=
  match l with
  | [] => Ok s
  | (t, e) :: l' =>
      match exec t e s with
      | Ok s' => run_schedule l' s'
      | Err f => Err f
      end
  end.

Lemma run_schedule_rtc l s s' : run_schedule l s = Ok s' → rtc step s s'.
Proof.
  revert s. induction l as [|[t e] l IH]; simpl; intros s; [intros [= ->]; done|].
  destruct (exec t e s) eqn:He; [|done]. intros H. eapply rtc_l; [by exists t, e|by apply IH].
Qed.
