(* ===== verification/ServerInv.v ===== *)
(** * The invariant of the server.

    Which program counters hold which mutex, own a client, are counted and are
    linked; and what these say about the shared data.  The client list is well
    formed whenever its mutex is free, and in one of three known stages of a
    link or an unlink while it is held. *)

From Stdlib Require Import ZArith Lia.
From stdpp Require Import base gmap strings numbers option fin_maps functions relations list.
From S2P Require Import Prelude Db ShellCommon Server.

Open Scope Z_scope.

(** ** Classes of program counters *)

(** The mutex is held at this point. *)
Definition crit (m : mutex) (p : pc) : bool :=
  match m, p with
  | server_mutex, Run_client (CountIncr | CountUnlock)
  | server_mutex, Thread_cleanup (LeaveDecr | LeaveDestroy | LeaveSignal | LeaveUnlock)
  | server_mutex, Main (DrainTest | DrainSleep | DrainUnlock)
  | thread_list_mutex, Run_client (LinkNext | LinkPrev | LinkHead | LinkUnlock)
  | thread_list_mutex, Thread_cleanup (UnlinkNext | UnlinkPrev | UnlinkUnlock)
  | thread_list_mutex, Delete_all _ (DelHead | DelWalk _ | DelUnlock)
  | go_mutex, Client_control_wait (WaitTest | WaitSleep | WaitUnlock | WaitCancelUnlock)
  | go_mutex, Client_control_stop (StopSet | StopUnlock)
  | go_mutex, Client_control_release (GoSet | GoBroadcast | GoUnlock) => true
  | _, _ => false
  end.

(** The thread has a [client_t] that it will free. *)
Definition owns (p : pc) : bool :=
  match p with
  | Run_client _ | Client_control_wait _ => true
  | Thread_cleanup (LeaveSignal | LeaveUnlock) => false
  | Thread_cleanup _ => true
  | _ => false
  end.

(** ... which is not yet in the list. *)
Definition unjoined (p : pc) : bool :=
  match p with Run_client (LinkUnlock | Serve | Exec) => false | Run_client _ => true | _ => false end.

(** ... which is in the list. *)
Definition joined (p : pc) : bool :=
  match p with
  | Run_client (LinkUnlock | Serve | Exec) | Client_control_wait _
  | Thread_cleanup (UnlinkLock | UnlinkNext | UnlinkPrev) => true
  | _ => false
  end.

(** The thread is counted in [num_client_threads]. *)
Definition counted (p : pc) : bool :=
  match p with
  | Run_client (TestAccepting | CountLock | CountIncr) => false
  | Run_client _ | Client_control_wait _ => true
  | Thread_cleanup (LeaveDestroy | LeaveSignal | LeaveUnlock) => false
  | Thread_cleanup _ => true
  | _ => false
  end.

(** Which thread runs which function. *)
Definition role (p : pc) (t : Z) : bool :=
  match p with
  | Run_client _ | Client_control_wait _ | Thread_cleanup _ => listener_tid <? t
  | Client_control_stop _ | Client_control_release _ | Sig_handler_destructor _
  | Delete_all FromMain _ | Main _ => t =? main_tid
  | Monitor_signal _ | Delete_all FromMonitor _ => t =? monitor_tid
  | Listener _ => t =? listener_tid
  | Exited => true
  end.

(** ** Segments of the client list

    [dseg C p cur l q e]: from [cur], whose predecessor is [p], the links of
    [C] lead through [l] to [e], whose predecessor would be [q]. *)
Definition links (C : gmap Z client) (a : Z) : option (Z * Z) := (λ c, (prev c, next c)) <$> C !! a.

Fixpoint dseg (C : gmap Z client) (p cur : Z) (l : list Z) (q e : Z) : Prop :=
  match l with
  | [] => cur = e ∧ p = q
  | a :: l' => cur = a ∧ a ≠ NULL ∧ ∃ n, links C a = Some (p, n) ∧ dseg C a n l' q e
  end.

Lemma dseg_app C l1 : ∀ p cur l2 q e,
  dseg C p cur (l1 ++ l2) q e ↔ ∃ q' e', dseg C p cur l1 q' e' ∧ dseg C q' e' l2 q e.
Proof. induction l1 as [|a l1 IH]; intros; simpl; [naive_solver|]. setoid_rewrite IH. naive_solver. Qed.

Lemma dseg_ext C C' l : ∀ p cur q e,
  (∀ a, a ∈ l → links C' a = links C a) → dseg C p cur l q e → dseg C' p cur l q e.
Proof.
  induction l as [|a l IH]; intros p cur q e Hext; simpl; [done|]. intros (-> & Ha & n & Hn & Hl).
  split_and!; [done..|]. exists n. rewrite Hext by set_solver. split; [done|].
  apply IH; [|done]. intros b Hb. apply Hext. set_solver.
Qed.

Lemma dseg_nonnull C l p cur q e : dseg C p cur l q e → NULL ∉ l.
Proof.
  revert p cur. induction l as [|a l IH]; intros p cur; simpl; [set_solver|].
  intros (_ & Ha & n & _ & Hl). specialize (IH _ _ Hl). set_solver.
Qed.

(** The last element. *)
Lemma dseg_snoc C p cur l q e :
  dseg C p cur l q e → q = p ∧ l = [] ∧ cur = e ∨
    ∃ l' q0, l = l' ++ [q] ∧ dseg C p cur l' q0 q ∧ links C q = Some (q0, e) ∧ q ≠ NULL.
Proof.
  destruct l as [|b l' _] using rev_ind; [simpl; naive_solver|]. intros H.
  apply dseg_app in H as (q' & e' & H1 & (-> & Hb & n & Hn & <- & <-)). right. exists l', q'. done.
Qed.

Lemma links_insert C a c : links (<[a := c]> C) a = Some (prev c, next c).
Proof. unfold links. by rewrite lookup_insert_eq. Qed.

Lemma links_insert_ne C a b c : a ≠ b → links (<[a := c]> C) b = links C b.
Proof. intros. unfold links. by rewrite lookup_insert_ne. Qed.

Lemma links_inv C a p n : links C a = Some (p, n) → ∃ c, C !! a = Some c ∧ prev c = p ∧ next c = n.
Proof. unfold links. intros (c & Hc & Hl)%fmap_Some. exists c. naive_solver. Qed.

(** The list in the stage that the thread [h] holding its mutex has reached. *)
Definition stage (C : gmap Z client) (hd : Z) (h : option thr) (l : list Z) : Prop :=
  match h with
  | Some (Thr a (Run_client LinkPrev)) =>
      links C a = Some (NULL, hd) ∧ ∃ q, dseg C NULL hd l q NULL
  | Some (Thr a (Run_client LinkHead)) =>
      links C a = Some (NULL, hd) ∧ ∃ q, dseg C a hd l q NULL
  | Some (Thr a (Thread_cleanup UnlinkPrev)) =>
      ∃ l1 l2 q e q', l = l1 ++ a :: l2 ∧ dseg C NULL hd l1 q a ∧ links C a = Some (q, e) ∧
        dseg C q e l2 q' NULL
  | Some (Thr _ (Delete_all _ (DelWalk cur))) =>
      ∃ l1 l2 q q', l = l1 ++ l2 ∧ dseg C NULL hd l1 q cur ∧ dseg C q cur l2 q' NULL
  | _ => ∃ q, dseg C NULL hd l q NULL
  end.

#[global] Arguments stage : simpl never.

(** A holder in no such stage. *)
Definition plain (p : pc) : bool :=
  match p with
  | Run_client (LinkPrev | LinkHead) | Thread_cleanup UnlinkPrev | Delete_all _ (DelWalk _) => false
  | _ => true
  end.

Definition holder (O : mutex → option Z) (T : gmap Z thr) : option thr := O thread_list_mutex ≫= (T !!.).

(** ** The invariant *)

Record args_at (C : gmap Z client) (t a : Z) (p : pc) : Prop := {
  aa_null : a ≠ NULL;
  aa_client : ∃ c, C !! a = Some c ∧ thread c = Some t ∧ (unjoined p = true → prev c = NULL);
}.

(** What the listener knows of the connection and the client it is setting up. *)
Definition mem_at (C : gmap Z client) (F : gset Z) (p : pc) : Prop :=
  match p with
  | Listener (ClientAlloc f) => f ∈ F ∧ ∀ a c, C !! a = Some c → cxstr c ≠ f
  | Listener (ClientCreate a) => a ≠ NULL ∧ ∃ c, C !! a = Some c ∧ thread c = None ∧ prev c = NULL
  | _ => True
  end.

Record Inv (C : gmap Z client) (F : gset Z) (hd num : Z) (O : mutex → option Z) (T : gmap Z thr) : Prop := {
  inv_role t a p : T !! t = Some (Thr a p) → role p t = true;
  inv_args t a p : T !! t = Some (Thr a p) → owns p = true → args_at C t a p;
  inv_mutex m t : O m = Some t ↔ ∃ a p, T !! t = Some (Thr a p) ∧ crit m p = true;
  inv_count : num = Z.of_nat (size (filter (λ kt, counted (at_pc kt.2) = true) T));
  inv_stream a c : C !! a = Some c → cxstr c ∈ F;
  inv_stream_inj a b c d : C !! a = Some c → C !! b = Some d → cxstr c = cxstr d → a = b;
  inv_mem t a p : T !! t = Some (Thr a p) → mem_at C F p;
  inv_list : ∃ l, NoDup l ∧ (∀ x, x ∈ l ↔ ∃ t p, T !! t = Some (Thr x p) ∧ joined p = true) ∧
    stage C hd (holder O T) l;
}.

Definition server_ok (s : server) : Prop :=
  Inv (clients s) (streams s) (thread_list_head s) (num_client_threads s) (owner s) (threads s).

(** ** Moving a thread *)

Lemma count_insert (f : thr → bool) (T : gmap Z thr) t th :
  T !! t = None →
  size (filter (λ kt, f kt.2 = true) (<[t := th]> T)) =
    (Nat.b2n (f th) + size (filter (λ kt, f kt.2 = true) T))%nat.
Proof.
  intros Ht. destruct (f th) eqn:Hf; simpl.
  - rewrite map_filter_insert_True by done. rewrite map_size_insert_None; [done|].
    apply map_lookup_filter_None. by left.
  - rewrite map_filter_insert_False by (simpl; congruence). by rewrite delete_id.
Qed.

Lemma count_move (f : thr → bool) (T : gmap Z thr) t th th' :
  T !! t = Some th →
  (size (filter (λ kt, f kt.2 = true) (<[t := th']> T)) + Nat.b2n (f th) =
   size (filter (λ kt, f kt.2 = true) T) + Nat.b2n (f th'))%nat.
Proof.
  intros Ht. rewrite <- (insert_delete_id T t th Ht) at 2. rewrite <- insert_delete_eq.
  rewrite !count_insert by apply lookup_delete_eq. lia.
Qed.

Definition mutexes : list mutex := [thread_list_mutex; server_mutex; go_mutex].

Lemma mutexes_all m : m ∈ mutexes.
Proof. destruct m; set_solver. Qed.

(** From [p] to [p'] the thread keeps its client and its place. *)
Definition keeps_place (p p' : pc) : bool :=
  implb (owns p') (owns p) && implb (unjoined p') (unjoined p) && eqb (joined p) (joined p').

Lemma holder_other O T t th th' :
  T !! t = Some th → O thread_list_mutex ≠ Some t → holder O (<[t := th']> T) = holder O T.
Proof.
  intros Ht HO. unfold holder. destruct (O thread_list_mutex) as [t'|]; [|done]. simpl.
  rewrite lookup_insert_ne; congruence.
Qed.

Lemma Inv_move C F hd num num' O O' T t a p p' :
  Inv C F hd num O T → T !! t = Some (Thr a p) → role p' t = true → keeps_place p p' = true → mem_at C F p' →
  num' + Z.b2z (counted p) = num + Z.b2z (counted p') →
  (∀ m, O' m = if crit m p' then Some t else if crit m p then None else O m) →
  (∀ m, crit m p' = true → crit m p = true ∨ O m = None) →
  (∀ l, stage C hd (holder O T) l → stage C hd (holder O' (<[t := Thr a p']> T)) l) →
  Inv C F hd num' O' (<[t := Thr a p']> T).
Proof.
  intros H Ht Hrole Hkeep Hmem Hnum HO Hfree Hstage.
  unfold keeps_place in Hkeep. rewrite !andb_true_iff, !implb_true_iff, eqb_true_iff in Hkeep.
  destruct Hkeep as ((Howns & Hunj) & Hjoin). split.
  - intros t' a' q. rewrite lookup_insert_Some. intros [[-> [= <- <-]]|[_ Hq]]; [done|by eapply inv_role].
  - intros t' a' q. rewrite lookup_insert_Some. intros [[-> [= <- <-]]|[_ Hq]] Ho; [|by eapply inv_args].
    destruct (inv_args _ _ _ _ _ _ H _ _ _ Ht (Howns Ho)) as [Hn (c & Hc & Hth & Hp)].
    split; [done|]. exists c. split_and!; [done..|]. intros Hu. apply Hp, Hunj, Hu.
  - intros m t'. rewrite HO. pose proof (inv_mutex _ _ _ _ _ _ H m) as Hm. specialize (Hfree m).
    destruct (decide (t' = t)) as [->|Hne].
    + setoid_rewrite lookup_insert_eq. destruct (crit m p') eqn:Hp'; [by split; [exists a, p'|]|].
      split; [|by intros (? & ? & [= <- <-] & ?); congruence]. destruct (crit m p) eqn:Hp; [done|]. intros (a0 & q & Hq & Hc)%Hm. congruence.
    + setoid_rewrite lookup_insert_ne; [|done]. rewrite <- Hm. destruct (crit m p') eqn:Hp'.
      * split; [congruence|]. intros Ho. destruct (Hfree eq_refl) as [Hp|]; [|congruence].
        assert (O m = Some t) by (apply Hm; eauto). congruence.
      * destruct (crit m p) eqn:Hp; [|done]. assert (O m = Some t) as -> by (apply Hm; eauto). split; congruence.
  - pose proof (count_move (λ th, counted (at_pc th)) T t _ (Thr a p') Ht) as Hc.
    rewrite (inv_count _ _ _ _ _ _ H) in Hnum. simpl in Hc. destruct (counted p), (counted p'); simpl in *; lia.
  - apply H.
  - apply H.
  - intros t' x q. rewrite lookup_insert_Some. intros [[-> [= <- <-]]|[_ Hq]]; [done|by eapply inv_mem].
  - destruct (inv_list _ _ _ _ _ _ H) as (l & Hnd & Hl & Hs). exists l. split_and!; [done| |by apply Hstage].
    intros x. rewrite Hl. split; intros (t' & q & Hq & Hj).
    + destruct (decide (t' = t)) as [->|]; [|exists t', q; by rewrite lookup_insert_ne].
      exists t, p'. rewrite lookup_insert_eq. rewrite Ht in Hq. simplify_eq. by rewrite <- Hjoin.
    + rewrite lookup_insert_Some in Hq. destruct Hq as [[-> [= <- <-]]|[_ Hq]]; [exists t', p|by exists t', q]. by rewrite Hjoin.
Qed.

Lemma stage_plain C hd a p l : plain p = true → stage C hd (Some (Thr a p)) l ↔ stage C hd None l.
Proof. unfold stage. by destruct p as [[]|[]|[]|? []|[]|[]|[]|[]|[]|[]|]. Qed.

Definition same_crit (p p' : pc) : bool := forallb (λ m, eqb (crit m p) (crit m p')) mutexes.

(** No mutex changes hands. *)
Definition moves (p p' : pc) : bool :=
  keeps_place p p' && same_crit p p' && plain p && plain p'.

(** [p'] holds [m] and [p] nothing. *)
Definition takes (m : mutex) (p p' : pc) : bool :=
  keeps_place p p' && eqb (counted p) (counted p') && plain p' &&
  forallb (λ m', eqb (crit m' p') (bool_decide (m' = m)) && negb (crit m' p)) mutexes.

(** [p] holds [m] and [p'] nothing. *)
Definition drops (m : mutex) (p p' : pc) : bool :=
  keeps_place p p' && eqb (counted p) (counted p') && plain p &&
  forallb (λ m', eqb (crit m' p) (bool_decide (m' = m)) && negb (crit m' p')) mutexes.

Lemma forallb_mutexes (f : mutex → bool) m : forallb f mutexes = true → f m = true.
Proof. rewrite forallb_forall. intros H. apply H, list_elem_of_In, mutexes_all. Qed.

Lemma holder_is C F hd num O T t a p :
  Inv C F hd num O T → T !! t = Some (Thr a p) → crit thread_list_mutex p = true →
  holder O T = Some (Thr a p).
Proof.
  intros H Ht Hp. unfold holder.
  rewrite (proj2 (inv_mutex _ _ _ _ _ _ H thread_list_mutex t)) by eauto. done.
Qed.

Lemma not_holder C F hd num O T t a p :
  Inv C F hd num O T → T !! t = Some (Thr a p) → crit thread_list_mutex p = false →
  O thread_list_mutex ≠ Some t.
Proof.
  intros H Ht Hp (a' & q & Hq & Hc)%(inv_mutex _ _ _ _ _ _ H). congruence.
Qed.

Lemma Inv_goto C F hd num num' O T t a p p' :
  Inv C F hd num O T → T !! t = Some (Thr a p) → role p' t = true → moves p p' = true → mem_at C F p' →
  num' + Z.b2z (counted p) = num + Z.b2z (counted p') →
  Inv C F hd num' O (<[t := Thr a p']> T).
Proof.
  intros H Ht Hrole Hm Hmem Hcount. unfold moves in Hm. rewrite !andb_true_iff in Hm.
  destruct Hm as (((Hkeep & Hcrit) & Hpl) & Hpl').
  assert (∀ m, crit m p' = crit m p) as Hsame.
  { intros m. apply (forallb_mutexes _ m) in Hcrit. symmetry. by apply eqb_prop. }
  eapply Inv_move; [done..| | |].
  - intros m. rewrite Hsame. destruct (crit m p) eqn:Hc; [|done].
    apply (inv_mutex _ _ _ _ _ _ H). eauto.
  - intros m. rewrite Hsame. auto.
  - intros l. destruct (crit thread_list_mutex p) eqn:Hc.
    + rewrite (holder_is _ _ _ _ _ _ _ _ _ H Ht Hc). unfold holder.
      rewrite (proj2 (inv_mutex _ _ _ _ _ _ H thread_list_mutex t)) by eauto. simpl.
      rewrite lookup_insert_eq, !stage_plain by done. done.
    + by rewrite (holder_other _ _ _ _ _ Ht (not_holder _ _ _ _ _ _ _ _ _ H Ht Hc)).
Qed.

Lemma Inv_lock m C F hd num O T t a p p' :
  Inv C F hd num O T → T !! t = Some (Thr a p) → O m = None → role p' t = true → mem_at C F p' → takes m p p' = true →
  Inv C F hd num (<[m := Some t]> O) (<[t := Thr a p']> T).
Proof.
  intros H Ht HO Hrole Hmem Hm. unfold takes in Hm. rewrite !andb_true_iff, eqb_true_iff in Hm.
  destruct Hm as (((Hkeep & Hcount) & Hpl) & Hcrit).
  assert (∀ m', crit m' p' = bool_decide (m' = m) ∧ crit m' p = false) as Hall.
  { intros m'. apply (forallb_mutexes _ m') in Hcrit. rewrite andb_true_iff, negb_true_iff, eqb_true_iff in Hcrit. done. }
  eapply Inv_move; [done|done|done|done|done|rewrite Hcount; lia| | |].
  - intros m'. destruct (Hall m') as [-> ->]. case_bool_decide; subst.
    + by rewrite fn_lookup_insert.
    + by rewrite fn_lookup_insert_ne.
  - intros m'. destruct (Hall m') as [-> _]. rewrite bool_decide_eq_true. intros ->. by right.
  - intros l. destruct (decide (m = thread_list_mutex)) as [->|Hne].
    + unfold holder. rewrite HO, fn_lookup_insert. simpl. rewrite lookup_insert_eq.
      by rewrite stage_plain by done.
    + unfold holder. rewrite fn_lookup_insert_ne by done. fold (holder O (<[t := Thr a p']> T)).
      by rewrite (holder_other _ _ _ _ _ Ht (not_holder _ _ _ _ _ _ _ _ _ H Ht (proj2 (Hall _)))).
Qed.

Lemma Inv_unlock m C F hd num O T t a p p' :
  Inv C F hd num O T → T !! t = Some (Thr a p) → role p' t = true → mem_at C F p' → drops m p p' = true →
  Inv C F hd num (<[m := None]> O) (<[t := Thr a p']> T).
Proof.
  intros H Ht Hrole Hmem Hm. unfold drops in Hm. rewrite !andb_true_iff, eqb_true_iff in Hm.
  destruct Hm as (((Hkeep & Hcount) & Hpl) & Hcrit).
  assert (∀ m', crit m' p = bool_decide (m' = m) ∧ crit m' p' = false) as Hall.
  { intros m'. apply (forallb_mutexes _ m') in Hcrit. rewrite andb_true_iff, negb_true_iff, eqb_true_iff in Hcrit. done. }
  eapply Inv_move; [done|done|done|done|done|rewrite Hcount; lia| | |].
  - intros m'. destruct (Hall m') as [-> ->]. case_bool_decide; subst.
    + by rewrite fn_lookup_insert.
    + by rewrite fn_lookup_insert_ne.
  - intros m'. by rewrite (proj2 (Hall m')).
  - intros l. destruct (decide (m = thread_list_mutex)) as [->|Hne].
    + rewrite (holder_is _ _ _ _ _ _ _ _ _ H Ht) by (rewrite (proj1 (Hall _)); by rewrite bool_decide_eq_true).
      rewrite stage_plain by done. unfold holder. by rewrite fn_lookup_insert.
    + unfold holder. rewrite fn_lookup_insert_ne by done. fold (holder O (<[t := Thr a p']> T)).
      rewrite (holder_other _ _ _ _ _ Ht); [done|]. eapply not_holder; [done|done|].
      rewrite (proj1 (Hall _)), bool_decide_eq_false. done.
Qed.

(** ** The list of clients *)

Definition members (T : gmap Z thr) (l : list Z) : Prop :=
  ∀ x, x ∈ l ↔ ∃ t p, T !! t = Some (Thr x p) ∧ joined p = true.

(** Two threads with a client have different ones. *)
Lemma args_inj C F hd num O T t t' a p p' :
  Inv C F hd num O T → T !! t = Some (Thr a p) → owns p = true →
  T !! t' = Some (Thr a p') → owns p' = true → t = t'.
Proof.
  intros H Ht Ho Ht' Ho'. destruct (inv_args _ _ _ _ _ _ H _ _ _ Ht Ho) as [_ (c & Hc & Hth & _)].
  destruct (inv_args _ _ _ _ _ _ H _ _ _ Ht' Ho') as [_ (c' & Hc' & Hth' & _)]. congruence.
Qed.

Lemma joined_owns p : joined p = true → owns p = true.
Proof. by destruct p as [[]|[]|[]|? []|[]|[]|[]|[]|[]|[]|]. Qed.

Lemma unjoined_owns p : unjoined p = true → owns p = true.
Proof. by destruct p as [[]|[]|[]|? []|[]|[]|[]|[]|[]|[]|]. Qed.

Lemma unjoined_joined p : unjoined p = true → joined p = false.
Proof. by destruct p as [[]|[]|[]|? []|[]|[]|[]|[]|[]|[]|]. Qed.

(** A client is in the list when its thread says so. *)
Lemma member_iff C F hd num O T l t a p :
  Inv C F hd num O T → members T l → T !! t = Some (Thr a p) → owns p = true → a ∈ l ↔ joined p = true.
Proof.
  intros H Hl Ht Ho. rewrite (Hl a). split; [|eauto]. intros (t' & q & Hq & Hj).
  assert (t' = t) as -> by (eapply args_inj; eauto using joined_owns). congruence.
Qed.

Lemma members_same T l t a p p' :
  members T l → T !! t = Some (Thr a p) → joined p = joined p' → members (<[t := Thr a p']> T) l.
Proof.
  intros Hl Ht Hj x. rewrite (Hl x). split; intros (t' & q & Hq & Hjq).
  - destruct (decide (t' = t)) as [->|]; [|exists t', q; by rewrite lookup_insert_ne].
    exists t, p'. rewrite lookup_insert_eq. simplify_eq. by rewrite <- Hj.
  - rewrite lookup_insert_Some in Hq. destruct Hq as [[-> [= <- <-]]|[_ Hq]]; [|by exists t', q].
    exists t', p. by rewrite Hj.
Qed.

(** [run_client] joins the list ... *)
Lemma members_join C F hd num O T l t a p p' :
  Inv C F hd num O T → members T l → T !! t = Some (Thr a p) → joined p' = true →
  members (<[t := Thr a p']> T) (a :: l).
Proof.
  intros H Hl Ht Hj x. rewrite elem_of_cons, (Hl x). split.
  - intros [->|(t' & q & Hq & Hjq)]; [exists t, p'; by rewrite lookup_insert_eq|].
    destruct (decide (t' = t)) as [->|]; [|exists t', q; by rewrite lookup_insert_ne].
    exists t, p'. rewrite lookup_insert_eq. by simplify_eq.
  - intros (t' & q & Hq & Hjq). rewrite lookup_insert_Some in Hq.
    destruct Hq as [[-> [= <- <-]]|[_ Hq]]; eauto.
Qed.

(** ... and [thread_cleanup] leaves it. *)
Lemma members_leave C F hd num O T l1 l2 t a p p' :
  Inv C F hd num O T → members T (l1 ++ a :: l2) → NoDup (l1 ++ a :: l2) → T !! t = Some (Thr a p) →
  owns p = true → joined p' = false → members (<[t := Thr a p']> T) (l1 ++ l2).
Proof.
  intros H Hl Hnd Ht Ho Hj x. assert (a ∉ l1 ++ l2) as Ha.
  { rewrite <- Permutation_middle in Hnd. by apply NoDup_cons in Hnd as []. }
  assert (x ∈ l1 ++ l2 ↔ x ≠ a ∧ x ∈ l1 ++ a :: l2) as -> by set_solver.
  rewrite (Hl x). split.
  - intros (Hx & t' & q & Hq & Hjq). exists t', q. rewrite lookup_insert_ne; [done|]. intros ->. congruence.
  - intros (t' & q & Hq & Hjq). rewrite lookup_insert_Some in Hq.
    destruct Hq as [[-> [= <- <-]]|[Hne Hq]]; [congruence|]. split; [|by exists t', q].
    intros ->. apply Hne. eapply args_inj; eauto using joined_owns.
Qed.

(** A step inside a critical section that changes links: what is left to show is
    the stage of the list. *)
Definition rewires (p p' : pc) : bool :=
  implb (owns p') (owns p) && implb (unjoined p') (unjoined p) &&
  eqb (counted p) (counted p') && same_crit p p'.

(** The links of one client change, its predecessor only when it is in the list. *)
Inductive rewired (T : gmap Z thr) (C : gmap Z client) : gmap Z client → Prop :=
  | rw_same : rewired T C C
  | rw_one t b q c x y :
      T !! t = Some (Thr b q) → owns q = true → C !! b = Some c → x = prev c ∨ joined q = true →
      rewired T C (<[b := Client (thread c) (cxstr c) x y]> C).

(** What a rewiring keeps of a client. *)
Lemma rewired_client C F hd num O T C' :
  Inv C F hd num O T → rewired T C C' →
  (∀ b c, C !! b = Some c → ∃ c', C' !! b = Some c' ∧ thread c' = thread c ∧ cxstr c' = cxstr c ∧
     (thread c = None ∨ (∃ t q, T !! t = Some (Thr b q) ∧ unjoined q = true) → prev c' = prev c)) ∧
  (∀ b c', C' !! b = Some c' → ∃ c, C !! b = Some c ∧ cxstr c = cxstr c').
Proof.
  intros H [|t b q c x y Ht Ho Hc Hx]; [split; eauto|]. split.
  - intros b' c'. rewrite lookup_insert. case_decide as Hb; subst; [|eauto]. intros Hb'.
    assert (c' = c) as -> by congruence. eexists. split_and!; [done..|]. simpl.
    destruct (inv_args _ _ _ _ _ _ H _ _ _ Ht Ho) as [_ (c' & Hc' & Hth & _)].
    destruct Hx as [->|Hj]; [done|]. intros [Hn|(t' & q' & Hq' & Hu)]; [congruence|].
    assert (t' = t) as -> by (eapply args_inj; eauto using unjoined_owns).
    apply unjoined_joined in Hu. congruence.
  - intros b' c'. rewrite lookup_insert. case_decide; subst; [|eauto]. intros [= <-]. eauto.
Qed.

Lemma Inv_rewire C C' F hd hd' num O T t a p p' l :
  Inv C F hd num O T → T !! t = Some (Thr a p) → role p' t = true → rewires p p' = true →
  (∀ C F, mem_at C F p') → crit thread_list_mutex p = true → rewired T C C' →
  NoDup l → members (<[t := Thr a p']> T) l → stage C' hd' (Some (Thr a p')) l →
  Inv C' F hd' num O (<[t := Thr a p']> T).
Proof.
  intros H Ht Hrole Hrw Hmem Hcl HC Hnd Hl Hst. destruct (rewired_client _ _ _ _ _ _ _ H HC) as [Hto Hfrom].
  unfold rewires in Hrw. rewrite !andb_true_iff, !implb_true_iff, eqb_true_iff in Hrw.
  destruct Hrw as (((Howns & Hunj) & Hcount) & Hcrit).
  assert (∀ m, crit m p' = crit m p) as Hsame.
  { intros m. apply (forallb_mutexes _ m) in Hcrit. symmetry. by apply eqb_prop. }
  assert (holder O (<[t := Thr a p']> T) = Some (Thr a p')) as Hh.
  { unfold holder. rewrite (proj2 (inv_mutex _ _ _ _ _ _ H thread_list_mutex t)) by eauto. apply lookup_insert_eq. }
  split.
  - intros t' a' q. rewrite lookup_insert_Some. intros [[-> [= <- <-]]|[_ Hq]]; [done|by eapply inv_role].
  - intros t' a' q Hq Ho. assert (∃ q0, T !! t' = Some (Thr a' q0) ∧ owns q0 = true ∧ (unjoined q = true → unjoined q0 = true))
      as (q0 & Hq0 & Ho0 & Hu0).
    { rewrite lookup_insert_Some in Hq. destruct Hq as [[-> [= <- <-]]|[_ Hq]]; eauto. }
    destruct (inv_args _ _ _ _ _ _ H _ _ _ Hq0 Ho0) as [Hn (c & Hc & Hth & Hp)].
    destruct (Hto _ _ Hc) as (c' & Hc' & Hth' & _ & Hp'). split; [done|]. exists c'. split_and!; [done|congruence|].
    intros Hu. rewrite Hp'; [auto|]. right. eauto.
  - intros m t'. rewrite (inv_mutex _ _ _ _ _ _ H m t'). destruct (decide (t' = t)) as [->|Hne].
    + rewrite Ht, lookup_insert_eq. specialize (Hsame m).
      split; intros (? & ? & [= <- <-] & ?); do 2 eexists; (split; [done|congruence]).
    + by rewrite lookup_insert_ne.
  - pose proof (count_move (λ th, counted (at_pc th)) T t _ (Thr a p') Ht) as Hc.
    rewrite (inv_count _ _ _ _ _ _ H). simpl in Hc. rewrite Hcount in Hc. lia.
  - intros b c' (c & Hc & <-)%Hfrom. by eapply inv_stream.
  - intros b d c' d' (c & Hc & <-)%Hfrom (c1 & Hc1 & <-)%Hfrom. by eapply inv_stream_inj.
  - intros t' x q. rewrite lookup_insert_Some. intros [[-> [= <- <-]]|[_ Hq]]; [done|].
    apply (inv_mem _ _ _ _ _ _ H) in Hq. destruct q as [| | | | | | | |[]| |]; simpl in *; try done.
    + destruct Hq as [Hf Hall]. split; [done|]. intros b c' (c & Hc & <-)%Hfrom. eauto.
    + destruct Hq as (Hn & c & Hc & Hth & Hp). split; [done|].
      destruct (Hto _ _ Hc) as (c' & Hc' & Hth' & _ & Hp'). exists c'. split_and!; [done|congruence|].
      rewrite Hp'; auto.
  - exists l. rewrite Hh. done.
Qed.
