(* ===== verification/ServerSteps.v ===== *)
(** * The steps of the server keep the invariant. *)

From Stdlib Require Import ZArith Lia.
From stdpp Require Import base gmap strings numbers option fin_maps functions relations list.
From S2P Require Import Prelude Db ShellCommon Server ServerInv.

Open Scope Z_scope.

(** ** Linking and unlinking *)

Section Links.
Context (C : gmap Z client) (F : gset Z) (hd num : Z) (O : mutex → option Z) (T : gmap Z thr).
Context (H : Inv C F hd num O T).

Lemma own_client t a p : T !! t = Some (Thr a p) → owns p = true →
  ∃ c, C !! a = Some c ∧ thread c = Some t ∧ (unjoined p = true → prev c = NULL) ∧ a ≠ NULL.
Proof. intros Ht Ho. destruct (inv_args _ _ _ _ _ _ H _ _ _ Ht Ho) as [Hn (c & ?)]. exists c. naive_solver. Qed.

(** The list in the stage of the thread that holds its mutex. *)
Lemma list_at t a p :
  T !! t = Some (Thr a p) → crit thread_list_mutex p = true →
  ∃ l, NoDup l ∧ members T l ∧ stage C hd (Some (Thr a p)) l.
Proof.
  intros Ht Hc. destruct (inv_list _ _ _ _ _ _ H) as (l & Hnd & Hl & Hst).
  rewrite (holder_is _ _ _ _ _ _ _ _ _ H Ht Hc) in Hst. by exists l.
Qed.

Lemma member_client l x : members T l → x ∈ l → ∃ t p c, T !! t = Some (Thr x p) ∧ joined p = true ∧ C !! x = Some c ∧ thread c = Some t.
Proof.
  intros Hl (t & p & Ht & Hj)%Hl. destruct (own_client t x p Ht (joined_owns _ Hj)) as (c & Hc & Hth & _).
  by exists t, p, c.
Qed.

Lemma link_next t a c :
  T !! t = Some (Thr a (Run_client LinkNext)) → C !! a = Some c →
  Inv (<[a := Client (thread c) (cxstr c) (prev c) hd]> C) F hd num O (<[t := Thr a (Run_client LinkPrev)]> T).
Proof.
  intros Ht Hc. destruct (list_at t a _ Ht eq_refl) as (l & Hnd & Hl & Hst).
  destruct (own_client t a _ Ht eq_refl) as (c' & Hc' & _ & Hp & _). assert (c' = c) as -> by congruence.
  eapply (Inv_rewire _ _ _ _ _ _ _ _ _ _ _ _ l); try done.
  - exact (inv_role _ _ _ _ _ _ H _ _ _ Ht).
  - eapply rw_one; eauto.
  - by eapply members_same.
  - assert (a ∉ l) as Ha by (rewrite (member_iff _ _ _ _ _ _ _ _ _ _ H Hl Ht); done).
    unfold stage. rewrite links_insert. cbn [prev next]. split; [by rewrite Hp|].
    destruct Hst as [q Hq]. exists q. eapply dseg_ext; [|exact Hq].
    intros b Hb. apply links_insert_ne. by intros ->.
Qed.

Lemma link_prev_nil t a :
  T !! t = Some (Thr a (Run_client LinkPrev)) → hd = NULL →
  Inv C F hd num O (<[t := Thr a (Run_client LinkHead)]> T).
Proof.
  intros Ht Hhd. destruct (list_at t a _ Ht eq_refl) as (l & Hnd & Hl & Ha & q & Hst).
  eapply (Inv_rewire _ _ _ _ _ _ _ _ _ _ _ _ l); try done.
  - exact (inv_role _ _ _ _ _ _ H _ _ _ Ht).
  - constructor.
  - by eapply members_same.
  - split; [done|]. destruct l as [|b l]; [by exists a|]. destruct Hst as (Hb & Hn & _). congruence.
Qed.

Lemma link_prev_cons t a h :
  T !! t = Some (Thr a (Run_client LinkPrev)) → hd ≠ NULL → C !! hd = Some h →
  Inv (<[hd := Client (thread h) (cxstr h) a (next h)]> C) F hd num O (<[t := Thr a (Run_client LinkHead)]> T).
Proof.
  intros Ht Hhd Hh. destruct (list_at t a _ Ht eq_refl) as (l & Hnd & Hl & Ha & q & Hst).
  destruct l as [|b l]; [by destruct Hst|]. destruct Hst as (<- & Hn & n & Hlk & Hst).
  destruct (member_client _ hd Hl ltac:(set_solver)) as (t' & q' & h' & Hq' & Hj' & Hh' & _).
  assert (h' = h) as -> by congruence.
  assert (a ∉ hd :: l) as Hal by (rewrite (member_iff _ _ _ _ _ _ _ _ _ _ H Hl Ht); done).
  destruct (links_inv _ _ _ _ Hlk) as (h' & Hh2 & _ & Hnx). assert (h' = h) as -> by congruence.
  eapply (Inv_rewire _ _ _ _ _ _ _ _ _ _ _ _ (hd :: l)); try done.
  - exact (inv_role _ _ _ _ _ _ H _ _ _ Ht).
  - eapply rw_one; eauto using joined_owns.
  - by eapply members_same.
  - split; [rewrite links_insert_ne by set_solver; done|]. exists q. split_and!; [done..|]. exists n.
    rewrite links_insert. cbn [prev next]. split; [by rewrite Hnx|]. apply NoDup_cons in Hnd as [Hhl _].
    eapply dseg_ext; [|exact Hst]. intros b Hb. apply links_insert_ne. by intros ->.
Qed.

Lemma link_head t a :
  T !! t = Some (Thr a (Run_client LinkHead)) →
  Inv C F a num O (<[t := Thr a (Run_client LinkUnlock)]> T).
Proof.
  intros Ht. destruct (list_at t a _ Ht eq_refl) as (l & Hnd & Hl & Ha & q & Hst).
  destruct (own_client t a _ Ht eq_refl) as (c & _ & _ & _ & Hn).
  assert (a ∉ l) as Hal by (rewrite (member_iff _ _ _ _ _ _ _ _ _ _ H Hl Ht); done).
  eapply (Inv_rewire _ _ _ _ _ _ _ _ _ _ _ _ (a :: l)); try done.
  - exact (inv_role _ _ _ _ _ _ H _ _ _ Ht).
  - constructor.
  - by apply NoDup_cons.
  - by eapply members_join.
  - exists q. split_and!; [done..|]. by exists hd.
Qed.

(** The place of the client in the list. *)
Lemma list_around t a p l :
  members T l → T !! t = Some (Thr a p) → joined p = true → (∃ q, dseg C NULL hd l q NULL) →
  ∃ l1 l2 q e q', l = l1 ++ a :: l2 ∧ dseg C NULL hd l1 q a ∧ links C a = Some (q, e) ∧ dseg C a e l2 q' NULL.
Proof.
  intros Hl Ht Hj [q Hq]. assert (a ∈ l) as (l1 & l2 & ->)%list_elem_of_split by (apply Hl; eauto).
  apply dseg_app in Hq as (q' & e' & H1 & (-> & _ & n & Hn & H2)). by exists l1, l2, q', n, q.
Qed.

Lemma unlink_next_nil t a c :
  T !! t = Some (Thr a (Thread_cleanup UnlinkNext)) → C !! a = Some c → next c = NULL →
  Inv C F hd num O (<[t := Thr a (Thread_cleanup UnlinkPrev)]> T).
Proof.
  intros Ht Hc Hn. destruct (list_at t a _ Ht eq_refl) as (l & Hnd & Hl & Hst).
  destruct (list_around _ _ _ _ Hl Ht eq_refl Hst) as (l1 & l2 & q & e & q' & -> & H1 & Ha & H2).
  assert (e = NULL) as -> by (unfold links in Ha; rewrite Hc in Ha; simpl in Ha; congruence).
  eapply (Inv_rewire _ _ _ _ _ _ _ _ _ _ _ _ (l1 ++ a :: l2)); try done.
  - exact (inv_role _ _ _ _ _ _ H _ _ _ Ht).
  - constructor.
  - by eapply members_same.
  - destruct l2 as [|b l2]; [|destruct H2 as (<- & Hb & _); done].
    exists l1, [], q, NULL, q. done.
Qed.

Lemma unlink_next_cons t a c n :
  T !! t = Some (Thr a (Thread_cleanup UnlinkNext)) → C !! a = Some c → next c ≠ NULL →
  C !! next c = Some n →
  Inv (<[next c := Client (thread n) (cxstr n) (prev c) (next n)]> C) F hd num O
    (<[t := Thr a (Thread_cleanup UnlinkPrev)]> T).
Proof.
  intros Ht Hc Hn Hcn. destruct (list_at t a _ Ht eq_refl) as (l & Hnd & Hl & Hst).
  destruct (list_around _ _ _ _ Hl Ht eq_refl Hst) as (l1 & l2 & q & e & q' & -> & H1 & Ha & H2).
  assert (prev c = q ∧ next c = e) as [Hpc Hne] by (unfold links in Ha; rewrite Hc in Ha; simpl in Ha; naive_solver).
  rewrite Hne in *. destruct l2 as [|b l2]; [by destruct H2|]. destruct H2 as (<- & _ & n' & Hlk & H2).
  destruct (member_client _ e Hl ltac:(set_solver)) as (t' & p' & c' & Ht' & Hj' & Hc' & _).
  destruct (links_inv _ _ _ _ Hlk) as (n0 & Hn0 & _ & Hnx). assert (n0 = n) as -> by congruence.
  apply NoDup_app in Hnd as Hnd'. destruct Hnd' as (_ & Hdis & [Hal [Hel _]%NoDup_cons]%NoDup_cons).
  eapply (Inv_rewire _ _ _ _ _ _ _ _ _ _ _ _ (l1 ++ a :: e :: l2)); try done.
  - exact (inv_role _ _ _ _ _ _ H _ _ _ Ht).
  - eapply rw_one; eauto using joined_owns.
  - by eapply members_same.
  - exists l1, (e :: l2), q, e, q'. split; [done|]. split.
    + eapply dseg_ext; [|exact H1]. intros b Hb. apply links_insert_ne. intros ->. set_solver.
    + split; [rewrite links_insert_ne by set_solver; done|]. split_and!; [done..|]. exists n'.
      rewrite links_insert. cbn [prev next]. split; [by rewrite Hpc, Hnx|].
      eapply dseg_ext; [|exact H2]. intros b Hb. apply links_insert_ne. by intros ->.
Qed.

Lemma unlink_prev_nil t a c :
  T !! t = Some (Thr a (Thread_cleanup UnlinkPrev)) → C !! a = Some c → prev c = NULL →
  Inv C F (next c) num O (<[t := Thr a (Thread_cleanup UnlinkUnlock)]> T).
Proof.
  intros Ht Hc Hp. destruct (list_at t a _ Ht eq_refl) as (l & Hnd & Hl & l1 & l2 & q & e & q' & -> & H1 & Ha & H2).
  assert (q = NULL ∧ next c = e) as [-> ->] by (unfold links in Ha; rewrite Hc in Ha; simpl in Ha; naive_solver).
  assert (l1 = []) as ->.
  { apply dseg_snoc in H1 as [(_ & -> & _)|(? & ? & _ & _ & _ & Hq)]; done. }
  eapply (Inv_rewire _ _ _ _ _ _ _ _ _ _ _ _ l2); try done.
  - exact (inv_role _ _ _ _ _ _ H _ _ _ Ht).
  - constructor.
  - by apply NoDup_cons in Hnd as [].
  - by eapply (members_leave _ _ _ _ _ _ [] l2).
  - by exists q'.
Qed.

Lemma unlink_prev_cons t a c q :
  T !! t = Some (Thr a (Thread_cleanup UnlinkPrev)) → C !! a = Some c → prev c ≠ NULL →
  C !! prev c = Some q →
  Inv (<[prev c := Client (thread q) (cxstr q) (prev q) (next c)]> C) F hd num O
    (<[t := Thr a (Thread_cleanup UnlinkUnlock)]> T).
Proof.
  intros Ht Hc Hp Hcq. destruct (list_at t a _ Ht eq_refl) as (l & Hnd & Hl & l1 & l2 & q0 & e & q' & -> & H1 & Ha & H2).
  assert (prev c = q0 ∧ next c = e) as [Hpc Hne] by (unfold links in Ha; rewrite Hc in Ha; simpl in Ha; naive_solver).
  rewrite Hpc, Hne in *. apply dseg_snoc in H1 as [(-> & _)|(l1' & r & -> & H1 & Hlk & _)]; [done|].
  destruct (member_client _ q0 Hl ltac:(set_solver)) as (t' & p' & c' & Ht' & Hj' & Hc' & _).
  destruct (links_inv _ _ _ _ Hlk) as (n0 & Hn0 & Hpr & _). assert (n0 = q) as -> by congruence.
  assert (NoDup ((l1' ++ [q0]) ++ l2)) as Hnd1.
  { rewrite <- Permutation_middle in Hnd. by apply NoDup_cons in Hnd as []. }
  assert (NoDup (q0 :: l1' ++ l2)) as [Hq0 _]%NoDup_cons.
  { rewrite <- app_assoc in Hnd1. simpl in Hnd1. by rewrite <- Permutation_middle in Hnd1. }
  eapply (Inv_rewire _ _ _ _ _ _ _ _ _ _ _ _ ((l1' ++ [q0]) ++ l2)); try done.
  - exact (inv_role _ _ _ _ _ _ H _ _ _ Ht).
  - eapply rw_one; eauto using joined_owns.
  - by eapply members_leave.
  - exists q'. apply dseg_app. exists q0, e. split; [apply dseg_app; exists r, q0; split|].
    + eapply dseg_ext; [|exact H1]. intros b Hb. apply links_insert_ne. intros ->. set_solver.
    + split_and!; [done..|]. exists e. rewrite links_insert. cbn [prev next]. by rewrite Hpr.
    + eapply dseg_ext; [|exact H2]. intros b Hb. apply links_insert_ne. intros ->. set_solver.
Qed.

(** ** [delete_all] *)

Lemma keep_owner t a p p' m :
  T !! t = Some (Thr a p) → crit m p' = crit m p →
  O m = (if crit m p' then Some t else if crit m p then None else O m).
Proof.
  intros Ht Hc. rewrite Hc. destruct (crit m p) eqn:Hp; [|done]. apply (inv_mutex _ _ _ _ _ _ H). eauto.
Qed.

(** A step of the walk: the mutex stays with the walker. *)
Lemma walk_move t a k p p' :
  T !! t = Some (Thr a (Delete_all k p)) → role (Delete_all k p') t = true →
  crit thread_list_mutex (Delete_all k p) = true → crit thread_list_mutex (Delete_all k p') = true →
  (∀ l, stage C hd (Some (Thr a (Delete_all k p))) l → stage C hd (Some (Thr a (Delete_all k p'))) l) →
  Inv C F hd num O (<[t := Thr a (Delete_all k p')]> T).
Proof.
  intros Ht Hr Hc Hc' Hst.
  assert (∀ m, crit m (Delete_all k p') = crit m (Delete_all k p)) as Hsame.
  { intros []; [congruence|done..]. }
  eapply (Inv_move _ _ _ num num O O); try done.
  - intros m. by eapply keep_owner.
  - intros m. rewrite Hsame. auto.
  - intros l. rewrite (holder_is _ _ _ _ _ _ _ _ _ H Ht Hc). unfold holder.
    rewrite (proj2 (inv_mutex _ _ _ _ _ _ H thread_list_mutex t)) by eauto. simpl.
    rewrite lookup_insert_eq. apply Hst.
Qed.

Lemma walk_start t a k :
  T !! t = Some (Thr a (Delete_all k DelHead)) →
  Inv C F hd num O (<[t := Thr a (Delete_all k (DelWalk hd))]> T).
Proof.
  intros Ht. eapply walk_move; [done|exact (inv_role _ _ _ _ _ _ H _ _ _ Ht)|done..|].
  intros l [q Hq]. by exists [], l, NULL, q.
Qed.

Lemma walk_end t a k :
  T !! t = Some (Thr a (Delete_all k (DelWalk NULL))) →
  Inv C F hd num O (<[t := Thr a (Delete_all k DelUnlock)]> T).
Proof.
  intros Ht. eapply walk_move; [done|exact (inv_role _ _ _ _ _ _ H _ _ _ Ht)|done..|].
  intros l (l1 & l2 & q & q' & -> & H1 & H2). exists q'. apply dseg_app. eauto.
Qed.

(** The client the walk has reached is in the list. *)
Lemma walk_client t a k cur :
  T !! t = Some (Thr a (Delete_all k (DelWalk cur))) → cur ≠ NULL →
  ∃ t' p c, T !! t' = Some (Thr cur p) ∧ joined p = true ∧ C !! cur = Some c ∧ thread c = Some t'.
Proof.
  intros Ht Hcur. destruct (list_at t a _ Ht eq_refl) as (l & _ & Hl & l1 & l2 & q & q' & -> & _ & H2).
  eapply member_client; [done|]. destruct l2 as [|b l2]; [by destruct H2|]. destruct H2 as (-> & _). set_solver.
Qed.

Lemma walk_next t a k cur c :
  T !! t = Some (Thr a (Delete_all k (DelWalk cur))) → cur ≠ NULL → C !! cur = Some c →
  Inv C F hd num O (<[t := Thr a (Delete_all k (DelWalk (next c)))]> T).
Proof.
  intros Ht Hcur Hc. eapply walk_move; [done|exact (inv_role _ _ _ _ _ _ H _ _ _ Ht)|done..|].
  intros l (l1 & l2 & q & q' & -> & H1 & H2). destruct l2 as [|b l2]; [by destruct H2|].
  destruct H2 as (-> & Hb & n & Hn & H2).
  assert (next c = n) as -> by (unfold links in Hn; rewrite Hc in Hn; simpl in Hn; congruence).
  exists (l1 ++ [b]), l2, b, q'. split_and!; [by rewrite <- app_assoc| |done].
  apply dseg_app. exists q, b. split; [done|]. split_and!; [done..|]. exists n. done.
Qed.

(** ** Creating and destroying clients *)

(** Changes of the memory that no thread with a client sees. *)
Lemma Inv_memory C' F' :
  (∀ t x q, T !! t = Some (Thr x q) → owns q = true → C' !! x = C !! x) →
  (∀ a c, C' !! a = Some c → cxstr c ∈ F') →
  (∀ a b c d, C' !! a = Some c → C' !! b = Some d → cxstr c = cxstr d → a = b) →
  (∀ t a p, T !! t = Some (Thr a p) → mem_at C' F' p) →
  Inv C' F' hd num O T.
Proof.
  intros Hown HF Hinj Hmem. split; try done; try apply H.
  { intros t a p Ht Ho. destruct (inv_args _ _ _ _ _ _ H _ _ _ Ht Ho) as [Hn Hc]. split; [done|].
    by rewrite (Hown t a p Ht Ho). }
  destruct (inv_list _ _ _ _ _ _ H) as (l & Hnd & Hl & Hst). exists l. split_and!; [done..|].
  assert (∀ x, x ∈ l → links C' x = links C x) as Hin.
  { intros x (t' & q & Hq & Hjq)%Hl. unfold links. by rewrite (Hown _ _ _ Hq (joined_owns _ Hjq)). }
  assert (∀ x y l1 q e, (∀ z, z ∈ l1 → z ∈ l) → dseg C x y l1 q e → dseg C' x y l1 q e) as Hd.
  { intros x y l1 q e Hsub. apply dseg_ext. auto. }
  destruct (holder O T) as [[b r]|] eqn:Hh; unfold stage in *.
  2: { destruct Hst as [q Hq]. exists q. by eapply Hd. }
  assert (unjoined r = true → links C' b = links C b) as Hb.
  { intros Hu. unfold holder in Hh. destruct (O thread_list_mutex) as [t'|]; [|done]. simpl in Hh.
    unfold links. by rewrite (Hown _ _ _ Hh (unjoined_owns _ Hu)). }
  destruct r as [[]|[]|[]|? []|[]|[]|[]|[]|[]|[]|];
    try (destruct Hst as [q Hq]; exists q; by eapply Hd);
    try (destruct Hst as [Hbl [q Hq]]; split; [by rewrite Hb|]; exists q; by eapply Hd).
  - destruct Hst as (l1 & l2 & q & e & q' & -> & H1 & Hbl & H2). exists l1, l2, q, e, q'.
    split_and!; [done| |rewrite Hin by set_solver; done|]; eapply Hd; try done; set_solver.
  - destruct Hst as (l1 & l2 & q & q' & -> & H1 & H2). exists l1, l2, q, q'.
    split_and!; [done|..]; eapply Hd; try done; set_solver.
Qed.
End Links.

(** Only the listener sets up clients. *)
Lemma mem_other C F hd num O T t a p C' F' :
  Inv C F hd num O T →
  (∀ a q, T !! listener_tid = Some (Thr a q) → mem_at C' F' q) →
  T !! t = Some (Thr a p) → mem_at C' F' p.
Proof.
  intros H Hl Ht. pose proof (inv_role _ _ _ _ _ _ H _ _ _ Ht) as Hr.
  destruct p; try done. simpl in Hr. apply Z.eqb_eq in Hr as ->. by eapply Hl.
Qed.

Section Memory.
Context (C : gmap Z client) (F : gset Z) (hd num : Z) (O : mutex → option Z) (T : gmap Z thr).
Context (H : Inv C F hd num O T).

(** [client_destructor] *)
Lemma leave_destroy t a c :
  T !! t = Some (Thr a (Thread_cleanup LeaveDestroy)) → C !! a = Some c →
  Inv (delete a C) (F ∖ {[cxstr c]}) hd num O (<[t := Thr a (Thread_cleanup LeaveSignal)]> T).
Proof.
  intros Ht Hc.
  assert (Inv C F hd num O (<[t := Thr a (Thread_cleanup LeaveSignal)]> T)) as H'.
  { eapply Inv_goto; [done|done|exact (inv_role _ _ _ _ _ _ H _ _ _ Ht)|done..]. }
  destruct (own_client _ _ _ _ _ _ H _ _ _ Ht eq_refl) as (c0 & Hc0 & Hth & _). assert (c0 = c) as -> by congruence.
  eapply Inv_memory; [done|..].
  - intros t' x q Hq Ho. apply lookup_delete_ne. intros <-. rewrite lookup_insert_Some in Hq.
    destruct Hq as [[-> [= <-]]|[Hne Hq]]; [done|]. apply Hne.
    by eapply (args_inj _ _ _ _ _ _ _ _ _ _ _ H Ht).
  - intros b d Hb%lookup_delete_Some. destruct Hb as [Hne Hb]. apply elem_of_difference.
    split; [by eapply inv_stream|]. rewrite elem_of_singleton. intros Heq. apply Hne.
    by eapply (inv_stream_inj _ _ _ _ _ _ H).
  - intros x y d e Hd%lookup_delete_Some He%lookup_delete_Some. destruct Hd, He. by eapply (inv_stream_inj _ _ _ _ _ _ H).
  - intros t' x q Hq. pose proof (inv_mem _ _ _ _ _ _ H' _ _ _ Hq) as Hm.
    destruct q as [| | | | | | | |[]| |]; simpl in *; try done.
    + destruct Hm as [Hf Hall]. split; [set_solver|]. intros b d Hb%lookup_delete_Some. destruct Hb. eauto.
    + destruct Hm as (Hn & d & Hd & Hdt & Hp). split; [done|]. exists d. split_and!; [|done..].
      rewrite lookup_delete_ne; [done|]. intros ->. congruence.
Qed.

(** A connection is accepted ... *)
Lemma accept_stream x f :
  T !! listener_tid = Some (Thr x (Listener Accept)) → f ∉ F →
  Inv C ({[f]} ∪ F) hd num O (<[listener_tid := Thr x (Listener (ClientAlloc f))]> T).
Proof.
  intros Ht Hf.
  assert (Inv C ({[f]} ∪ F) hd num O T) as H'.
  { eapply Inv_memory; [done|done| | |].
    - intros a c Hc. apply elem_of_union_r. by eapply inv_stream.
    - apply H.
    - intros t a p. apply (mem_other _ _ _ _ _ _ _ _ _ _ _ H). intros ? q Hq. by simplify_eq. }
  eapply Inv_goto; [done..| |done]. simpl. split; [set_solver|]. intros a c Hc <-. apply Hf. by eapply inv_stream.
Qed.

(** ... and a [client_t] allocated for it. *)
Lemma alloc_client x f a :
  T !! listener_tid = Some (Thr x (Listener (ClientAlloc f))) → a ≠ NULL → C !! a = None →
  Inv (<[a := Client None f NULL NULL]> C) F hd num O (<[listener_tid := Thr x (Listener (ClientCreate a))]> T).
Proof.
  intros Ht Ha Hc. destruct (inv_mem _ _ _ _ _ _ H _ _ _ Ht) as [Hf Hall].
  assert (Inv C F hd num O (<[listener_tid := Thr x (Listener Accept)]> T)) as H' by (eapply Inv_goto; done).
  rewrite <- (insert_insert_eq T listener_tid (Thr x (Listener (ClientCreate a))) (Thr x (Listener Accept))).
  eapply Inv_goto; [|apply lookup_insert_eq|done..| |done].
  2: { simpl. split; [done|]. eexists. by rewrite lookup_insert_eq. }
  eapply Inv_memory; [done|..].
  - intros t' y q Hq Ho. rewrite lookup_insert_ne; [done|]. intros ->.
    destruct (own_client _ _ _ _ _ _ H' _ _ _ Hq Ho) as (c & Hc' & _). congruence.
  - intros b d. rewrite lookup_insert_Some. intros [[_ <-]|[_ Hd]]; [done|by eapply inv_stream].
  - intros b b' d d'. rewrite !lookup_insert_Some. intros [[<- <-]|[_ Hd]] [[<- <-]|[_ Hd']] Heq; simpl in *; try done.
    + by destruct (Hall _ _ Hd').
    + by destruct (Hall _ _ Hd).
    + by eapply (inv_stream_inj _ _ _ _ _ _ H).
  - intros t' y q. apply (mem_other _ _ _ _ _ _ _ _ _ _ _ H'). intros ? q' Hq'.
    rewrite lookup_insert_eq in Hq'. by simplify_eq.
Qed.

(** A new thread that holds nothing. *)
Lemma Inv_spawn t a p :
  T !! t = None → role p t = true → (owns p = true → args_at C t a p) → joined p = false →
  counted p = false → (∀ m, crit m p = false) → mem_at C F p →
  Inv C F hd num O (<[t := Thr a p]> T).
Proof.
  intros Ht Hr Ha Hj Hcnt Hcrit Hmem. split; try apply H.
  - intros t' x q. rewrite lookup_insert_Some. intros [[-> [= <- <-]]|[_ Hq]]; [done|by eapply inv_role].
  - intros t' x q. rewrite lookup_insert_Some. intros [[-> [= <- <-]]|[_ Hq]]; [done|by eapply inv_args].
  - intros m t'. rewrite (inv_mutex _ _ _ _ _ _ H m t'). split; intros (x & q & Hq & Hc).
    + exists x, q. rewrite lookup_insert_ne; [done|]. intros ->. congruence.
    + rewrite lookup_insert_Some in Hq. destruct Hq as [[-> [= <- <-]]|[_ Hq]]; [congruence|eauto].
  - rewrite (count_insert (λ th, counted (at_pc th))) by done. simpl. rewrite Hcnt. apply (inv_count _ _ _ _ _ _ H).
  - intros t' x q. rewrite lookup_insert_Some. intros [[-> [= <- <-]]|[_ Hq]]; [done|by eapply inv_mem].
  - destruct (inv_list _ _ _ _ _ _ H) as (l & Hnd & Hl & Hst). exists l. split_and!; [done|..].
    + intros x. rewrite Hl. split; intros (t' & q & Hq & Hjq).
      * exists t', q. rewrite lookup_insert_ne; [done|]. intros ->. congruence.
      * rewrite lookup_insert_Some in Hq. destruct Hq as [[-> [= <- <-]]|[_ Hq]]; [congruence|eauto].
    + replace (holder O (<[t := Thr a p]> T)) with (holder O T); [done|]. unfold holder.
      destruct (O thread_list_mutex) as [t'|] eqn:HO; [|done]. simpl.
      apply (inv_mutex _ _ _ _ _ _ H) in HO as (x & q & Hq & _). rewrite lookup_insert_ne; [done|].
      intros ->. congruence.
Qed.

End Memory.

(** [pthread_create] in [client_constructor]. *)
Lemma create_client C F hd num O T x a c t :
  Inv C F hd num O T → T !! listener_tid = Some (Thr x (Listener (ClientCreate a))) → C !! a = Some c →
  T !! t = None → listener_tid < t →
  Inv (<[a := Client (Some t) (cxstr c) (prev c) (next c)]> C) F hd num O
    (<[listener_tid := Thr x (Listener (ClientDetach a))]> (<[t := Thr a (Run_client TestAccepting)]> T)).
Proof.
  intros H Hl Hc Ht Hlt. destruct (inv_mem _ _ _ _ _ _ H _ _ _ Hl) as (Hn & c' & Hc' & Hth & Hp).
  assert (c' = c) as -> by congruence. rewrite insert_insert_ne by lia.
  assert (Inv C F hd num O (<[listener_tid := Thr x (Listener (ClientDetach a))]> T)) as H' by (eapply Inv_goto; done).
  apply Inv_spawn; try done.
  - eapply Inv_memory; [done|..].
    + intros t' y q Hq Ho. rewrite lookup_insert_ne; [done|]. intros ->.
      destruct (own_client _ _ _ _ _ _ H' _ _ _ Hq Ho) as (c' & Hc1 & Hth' & _). congruence.
    + intros b d. rewrite lookup_insert_Some. intros [[_ <-]|[_ Hd]]; simpl; by eapply (inv_stream _ _ _ _ _ _ H).
    + intros b b' d d'. rewrite !lookup_insert_Some.
      intros [[<- <-]|[_ Hd]] [[<- <-]|[_ Hd']] Heq; simpl in *; try done; by eapply (inv_stream_inj _ _ _ _ _ _ H).
    + intros t' y q. apply (mem_other _ _ _ _ _ _ _ _ _ _ _ H'). intros ? q' Hq'.
      rewrite lookup_insert_eq in Hq'. by simplify_eq.
  - rewrite lookup_insert_ne; [done|]. lia.
  - simpl. by apply Z.ltb_lt.
  - intros _. split; [done|]. eexists. rewrite lookup_insert_eq. done.
  - by intros [].
Qed.

(** [pthread_cond_broadcast]: waking threads changes none of their classes. *)
Lemma Inv_broadcast C F hd num O T :
  Inv C F hd num O T → Inv C F hd num O (wake_client <$> T).
Proof.
  intros H.
  assert (∀ t a p, (wake_client <$> T) !! t = Some (Thr a p) → ∃ p0, T !! t = Some (Thr a p0) ∧
    role p = role p0 ∧ owns p = owns p0 ∧ unjoined p = unjoined p0 ∧ joined p = joined p0 ∧
    (∀ m, crit m p = crit m p0) ∧ (mem_at C F p0 → mem_at C F p)) as Hfrom.
  { intros t a p. rewrite lookup_fmap, fmap_Some. intros ([a0 p0] & Hp0 & Heq).
    exists p0. unfold wake_client in Heq. simpl in Heq.
    destruct p0 as [|[]| | | | | | | | |]; simplify_eq/=; done. }
  assert (∀ t a p0, T !! t = Some (Thr a p0) → ∃ p, (wake_client <$> T) !! t = Some (Thr a p) ∧
    joined p = joined p0 ∧ (∀ m, crit m p = crit m p0)) as Hto.
  { intros t a p0 Hp0. rewrite lookup_fmap, Hp0. simpl. unfold wake_client. simpl.
    destruct p0 as [|[]| | | | | | | | |]; eexists; done. }
  split; try apply H.
  - intros t a p (p0 & Hp0 & -> & _)%Hfrom. by eapply inv_role.
  - intros t a p (p0 & Hp0 & _ & -> & Hu & _)%Hfrom Ho. destruct (inv_args _ _ _ _ _ _ H _ _ _ Hp0 Ho) as [Hn Hc].
    split; [done|]. by rewrite Hu.
  - intros m t. rewrite (inv_mutex _ _ _ _ _ _ H m t). split; intros (a & p & Hp & Hc).
    + apply Hto in Hp as (p' & Hp' & _ & Hcr). exists a, p'. by rewrite Hcr.
    + apply Hfrom in Hp as (p0 & Hp0 & _ & _ & _ & _ & Hcr & _). exists a, p0. by rewrite <- Hcr.
  - rewrite (inv_count _ _ _ _ _ _ H), map_filter_fmap, map_size_fmap. do 2 f_equal. apply map_filter_ext.
    intros t [a p] _. simpl. unfold wake_client. simpl. by destruct p as [|[]| | | | | | | | |].
  - intros t a p (p0 & Hp0 & _ & _ & _ & _ & _ & Hm)%Hfrom. by eapply Hm, inv_mem.
  - destruct (inv_list _ _ _ _ _ _ H) as (l & Hnd & Hl & Hst). exists l. split_and!; [done|..].
    + intros x. rewrite Hl. split; intros (t & p & Hp & Hj).
      * apply Hto in Hp as (p' & Hp' & Hj' & _). exists t, p'. by rewrite Hj'.
      * apply Hfrom in Hp as (p0 & Hp0 & _ & _ & _ & Hj' & _). exists t, p0. by rewrite <- Hj'.
    + replace (holder O (wake_client <$> T)) with (holder O T); [done|]. unfold holder.
      destruct (O thread_list_mutex) as [t|] eqn:HO; [|done]. simpl.
      apply (inv_mutex _ _ _ _ _ _ H) in HO as (a & p & Hp & Hc). rewrite lookup_fmap, Hp. simpl.
      unfold wake_client. simpl. destruct p as [|[]| | | | | | | | |]; done.
Qed.
