(* ===== verification/ServerProofs.v ===== *)
(** * The server never leaves its invariant and faults in two places only. *)

From Stdlib Require Import ZArith Lia.
From stdpp Require Import base gmap strings numbers option fin_maps functions relations list.
From S2P Require Import Prelude Db ShellCommon Server ServerInv ServerSteps.

Open Scope Z_scope.

(** ** What each primitive does when it succeeds *)

Lemma goto_inv t p s u s' :
  goto t p s = Ok (u, s') →
  ∃ a q, threads s !! t = Some (Thr a q) ∧ s' = set_threads (<[t := Thr a p]> (threads s)) s.
Proof. unfold goto. destruct (threads s !! t) as [[a q]|]; [|done]. intros [= _ <-]. by exists a, q. Qed.

Lemma lock_inv t m s u s' :
  pthread_mutex_lock t m s = Ok (u, s') → owner s m = None ∧ s' = set_owner (<[m := Some t]> (owner s)) s.
Proof. unfold pthread_mutex_lock. destruct (owner s m); [done|]. by intros [= _ <-]. Qed.

Lemma unlock_inv t m s u s' :
  pthread_mutex_unlock t m s = Ok (u, s') → s' = set_owner (<[m := None]> (owner s)) s.
Proof. unfold pthread_mutex_unlock. case_decide; [|done]. by intros [= _ <-]. Qed.

Lemma client_at_inv a s c s' : client_at a s = Ok (c, s') → clients s !! a = Some c ∧ s' = s.
Proof. unfold client_at, deref. destruct (clients s !! a); [|done]. by intros [= <- <-]. Qed.

Lemma put_client_inv a c s u s' :
  put_client a c s = Ok (u, s') → s' = set_clients (<[a := c]> (clients s)) s.
Proof.
  unfold put_client. intros (c' & s1 & (_ & ->)%client_at_inv & Hm)%ST_bind_inv. by injection Hm.
Qed.

Lemma cancel_inv t s u s' :
  pthread_cancel t s = Ok (u, s') →
  ∃ t' th, t = Some t' ∧ threads s !! t' = Some th ∧ at_pc th ≠ Exited ∧ s' = set_cancels ({[t']} ∪ cancels s) s.
Proof.
  unfold pthread_cancel. intros Hc. destruct t as [t|]; [|done]. destruct (threads s !! t) as [th|] eqn:Ht; [|done].
  exists t, th. destruct (at_pc th) eqn:Hp; try done; by simplify_eq.
Qed.

Lemma modify_inv {S} (f : S → S) s u s' : modify f s = Ok (u, s') → s' = f s.
Proof. by intros [= _ <-]. Qed.

Lemma get_inv {S} (s a s' : S) : get s = Ok (a, s') → a = s ∧ s' = s.
Proof. by intros [= <- <-]. Qed.

Lemma assertb_inv {S} (b : bool) (s : S) u s' : assertb b s = Ok (u, s') → b = true ∧ s' = s.
Proof. destruct b; [|done]. by intros [= _ <-]. Qed.

Lemma ret_inv {S A} (a : A) (s : S) u s' : (mret a : ST S A) s = Ok (u, s') → u = a ∧ s' = s.
Proof. by intros [= <- <-]. Qed.

Lemma shutdown_inv f s u s' :
  comm_shutdown f s = Ok (u, s') → f ∈ streams s ∧ s' = set_streams (streams s ∖ {[f]}) s.
Proof. unfold comm_shutdown. case_decide; [|done]. by intros [= _ <-]. Qed.

Lemma signal_inv s u s' :
  signal_server s = Ok (u, s') →
  (s' = s ∧ ∀ a, threads s !! main_tid ≠ Some (Thr a (Main DrainWait))) ∨
  ∃ a, threads s !! main_tid = Some (Thr a (Main DrainWait)) ∧
               s' = set_threads (<[main_tid := Thr a (Main DrainRelock)]> (threads s)) s.
Proof.
  unfold signal_server. intros Hs.
  destruct (threads s !! main_tid) as [[a [| | | | | | | | |[]|]]|]; simplify_eq; eauto; left; naive_solver.
Qed.

Ltac clean := cbn [clients streams thread_list_head num_client_threads stopped accepting_clients owner threads
    cancels handler_live cleaned set_clients set_streams set_head set_num set_stopped set_accepting set_owner
    set_threads set_cancels set_handler set_cleaned arg at_pc] in *.

(** Runs the inversions above over a step that succeeded. *)
Ltac inv_step :=
  repeat match goal with
  | H : (_ ≫= _) _ = Ok (_, _) |- _ =>
      let a := fresh "r" in let s := fresh "s" in let E := fresh "E" in
      apply ST_bind_inv in H as (a & s & E & H); cbn beta in H
  | H : get _ = Ok (_, _) |- _ => apply get_inv in H as (-> & ->)
  | H : (mret _) _ = Ok (_, _) |- _ => apply ret_inv in H as (-> & ->)
  | H : fail _ _ = Ok (_, _) |- _ => discriminate
  | H : disabled _ = Ok (_, _) |- _ => discriminate
  | H : assertb _ _ = Ok (_, _) |- _ => apply assertb_inv in H as (? & ->)
  | H : modify _ _ = Ok (_, _) |- _ => apply modify_inv in H as ->
  | H : pthread_mutex_lock _ _ _ = Ok (_, _) |- _ => apply lock_inv in H as (? & ->)
  | H : pthread_mutex_unlock _ _ _ = Ok (_, _) |- _ => apply unlock_inv in H as ->
  | H : client_at _ _ = Ok (_, _) |- _ => apply client_at_inv in H as (? & ->)
  | H : put_client _ _ _ = Ok (_, _) |- _ => apply put_client_inv in H as ->
  | H : pthread_cancel _ _ = Ok (_, _) |- _ => apply cancel_inv in H as (? & ? & ? & ? & ? & ->)
  | H : comm_shutdown _ _ = Ok (_, _) |- _ => apply shutdown_inv in H as (? & ->)
  | H : goto _ _ _ = Ok (_, _) |- _ => apply goto_inv in H as (? & ? & ? & ->)
  | H : context [if ?b then _ else _] |- _ =>
      lazymatch type of H with _ = Ok (_, _) => let E := fresh "B" in destruct b eqn:E end
  | H : (if _ then _ else _) _ = Ok (_, _) |- _ => case_match
  end; clean; simplify_eq.

(** [role] of a program counter of the same thread. *)
Ltac same_role :=
  match goal with
  | H : server_ok ?s, Ht : threads ?s !! ?t = Some (Thr _ _) |- role _ ?t = true =>
      first [done | exact (inv_role _ _ _ _ _ _ H _ _ _ Ht)]
  end.

Ltac plain_step :=
  unfold server_ok; clean;
  first
    [ eapply Inv_goto; [eassumption|eassumption|same_role|reflexivity|exact I|cbn [counted Z.b2z]; lia]
    | eapply Inv_lock; [eassumption|eassumption|eassumption|same_role|exact I|reflexivity]
    | eapply Inv_unlock; [eassumption|eassumption|same_role|exact I|reflexivity]
    | assumption ].

Lemma run_client_ok t a p e s s' :
  server_ok s → threads s !! t = Some (Thr a (Run_client p)) →
  run_client_step t a p e s = Ok (tt, s') → server_ok s'.
Proof.
  intros H Ht He. unfold run_client_step in He. destruct p, e; inv_step; try plain_step; unfold server_ok; clean.
  - by apply link_next.
  - apply link_prev_cons; [done|done| |done]. by apply negb_true_iff, Z.eqb_neq in B.
  - apply link_prev_nil; [done|done|]. by apply negb_false_iff, Z.eqb_eq in B.
  - by eapply link_head.
Qed.

Lemma client_control_wait_ok t a p e s s' :
  server_ok s → threads s !! t = Some (Thr a (Client_control_wait p)) →
  client_control_wait_step t p e s = Ok (tt, s') → server_ok s'.
Proof.
  intros H Ht He. unfold client_control_wait_step in He. destruct p, e; inv_step; plain_step.
Qed.

Lemma owner_nonnull t a p s : server_ok s → threads s !! t = Some (Thr a p) → owns p = true → (a =? NULL) = false.
Proof. intros H Ht Ho. apply Z.eqb_neq. by destruct (inv_args _ _ _ _ _ _ H _ _ _ Ht Ho). Qed.

(** The main thread is none of the clients. *)
Lemma client_not_main t a p s :
  server_ok s → threads s !! t = Some (Thr a p) → (∀ t, role p t = (listener_tid <? t)) → t ≠ main_tid.
Proof. intros H Ht Hr ->. apply (inv_role _ _ _ _ _ _ H) in Ht. rewrite Hr in Ht. done. Qed.

(** [pthread_cond_signal] moves main back to its test. *)
Lemma signal_ok s s1 u : server_ok s → signal_server s = Ok (u, s1) → server_ok s1.
Proof.
  intros H [[-> _]|(a & Ha & ->)]%signal_inv; [done|]. unfold server_ok; clean.
  eapply Inv_goto; [done|done|done|done|done|simpl; lia].
Qed.

Lemma signal_other s s1 u t :
  signal_server s = Ok (u, s1) → t ≠ main_tid → threads s1 !! t = threads s !! t.
Proof. intros [[-> _]|(a & Ha & ->)]%signal_inv Ht; [done|]. clean. by rewrite lookup_insert_ne. Qed.

Lemma thread_cleanup_ok t a p e s s' :
  server_ok s → threads s !! t = Some (Thr a (Thread_cleanup p)) →
  thread_cleanup_step t a p e s = Ok (tt, s') → server_ok s'.
Proof.
  intros H Ht He. pose proof (owner_nonnull t a _ s H Ht) as Hn.
  unfold thread_cleanup_step, client_destructor in He.
  destruct p, e; inv_step; try plain_step; try discriminate (Hn eq_refl); unfold server_ok; clean.
  - apply unlink_next_cons; try done. by apply negb_true_iff, Z.eqb_neq in B.
  - eapply unlink_next_nil; try done. by apply negb_false_iff, Z.eqb_eq in B.
  - apply unlink_prev_cons; try done. by apply negb_true_iff, Z.eqb_neq in B.
  - eapply unlink_prev_nil; try done. by apply negb_false_iff, Z.eqb_eq in B.
  - by apply leave_destroy.
  - rename select (signal_server _ = _) into E. assert (t ≠ main_tid) as Hm by (by eapply client_not_main).
    pose proof (signal_ok _ _ _ H E) as H1. rewrite (signal_other _ _ _ _ E Hm) in *. simplify_eq.
    eapply Inv_goto; [exact H1|by rewrite (signal_other _ _ _ _ E Hm)|same_role|done|done|simpl; lia].
Qed.

Lemma delete_all_ok t a k p e s s' :
  server_ok s → threads s !! t = Some (Thr a (Delete_all k p)) →
  delete_all_step t k p e s = Ok (tt, s') → server_ok s'.
Proof.
  intros H Ht He. unfold delete_all_step in He.
  destruct p, e; inv_step; try plain_step; unfold server_ok; clean.
  - by apply walk_start.
  - apply Z.eqb_eq in B as ->. by apply walk_end.
  - eapply walk_next; [done|done| |done]. by apply Z.eqb_neq.
  - destruct k; plain_step.
Qed.

Lemma client_control_stop_ok t a p e s s' :
  server_ok s → threads s !! t = Some (Thr a (Client_control_stop p)) →
  client_control_stop_step t p e s = Ok (tt, s') → server_ok s'.
Proof. intros H Ht He. unfold client_control_stop_step in He. destruct p, e; inv_step; plain_step. Qed.

Lemma client_control_release_ok t a p e s s' :
  server_ok s → threads s !! t = Some (Thr a (Client_control_release p)) →
  client_control_release_step t p e s = Ok (tt, s') → server_ok s'.
Proof.
  intros H Ht He. unfold client_control_release_step, broadcast_go in He. destruct p, e; inv_step; try plain_step.
  rename select ((wake_client <$> _) !! t = _) into Hw. pose proof Hw as Hw'.
  rewrite lookup_fmap, Ht in Hw'. unfold wake_client in Hw'. simplify_eq/=.
  unfold server_ok; clean. eapply Inv_goto; [by apply Inv_broadcast|exact Hw|same_role|done|done|simpl; lia].
Qed.

Lemma monitor_signal_ok t a p e s s' :
  server_ok s → threads s !! t = Some (Thr a (Monitor_signal p)) →
  monitor_signal_step t p e s = Ok (tt, s') → server_ok s'.
Proof. intros H Ht He. unfold monitor_signal_step in He. destruct p, e; inv_step; plain_step. Qed.

Lemma sig_handler_destructor_ok t a p e s s' :
  server_ok s → threads s !! t = Some (Thr a (Sig_handler_destructor p)) →
  sig_handler_destructor_step t p e s = Ok (tt, s') → server_ok s'.
Proof. intros H Ht He. unfold sig_handler_destructor_step in He. destruct p, e; inv_step; plain_step. Qed.

Lemma listener_ok t a p e s s' :
  server_ok s → threads s !! t = Some (Thr a (Listener p)) →
  listener_step t p e s = Ok (tt, s') → server_ok s'.
Proof.
  intros H Ht He. pose proof (inv_role _ _ _ _ _ _ H _ _ _ Ht) as Hr. apply Z.eqb_eq in Hr as ->.
  unfold listener_step in He. destruct p, e; inv_step; try plain_step.
  unfold server_ok; clean. apply orb_false_iff in B as [_ B%bool_decide_eq_false]. by apply accept_stream.
Qed.

Lemma client_constructor_ok t a p e s s' :
  server_ok s → threads s !! t = Some (Thr a (Listener p)) →
  client_constructor_step t p e s = Ok (tt, s') → server_ok s'.
Proof.
  intros H Ht He. pose proof (inv_role _ _ _ _ _ _ H _ _ _ Ht) as Hr. apply Z.eqb_eq in Hr as ->.
  unfold client_constructor_step in He. destruct p, e; inv_step; try plain_step; unfold server_ok; clean.
  - apply orb_false_iff in B as [B1%Z.eqb_neq B2%bool_decide_eq_false]. apply alloc_client; [done|done|done|].
    by apply eq_None_not_Some.
  - apply orb_false_iff in B as [B1%bool_decide_eq_false B2%Z.leb_gt]. apply eq_None_not_Some in B1.
    rewrite lookup_insert_ne in * by lia. simplify_eq. by apply create_client.
Qed.

(** ** The threads that exist once *)

(** How far main has come. *)
Definition phase (p : pc) : Z :=
  match p with
  | Main Constructing => 0
  | Main Starting => 1
  | Main (Reading | Printing) | Client_control_stop _ | Client_control_release _
  | Sig_handler_destructor SigCancel => 2
  | Sig_handler_destructor SigJoin => 3
  | Sig_handler_destructor SigFree => 4
  | Main ListenerJoin => 6
  | Exited => 7
  | _ => 5
  end.

Definition main_phase (T : gmap Z thr) : Z := default (-1) ((λ th, phase (at_pc th)) <$> T !! main_tid).

Definition is_exited (th : thr) : bool := match at_pc th with Exited => true | _ => false end.

Definition status (T : gmap Z thr) (t : Z) : option bool := is_exited <$> T !! t.

(** The signal thread and the listener exist from the time main has started them
    until it has cancelled them, and the handler record as long. *)
Record Boot (ph : Z) (mon lis : option bool) (cm cl h : bool) : Prop := {
  bt_main : 0 ≤ ph;
  bt_mon_none : ph < 1 → mon = None;
  bt_mon : 1 ≤ ph → is_Some mon;
  bt_mon_up : 1 ≤ ph ≤ 2 → mon = Some false;
  bt_mon_cancel : ph ≤ 2 → cm = false;
  bt_mon_down : 4 ≤ ph → mon = Some true;
  bt_lis_none : ph < 2 → lis = None;
  bt_lis_up : 2 ≤ ph ≤ 5 → lis = Some false;
  bt_lis_cancel : ph ≤ 5 → cl = false;
  bt_lis : 2 ≤ ph → is_Some lis;
  bt_handler : h = (1 <=? ph) && (ph <=? 4);
}.

Definition boot_ok (s : server) : Prop :=
  Boot (main_phase (threads s)) (status (threads s) monitor_tid) (status (threads s) listener_tid)
    (bool_decide (monitor_tid ∈ cancels s)) (bool_decide (listener_tid ∈ cancels s)) (handler_live s).

Lemma boot_same s s' :
  boot_ok s → main_phase (threads s') = main_phase (threads s) →
  status (threads s') monitor_tid = status (threads s) monitor_tid →
  status (threads s') listener_tid = status (threads s) listener_tid →
  (monitor_tid ∈ cancels s' ↔ monitor_tid ∈ cancels s) →
  (listener_tid ∈ cancels s' ↔ listener_tid ∈ cancels s) → handler_live s' = handler_live s →
  boot_ok s'.
Proof.
  intros H Hp Hm Hl Hcm Hcl Hh. unfold boot_ok. rewrite Hp, Hm, Hl, Hh.
  rewrite (bool_decide_ext _ _ Hcm), (bool_decide_ext _ _ Hcl). done.
Qed.

Lemma main_phase_is T a p : T !! main_tid = Some (Thr a p) → main_phase T = phase p.
Proof. intros Hm. unfold main_phase. by rewrite Hm. Qed.

(** A step of a client thread. *)
Lemma boot_client t th s s' :
  boot_ok s → listener_tid < t → threads s' = <[t := th]> (threads s) → cancels s' = cancels s →
  handler_live s' = handler_live s → boot_ok s'.
Proof.
  unfold listener_tid. intros H Ht HT Hc Hh. apply (boot_same s); try done; try by rewrite Hc.
  all: rewrite HT; unfold main_phase, status; by rewrite lookup_insert_ne by (unfold main_tid, monitor_tid, listener_tid; lia).
Qed.

(** A step of main, of the signal thread or of the listener that stays in its phase. *)
Lemma boot_move t a p p' s s' :
  boot_ok s → threads s !! t = Some (Thr a p) → threads s' = <[t := Thr a p']> (threads s) →
  phase p' = phase p → is_exited (Thr a p') = is_exited (Thr a p) → cancels s' = cancels s →
  handler_live s' = handler_live s → boot_ok s'.
Proof.
  intros H Ht HT Hp Hx Hc Hh. apply (boot_same s); try done; try by rewrite Hc.
  - rewrite HT. unfold main_phase. destruct (decide (t = main_tid)) as [->|]; [|by rewrite lookup_insert_ne].
    rewrite lookup_insert_eq, Ht. simpl. by rewrite Hp.
  - rewrite HT. unfold status. destruct (decide (t = monitor_tid)) as [->|]; [|by rewrite lookup_insert_ne].
    rewrite lookup_insert_eq, Ht. simpl. by rewrite Hx.
  - rewrite HT. unfold status. destruct (decide (t = listener_tid)) as [->|]; [|by rewrite lookup_insert_ne].
    rewrite lookup_insert_eq, Ht. simpl. by rewrite Hx.
Qed.

Lemma client_tid t a p s :
  server_ok s → threads s !! t = Some (Thr a p) → (∀ t, role p t = (listener_tid <? t)) → listener_tid < t.
Proof. intros H Ht Hr. apply (inv_role _ _ _ _ _ _ H) in Ht. rewrite Hr in Ht. by apply Z.ltb_lt. Qed.

Lemma joined_tid t a p s :
  server_ok s → threads s !! t = Some (Thr a p) → joined p = true → listener_tid < t.
Proof. intros H Ht Hj. by destruct p as [| |[]| | | | | | | |]; try done; eapply client_tid. Qed.

Ltac boot_client_step t Ht :=
  eapply (boot_client t); [eassumption|by eapply (client_tid t)|clean; reflexivity..].

Lemma run_client_boot t a p e s s' :
  server_ok s → boot_ok s → threads s !! t = Some (Thr a (Run_client p)) →
  run_client_step t a p e s = Ok (tt, s') → boot_ok s'.
Proof.
  intros H B Ht He. unfold run_client_step in He. destruct p, e; inv_step; boot_client_step t Ht.
Qed.

Lemma client_control_wait_boot t a p e s s' :
  server_ok s → boot_ok s → threads s !! t = Some (Thr a (Client_control_wait p)) →
  client_control_wait_step t p e s = Ok (tt, s') → boot_ok s'.
Proof.
  intros H B Ht He. unfold client_control_wait_step in He. destruct p, e; inv_step; boot_client_step t Ht.
Qed.

Lemma signal_boot s s1 u : boot_ok s → signal_server s = Ok (u, s1) → boot_ok s1.
Proof. intros B [[-> _]|(a & Ha & ->)]%signal_inv; [done|]. by eapply boot_move. Qed.

Lemma thread_cleanup_boot t a p e s s' :
  server_ok s → boot_ok s → threads s !! t = Some (Thr a (Thread_cleanup p)) →
  thread_cleanup_step t a p e s = Ok (tt, s') → boot_ok s'.
Proof.
  intros H B Ht He. unfold thread_cleanup_step, client_destructor in He.
  destruct p, e; inv_step; try boot_client_step t Ht.
  rename select (signal_server _ = _) into E. eapply (boot_client t); [by eapply signal_boot| |done..].
  by eapply client_tid.
Qed.

Lemma delete_all_boot t a k p e s s' :
  server_ok s → boot_ok s → threads s !! t = Some (Thr a (Delete_all k p)) →
  delete_all_step t k p e s = Ok (tt, s') → boot_ok s'.
Proof.
  intros H B Ht He. unfold delete_all_step in He.
  destruct p, e; inv_step; try (by eapply (boot_move t)); [|by destruct k; eapply (boot_move t)].
  eapply (boot_move t) with (s := set_cancels ({[x]} ∪ cancels s) s); try done.
  destruct (walk_client _ _ _ _ _ _ H _ _ _ _ Ht) as (t' & q & c & Ht' & Hj & Hc & Hth); [by apply Z.eqb_neq|].
  assert (t' = x) as -> by congruence. pose proof (joined_tid _ _ _ _ H Ht' Hj) as Hx. unfold listener_tid in Hx. apply (boot_same s); clean; try done; unfold monitor_tid, listener_tid; set_solver by lia.
Qed.

Lemma client_control_stop_boot t a p e s s' :
  server_ok s → boot_ok s → threads s !! t = Some (Thr a (Client_control_stop p)) →
  client_control_stop_step t p e s = Ok (tt, s') → boot_ok s'.
Proof.
  intros H B Ht He. unfold client_control_stop_step in He. destruct p, e; inv_step; by eapply (boot_move t).
Qed.

Lemma client_control_release_boot t a p e s s' :
  server_ok s → boot_ok s → threads s !! t = Some (Thr a (Client_control_release p)) →
  client_control_release_step t p e s = Ok (tt, s') → boot_ok s'.
Proof.
  intros H B Ht He. unfold client_control_release_step, broadcast_go in He.
  destruct p, e; inv_step; try (by eapply (boot_move t)).
  rename select ((wake_client <$> _) !! t = _) into Hw. pose proof Hw as Hw'.
  rewrite lookup_fmap, Ht in Hw'. unfold wake_client in Hw'. simplify_eq/=.
  eapply (boot_move t) with (s := set_threads (wake_client <$> threads s) s); try done.
  assert (∀ th, phase (at_pc (wake_client th)) = phase (at_pc th) ∧ is_exited (wake_client th) = is_exited th) as Hwk.
  { intros [b q]. unfold wake_client. simpl. by destruct q as [|[]| | | | | | | | |]. }
  apply (boot_same s); clean; try done; unfold main_phase, status; rewrite lookup_fmap.
  - destruct (threads s !! main_tid); [apply Hwk|done].
  - destruct (threads s !! monitor_tid); [|done]. simpl. f_equal. apply Hwk.
  - destruct (threads s !! listener_tid); [|done]. simpl. f_equal. apply Hwk.
Qed.

(** What the statuses become when one of the three threads moves. *)
Lemma status_move T t th t' : status (<[t := th]> T) t' = if t =? t' then Some (is_exited th) else status T t'.
Proof. unfold status. destruct (Z.eqb_spec t t') as [->|]; [by rewrite lookup_insert_eq|by rewrite lookup_insert_ne]. Qed.

Lemma main_phase_move T t th : main_phase (<[t := th]> T) = if t =? main_tid then phase (at_pc th) else main_phase T.
Proof.
  unfold main_phase. destruct (Z.eqb_spec t main_tid) as [->|]; [by rewrite lookup_insert_eq|by rewrite lookup_insert_ne].
Qed.

(** The signal thread leaves only when it has been cancelled ... *)
Lemma monitor_leaves s x p :
  boot_ok s → threads s !! monitor_tid = Some (Thr x p) → p ≠ Exited → cancelled monitor_tid s = true →
  boot_ok (set_threads (<[monitor_tid := Thr x Exited]> (threads s)) s).
Proof.
  intros B Hm Hp Hc. unfold boot_ok in *. clean. rewrite main_phase_move, !status_move. cbn.
  unfold cancelled in Hc. rewrite Hc in *.
  assert (status (threads s) monitor_tid = Some false) as Hst by (unfold status; rewrite Hm; by destruct p).
  rewrite Hst in B. destruct B. split; try done.
  - intros Hph. discriminate (bt_mon_none0 Hph).
  - intros Hph. discriminate (bt_mon_cancel0 ltac:(lia)).
Qed.

(** ... and so does the listener. *)
Lemma listener_leaves s x p :
  boot_ok s → threads s !! listener_tid = Some (Thr x p) → p ≠ Exited → cancelled listener_tid s = true →
  boot_ok (set_threads (<[listener_tid := Thr x Exited]> (threads s)) s).
Proof.
  intros B Hm Hp Hc. unfold boot_ok in *. clean. rewrite main_phase_move, !status_move. cbn.
  unfold cancelled in Hc. rewrite Hc in *.
  assert (status (threads s) listener_tid = Some false) as Hst by (unfold status; rewrite Hm; by destruct p).
  rewrite Hst in B. destruct B. split; try done.
  - intros Hph. discriminate (bt_lis_none0 Hph).
  - intros Hph. discriminate (bt_lis_cancel0 ltac:(lia)).
Qed.

Lemma monitor_signal_boot t a p e s s' :
  server_ok s → boot_ok s → threads s !! t = Some (Thr a (Monitor_signal p)) →
  monitor_signal_step t p e s = Ok (tt, s') → boot_ok s'.
Proof.
  intros H B Ht He. pose proof (inv_role _ _ _ _ _ _ H _ _ _ Ht) as Hr. apply Z.eqb_eq in Hr as ->.
  unfold monitor_signal_step in He.
  destruct p, e; inv_step; try (by eapply (boot_move monitor_tid)); by eapply monitor_leaves.
Qed.

Lemma listener_boot t a p e s s' :
  server_ok s → boot_ok s → threads s !! t = Some (Thr a (Listener p)) →
  listener_step t p e s = Ok (tt, s') → boot_ok s'.
Proof.
  intros H B Ht He. pose proof (inv_role _ _ _ _ _ _ H _ _ _ Ht) as Hr. apply Z.eqb_eq in Hr as ->.
  unfold listener_step in He.
  destruct p, e; inv_step; try (by eapply (boot_move listener_tid)); by eapply listener_leaves.
Qed.

Lemma client_constructor_boot t a p e s s' :
  server_ok s → boot_ok s → threads s !! t = Some (Thr a (Listener p)) →
  client_constructor_step t p e s = Ok (tt, s') → boot_ok s'.
Proof.
  intros H B Ht He. unfold client_constructor_step in He.
  destruct p, e; inv_step; try (by eapply (boot_move t)).
  apply orb_false_iff in B0 as [B1%bool_decide_eq_false B2%Z.leb_gt]. apply eq_None_not_Some in B1.
  rewrite lookup_insert_ne in * by congruence. simplify_eq.
  apply (boot_move t a (Listener (ClientCreate client)) (Listener (ClientDetach client))
    (set_threads (<[n := Thr client (Run_client TestAccepting)]> (threads s)) s)); try done.
  - by eapply boot_client.
  - clean. by rewrite lookup_insert_ne by congruence.
Qed.

(** Main: the steps that go on to the next phase. *)
Ltac next_phase B :=
  unfold boot_ok in *; clean;
  match goal with Hm : threads _ !! main_tid = Some (Thr _ _) |- _ => rewrite (main_phase_is _ _ _ Hm) in B end;
  rewrite ?main_phase_move, ?status_move; cbn in B |- *; destruct B; split; try done; try lia;
  try (intros; match goal with H : _ → ?P |- ?P => apply H; lia end).

Lemma main_boot t a p e s s' :
  server_ok s → boot_ok s → threads s !! t = Some (Thr a (Main p)) →
  main_step t p e s = Ok (tt, s') → boot_ok s'.
Proof.
  intros H B Ht He. pose proof (inv_role _ _ _ _ _ _ H _ _ _ Ht) as Hr. apply Z.eqb_eq in Hr as ->.
  unfold main_step, sig_handler_constructor in He.
  destruct p, e; inv_step; try (by eapply (boot_move main_tid)).
  - next_phase B.
  - next_phase B.
  - destruct (strtok_all cmd); inv_step; by eapply (boot_move main_tid).
  - destruct (_ >? 0); by eapply (boot_move main_tid).
  - next_phase B.
  - next_phase B.
Qed.

Lemma sig_handler_destructor_boot t a p e s s' :
  server_ok s → boot_ok s → threads s !! t = Some (Thr a (Sig_handler_destructor p)) →
  sig_handler_destructor_step t p e s = Ok (tt, s') → boot_ok s'.
Proof.
  intros H B Ht He. pose proof (inv_role _ _ _ _ _ _ H _ _ _ Ht) as Hr. apply Z.eqb_eq in Hr as ->.
  unfold sig_handler_destructor_step in He. destruct p, e; inv_step.
  - next_phase B.
    intros _. rewrite bool_decide_false; [done|]. specialize (bt_lis_cancel0 ltac:(lia)).
    apply bool_decide_eq_false in bt_lis_cancel0. unfold listener_tid, monitor_tid in *. set_solver by lia.
  - assert (status (threads s) monitor_tid = Some true) as Hm.
    { unfold has_exited in B0. unfold status. destruct (threads s !! monitor_tid) as [[b []]|]; done. }
    next_phase B.
  - next_phase B.
Qed.

(** Main starts the two threads once. *)
Lemma monitor_absent t a s :
  server_ok s → boot_ok s → threads s !! t = Some (Thr a (Main Constructing)) → threads s !! monitor_tid = None.
Proof.
  intros H B Ht. pose proof (inv_role _ _ _ _ _ _ H _ _ _ Ht) as Hr. apply Z.eqb_eq in Hr as ->.
  pose proof (bt_mon_none _ _ _ _ _ _ B) as Hn. rewrite (main_phase_is _ _ _ Ht) in Hn.
  specialize (Hn ltac:(simpl; lia)). unfold status in Hn. by apply fmap_None in Hn.
Qed.

Lemma listener_absent t a s :
  server_ok s → boot_ok s → threads s !! t = Some (Thr a (Main Starting)) → threads s !! listener_tid = None.
Proof.
  intros H B Ht. pose proof (inv_role _ _ _ _ _ _ H _ _ _ Ht) as Hr. apply Z.eqb_eq in Hr as ->.
  pose proof (bt_lis_none _ _ _ _ _ _ B) as Hn. rewrite (main_phase_is _ _ _ Ht) in Hn.
  specialize (Hn ltac:(simpl; lia)). unfold status in Hn. by apply fmap_None in Hn.
Qed.

Lemma main_ok t a p e s s' :
  server_ok s → boot_ok s → threads s !! t = Some (Thr a (Main p)) →
  main_step t p e s = Ok (tt, s') → server_ok s'.
Proof.
  intros H B Ht He. pose proof (inv_role _ _ _ _ _ _ H _ _ _ Ht) as Hr. apply Z.eqb_eq in Hr as ->.
  unfold main_step, sig_handler_constructor in He.
  destruct p, e; inv_step; try plain_step.
  - rewrite lookup_insert_ne in * by done. simplify_eq. unfold server_ok; clean.
    rewrite insert_insert_ne by done. apply Inv_spawn; try done; [plain_step| |by intros []].
    rewrite lookup_insert_ne by done. by eapply monitor_absent.
  - rewrite lookup_insert_ne in * by done. simplify_eq. unfold server_ok; clean.
    rewrite insert_insert_ne by done. apply Inv_spawn; try done; [plain_step| |by intros []].
    rewrite lookup_insert_ne by done. by eapply listener_absent.
  - destruct (strtok_all cmd); inv_step; plain_step.
  - destruct (_ >? 0); plain_step.
Qed.

(** ** Every step *)

Definition good (s : server) : Prop := server_ok s ∧ boot_ok s.

Lemma exec_inv t e s s' :
  exec t e s = Ok s' →
  ∃ th, threads s !! t = Some th ∧ has_exited main_tid s = false ∧ thread_step t th e s = Ok (tt, s').
Proof.
  unfold exec. destruct (threads s !! t) as [th|]; [|done]. destruct (has_exited main_tid s); [done|].
  destruct (thread_step t th e s) as [[[] s1]|] eqn:Hs; [|done]. intros [= <-]. by exists th.
Qed.

Theorem exec_good t e s s' : good s → exec t e s = Ok s' → good s'.
Proof.
  intros [H B] ([a p] & Ht & _ & He)%exec_inv. unfold thread_step in He. cbn [at_pc arg] in He.
  destruct p as [p|p|p|k p|p|p|p|p|p|p|]; [split..|discriminate].
  - by eapply run_client_ok. - by eapply run_client_boot.
  - by eapply client_control_wait_ok. - by eapply client_control_wait_boot.
  - by eapply thread_cleanup_ok. - by eapply thread_cleanup_boot.
  - by eapply delete_all_ok. - by eapply delete_all_boot.
  - by eapply client_control_stop_ok. - by eapply client_control_stop_boot.
  - by eapply client_control_release_ok. - by eapply client_control_release_boot.
  - by eapply monitor_signal_ok. - by eapply monitor_signal_boot.
  - by eapply sig_handler_destructor_ok. - by eapply sig_handler_destructor_boot.
  - destruct p; (by eapply listener_ok) || (by eapply client_constructor_ok).
  - destruct p; (by eapply listener_boot) || (by eapply client_constructor_boot).
  - by eapply main_ok. - by eapply main_boot.
Qed.

Lemma start_good : good start_server.
Proof.
  split.
  - split; cbn; try (intros; by simplify_map_eq).
    + intros t a p [[<- [= <- <-]]|[_ ?]]%lookup_insert_Some; [done|]. by simplify_map_eq.
    + intros t a p [[<- [= <- <-]]|[_ ?]]%lookup_insert_Some; [done|]. by simplify_map_eq.
    + intros m t. split; [done|]. intros (a & p & [[<- [= <- <-]]|[_ ?]]%lookup_insert_Some & Hc); [by destruct m|].
      by simplify_map_eq.
    + intros t a p [[<- [= <- <-]]|[_ ?]]%lookup_insert_Some; [done|]. by simplify_map_eq.
    + exists []. split_and!; [constructor| |by exists NULL]. intros x. split; [by intros ?%elem_of_nil|].
      intros (t & p & [[<- [= <- <-]]|[_ ?]]%lookup_insert_Some & Hj); [done|]. by simplify_map_eq.
  - change (Boot 0 None None false false false). split; try done; lia.
Qed.

Lemma steps_good s s' : good s → rtc step s s' → good s'.
Proof. intros Hg Hs. induction Hs as [|s1 s2 s3 (t & e & He) _ IH]; [done|]. by eapply IH, exec_good. Qed.

Lemma reachable_good s : reachable s → good s.
Proof. apply steps_good, start_good. Qed.

(** ** Faults *)

(** What stops a step of thread [t] at [p]: it has to wait, the process exits
    because the system refused a resource, the listener uses a client that is
    gone, or main is given a line without a word. *)
Definition excused (t : Z) (p : pc) (e : event) (f : fault) : Prop :=
  f = Blocked ∨ f = Exit 1 ∨
  (f = AssertFail ∧ e = Fail ∧ ∃ x, p = Listener (ClientAlloc x)) ∨
  (f = BadAccess ∧ ∃ a, p = Listener (ClientDetach a)) ∨
  (f = BadAccess ∧ p = Main Reading ∧ ∃ cmd, e = Line cmd ∧ strtok_all cmd = []).

Section Faults.
Context (t a : Z) (p : pc) (e : event) (s : server).
Context (H : server_ok s) (B : boot_ok s) (Ht : threads s !! t = Some (Thr a p)).

Definition benign {A} (r : result A) : Prop := ∀ f, r = Err f → excused t p e f.

Lemma benign_Ok {A} (x : A) : benign (Ok x).
Proof. by intros f. Qed.

Lemma benign_bind {A C} (m : sv A) (k : A → sv C) s0 :
  benign (m s0) → (∀ x s1, m s0 = Ok (x, s1) → benign (k x s1)) → benign ((m ≫= k) s0).
Proof.
  intros Hm Hk f. unfold mbind, ST_bind. destruct (m s0) as [[x s1]|f'] eqn:Hs; [by apply (Hk x s1)|].
  intros [= <-]. by apply Hm.
Qed.

Lemma benign_blocked {A} : benign (@Err A Blocked).
Proof. intros f [= <-]. by left. Qed.

Lemma benign_exit {A} : benign (@Err A (Exit 1)).
Proof. intros f [= <-]. right. by left. Qed.

Lemma benign_goto q s0 : is_Some (threads s0 !! t) → benign (goto t q s0).
Proof. intros [th Hth] f. unfold goto. by rewrite Hth. Qed.

Lemma benign_lock m s0 : benign (pthread_mutex_lock t m s0).
Proof. intros f. unfold pthread_mutex_lock. destruct (owner s0 m); [|done]. intros [= <-]. by left. Qed.

Lemma benign_unlock m : crit m p = true → benign (pthread_mutex_unlock t m s).
Proof.
  intros Hc f. unfold pthread_mutex_unlock. rewrite decide_True; [done|].
  apply (inv_mutex _ _ _ _ _ _ H). eauto.
Qed.

Lemma benign_client b s0 : is_Some (clients s0 !! b) → benign (client_at b s0).
Proof. intros [c Hc] f. unfold client_at, deref. by rewrite Hc. Qed.

Lemma benign_put b c s0 : is_Some (clients s0 !! b) → benign (put_client b c s0).
Proof. intros Hc. apply benign_bind; [by apply benign_client|done]. Qed.

(** The client of the thread. *)
Lemma benign_own : owns p = true → is_Some (clients s !! a).
Proof. intros Ho. destruct (own_client _ _ _ _ _ _ H _ _ _ Ht Ho) as (c & Hc & _). by exists c. Qed.
End Faults.

Section Neighbours.
Context (C : gmap Z client) (F : gset Z) (hd num : Z) (O : mutex → option Z) (T : gmap Z thr).
Context (H : Inv C F hd num O T).

Lemma head_client t a :
  T !! t = Some (Thr a (Run_client LinkPrev)) → hd ≠ NULL → is_Some (C !! hd).
Proof.
  intros Ht Hn. destruct (list_at _ _ _ _ _ _ H _ _ _ Ht eq_refl) as ([|b l] & _ & Hl & _ & q & Hq); [by destruct Hq|].
  destruct Hq as (-> & _). destruct (member_client _ _ _ _ _ _ H _ b Hl ltac:(set_solver)) as (? & ? & c & _ & _ & Hc & _). eauto.
Qed.

Lemma next_client t a c :
  T !! t = Some (Thr a (Thread_cleanup UnlinkNext)) → C !! a = Some c → next c ≠ NULL → is_Some (C !! next c).
Proof.
  intros Ht Hc Hn. destruct (list_at _ _ _ _ _ _ H _ _ _ Ht eq_refl) as (l & _ & Hl & Hst).
  destruct (list_around _ _ _ _ _ _ _ Hl Ht eq_refl Hst) as (l1 & l2 & q & e & q' & -> & _ & Ha & H2).
  assert (next c = e) as Hne by (unfold links in Ha; rewrite Hc in Ha; simpl in Ha; congruence).
  destruct l2 as [|b l2]; [destruct H2; congruence|]. destruct H2 as (-> & _).
  destruct (member_client _ _ _ _ _ _ H _ b Hl ltac:(set_solver)) as (? & ? & d & _ & _ & Hd & _).
  rewrite Hne. eauto.
Qed.

Lemma prev_client t a c :
  T !! t = Some (Thr a (Thread_cleanup UnlinkPrev)) → C !! a = Some c → prev c ≠ NULL → is_Some (C !! prev c).
Proof.
  intros Ht Hc Hn. destruct (list_at _ _ _ _ _ _ H _ _ _ Ht eq_refl) as (l & _ & Hl & l1 & l2 & q & e & q' & -> & H1 & Ha & _).
  assert (prev c = q) as Hp by (unfold links in Ha; rewrite Hc in Ha; simpl in Ha; congruence).
  apply dseg_snoc in H1 as [(-> & _)|(l' & q0 & -> & _ & _ & _)]; [congruence|].
  destruct (member_client _ _ _ _ _ _ H _ q Hl ltac:(set_solver)) as (? & ? & d & _ & _ & Hd & _).
  rewrite Hp. eauto.
Qed.
End Neighbours.

Ltac safe :=
  repeat match goal with
  | |- benign _ _ _ (Ok _) => apply benign_Ok
  | |- benign _ _ _ (disabled _) => apply benign_blocked
  | |- benign _ _ _ (fail (Exit 1) _) => apply benign_exit
  | |- benign _ _ _ (get _) => apply benign_Ok
  | |- benign _ _ _ (modify _ _) => apply benign_Ok
  | |- benign _ _ _ (mret _ _) => apply benign_Ok
  | |- benign _ _ _ ((_ ≫= _) _) => apply benign_bind; [|let x := fresh in intros ? ? x; inv_step]
  | |- benign _ _ _ (goto _ _ _) => apply benign_goto; clean; eauto
  | |- benign _ _ _ (pthread_mutex_lock _ _ _) => apply benign_lock
  | |- benign _ _ _ (pthread_mutex_unlock _ _ _) => eapply benign_unlock; [eassumption|eassumption|reflexivity]
  | |- benign _ _ _ (client_at _ _) => apply benign_client; clean; eauto
  | |- benign _ _ _ (put_client _ _ _) => apply benign_put; clean; eauto
  | |- benign _ _ _ (match ?b with _ => _ end _) => let E := fresh "B" in destruct b eqn:E
  | |- benign _ _ _ (match ?b with _ => _ end) => let E := fresh "B" in destruct b eqn:E
  end.

Lemma run_client_safe t a p e s :
  server_ok s → threads s !! t = Some (Thr a (Run_client p)) → benign t (Run_client p) e (run_client_step t a p e s).
Proof.
  intros H Ht. pose proof (benign_own t a _ s H Ht eq_refl) as Hown. unfold run_client_step.
  destruct p, e; safe.
  - by rewrite (owner_nonnull t a _ s H Ht eq_refl).
  - eapply head_client; [exact H|done|]. by apply negb_true_iff, Z.eqb_neq in B.
  - exfalso. by eapply n, inv_stream.
  - exfalso. by eapply n, inv_stream.
  - exfalso. by eapply n, inv_stream.
Qed.

Lemma client_control_wait_safe t a p e s :
  server_ok s → threads s !! t = Some (Thr a (Client_control_wait p)) →
  benign t (Client_control_wait p) e (client_control_wait_step t p e s).
Proof. intros H Ht. unfold client_control_wait_step. destruct p, e; safe. Qed.

Lemma benign_signal t p e s : benign t p e (signal_server s).
Proof. intros f. unfold signal_server. by repeat case_match. Qed.

Lemma thread_cleanup_safe t a p e s :
  server_ok s → threads s !! t = Some (Thr a (Thread_cleanup p)) →
  benign t (Thread_cleanup p) e (thread_cleanup_step t a p e s).
Proof.
  intros H Ht. pose proof (benign_own t a _ s H Ht) as Hown. unfold thread_cleanup_step, client_destructor.
  destruct p, e; safe.
  - eapply next_client; [exact H|done|done|]. by apply negb_true_iff, Z.eqb_neq in B.
  - eapply prev_client; [exact H|done|done|]. by apply negb_true_iff, Z.eqb_neq in B.
  - intros f. unfold comm_shutdown. rewrite decide_True; [done|]. by eapply inv_stream.
  - apply benign_signal.
  - rename select (signal_server _ = _) into E.
    rewrite (signal_other _ _ _ _ E (client_not_main _ _ _ _ H Ht (λ _, eq_refl))). eauto.
Qed.

Lemma delete_all_safe t a k p e s :
  server_ok s → threads s !! t = Some (Thr a (Delete_all k p)) →
  benign t (Delete_all k p) e (delete_all_step t k p e s).
Proof.
  intros H Ht. unfold delete_all_step. destruct p, e; safe.
  - destruct (walk_client _ _ _ _ _ _ H _ _ _ _ Ht) as (t' & q & c & _ & _ & Hc & _); [by apply Z.eqb_neq|]. eauto.
  - destruct (walk_client _ _ _ _ _ _ H _ _ _ _ Ht) as (t' & q & c & Ht' & Hj & Hc & Hth); [by apply Z.eqb_neq|].
    simplify_eq. intros f. unfold pthread_cancel. rewrite Hth, Ht'. by destruct q.
Qed.

Lemma client_control_stop_safe t a p e s :
  server_ok s → threads s !! t = Some (Thr a (Client_control_stop p)) →
  benign t (Client_control_stop p) e (client_control_stop_step t p e s).
Proof. intros H Ht. unfold client_control_stop_step. destruct p, e; safe. Qed.

Lemma client_control_release_safe t a p e s :
  server_ok s → threads s !! t = Some (Thr a (Client_control_release p)) →
  benign t (Client_control_release p) e (client_control_release_step t p e s).
Proof.
  intros H Ht. unfold client_control_release_step, broadcast_go. destruct p, e; safe.
  rewrite lookup_fmap, Ht. by eexists.
Qed.

(** The threads that main starts are there when it cancels them. *)
Lemma benign_cancel t p e s t' : status (threads s) t' = Some false → benign t p e (pthread_cancel (Some t') s).
Proof.
  intros Hs f. unfold pthread_cancel. unfold status in Hs.
  destruct (threads s !! t') as [[b q]|]; [|done]. by destruct q.
Qed.

Lemma monitor_signal_safe t a p e s :
  server_ok s → boot_ok s → threads s !! t = Some (Thr a (Monitor_signal p)) →
  benign t (Monitor_signal p) e (monitor_signal_step t p e s).
Proof.
  intros H B Ht. assert (handler_live s = true) as Hh.
  { pose proof (inv_role _ _ _ _ _ _ H _ _ _ Ht) as Hr. apply Z.eqb_eq in Hr as ->.
    assert (status (threads s) monitor_tid = Some false) as Hst by (unfold status; by rewrite Ht).
    unfold boot_ok in B. rewrite Hst in B. destruct B. rewrite bt_handler0. apply andb_true_iff.
    split; apply Z.leb_le; apply Z.nlt_ge; intros Hlt.
    - discriminate (bt_mon_none0 Hlt).
    - discriminate (bt_mon_down0 ltac:(lia)). }
  unfold monitor_signal_step. destruct p, e; safe; congruence.
Qed.

Lemma sig_handler_destructor_safe t a p e s :
  server_ok s → boot_ok s → threads s !! t = Some (Thr a (Sig_handler_destructor p)) →
  benign t (Sig_handler_destructor p) e (sig_handler_destructor_step t p e s).
Proof.
  intros H B Ht. pose proof (inv_role _ _ _ _ _ _ H _ _ _ Ht) as Hr. apply Z.eqb_eq in Hr as ->.
  unfold boot_ok in B. rewrite (main_phase_is _ _ _ Ht) in B. destruct B.
  unfold sig_handler_destructor_step. destruct p, e; safe.
  apply benign_cancel. apply bt_mon_up0. simpl. lia.
Qed.

Lemma listener_safe t a p e s :
  server_ok s → threads s !! t = Some (Thr a (Listener p)) →
  benign t (Listener p) e (listener_step t p e s).
Proof. intros H Ht. unfold listener_step. destruct p, e; safe. Qed.

(** [pthread_detach(client->thread)] when the client may be gone. *)
Lemma detach_safe t a b e s :
  threads s !! t = Some (Thr a (Listener (ClientDetach b))) →
  benign t (Listener (ClientDetach b)) e ((get ≫= λ _, client_at b ≫= λ _, goto t (Listener Accept)) s).
Proof.
  intros Ht f. rewrite ST_get. unfold mbind, ST_bind, client_at, deref, goto.
  destruct (clients s !! b); simpl; [by rewrite Ht|]. intros [= <-]. do 3 right. left. eauto.
Qed.

Lemma client_constructor_safe t a p e s :
  server_ok s → threads s !! t = Some (Thr a (Listener p)) →
  benign t (Listener p) e (client_constructor_step t p e s).
Proof.
  intros H Ht. unfold client_constructor_step. destruct p, e; try (by apply (detach_safe t a)); safe.
  - intros f [= <-]. do 2 right. left. by eauto.
  - destruct (inv_mem _ _ _ _ _ _ H _ _ _ Ht) as (_ & c & Hc & _). eauto.
  - destruct (decide (n = t)) as [->|]; [rewrite lookup_insert_eq|rewrite lookup_insert_ne by done]; eauto.
Qed.

Lemma main_safe t a p e s :
  server_ok s → boot_ok s → threads s !! t = Some (Thr a (Main p)) →
  benign t (Main p) e (main_step t p e s).
Proof.
  intros H B Ht. pose proof (inv_role _ _ _ _ _ _ H _ _ _ Ht) as Hr. apply Z.eqb_eq in Hr as ->.
  unfold boot_ok in B. rewrite (main_phase_is _ _ _ Ht) in B. destruct B.
  unfold main_step, sig_handler_constructor. destruct p, e; safe.
  - rewrite lookup_insert_ne by done. eauto.
  - rewrite lookup_insert_ne by done. eauto.
  - intros f [= <-]. do 4 right. eauto.
  - apply benign_cancel, bt_lis_up0. simpl. lia.
Qed.

Theorem exec_fault t a p e s f :
  good s → threads s !! t = Some (Thr a p) → exec t e s = Err f → excused t p e f.
Proof.
  intros [H B] Ht. unfold exec. rewrite Ht. destruct (has_exited main_tid s); [intros [= <-]; by left|].
  assert (benign t p e (thread_step t (Thr a p) e s)) as Hb.
  { unfold thread_step. cbn [at_pc arg]. destruct p as [p|p|p|k p|p|p|p|p|p|p|].
    - by apply run_client_safe.
    - by eapply client_control_wait_safe.
    - by apply thread_cleanup_safe.
    - by eapply delete_all_safe.
    - by eapply client_control_stop_safe.
    - by eapply client_control_release_safe.
    - by eapply monitor_signal_safe.
    - by eapply sig_handler_destructor_safe.
    - destruct p; (by eapply listener_safe) || (by eapply client_constructor_safe).
    - by eapply main_safe.
    - apply benign_blocked. }
  destruct (thread_step t (Thr a p) e s) as [[[] s1]|f'] eqn:Hs; [done|]. intros [= <-]. by apply Hb.
Qed.
