(* ===== verification/ServerLive.v ===== *)
(** * Waiting in the server: stop and go, cancellation, and the end.

    No wake-up is lost; a stopped server starts no command; [delete_all] reaches
    every client in the list; and what main knows when its wait is over. *)

From Stdlib Require Import ZArith Lia.
From stdpp Require Import base gmap strings numbers option fin_maps functions relations list.
From S2P Require Import Prelude Db ShellCommon Server ServerInv ServerSteps ServerProofs.

Open Scope Z_scope.

(** All steps at once: one goal for each way a step can succeed. *)
Ltac all_steps He :=
  unfold thread_step, run_client_step, client_control_wait_step, thread_cleanup_step, delete_all_step,
    client_control_stop_step, client_control_release_step, monitor_signal_step, sig_handler_destructor_step,
    listener_step, client_constructor_step, main_step, sig_handler_constructor, client_destructor, broadcast_go in He;
  repeat match type of He with context [match ?p with _ => _ end] => is_var p; destruct p end;
  cbn [at_pc arg] in He; inv_step;
  try match goal with H : context [strtok_all ?c] |- _ => destruct (strtok_all c); inv_step end.

(** The steps that also create a thread: its number is new. *)
Ltac spawned H B :=
  match goal with
  | Hd : bool_decide (is_Some (threads _ !! _)) || _ = false |- _ =>
      apply orb_false_iff in Hd as [Hd%bool_decide_eq_false _]; apply eq_None_not_Some in Hd
  | Ht : threads _ !! _ = Some (Thr _ (Main Constructing)) |- _ => pose proof (monitor_absent _ _ _ H B Ht)
  | Ht : threads _ !! _ = Some (Thr _ (Main Starting)) |- _ => pose proof (listener_absent _ _ _ H B Ht)
  end;
  match goal with
  | Hi : <[?n := _]> (threads ?s) !! ?t = Some _, Hn : threads ?s !! ?n = None |- _ =>
      rewrite lookup_insert_ne in Hi by congruence; simplify_eq
  end.

(** The step that signals main. *)
Ltac signalled H Ht :=
  match goal with
  | E : signal_server _ = Ok (_, _) |- _ =>
      let Hs := fresh "Hs" in
      pose proof (signal_other _ _ _ _ E (client_not_main _ _ _ _ H Ht (λ _, eq_refl))) as Hs;
      rewrite Ht in Hs;
      let b := fresh "b" in apply signal_inv in E as [[-> ?]|(b & ? & ->)]; clean; simplify_eq
  end.

(** What a step of thread [t] does to the other threads. *)
Inductive affects (t' : Z) (T T' : gmap Z thr) : Prop :=
  | af_same : T' !! t' = T !! t' → affects t' T T'
  | af_woken th : T !! t' = Some th → T' !! t' = Some (wake_client th) → affects t' T T'
  | af_signalled a : t' = main_tid → T !! t' = Some (Thr a (Main DrainWait)) →
      T' !! t' = Some (Thr a (Main DrainRelock)) → affects t' T T'
  | af_new a p : T !! t' = None → T' !! t' = Some (Thr a p) →
      p = Run_client TestAccepting ∨ p = Listener Setup ∨ p = Monitor_signal SigWait → affects t' T T'.

Lemma exec_others t e s s' t' :
  good s → exec t e s = Ok s' → t' ≠ t → affects t' (threads s) (threads s').
Proof.
  intros [H B] ([a p] & Ht & _ & He)%exec_inv Hne.
  destruct p as [[]|[]|[]|k []|[]|[]|[]|[]|[]|[]|], e; all_steps He;
    try (apply af_same; by rewrite lookup_insert_ne).
  - rename select (signal_server _ = _) into E. apply signal_inv in E as [[-> _]|(b & Hb & ->)]; clean.
    + apply af_same. by rewrite lookup_insert_ne.
    + destruct (decide (t' = main_tid)) as [->|Hm].
      * eapply af_signalled; [done|done|]. by rewrite lookup_insert_ne, lookup_insert_eq.
      * apply af_same. by rewrite !lookup_insert_ne.
  - destruct (threads s !! t') as [th|] eqn:Ht'.
    + eapply af_woken; [done|]. by rewrite lookup_insert_ne, lookup_fmap, Ht'.
    + apply af_same. by rewrite lookup_insert_ne, lookup_fmap, Ht'.
  - apply orb_false_iff in B0 as [B1%bool_decide_eq_false _]. apply eq_None_not_Some in B1.
    destruct (decide (t' = n)) as [->|Hn].
    + eapply af_new; [done| |by left]. by rewrite lookup_insert_ne, lookup_insert_eq.
    + apply af_same. by rewrite !lookup_insert_ne.
  - destruct (decide (t' = monitor_tid)) as [->|Hn].
    + eapply af_new; [by eapply monitor_absent| |by do 2 right]. by rewrite lookup_insert_ne, lookup_insert_eq.
    + apply af_same. by rewrite !lookup_insert_ne.
  - destruct (decide (t' = listener_tid)) as [->|Hn].
    + eapply af_new; [by eapply listener_absent| |by right; left]. by rewrite lookup_insert_ne, lookup_insert_eq.
    + apply af_same. by rewrite !lookup_insert_ne.
Qed.

(** ** Stop and go *)

(** A thread blocked in [client_control_wait] has something to wait for: the
    server is stopped, or main is about to wake everyone. *)
Record go_ok (T : gmap Z thr) (st : Z) : Prop := {
  go_blocked t a : T !! t = Some (Thr a (Client_control_wait WaitBlocked)) →
    st ≠ 0 ∨ ∃ b, T !! main_tid = Some (Thr b (Client_control_release GoBroadcast));
  go_sleep t a : T !! t = Some (Thr a (Client_control_wait WaitSleep)) → st ≠ 0;
}.

Definition go_idle (p : pc) : bool :=
  match p with Client_control_wait (WaitSleep | WaitBlocked) => false | _ => true end.

Definition not_broadcasting (p : pc) : bool :=
  match p with Client_control_release GoBroadcast => false | _ => true end.

Lemma go_move T st t a p p' :
  go_ok T st → T !! t = Some (Thr a p) → go_idle p' = true → not_broadcasting p = true →
  go_ok (<[t := Thr a p']> T) st.
Proof.
  intros [Hb Hs] Ht Hi Hn. split; intros t' b; rewrite lookup_insert_Some.
  - intros [[-> [= <- ->]]|[_ Hq]]; [done|]. destruct (Hb _ _ Hq) as [|[c Hc]]; [by left|right].
    exists c. rewrite lookup_insert_ne; [done|]. intros ->. rewrite Ht in Hc. by simplify_eq.
  - intros [[-> [= <- ->]]|[_ Hq]]; [done|by eapply Hs].
Qed.

Lemma go_new T st t th : go_ok T st → T !! t = None → go_idle (at_pc th) = true → go_ok (<[t := th]> T) st.
Proof.
  intros [Hb Hs] Ht Hi. split; intros t' b; rewrite lookup_insert_Some.
  - intros [[-> ->]|[_ Hq]]; [done|]. destruct (Hb _ _ Hq) as [|[c Hc]]; [by left|right].
    exists c. rewrite lookup_insert_ne; [done|]. intros ->. by rewrite Ht in Hc.
  - intros [[-> ->]|[_ Hq]]; [done|by eapply Hs].
Qed.

(** Two threads are not in critical sections of one mutex. *)
Lemma mutual_exclusion m s t t' a a' p p' :
  server_ok s → threads s !! t = Some (Thr a p) → threads s !! t' = Some (Thr a' p') →
  crit m p = true → crit m p' = true → t = t'.
Proof.
  intros H Ht Ht' Hp Hp'.
  assert (owner s m = Some t) by (apply (inv_mutex _ _ _ _ _ _ H); eauto).
  assert (owner s m = Some t') by (apply (inv_mutex _ _ _ _ _ _ H); eauto). congruence.
Qed.

Lemma go_step t e s s' :
  good s → go_ok (threads s) (stopped s) → exec t e s = Ok s' → go_ok (threads s') (stopped s').
Proof.
  intros [H B] G ([a p] & Ht & _ & He)%exec_inv.
  destruct p as [[]|[]|[]|[] []|[]|[]|[]|[]|[]|[]|], e; all_steps He; try (by eapply go_move).
  - apply Z.eqb_neq in B0. split; intros t' b; rewrite lookup_insert_Some; intros [[-> [=]]|[_ Hq]]; [by left|done..].
  - assert (stopped s ≠ 0) as Hs by (by eapply go_sleep).
    split; intros t' b; rewrite lookup_insert_Some; intros [[-> [=]]|[_ Hq]]; [by left..|done].
  - signalled H Ht.
    + by eapply go_move.
    + eapply go_move; [by eapply go_move|eassumption|done..].
  - split; intros t' b _; [left|]; lia.
  - split; intros t' b; rewrite lookup_insert_Some; intros [[-> [=]]|[_ Hq]].
    + right. pose proof (inv_role _ _ _ _ _ _ H _ _ _ Ht) as Hr. apply Z.eqb_eq in Hr as ->.
      exists a. apply lookup_insert_eq.
    + destruct (mutual_exclusion go_mutex s t t' _ _ _ _ H Ht Hq eq_refl eq_refl). congruence.
  - split; intros t' b; rewrite lookup_insert_Some; intros [[-> [=]]|[_ Hq]];
      rewrite lookup_fmap, fmap_Some in Hq; destruct Hq as ([c q] & Hq & Hw); unfold wake_client in Hw; simpl in Hw.
    + destruct q as [|[]| | | | | | | | |]; simplify_eq.
    + destruct q as [|[]| | | | | | | | |]; simplify_eq. by eapply go_sleep.
  - spawned H B. eapply go_move; [by apply go_new|by rewrite lookup_insert_ne by congruence|done..].
  - spawned H B. eapply go_move; [by apply go_new|by rewrite lookup_insert_ne by congruence|done..].
  - spawned H B. eapply go_move; [by apply go_new|by rewrite lookup_insert_ne by congruence|done..].
Qed.

(** Past the test of [client_control_wait]: about to run a command. *)
Definition past_gate (p : pc) : bool :=
  match p with Client_control_wait WaitUnlock | Run_client Exec => true | _ => false end.

(** While the server is stopped no thread passes. *)
Lemma gate_step t e s s' t' :
  good s → exec t e s = Ok s' → stopped s ≠ 0 →
  (∀ a p, threads s !! t' = Some (Thr a p) → past_gate p = false) →
  ∀ a p, threads s' !! t' = Some (Thr a p) → past_gate p = false.
Proof.
  intros Hg He Hs Hbefore b q Hq. destruct (decide (t' = t)) as [->|Hne].
  - destruct Hg as [H B]. apply exec_inv in He as ([a p] & Ht & _ & He). pose proof (Hbefore _ _ Ht) as Hp.
    destruct p as [[]|[]|[]|[] []|[]|[]|[]|[]|[]|[]|], e; try discriminate Hp; all_steps He;
      rewrite lookup_insert_eq in Hq; try (by simplify_eq).
    by apply Z.eqb_eq in B0.
  - destruct (exec_others _ _ _ _ _ Hg He Hne) as [Hs'|[c r] Hth Hw|c _ _ Hm|c r _ Hr Hnew].
    + rewrite Hs' in Hq. eauto.
    + rewrite Hw in Hq. unfold wake_client in Hq. cbn [at_pc arg] in Hq.
      pose proof (Hbefore _ _ Hth) as Hr. destruct r as [|[]| | | | | | | | |]; by simplify_eq.
    + rewrite Hm in Hq. by simplify_eq.
    + rewrite Hr in Hq. simplify_eq. by destruct Hnew as [->|[->| ->]].
Qed.

(** ** The end of the server *)

(** Someone has left the count and is about to signal main. *)
Definition leaving (T : gmap Z thr) : Prop :=
  ∃ t b p, T !! t = Some (Thr b (Thread_cleanup p)) ∧ (p = LeaveDestroy ∨ p = LeaveSignal).

(** What main knows at each point after it has read its last command. *)
Definition main_fact (num acc : Z) (X : gset Z) (L : Prop) (p : pc) : Prop :=
  match p with
  | Delete_all FromMain _ => acc = 0
  | Main (DrainLock | DrainTest | DrainRelock | CleaningUp | ListenerCancel) => acc = 0
  | Main DrainSleep => acc = 0 ∧ 0 < num
  | Main DrainWait => acc = 0 ∧ (0 < num ∨ L)
  | Main DrainUnlock => acc = 0 ∧ num ≤ 0
  | Main ListenerJoin => acc = 0 ∧ listener_tid ∈ X
  | _ => True
  end.

Definition drain_ok (s : server) : Prop :=
  ∀ a p, threads s !! main_tid = Some (Thr a p) →
    main_fact (num_client_threads s) (accepting_clients s) (cancels s) (leaving (threads s)) p.

Lemma main_fact_mono num acc X X' (L L' : Prop) p :
  main_fact num acc X L p → X ⊆ X' → (L → L') → main_fact num acc X' L' p.
Proof. intros Hf HX HL. destruct p as [| | |[]| | | | | |[]|]; simpl in *; naive_solver set_solver. Qed.

Definition leaves (p : pc) : bool :=
  match p with Thread_cleanup (LeaveDestroy | LeaveSignal) => true | _ => false end.

Lemma leaving_move T t a p p' :
  T !! t = Some (Thr a p) → implb (leaves p) (leaves p') = true → leaving T → leaving (<[t := Thr a p']> T).
Proof.
  intros Ht Hi (t' & b & q & Hq & Hl). destruct (decide (t' = t)) as [->|Hne].
  - rewrite Ht in Hq. simplify_eq. exists t, b.
    destruct p' as [| |r| | | | | | | |]; try by destruct Hl as [->| ->].
    exists r. rewrite lookup_insert_eq. split; [done|]. destruct r, Hl as [->| ->]; by auto.
  - exists t', b, q. by rewrite lookup_insert_ne.
Qed.

Lemma leaving_new T t th : T !! t = None → leaving T → leaving (<[t := th]> T).
Proof. intros Ht (t' & b & q & Hq & Hl). exists t', b, q. rewrite lookup_insert_ne; [done|]. congruence. Qed.

Lemma leaving_broadcast T : leaving T → leaving (wake_client <$> T).
Proof. intros (t & b & q & Hq & Hl). exists t, b, q. rewrite lookup_fmap, Hq. by split. Qed.

Lemma drain_step t e s s' : good s → drain_ok s → exec t e s = Ok s' → drain_ok s'.
Proof.
  intros [H B] D ([a p] & Ht & _ & He)%exec_inv b q Hq.
  destruct (decide (t = main_tid)) as [->|Hne].
  - pose proof (D _ _ Ht) as Hf.
    destruct p as [[]|[]|[]|[] []|[]|[]|[]|[]|[]|[]|], e; all_steps He;
      rewrite lookup_insert_eq in Hq; simplify_eq; simpl in Hf |- *; try done; try naive_solver.
    + destruct (num_client_threads s >? 0) eqn:Hn; (split; [done|lia]).
    + split; [done|set_solver].
  - pose proof (inv_role _ _ _ _ _ _ H _ _ _ Ht) as Hrole.
    assert (∀ c r, threads s !! main_tid = Some (Thr c r) → crit server_mutex p = true → crit server_mutex r = false) as Hx.
    { intros c r Hr Hp. apply not_true_is_false. intros Hc. apply Hne. by eapply mutual_exclusion. }
    destruct p as [[]|[]|[]|[] []|[]|[]|[]|[]|[]|[]|], e; all_steps He;
      try (rewrite lookup_insert_ne in Hq by done; pose proof (D _ _ Hq) as Hf; pose proof (Hx _ _ Hq));
      try (eapply main_fact_mono; [eassumption|set_solver|by eapply leaving_move]);
      try (by destruct Hne; apply Z.eqb_eq).
    + specialize (H0 eq_refl). destruct q as [| | |[]| | | | | |[]|]; simpl in *; try done.
      split; [naive_solver|left]. destruct Hf as [_ [?|(t' & c & r & Hr & Hl)]]; [lia|].
      destruct (mutual_exclusion server_mutex s t t' _ _ _ _ H Ht Hr eq_refl); [by destruct Hl as [->| ->]|].
      destruct Hl as [->| ->]; congruence.
    + specialize (H0 eq_refl). destruct q as [| | |[]| | | | | |[]|]; simpl in *; try done.
      split; [naive_solver|right]. exists t, a, LeaveDestroy. rewrite lookup_insert_eq. auto.
    + signalled H Ht; rewrite lookup_insert_ne in Hq by done.
      * pose proof (D _ _ Hq) as Hf. destruct q as [| | |[]| | | | | |[]|]; simpl in *; try done. naive_solver.
      * rewrite lookup_insert_eq in Hq. simplify_eq. simpl. by apply (D _ _ H1).
    + spawned H B. rewrite lookup_insert_ne in Hq by done.
      destruct (decide (n = main_tid)) as [->|Hn]; [rewrite lookup_insert_eq in Hq; by simplify_eq|].
      rewrite lookup_insert_ne in Hq by done.
      eapply main_fact_mono; [by apply (D _ _ Hq)|done|]. intros HL.
      eapply leaving_move; [rewrite lookup_insert_ne by congruence; eassumption|done|by apply leaving_new].
Qed.

(** ** [delete_all] reaches every client *)

Definition joined_as (T : gmap Z thr) (t x : Z) : Prop := ∃ p, T !! t = Some (Thr x p) ∧ joined p = true.

Lemma joined_as_move T t a p p' t' x :
  T !! t = Some (Thr a p) → joined p' = joined p → joined_as (<[t := Thr a p']> T) t' x ↔ joined_as T t' x.
Proof.
  intros Ht Hj. unfold joined_as. destruct (decide (t' = t)) as [->|Hne]; [|by rewrite lookup_insert_ne].
  rewrite lookup_insert_eq, Ht. split; intros (q & [= <- <-] & Hq); eexists; (split; [done|congruence]).
Qed.

Lemma joined_as_new T t th t' x :
  T !! t = None → joined (at_pc th) = false → joined_as (<[t := th]> T) t' x ↔ joined_as T t' x.
Proof.
  intros Ht Hj. unfold joined_as. destruct (decide (t' = t)) as [->|Hne]; [|by rewrite lookup_insert_ne].
  rewrite lookup_insert_eq, Ht. split; intros (q & [=] & Hq). subst th. simpl in Hj. congruence.
Qed.

Lemma joined_as_wake T t x : joined_as (wake_client <$> T) t x ↔ joined_as T t x.
Proof.
  unfold joined_as. rewrite lookup_fmap. destruct (T !! t) as [[a p]|]; [|naive_solver]. simpl. unfold wake_client. simpl.
  destruct p as [|[]| | | | | | | | |]; simpl; naive_solver.
Qed.

(** Outside the critical sections of the list a step changes neither who is in
    the list nor the links of those who are. *)
Lemma joined_frame t e s s' a p :
  good s → exec t e s = Ok s' → threads s !! t = Some (Thr a p) → crit thread_list_mutex p = false →
  (∀ t' x, joined_as (threads s') t' x ↔ joined_as (threads s) t' x) ∧
  (∀ t' x, joined_as (threads s) t' x → links (clients s') x = links (clients s) x).
Proof.
  intros [H B] ([a' p'] & Ht & _ & He)%exec_inv Ht' Hc. rewrite Ht in Ht'. simplify_eq.
  destruct p as [[]|[]|[]|[] []|[]|[]|[]|[]|[]|[]|], e; try discriminate Hc; all_steps He;
    (split; [try (intros; by eapply joined_as_move)|try done]).
  - by rewrite (owner_nonnull _ _ _ _ H Ht eq_refl) in B0.
  - intros t' y (q & Hq & Hj). unfold links. rewrite lookup_delete_ne; [done|]. intros ->.
    assert (t = t') as <- by (exact (args_inj _ _ _ _ _ _ _ _ _ _ _ H Ht eq_refl Hq (joined_owns _ Hj))).
    rewrite Ht in Hq. by simplify_eq.
  - intros t' y. signalled H Ht.
    + by eapply joined_as_move.
    + etrans; [by eapply joined_as_move|]. by eapply joined_as_move.
  - intros t' y _. signalled H Ht; done.
  - intros t' y. rename select ((wake_client <$> _) !! t = _) into Hw. pose proof Hw as Hw'.
    rewrite lookup_fmap, Ht in Hw'. unfold wake_client in Hw'. simplify_eq/=.
    etrans; [by eapply joined_as_move|]. apply joined_as_wake.
  - intros t' y (q & Hq & Hj). apply links_insert_ne. intros ->.
    destruct (own_client _ _ _ _ _ _ H _ _ _ Hq (joined_owns _ Hj)) as (c & Hcl & _).
    apply orb_false_iff in B0 as [_ B0%bool_decide_eq_false]. apply B0. eauto.
  - intros t' y. spawned H B. etrans; [eapply joined_as_move; [rewrite lookup_insert_ne by congruence; eassumption|done]|].
    by apply joined_as_new.
  - intros t' y _. unfold links. rewrite lookup_insert. case_decide; subst; [|done].
    rename select (clients s !! _ = Some _) into Hcl. by rewrite Hcl.
  - intros t' y. spawned H B. etrans; [eapply joined_as_move; [rewrite lookup_insert_ne by congruence; eassumption|done]|].
    by apply joined_as_new.
  - intros t' y. spawned H B. etrans; [eapply joined_as_move; [rewrite lookup_insert_ne by congruence; eassumption|done]|].
    by apply joined_as_new.
Qed.

Lemma cancels_grow t e s s' : exec t e s = Ok s' → cancels s ⊆ cancels s'.
Proof.
  intros ([a p] & Ht & _ & He)%exec_inv.
  destruct p as [[]|[]|[]|[] []|[]|[]|[]|[]|[]|[]|], e; all_steps He; try done; try set_solver.
  rename select (signal_server _ = _) into E. by apply signal_inv in E as [[-> _]|(b & Hb & ->)].
Qed.

(** The walk has cancelled everyone but those it has still to visit. *)
Definition swept (C : gmap Z client) (T : gmap Z thr) (X : gset Z) (cur : Z) : Prop :=
  ∃ l q q', dseg C q cur l q' NULL ∧ (∀ x, x ∈ l → ∃ t, joined_as T t x) ∧
    ∀ t x, joined_as T t x → t ∈ X ∨ x ∈ l.

Definition sweep_ok (s : server) : Prop :=
  ∀ t a k p, threads s !! t = Some (Thr a (Delete_all k p)) →
    match p with
    | DelWalk cur => swept (clients s) (threads s) (cancels s) cur
    | DelUnlock => ∀ t x, joined_as (threads s) t x → t ∈ cancels s
    | _ => True
    end.

Lemma swept_frame C C' T T' X X' cur :
  swept C T X cur → (∀ t x, joined_as T' t x ↔ joined_as T t x) →
  (∀ t x, joined_as T t x → links C' x = links C x) → X ⊆ X' → swept C' T' X' cur.
Proof.
  intros (l & q & q' & Hd & Hl & Hx) HT HC HX. exists l, q, q'. split_and!.
  - eapply dseg_ext; [|exact Hd]. intros x (t & Ht)%Hl. eauto.
  - intros x (t & Ht)%Hl. exists t. by apply HT.
  - intros t x Ht%HT. apply Hx in Ht. set_solver.
Qed.

(** The steps of the walk. *)
Section Sweep.
Context (s : server) (H : server_ok s) (t a : Z) (k : caller).

Lemma sweep_start p :
  threads s !! t = Some (Thr a (Delete_all k DelHead)) → joined p = false →
  swept (clients s) (<[t := Thr a p]> (threads s)) (cancels s) (thread_list_head s).
Proof.
  intros Ht Hp. destruct (list_at _ _ _ _ _ _ H _ _ _ Ht eq_refl) as (l & _ & Hl & q & Hq).
  exists l, NULL, q. split; [done|]. setoid_rewrite joined_as_move; [|done..]. split.
  - intros x (t' & p' & ? & ?)%Hl. exists t', p'. done.
  - intros t' x (p' & ? & ?). right. apply Hl. eauto.
Qed.

Lemma sweep_end p t' x :
  sweep_ok s → threads s !! t = Some (Thr a (Delete_all k (DelWalk NULL))) → joined p = false →
  joined_as (<[t := Thr a p]> (threads s)) t' x → t' ∈ cancels s.
Proof.
  intros S Ht Hp. rewrite joined_as_move by done. intros Hj.
  destruct (S _ _ _ _ Ht) as (l & q & q' & Hd & _ & Hx). destruct (Hx _ _ Hj) as [|Hin]; [done|].
  destruct l as [|b l]; [set_solver|]. destruct Hd as (<- & Hb & _). done.
Qed.

Lemma sweep_next p cur c t' :
  sweep_ok s → threads s !! t = Some (Thr a (Delete_all k (DelWalk cur))) → joined p = false → cur ≠ NULL →
  clients s !! cur = Some c → thread c = Some t' →
  swept (clients s) (<[t := Thr a p]> (threads s)) ({[t']} ∪ cancels s) (next c).
Proof.
  intros S Ht Hp Hcur Hc Hth. destruct (S _ _ _ _ Ht) as (l & q & q' & Hd & Hl & Hx).
  destruct l as [|b l]; [by destruct Hd|]. destruct Hd as (<- & _ & n & Hn & Hd).
  assert (next c = n) as -> by (unfold links in Hn; rewrite Hc in Hn; simpl in Hn; congruence).
  exists l, cur, q'. split; [done|]. setoid_rewrite joined_as_move; [|done..]. split; [set_solver|].
  intros t1 x Hj. destruct (Hx _ _ Hj) as [|Hin]; [set_solver|]. apply elem_of_cons in Hin as [->|]; [|by right].
  left. destruct Hj as (p1 & Hp1 & Hj1).
  destruct (own_client _ _ _ _ _ _ H _ _ _ Hp1 (joined_owns _ Hj1)) as (c1 & Hc1 & Hth1 & _). set_solver.
Qed.
End Sweep.

Lemma sweep_step t e s s' : good s → sweep_ok s → exec t e s = Ok s' → sweep_ok s'.
Proof.
  intros Hg S He t0 a k p Hp. pose proof Hg as [H B].
  pose proof (exec_good _ _ _ _ Hg He) as [H' _].
  destruct (decide (t = t0)) as [->|Hne].
  - pose proof (exec_inv _ _ _ _ He) as ([b q] & Ht & _ & Hs).
    destruct q as [[]|[]|[]|[] []|[]|[]|[]|[]|[]|[]|], e; all_steps Hs; rewrite lookup_insert_eq in Hp; simplify_eq;
      try done; try (by eapply sweep_start);
      first [apply Z.eqb_eq in B0 as ->; intros ? ?; by eapply sweep_end | apply Z.eqb_neq in B0; by eapply sweep_next].
  - assert (threads s !! t0 = Some (Thr a (Delete_all k p))) as Hp0.
    { destruct (exec_others _ _ _ _ t0 Hg He ltac:(done)) as [<-|[b q] Hb Hw|b _ _ Hb|b q _ Hb Hq]; [done|..].
      - rewrite Hw in Hp. unfold wake_client in Hp. cbn in Hp. destruct q as [|[]| | | | | | | | |]; by simplify_eq.
      - by rewrite Hb in Hp.
      - rewrite Hb in Hp. simplify_eq. by destruct Hq as [|[|]]. }
    pose proof (exec_inv _ _ _ _ He) as ([b q] & Ht & _). specialize (S _ _ _ _ Hp0).
    destruct (crit thread_list_mutex (Delete_all k p)) eqn:Hc; [|by destruct p].
    assert (crit thread_list_mutex q = false) as Hq.
    { apply not_true_is_false. intros Hq. apply Hne. exact (mutual_exclusion _ s t t0 _ _ _ _ H Ht Hp0 Hq Hc). }
    destruct (joined_frame _ _ _ _ _ _ Hg He Ht Hq) as [Hj Hlk]. pose proof (cancels_grow _ _ _ _ He) as HX.
    destruct p; [done|done|by eapply swept_frame|]. intros t' x Hx%Hj. apply S in Hx. set_solver.
Qed.
