(* ===== verification/ServerShutdown.v ===== *)
(** * The shutdown of the server ends.

    When main has cancelled every client and none is on its way into the list,
    each step brings the server nearer to its end and there is always a step to
    take. *)

From Stdlib Require Import ZArith Lia.
From stdpp Require Import base gmap strings numbers option fin_maps functions relations list.
From S2P Require Import Prelude Db ShellCommon Server ServerInv ServerSteps ServerProofs ServerLive.

Open Scope Z_scope.

(** ** All invariants together *)

Record sound (s : server) : Prop := {
  so_good : good s;
  so_go : go_ok (threads s) (stopped s);
  so_drain : drain_ok s;
  so_sweep : sweep_ok s;
}.

Lemma exec_sound t e s s' : sound s → exec t e s = Ok s' → sound s'.
Proof.
  intros [Hg Hgo Hd Hs] He. split.
  - by eapply exec_good.
  - by eapply go_step.
  - by eapply drain_step.
  - by eapply sweep_step.
Qed.

Lemma steps_sound s s' : sound s → rtc step s s' → sound s'.
Proof. intros Hs Hr. induction Hr as [|s1 s2 s3 (t & e & He) _ IH]; [done|]. by eapply IH, exec_sound. Qed.

Lemma start_sound : sound start_server.
Proof.
  split.
  - apply start_good.
  - split; intros t a Ht; cbn in Ht; apply lookup_singleton_Some in Ht as [_ [=]].
  - intros a p Hp. cbn in Hp. apply lookup_singleton_Some in Hp as [_ [= <- <-]]. done.
  - intros t a k p Hp. cbn in Hp. by apply lookup_singleton_Some in Hp as [_ [=]].
Qed.

Lemma reachable_sound s : reachable s → sound s.
Proof. apply steps_sound, start_sound. Qed.

(** ** Winding down *)

(** The events of a shutdown: no new connection, no spurious wake-up. *)
Definition work_event (t : Z) (e : event) : bool :=
  match e with
  | Spurious => false
  | Cancel => true
  | _ => negb (t =? listener_tid)
  end.

Definition work (s s' : server) : Prop := ∃ t e, work_event t e = true ∧ exec t e s = Ok s'.

(** Where a thread may be when main has cancelled everyone. *)
Definition settled (X : gset Z) (t : Z) (p : pc) : Prop :=
  match p with
  | Run_client TestAccepting | Thread_cleanup _ | Exited | Listener Accept
  | Delete_all FromMain DelUnlock => True
  | Run_client (LinkUnlock | Serve | Exec) | Client_control_wait _ => t ∈ X
  | Main (Constructing | Starting | Reading | Printing | Refusing) => False
  | Main _ => True
  | _ => False
  end.

Record winding (s : server) : Prop := {
  wd_closed : accepting_clients s = 0;
  wd_settled t a p : threads s !! t = Some (Thr a p) → settled (cancels s) t p;
}.

(** How much a thread has still to do; a signal sends main round its loop once
    more. *)
Definition weight (p : pc) : Z :=
  match p with
  | Run_client TestAccepting => 1
  | Run_client LinkUnlock => 24
  | Run_client Serve => 16
  | Run_client Exec => 17
  | Client_control_wait WaitLock => 22
  | Client_control_wait WaitRelock => 21
  | Client_control_wait WaitTest => 20
  | Client_control_wait WaitSleep => 19
  | Client_control_wait (WaitBlocked | WaitUnlock) => 18
  | Client_control_wait WaitCancelled => 17
  | Client_control_wait WaitCancelUnlock => 16
  | Thread_cleanup UnlinkLock => 15
  | Thread_cleanup UnlinkNext => 14
  | Thread_cleanup UnlinkPrev => 13
  | Thread_cleanup UnlinkUnlock => 12
  | Thread_cleanup LeaveLock => 11
  | Thread_cleanup LeaveDecr => 10
  | Thread_cleanup LeaveDestroy => 9
  | Thread_cleanup LeaveSignal => 8
  | Thread_cleanup LeaveUnlock => 1
  | Delete_all FromMain DelUnlock => 12
  | Main DrainLock => 11
  | Main DrainRelock => 10
  | Main DrainTest => 9
  | Main DrainSleep => 8
  | Main DrainWait => 7
  | Main DrainUnlock => 6
  | Main CleaningUp => 5
  | Main ListenerCancel => 4
  | Main ListenerJoin => 3
  | Listener Accept => 1
  | _ => 0
  end.

Definition effort (s : server) : Z := msum (λ th, weight (at_pc th)) (threads s).

Lemma effort_nonneg s : 0 ≤ effort s.
Proof.
  apply msum_nonneg. intros t [a p] _. simpl. by destruct p as [[]|[]|[]|[] []|[]|[]|[]|[]|[]|[]|].
Qed.

Lemma settled_move s s' t a p p' :
  winding s → threads s !! t = Some (Thr a p) → threads s' = <[t := Thr a p']> (threads s) →
  settled (cancels s') t p' → cancels s ⊆ cancels s' → accepting_clients s' = accepting_clients s → winding s'.
Proof.
  intros [Hc Hw] Ht HT Hs HX Ha. split; [congruence|]. intros t' b q. rewrite HT, lookup_insert_Some.
  intros [[-> [= <- <-]]|[_ Hq]]; [done|]. pose proof (Hw _ _ _ Hq) as Hset.
  destruct q as [[]|[]|[]|[] []|[]|[]|[]|[]|[]|[]|]; simpl in *; set_solver.
Qed.

(** A step of one thread only. *)
Lemma work_move s s' t a p p' :
  winding s → threads s !! t = Some (Thr a p) → threads s' = <[t := Thr a p']> (threads s) →
  settled (cancels s') t p' → cancels s ⊆ cancels s' → accepting_clients s' = accepting_clients s →
  weight p' < weight p → winding s' ∧ effort s' < effort s.
Proof.
  intros Hw Ht HT Hs HX Ha Hlt. split; [by eapply settled_move|]. unfold effort. rewrite HT.
  rewrite (msum_move _ _ _ _ _ Ht). simpl. lia.
Qed.

Lemma winding_step t e s s' :
  good s → winding s → work_event t e = true → exec t e s = Ok s' → winding s' ∧ effort s' < effort s.
Proof.
  intros [H B] W Hwork ([a p] & Ht & _ & He)%exec_inv. pose proof (wd_settled _ W _ _ _ Ht) as Hset.
  pose proof (wd_closed _ W) as Hcl. pose proof (inv_role _ _ _ _ _ _ H _ _ _ Ht) as Hrole.
  destruct p as [[]|[]|[]|[] []|[]|[]|[]|[]|[]|[]|], e; try done; simpl in Hset; all_steps He;
    try (eapply work_move; [exact W|exact Ht|reflexivity|exact Hset || exact I|clean; set_solver|reflexivity|done]).
  - by rewrite Hcl in B0.
  - rename select (cancelled t s = false) into Hc. by apply bool_decide_eq_false in Hc.
  - signalled H Ht; [by eapply work_move|].
    assert (winding (set_threads (<[main_tid := Thr b (Main DrainRelock)]> (threads s)) s)) as W1 by (by eapply settled_move).
    split; [by eapply settled_move|]. unfold effort. clean.
    erewrite msum_move by eassumption. erewrite msum_move by eassumption. simpl. lia.
  - simpl in Hwork, Hrole. by rewrite Hrole in Hwork.
  - simpl in Hwork, Hrole. by rewrite Hrole in Hwork.
  - destruct (_ >? 0); by eapply work_move.
Qed.

(** ** There is always a step *)

(** Computations that do not wait. *)
Definition unblocked {A} (r : result A) : Prop := ∀ f, r = Err f → f = BadAccess ∨ f = AssertFail.

Lemma unblocked_Ok {A} (x : A) : unblocked (Ok x).
Proof. by intros f. Qed.

Lemma unblocked_bind {A C} (m : sv A) (k : A → sv C) s0 :
  unblocked (m s0) → (∀ x s1, unblocked (k x s1)) → unblocked ((m ≫= k) s0).
Proof.
  intros Hm Hk f. unfold mbind, ST_bind. destruct (m s0) as [[x s1]|f'] eqn:Hs; [by apply Hk|].
  intros [= <-]. by apply Hm.
Qed.

Ltac unblock :=
  repeat first
    [ apply unblocked_Ok
    | apply unblocked_bind; [|intros ? ?]
    | match goal with |- unblocked (match ?b with _ => _ end _) => destruct b end
    | let f := fresh in intros f;
      unfold goto, pthread_mutex_unlock, client_at, put_client, pthread_cancel, comm_shutdown, signal_server, deref,
        fail, assertb, modify, mret, ST_ret;
      repeat case_match; intros; simplify_eq; by auto ].

(** Points at which a thread can always go on. *)
Definition running (p : pc) : bool :=
  match p with
  | Run_client (LinkUnlock | Exec)
  | Client_control_wait (WaitTest | WaitSleep | WaitUnlock | WaitCancelUnlock)
  | Thread_cleanup (UnlinkNext | UnlinkPrev | UnlinkUnlock | LeaveDecr | LeaveDestroy | LeaveSignal | LeaveUnlock)
  | Delete_all FromMain DelUnlock
  | Main (DrainTest | DrainSleep | DrainUnlock | CleaningUp | ListenerCancel) => true
  | _ => false
  end.

Lemma running_go s t a p :
  good s → has_exited main_tid s = false → threads s !! t = Some (Thr a p) → running p = true →
  ∃ s', exec t Go s = Ok s'.
Proof.
  intros Hg Hm Ht Hr. destruct (exec t Go s) as [s'|f] eqn:He; [by eauto|exfalso].
  pose proof (exec_fault _ _ _ _ _ _ Hg Ht He) as Hx.
  assert (f = BadAccess ∨ f = AssertFail) as Hf.
  { unfold exec in He. rewrite Ht, Hm in He.
    assert (unblocked (thread_step t (Thr a p) Go s)) as Hu.
    { unfold thread_step, run_client_step, client_control_wait_step, thread_cleanup_step, delete_all_step, main_step,
        client_destructor. cbn [at_pc arg].
      destruct p as [[]|[]|[]|[] []|[]|[]|[]|[]|[]|[]|]; try discriminate Hr; unblock. }
    destruct (thread_step t (Thr a p) Go s) as [[[] ?]|f']; [done|]. injection He as ->. by apply Hu. }
  unfold excused in Hx. destruct p as [[]|[]|[]|[] []|[]|[]|[]|[]|[]|[]|]; try discriminate Hr; naive_solver.
Qed.

(** The mutex a thread is waiting for. *)
Definition wants (p : pc) : option mutex :=
  match p with
  | Thread_cleanup UnlinkLock => Some thread_list_mutex
  | Thread_cleanup LeaveLock | Main (DrainLock | DrainRelock) => Some server_mutex
  | Client_control_wait (WaitLock | WaitRelock | WaitCancelled) => Some go_mutex
  | _ => None
  end.

Lemma exec_is t e s a p s' :
  threads s !! t = Some (Thr a p) → has_exited main_tid s = false → thread_step t (Thr a p) e s = Ok (tt, s') →
  exec t e s = Ok s'.
Proof. intros Ht Hm Hs. unfold exec. by rewrite Ht, Hm, Hs. Qed.

Lemma goto_go t s a p q : threads s !! t = Some (Thr a p) → goto t q s = Ok (tt, set_threads (<[t := Thr a q]> (threads s)) s).
Proof. intros Ht. unfold goto. by rewrite Ht. Qed.

Section Progress.
Context (s : server) (S : sound s) (W : winding s) (Hm : has_exited main_tid s = false).

Definition can_work : Prop := ∃ s', work s s'.

Lemma worker t a p :
  threads s !! t = Some (Thr a p) → running p = true ∨ is_Some (wants p) → work_event t Go = true.
Proof.
  intros Ht Hr. pose proof (inv_role _ _ _ _ _ _ (proj1 (so_good _ S)) _ _ _ Ht) as Hrole.
  simpl. apply negb_true_iff, Z.eqb_neq. intros ->.
  destruct p as [[]|[]|[]|[] []|[]|[]|[]|[]|[]|[]|]; simpl in *; try done; destruct Hr as [|[? ?]]; done.
Qed.

Lemma running_works t a p : threads s !! t = Some (Thr a p) → running p = true → can_work.
Proof.
  intros Ht Hr. destruct (running_go s t a p (so_good _ S) Hm Ht Hr) as [s' Hs'].
  exists s', t, Go. split; [|done]. eapply worker; eauto.
Qed.

(** Who holds a mutex is running ... *)
Lemma holder_works m t : owner s m = Some t → can_work.
Proof.
  intros Ho. apply (inv_mutex _ _ _ _ _ _ (proj1 (so_good _ S))) in Ho as (a & p & Ht & Hc).
  eapply running_works; [done|]. pose proof (wd_settled _ W _ _ _ Ht) as Hset.
  destruct m, p as [[]|[]|[]|[] []|[]|[]|[]|[]|[]|[]|]; done.
Qed.

(** ... so that who waits for one can go on, or another thread can. *)
Lemma waiter_works t a p m : threads s !! t = Some (Thr a p) → wants p = Some m → can_work.
Proof.
  intros Ht Hw. destruct (owner s m) as [t'|] eqn:Ho; [by eapply holder_works|].
  assert (∃ s', thread_step t (Thr a p) Go s = Ok (tt, s')) as [s' Hs'].
  { unfold thread_step, client_control_wait_step, thread_cleanup_step, main_step. cbn [at_pc arg].
    destruct p as [[]|[]|[]|[] []|[]|[]|[]|[]|[]|[]|]; try discriminate Hw; injection Hw as <-;
      rewrite ST_get; try (destruct (a =? NULL)); unfold mbind, ST_bind, pthread_mutex_lock; rewrite ?Ho;
      erewrite goto_go by (clean; eassumption); by eexists. }
  exists s', t, Go. split; [eapply worker; [done|right; eauto]|by eapply exec_is].
Qed.

(** A cancelled thread acts on it. *)
Lemma cancel_works t a p :
  threads s !! t = Some (Thr a p) → p = Run_client Serve ∨ p = Client_control_wait WaitBlocked → t ∈ cancels s → can_work.
Proof.
  intros Ht Hp Hc. pose proof (proj1 (so_good _ S)) as H.
  assert (cancelled t s = true) as Hcc by by apply bool_decide_eq_true.
  assert (∃ s', thread_step t (Thr a p) Cancel s = Ok (tt, s')) as [s' Hs'].
  { destruct Hp as [->| ->]; unfold thread_step; cbn [at_pc arg].
    - destruct (own_client _ _ _ _ _ _ H _ _ _ Ht eq_refl) as (c & Hcl & _).
      unfold run_client_step. rewrite ST_get. unfold mbind, ST_bind, client_at. rewrite Hcl. cbn [deref mret ST_ret].
      rewrite decide_True by (by eapply inv_stream). cbn [mret ST_ret]. rewrite Hcc.
      erewrite goto_go by eassumption. by eexists.
    - unfold client_control_wait_step. rewrite ST_get, Hcc. erewrite goto_go by eassumption. by eexists. }
  exists s', t, Cancel. split; [done|by eapply exec_is].
Qed.

(** A client that is counted is not stuck. *)
Lemma counted_works t a p : threads s !! t = Some (Thr a p) → counted p = true → can_work.
Proof.
  intros Ht Hc. pose proof (wd_settled _ W _ _ _ Ht) as Hset.
  destruct p as [[]|[]|[]|[] []|[]|[]|[]|[]|[]|[]|]; try done;
    first [by eapply running_works | by eapply waiter_works | by eapply cancel_works; eauto].
Qed.

Lemma some_counted : 0 < num_client_threads s → ∃ t a p, threads s !! t = Some (Thr a p) ∧ counted p = true.
Proof.
  rewrite (inv_count _ _ _ _ _ _ (proj1 (so_good _ S))). intros Hn.
  destruct (map_choose (filter (λ kt, counted (at_pc kt.2) = true) (threads s))) as (t & [a p] & Ht).
  { intros He. rewrite He, map_size_empty in Hn. done. }
  apply map_lookup_filter_Some in Ht as [Ht Hc]. by exists t, a, p.
Qed.

Lemma winding_works : can_work.
Proof.
  destruct (so_good _ S) as [H B]. pose proof (bt_main _ _ _ _ _ _ B) as Hph.
  unfold main_phase in Hph. destruct (threads s !! main_tid) as [[a p]|] eqn:Ht; [|simpl in Hph; lia].
  pose proof (wd_settled _ W _ _ _ Ht) as Hset. pose proof (inv_role _ _ _ _ _ _ H _ _ _ Ht) as Hrole.
  pose proof (so_drain _ S _ _ Ht) as Hf.
  destruct p as [[]|[]|[]|[] []|[]|[]|[]|[]|[]|[]|]; try done;
    try (by eapply running_works); try (by eapply waiter_works).
  - (* the wait for the clients *)
    destruct Hf as [_ [Hn|(t & b & q & Hq & Hl)]].
    + destruct (some_counted Hn) as (t & b & q & Hq & Hc). by eapply counted_works.
    + eapply running_works; [done|]. by destruct Hl as [->| ->].
  - (* the wait for the listener *)
    destruct Hf as [_ Hl]. destruct (bt_lis _ _ _ _ _ _ B) as [st Hst].
    { rewrite (main_phase_is _ _ _ Ht). simpl. lia. }
    unfold status in Hst. destruct (threads s !! listener_tid) as [[b q]|] eqn:Hq; [|done].
    pose proof (wd_settled _ W _ _ _ Hq) as Hset'. pose proof (inv_role _ _ _ _ _ _ H _ _ _ Hq) as Hrole'.
    destruct q as [[]|[]|[]|[] []|[]|[]|[]|[]|[]|[]|]; try done.
    + eexists _, listener_tid, Cancel. split; [done|]. eapply exec_is; [done|done|].
      unfold thread_step. cbn [at_pc]. unfold listener_step. rewrite ST_get.
      unfold cancelled. rewrite bool_decide_true by done. by erewrite goto_go by eassumption.
    + eexists _, main_tid, Go. split; [done|]. eapply exec_is; [done|done|].
      unfold thread_step. cbn [at_pc]. unfold main_step. rewrite ST_get.
      unfold has_exited. rewrite Hq. cbn [at_pc]. by erewrite goto_go by eassumption.
  - unfold has_exited in Hm. by rewrite Ht in Hm.
Qed.
End Progress.

(** ** The whole shutdown *)

Lemma work_step s s' : work s s' → step s s'.
Proof. intros (t & e & _ & He). by exists t, e. Qed.

Lemma work_winding s s' : sound s → winding s → work s s' → sound s' ∧ winding s' ∧ effort s' < effort s.
Proof.
  intros S W (t & e & Hw & He). destruct (winding_step _ _ _ _ (so_good _ S) W Hw He).
  split_and!; [by eapply exec_sound|done..].
Qed.

Lemma winding_bounded k s s' : sound s → winding s → nsteps work k s s' → Z.of_nat k ≤ effort s.
Proof.
  intros S W Hk. revert S W. induction Hk as [s|k s s1 s2 Hw _ IH]; intros S W.
  - apply effort_nonneg.
  - destruct (work_winding _ _ S W Hw) as (S1 & W1 & Hlt). specialize (IH S1 W1). lia.
Qed.

Lemma winding_progress s s' :
  sound s → winding s → rtc work s s' → has_exited main_tid s' = false → ∃ s'', work s' s''.
Proof.
  intros S W Hs. revert S W. induction Hs as [s|s s1 s2 Hw _ IH]; intros S W Hm.
  - by apply winding_works.
  - destruct (work_winding _ _ S W Hw) as (S1 & W1 & _). by apply IH.
Qed.

(** Between the test of [accepting_clients] and the list. *)
Definition joining (p : pc) : bool :=
  match p with Run_client (CountLock | CountIncr | CountUnlock | LinkLock) => true | _ => false end.

(** When [delete_all] has walked the list and no client is on its way into it,
    everyone is settled. *)
Lemma shutdown_winds s a :
  sound s → threads s !! main_tid = Some (Thr a (Delete_all FromMain DelUnlock)) →
  (∀ t a p, threads s !! t = Some (Thr a p) → joining p = false) →
  (∃ b, threads s !! listener_tid = Some (Thr b (Listener Accept))) → winding s.
Proof.
  intros S Hm Hj [b Hlis]. destruct (so_good _ S) as [H B]. split; [exact (so_drain _ S _ _ Hm)|].
  intros t c p Ht. pose proof (inv_role _ _ _ _ _ _ H _ _ _ Ht) as Hrole. specialize (Hj _ _ _ Ht).
  assert (t ≠ main_tid → crit thread_list_mutex p = false) as Hcrit.
  { intros Hne. apply not_true_is_false. intros Hc. apply Hne. exact (mutual_exclusion _ _ _ _ _ _ _ _ H Ht Hm Hc eq_refl). }
  destruct (decide (t = main_tid)) as [->|Hne]; [by rewrite Hm in Ht; simplify_eq|]. specialize (Hcrit Hne).
  destruct (decide (t = listener_tid)) as [->|Hnl]; [by rewrite Hlis in Ht; simplify_eq|].
  destruct (decide (t = monitor_tid)) as [->|Hnm].
  { pose proof (bt_mon_down _ _ _ _ _ _ B) as Hd. rewrite (main_phase_is _ _ _ Hm) in Hd. specialize (Hd ltac:(simpl; lia)).
    unfold status in Hd. rewrite Ht in Hd. by destruct p. }
  assert (joined p = true → t ∈ cancels s) as Hjoined.
  { intros Hp. eapply (so_sweep _ S _ _ _ _ Hm). by exists p. }
  destruct p as [[]|[]|[]|[] []|[]|[]|[]|[]|[]|[]|]; simpl in *; try done; try (by apply Hjoined); by apply Z.eqb_eq in Hrole.
Qed.

(** ** After the wait *)

(** Nothing of a client is left to do but to go. *)
Definition gone (p : pc) : bool :=
  negb (counted p) && match p with Run_client (CountLock | CountIncr) => false | _ => true end.

Record calm (s : server) : Prop := {
  cm_closed : accepting_clients s = 0;
  cm_gone t a p : threads s !! t = Some (Thr a p) → gone p = true;
}.

Lemma calm_step t e s s' : good s → calm s → exec t e s = Ok s' → calm s'.
Proof.
  intros Hg [Hacc Hgone] He. pose proof (exec_inv _ _ _ _ He) as ([a p] & Ht & _ & Hs).
  pose proof (Hgone _ _ _ Ht) as Hp. pose proof Hg as [H B]. split.
  - destruct p as [[]|[]|[]|[] []|[]|[]|[]|[]|[]|[]|], e; try done; all_steps Hs; try done.
    rename select (signal_server _ = _) into E. by apply signal_inv in E as [[-> _]|(b & Hb & ->)].
  - intros t' b q Hq. destruct (decide (t' = t)) as [->|Hne].
    + destruct p as [[]|[]|[]|[] []|[]|[]|[]|[]|[]|[]|], e; try done; all_steps Hs;
        rewrite lookup_insert_eq in Hq; simplify_eq; try done; by rewrite Hacc in *.
    + destruct (exec_others _ _ _ _ _ Hg He Hne) as [Hs'|[c r] Hth Hw|c _ _ Hm|c r _ Hr Hnew].
      * rewrite Hs' in Hq. eauto.
      * rewrite Hw in Hq. pose proof (Hgone _ _ _ Hth) as Hr. unfold wake_client in Hq. cbn in Hq.
        destruct r as [|[]| | | | | | | | |]; by simplify_eq.
      * rewrite Hm in Hq. by simplify_eq.
      * rewrite Hr in Hq. simplify_eq. by destruct Hnew as [->|[->| ->]].
Qed.

Lemma calm_steps s s' : good s → calm s → rtc step s s' → calm s'.
Proof.
  intros Hg Hc Hs. revert Hg Hc. induction Hs as [|s1 s2 s3 (t & e & He) _ IH]; [done|]. intros Hg Hc.
  apply IH; [by eapply exec_good|by eapply calm_step].
Qed.

(** When main stops waiting, every client that was counted has gone. *)
Lemma drained_calm s a :
  sound s → threads s !! main_tid = Some (Thr a (Main DrainUnlock)) →
  (∀ t a p, threads s !! t = Some (Thr a p) → p ≠ Run_client CountLock ∧ p ≠ Run_client CountIncr) → calm s.
Proof.
  intros S Hm Hnone. destruct (so_drain _ S _ _ Hm) as [Hacc Hnum]. split; [done|]. intros t b p Ht.
  destruct (Hnone _ _ _ Ht) as [H1 H2]. unfold gone. apply andb_true_iff. split; [|by destruct p as [[]| | | | | | | | | |]].
  apply negb_true_iff, not_true_is_false. intros Hc.
  rewrite (inv_count _ _ _ _ _ _ (proj1 (so_good _ S))) in Hnum.
  assert (filter (λ kt, counted (at_pc kt.2) = true) (threads s) !! t = Some (Thr b p)) as Hf by by apply map_lookup_filter_Some.
  destruct (size (filter (λ kt, counted (at_pc kt.2) = true) (threads s))) eqn:Hsz; [|lia].
  apply map_size_empty_inv in Hsz. rewrite Hsz in Hf. by rewrite lookup_empty in Hf.
Qed.
