(* ===== verification/ServerClaims.v ===== *)
(** * Properties of the database server. *)

From Stdlib Require Import ZArith Lia String.
From stdpp Require Import base gmap strings numbers option fin_maps functions relations list.
From S2P Require Import Prelude Db DbTree DbProofs DbRemove ShellCommon Server ServerInv ServerSteps ServerProofs ServerLive ServerShutdown.

Open Scope Z_scope.

(** ** Runs of the server *)

Definition state_of (l : list (Z * event)) : server :=
  match run_schedule l start_server with Ok s => s | Err _ => start_server end.

Lemma state_of_reachable l : reachable (state_of l).
Proof.
  unfold state_of. destruct (run_schedule l start_server) as [s|] eqn:Hs; [|by apply rtc_refl].
  by eapply run_schedule_rtc.
Qed.

Definition gos (t : Z) (n : nat) : list (Z * event) := replicate n (t, Go).

(** Main starts its threads and the listener its socket. *)
Definition boot : list (Z * event) := [(main_tid, Go); (main_tid, Go); (listener_tid, Go)].

(** A connection arrives and gets a client and a thread. *)
Definition connect (stream client t : Z) : list (Z * event) :=
  [(listener_tid, Pick stream); (listener_tid, Pick client); (listener_tid, Pick t)].

(** Two clients that have joined the list. *)
Definition two_clients : list (Z * event) :=
  boot ++ connect 100 8 3 ++ gos listener_tid 1 ++ gos 3 9 ++ connect 101 16 4 ++ gos listener_tid 1 ++ gos 4 9.

(** Main reads the end of its input, joins the signal thread and stops accepting
    clients. *)
Definition end_input : list (Z * event) :=
  [(main_tid, Fail); (main_tid, Go); (monitor_tid, Cancel)] ++ gos main_tid 3.

(** C6: in every reachable state in which the mutex of the client list is free,
    the links from [thread_list_head] form a doubly linked list without
    repetition of exactly the clients whose threads have joined and not left,
    and [num_client_threads] is the number of threads that have counted
    themselves and not yet uncounted. *)
Theorem server_client_list (s : server) :
  reachable s → owner s thread_list_mutex = None →
  ∃ l, NoDup l ∧ (∃ q, dseg (clients s) NULL (thread_list_head s) l q NULL) ∧
    (∀ x, x ∈ l ↔ ∃ t p, threads s !! t = Some (Thr x p) ∧ joined p = true) ∧
    num_client_threads s = Z.of_nat (size (filter (λ kt, counted (at_pc kt.2) = true) (threads s))).
Proof.
  intros Hr Ho. destruct (reachable_good s Hr) as [H _].
  destruct (inv_list _ _ _ _ _ _ H) as (l & Hnd & Hl & Hst). exists l.
  unfold holder in Hst. rewrite Ho in Hst. split_and!; [done..|]. by apply (inv_count _ _ _ _ _ _ H).
Qed.

Lemma server_client_list_witness :
  ∃ l, NoDup l ∧ (∃ q, dseg (clients (state_of two_clients)) NULL (thread_list_head (state_of two_clients)) l q NULL) ∧
    (∀ x, x ∈ l ↔ ∃ t p, threads (state_of two_clients) !! t = Some (Thr x p) ∧ joined p = true) ∧
    num_client_threads (state_of two_clients) =
      Z.of_nat (size (filter (λ kt, counted (at_pc kt.2) = true) (threads (state_of two_clients)))).
Proof.
  apply (server_client_list (state_of two_clients)); [apply state_of_reachable|vm_compute; reflexivity].
Defined.

(** C10: whatever the threads do and however they interleave, a step of the server
    fails only because it has to wait, because the system refuses a resource
    (the process then exits or its [assert] fails), because the listener
    detaches a thread through a client that is already freed, or because main
    is given a line without a word.  In particular no other access is to a
    freed client or a closed connection, no mutex is unlocked by a thread that
    does not hold it, and no thread that has ended is cancelled. *)
Theorem server_faults (s : server) (t a : Z) (p : pc) (e : event) (f : fault) :
  reachable s → threads s !! t = Some (Thr a p) → exec t e s = Err f → excused t p e f.
Proof. intros Hr. by apply exec_fault, reachable_good. Qed.

Lemma server_faults_witness : excused main_tid (Main Reading) (Line []) BadAccess.
Proof.
  apply (server_faults (state_of two_clients) main_tid NULL);
    [apply state_of_reachable|vm_compute; reflexivity|vm_compute; reflexivity].
Defined.

(** C11: after [client_control_stop] no command is started: as long as [stopped]
    is set, a thread that has not passed [client_control_wait] does not pass
    it.  And no wake-up is lost: when [stopped] is clear and main is not about
    to broadcast, no thread is blocked in [client_control_wait]. *)
Theorem server_stop_go (s s' : server) (t : Z) :
  reachable s → rtc (λ s1 s2, stopped s1 ≠ 0 ∧ step s1 s2) s s' →
  (∀ a p, threads s !! t = Some (Thr a p) → past_gate p = false) →
  (∀ a p, threads s' !! t = Some (Thr a p) → past_gate p = false) ∧
  (stopped s' = 0 → (∀ a, threads s' !! main_tid ≠ Some (Thr a (Client_control_release GoBroadcast))) →
   ∀ a, threads s' !! t ≠ Some (Thr a (Client_control_wait WaitBlocked))).
Proof.
  intros Hr Hs Ht. pose proof (reachable_sound s Hr) as S. clear Hr.
  induction Hs as [s|s s1 s2 [Hst (t' & e & He)] _ IH].
  - split; [done|]. intros H0 Hb a Ha. destruct (go_blocked _ _ (so_go _ S) _ _ Ha) as [|[b Hm]]; [done|by eapply Hb].
  - apply IH; [|by eapply exec_sound]. by eapply gate_step; [apply S|..].
Qed.

(** Main stops the server after the first client has read a command. *)
Definition stopped_run : list (Z * event) :=
  two_clients ++ gos 3 1 ++ [(main_tid, Line (text "s"))] ++ gos main_tid 3.

(** ... which then waits. *)
Definition waiting_run : list (Z * event) := stopped_run ++ gos 3 3.

Lemma stopped_steps :
  rtc (λ s1 s2, stopped s1 ≠ 0 ∧ step s1 s2) (state_of stopped_run) (state_of waiting_run).
Proof.
  apply (rtc_l _ _ (state_of (stopped_run ++ gos 3 1))); [split; [by vm_compute|exists 3, Go; by vm_compute]|].
  apply (rtc_l _ _ (state_of (stopped_run ++ gos 3 2))); [split; [by vm_compute|exists 3, Go; by vm_compute]|].
  apply rtc_once. split; [by vm_compute|exists 3, Go; by vm_compute].
Qed.

Lemma server_stop_go_witness :
  (∀ a p, threads (state_of waiting_run) !! 3 = Some (Thr a p) → past_gate p = false) ∧
  (stopped (state_of waiting_run) = 0 →
   (∀ a, threads (state_of waiting_run) !! main_tid ≠ Some (Thr a (Client_control_release GoBroadcast))) →
   ∀ a, threads (state_of waiting_run) !! 3 ≠ Some (Thr a (Client_control_wait WaitBlocked))).
Proof.
  apply (server_stop_go (state_of stopped_run) (state_of waiting_run) 3);
    [apply state_of_reachable|exact stopped_steps|].
  intros a p. vm_compute. intros [= <- <-]. reflexivity.
Defined.

(** C12: when the wait of main for its clients is over and no client is between
    its test of [accepting_clients] and its count, no client thread is in the
    database, and none ever is again: [db_cleanup] then runs alone. *)
Theorem server_cleanup_safe (s s' : server) (a t b : Z) (p : pc) :
  reachable s → threads s !! main_tid = Some (Thr a (Main DrainUnlock)) →
  (∀ t a p, threads s !! t = Some (Thr a p) → p ≠ Run_client CountLock ∧ p ≠ Run_client CountIncr) →
  rtc step s s' → threads s' !! t = Some (Thr b p) → p ≠ Run_client Exec.
Proof.
  intros Hr Hm Hnone Hs Ht. pose proof (reachable_sound s Hr) as S.
  pose proof (calm_steps s s' (so_good _ S) (drained_calm s a S Hm Hnone) Hs) as Hc.
  intros ->. by discriminate (cm_gone _ Hc _ _ _ Ht).
Qed.

(** Main has cancelled both clients and they have gone. *)
Definition drained_run : list (Z * event) :=
  two_clients ++ end_input ++ gos main_tid 6 ++
  [(3, Cancel)] ++ gos 3 9 ++ [(4, Cancel)] ++ gos 4 9 ++ gos main_tid 2.

Lemma drained_threads t a p :
  threads (state_of drained_run) !! t = Some (Thr a p) →
  p = Exited ∨ p = Main DrainUnlock ∨ p = Listener Accept.
Proof.
  assert (threads (state_of drained_run) = list_to_map
    [(0, Thr 0 (Main DrainUnlock)); (1, Thr 0 Exited); (2, Thr 0 (Listener Accept)); (3, Thr 8 Exited); (4, Thr 16 Exited)])
    as -> by (vm_compute; reflexivity).
  intros H%elem_of_list_to_map_2. set_unfold in H. naive_solver.
Qed.

Lemma server_cleanup_safe_witness : Listener Accept ≠ Run_client Exec.
Proof.
  apply (server_cleanup_safe (state_of drained_run) (state_of drained_run) 0 2 0 (Listener Accept)).
  - apply state_of_reachable.
  - vm_compute. reflexivity.
  - intros t a p [->|[->| ->]]%drained_threads; done.
  - apply rtc_refl.
  - vm_compute. reflexivity.
Defined.





(** The client serves, hangs up and frees itself before the listener detaches it. *)
Definition detach_run : list (Z * event) := boot ++ connect 100 8 3 ++ gos 3 9 ++ [(3, Fail)] ++ gos 3 7.

(** The client tests [accepting_clients] before main clears it and goes on when
    main has cleaned up. *)
Definition late_run : list (Z * event) :=
  boot ++ connect 100 8 3 ++ gos listener_tid 1 ++ gos 3 1 ++ end_input ++ gos main_tid 8 ++ gos 3 12.

(** The client counts itself and joins the list when main has walked it. *)
Definition missed_run : list (Z * event) :=
  boot ++ connect 100 8 3 ++ gos listener_tid 1 ++ gos 3 4 ++ end_input ++ gos main_tid 7 ++ gos 3 5.

Lemma missed_threads t :
  threads (state_of missed_run) !! t =
    if decide (t = 0) then Some (Thr 0 (Main DrainWait)) else
    if decide (t = 1) then Some (Thr 0 Exited) else
    if decide (t = 2) then Some (Thr 0 (Listener Accept)) else
    if decide (t = 3) then Some (Thr 8 (Run_client Serve)) else None.
Proof.
  assert (threads (state_of missed_run) = <[0 := Thr 0 (Main DrainWait)]> (<[1 := Thr 0 Exited]>
    (<[2 := Thr 0 (Listener Accept)]> (<[3 := Thr 8 (Run_client Serve)]> ∅)))) as -> by (vm_compute; reflexivity).
  rewrite !lookup_insert. repeat case_decide; subst; done.
Qed.

Lemma missed_stuck t e s' :
  exec t e (state_of missed_run) = Ok s' →
  e = Spurious ∨ t = listener_tid ∨ t = 3 ∧ (e = Go ∨ e = Fail).
Proof.
  intros He. pose proof (missed_threads t) as Ht. unfold exec in He. rewrite Ht in He. clear Ht.
  assert (cancelled 3 (state_of missed_run) = false) as Hc by (vm_compute; reflexivity). revert He Hc.
  generalize (state_of missed_run) as s. intros s He Hc. destruct (has_exited main_tid s).
  { by repeat case_decide. }
  repeat case_decide; subst; try done; [|by auto|]; unfold thread_step in He; cbn [at_pc arg] in He;
    destruct e; try done; auto. unfold run_client_step in He. rewrite ST_get, Hc in He. exfalso.
  unfold mbind, ST_bind in He. by repeat case_match.
Qed.

(** C36: three races are left.  The listener can detach a client thread through a
    [client_t] that the thread has already freed.  A client that tested
    [accepting_clients] in time can run a command after [db_cleanup], and a
    query then reads a freed node if there was any.  And a client that counts
    itself before main walks the list and joins it afterwards is never
    cancelled: main waits until that client hangs up of its own accord. *)
Theorem server_races :
  (∃ s a, reachable s ∧ threads s !! listener_tid = Some (Thr NULL (Listener (ClientDetach a))) ∧
     exec listener_tid Go s = Err BadAccess) ∧
  (∃ s t a, reachable s ∧ cleaned s = true ∧ threads s !! t = Some (Thr a (Run_client Exec))) ∧
  (∀ d tr, db_ok d tr → tr ≠ Leaf →
     ∃ d', db_cleanup d = Ok (tt, d') ∧ ∀ k len, db_query k len d' = Err BadAccess) ∧
  (∃ s t a, reachable s ∧ threads s !! main_tid = Some (Thr NULL (Main DrainWait)) ∧
     threads s !! t = Some (Thr a (Run_client Serve)) ∧
     ∀ t' e s', exec t' e s = Ok s' → e = Spurious ∨ t' = listener_tid ∨ t' = t ∧ (e = Go ∨ e = Fail)).
Proof.
  split_and!.
  - exists (state_of detach_run), 8. split; [apply state_of_reachable|]. by vm_compute.
  - exists (state_of late_run), 3, 8. split; [apply state_of_reachable|]. by vm_compute.
  - apply query_after_cleanup.
  - exists (state_of missed_run), 3, 8. split; [apply state_of_reachable|].
    split; [by vm_compute|]. split; [by vm_compute|]. apply missed_stuck.
Qed.
