(* ===== verification/Comm.v ===== *)
(** * A client and its thread in the server: [7-database-haininz/client.c],
    [comm_serve] of [7-database-haininz/comm.c] and the loop of [run_client].

    The two talk over a connection, a stream of bytes in each direction.  The
    client reads a script line by line, sends a line, waits for a line and
    prints it; the server sends the response to the last command and waits for
    the next.  Both are deterministic and only their reads wait, so that it
    does not matter how they interleave: here the server runs when the client
    waits. *)

From Stdlib Require Import ZArith Lia Ascii String.
From stdpp Require Import base gmap strings numbers option list.
From S2P Require Import Prelude Stdio Db DbTree DbProofs DbRemove DbCmd.

Open Scope Z_scope.
Open Scope list_scope.

(** [comm.h] and [client.c] *)
Definition BUFLEN : nat := 256.
Definition BUFSIZE : nat := 1024.

(** [fgets(buf, n + 1, f)] on a connection: a line, or [n] bytes, or what is
    left when the other side has closed it; otherwise it waits. *)
Inductive got := Got (line rest : bytes) | Eof | Wait.

Definition fgets_conn (n : nat) (input : bytes) (closed : bool) : got :=
  let '(w, rest) := fgets_chars n input in
  if (length w =? n)%nat || bool_decide (newline ∈ w) then Got w rest
  else if closed then match w with [] => Eof | _ => Got w rest end
  else Wait.

(** Where the thread of the server is: about to call [comm_serve], waiting in its
    [fgets], or out of its loop. *)
Inductive server_at := Calling | Receiving | Finished.

Record net := Net {
  database : db_state;
  to_server : bytes;
  to_client : bytes;
  client_closed : bool;
  server_pc : server_at;
  response : bytes;        (** the buffer of [run_client] *)
  output : bytes;          (** what the client has printed *)
}.

Abbreviation nt := (ST net).

Definition set_server (p : server_at) (d : net) : net :=
  Net (database d) (to_server d) (to_client d) (client_closed d) p (response d) (output d).
Definition send_client (l : bytes) (d : net) : net :=
  Net (database d) (to_server d) (to_client d ++ l) (client_closed d) (server_pc d) (response d) (output d).
Definition send_server (l : bytes) (d : net) : net :=
  Net (database d) (to_server d ++ l) (to_client d) (client_closed d) (server_pc d) (response d) (output d).
Definition unread_server (l : bytes) (d : net) : net :=
  Net (database d) l (to_client d) (client_closed d) (server_pc d) (response d) (output d).
Definition unread_client (l : bytes) (d : net) : net :=
  Net (database d) (to_server d) l (client_closed d) (server_pc d) (response d) (output d).
Definition close_client (d : net) : net :=
  Net (database d) (to_server d) (to_client d) true (server_pc d) (response d) (output d).
Definition print (l : bytes) (d : net) : net :=
  Net (database d) (to_server d) (to_client d) (client_closed d) (server_pc d) (response d) (output d ++ l).
Definition answer (r : bytes) (b : db_state) (d : net) : net :=
  Net b (to_server d) (to_client d) (client_closed d) (server_pc d) r (output d).

Section Session.
Context (env : heap_env) (fopen_r : bytes → option bytes) (nesting : nat).
(** Whether writing to a connection that the other side has closed fails. *)
Context (lost : bool).

(** [comm_serve], its first half: the response of the last command is sent. *)
Definition comm_serve_send : nt unit :=
  d ← get;
  if (length (cstr (response d)) =? 0)%nat then put (set_server Receiving d)
  else if client_closed d && lost then put (set_server Finished d)
  else put (set_server Receiving (send_client (cstr (response d) ++ [newline]) d)).

(** The rest of [comm_serve] and of the body of the loop: a command is read and
    run.  The result says whether the thread goes on. *)
Definition comm_serve_receive : nt bool :=
  d ← get;
  match fgets_conn (BUFLEN - 1) (to_server d) (client_closed d) with
  | Wait => mret false
  | Eof => put (set_server Finished d);; mret false
  | Got command rest =>
      match interpret_command env fopen_r BUFLEN nesting (cstr command) (database d) with
      | Ok (r, b) => put (set_server Calling (answer r b (unread_server rest d)));; mret true
      | Err f => fail f
      end
  end.

Definition serve_step : nt bool :=
  d ← get;
  match server_pc d with
  | Calling => comm_serve_send;; mret true
  | Receiving => comm_serve_receive
  | Finished => mret false
  end.

(** The thread runs until it waits or ends. *)
Fixpoint serve (fuel : nat) : nt unit :=
  match fuel with
  | O => fail NoFuel
  | S fuel' => go ← serve_step; if go : bool then serve fuel' else mret tt
  end.

(** Each command uses up a byte at least. *)
Definition run_server : nt unit := d ← get; serve (2 * length (to_server d) + 3).

(** The other side is gone when the thread has ended. *)
Definition server_gone (d : net) : bool := match server_pc d with Finished => true | _ => false end.

(** The loop of [create_occurence] in the child: the exit status.  [qbuf] is what
    the last [fgets] left in the buffer, nothing when there was none. *)
Fixpoint client_loop (fuel : nat) (infile : bytes) (qbuf : option bytes) : nt Z :=
  match fuel with
  | O => fail NoFuel
  | S fuel' =>
      match infile with
      | [] =>
          q ← deref qbuf;
          modify (send_server (cstr (chr 255 :: tail q)));;
          modify close_client;;
          modify (print (text "Client terminated cleanly." ++ [newline]));;
          mret 0
      | _ =>
          let '(q, rest) := fgets_chars (BUFSIZE - 1) infile in
          d ← get;
          if server_gone d && lost then mret 1
          else
            modify (send_server (cstr q));;
            run_server;;
            d ← get;
            match fgets_conn (BUFSIZE - 1) (to_client d) (server_gone d) with
            | Wait => fail Blocked
            | Eof => mret 1
            | Got rbuf rest' =>
                put (print (cstr rbuf) (unread_client rest' d));;
                client_loop fuel' rest (Some q)
            end
      end
  end.

(** A client that runs a script, and the end of its thread in the server. *)
Definition session (script : bytes) : nt Z :=
  status ← client_loop (S (length script)) script None;
  modify close_client;;
  run_server;;
  mret status.

(** A connection that has just been made. *)
Definition connected (b : db_state) : net := Net b [] [] false Calling [] [].
End Session.
