(* ===== verification/CommProofs.v ===== *)
(** * A session of a client: every line gets its response. *)

From Stdlib Require Import ZArith Lia Ascii String.
From stdpp Require Import base gmap strings numbers option list.
From S2P Require Import Prelude Stdio Db DbTree DbProofs DbRemove DbCmd Comm.

Open Scope Z_scope.
Open Scope list_scope.

(** ** Strings and lines *)

(** No null byte, and no end of line. *)
Definition no_null (l : bytes) : Prop := Forall (λ c, ord c ≠ 0) l.
Definition one_line (l : bytes) : Prop := Forall (λ c, ord c ≠ 0 ∧ ord c ≠ 10) l.

Lemma one_line_no_null l : one_line l → no_null l.
Proof. intros H. eapply Forall_impl; [exact H|]. naive_solver. Qed.

Lemma cstr_id l : no_null l → cstr l = l.
Proof. induction 1 as [|c l Hc _ IH]; simpl; [done|]. rewrite (proj2 (Z.eqb_neq _ _) Hc). by rewrite IH. Qed.

Lemma cstr_no_null l : no_null (cstr l).
Proof. induction l as [|c l IH]; simpl; [constructor|]. destruct (Z.eqb_spec (ord c) 0); by constructor. Qed.

Lemma no_newline l : one_line l → newline ∉ l.
Proof. unfold one_line. rewrite Forall_forall. intros H Hin. by destruct (H _ Hin) as [_ []]. Qed.

(** A line that fits the buffer is read whole. *)
Lemma fgets_line n l rest :
  one_line l → (length l < n)%nat → fgets_chars n (l ++ newline :: rest) = (l ++ [newline], rest).
Proof.
  intros Hl. revert n. induction Hl as [|c l [_ Hc] _ IH]; intros n Hn; (destruct n as [|n]; [simpl in Hn; lia|]); [done|].
  simpl in *. rewrite (proj2 (Z.eqb_neq _ _) Hc), IH by lia. done.
Qed.

Lemma fgets_conn_line n l rest closed :
  one_line l → (length l < n)%nat → fgets_conn n (l ++ newline :: rest) closed = Got (l ++ [newline]) rest.
Proof.
  intros Hl Hn. unfold fgets_conn. rewrite fgets_line by done.
  rewrite bool_decide_true by (apply elem_of_app; right; by apply list_elem_of_singleton). by rewrite orb_true_r.
Qed.

(** A line without its end is read as far as it goes on a file, and waited for
    on a connection. *)
Lemma fgets_part n l : one_line l → (length l < n)%nat → fgets_chars n l = (l, []).
Proof.
  intros Hl. revert n. induction Hl as [|c l [_ Hc] _ IH]; intros n Hn; (destruct n as [|n]; [simpl in Hn; lia|]); [done|].
  simpl in *. by rewrite (proj2 (Z.eqb_neq _ _) Hc), IH by lia.
Qed.

Lemma fgets_conn_part n l : one_line l → (length l < n)%nat → fgets_conn n l false = Wait.
Proof.
  intros Hl Hn. unfold fgets_conn. rewrite fgets_part, (proj2 (Nat.eqb_neq _ _)) by (done || lia).
  by rewrite bool_decide_false by by apply no_newline.
Qed.

(** ** Responses are lines *)

Lemma skip_spaces_no_null l : no_null l → no_null (skip_spaces l).
Proof. induction 1 as [|c l Hc Hl IH]; simpl; [constructor|]. destruct (isspace c); [done|by constructor]. Qed.

Lemma isspace_newline c : isspace c = false → ord c ≠ 10.
Proof. unfold isspace. intros H Hc. by rewrite Hc in H. Qed.

Lemma scan_chars_clean n l :
  no_null l → one_line (scan_chars n l).1 ∧ no_null (scan_chars n l).2.
Proof.
  intros Hl. revert n. induction Hl as [|c l Hc Hl IH]; intros n; (destruct n as [|n]; simpl; [by repeat constructor|]).
  { by repeat constructor. }
  destruct (isspace c) eqn:Hs; [split; by repeat constructor|].
  destruct (IH n) as [H1 H2]. destruct (scan_chars n l) as [w rest]. simpl in *. split; [|done].
  constructor; [|done]. split; [done|by apply isspace_newline].
Qed.

Lemma sscanf_clean l w rest : no_null l → sscanf_255s l = Some (w, rest) → one_line w ∧ no_null rest.
Proof.
  intros Hl. unfold sscanf_255s. pose proof (scan_chars_clean 255 _ (skip_spaces_no_null l Hl)) as Hc.
  destruct (scan_chars 255 (skip_spaces l)) as [[|c w'] r]; [done|]. by intros [= <- <-].
Qed.

Definition clean_table (m : table) : Prop := map_Forall (λ _ v, one_line v ∧ v ≠ []) m.

Section Responses.
Context (fopen_r : bytes → option bytes) (Hfiles : ∀ f i, fopen_r f = Some i → no_null i).

(** What a command leaves: a response that is a line, not empty and short. *)
Definition good_answer (r : bytes) (m : table) : Prop :=
  one_line r ∧ r ≠ [] ∧ (length r < BUFLEN)%nat ∧ clean_table m.

Lemma answer_text r m : one_line r → r ≠ [] → clean_table m → good_answer (snprintf_s BUFLEN r) m.
Proof.
  intros Hr Hn Hm. split_and!; [by apply Forall_take|apply snprintf_s_nil; [unfold BUFLEN; lia|done]| |done].
  unfold snprintf_s. rewrite length_take. unfold BUFLEN. lia.
Qed.

Lemma text_line r : forallb (λ c, negb (ord c =? 0) && negb (ord c =? 10)) r = true → one_line r.
Proof.
  intros H. apply Forall_forall. intros c Hc. rewrite forallb_forall in H.
  specialize (H c (proj1 (list_elem_of_In _ _) Hc)). rewrite andb_true_iff, !negb_true_iff, !Z.eqb_neq in H. done.
Qed.

Lemma fgets_no_null n l : no_null l → no_null (fgets_chars n l).1 ∧ no_null (fgets_chars n l).2.
Proof. intros Hl. rewrite <- (fgets_chars_split n l) in Hl. by apply Forall_app in Hl. Qed.

Lemma spec_lines_clean spec fuel : ∀ input m m',
  (∀ c r m m', no_null c → clean_table m → spec c m = Some (r, m') → good_answer r m') →
  no_null input → clean_table m → spec_lines spec fuel input m = Some m' → clean_table m'.
Proof.
  induction fuel as [|fuel IH]; intros input m m' Hspec Hin Hm; cbn [spec_lines]; [done|].
  pose proof (fgets_no_null 255 input Hin) as [Hw Hr].
  destruct input as [|c input]; [by intros [= <-]|]. destruct (fgets_chars 255 (c :: input)) as [w rest].
  destruct (spec w m) as [[r m1]|] eqn:Hs; [|done]. intros Hl.
  destruct (Hspec _ _ _ _ Hw Hm Hs) as (_ & _ & _ & Hm1). by eapply IH.
Qed.

Lemma spec_command_clean fuel : ∀ c r m m',
  no_null c → clean_table m → spec_command fopen_r BUFLEN fuel c m = Some (r, m') → good_answer r m'.
Proof.
  induction fuel as [|fuel IH]; intros c r m m' Hc Hm; cbn [spec_command]; [done|]. unfold parse.
  destruct c as [|c0 [|c1 rest]]; [intros [= <- <-]; by apply answer_text; [apply text_line| |]..|].
  assert (no_null (c1 :: rest)) as Hrest by by inversion Hc.
  assert (∀ r m, forallb (λ c, negb (ord c =? 0) && negb (ord c =? 10)) r = true → r ≠ [] → clean_table m →
    good_answer (snprintf_s BUFLEN r) m) as Hsay by (intros; apply answer_text; [by apply text_line|done|done]).
  repeat match goal with |- context [ord c0 =? ?n] => destruct (ord c0 =? n) end.
  - destruct (sscanf_255s _) as [[k r']|]; intros [= <- <-]; [|by apply Hsay]. apply answer_text; [| |done].
    + destruct (m !! k) as [v|] eqn:Hk; [by apply (Hm _ _ Hk)|by apply text_line].
    + destruct (m !! k) as [v|] eqn:Hk; [by apply (Hm _ _ Hk)|done].
  - destruct (sscanf_255s (c1 :: rest)) as [[k r']|] eqn:Hk; [|intros [= <- <-]; by apply Hsay].
    destruct (sscanf_clean _ _ _ Hrest Hk) as [_ Hr'].
    destruct (sscanf_255s r') as [[v r'']|] eqn:Hv; [|intros [= <- <-]; by apply Hsay].
    destruct (m !! k); intros [= <- <-]; apply Hsay; try done.
    apply map_Forall_insert_2; [|done]. split; [by eapply sscanf_clean|by eapply sscanf_short].
  - destruct (sscanf_255s _) as [[k r']|]; [|intros [= <- <-]; by apply Hsay].
    destruct (m !! k); intros [= <- <-]; apply Hsay; try done. by apply map_Forall_delete.
  - destruct (sscanf_255s _) as [[f r']|]; [|intros [= <- <-]; by apply Hsay].
    destruct (fopen_r f) as [input|] eqn:Hf; [|intros [= <- <-]; by apply Hsay].
    destruct (spec_lines _ _ input m) as [m1|] eqn:Hl; [|done]. intros [= <- <-]. apply Hsay; [done..|].
    eapply spec_lines_clean; [exact IH|by eapply Hfiles|done|done].
  - intros [= <- <-]. by apply Hsay.
Qed.
End Responses.

(** ** The thread of the server *)

Lemma serve_go env fopen_r nesting lost n d d1 :
  serve_step env fopen_r nesting lost d = Ok (true, d1) →
  serve env fopen_r nesting lost (S n) d = serve env fopen_r nesting lost n d1.
Proof. intros H. cbn [serve]. by run H. Qed.

Lemma serve_stop env fopen_r nesting lost n d d1 :
  serve_step env fopen_r nesting lost d = Ok (false, d1) →
  serve env fopen_r nesting lost (S n) d = Ok (tt, d1).
Proof. intros H. cbn [serve]. by run H. Qed.

Section Session.
Context (env : heap_env) (fopen_r : bytes → option bytes) (nesting : nat) (lost : bool).
Context (Henv : env_ok env) (Hfiles : ∀ f i, fopen_r f = Some i → no_null i).

Abbreviation serve := (serve env fopen_r nesting lost).
Abbreviation serve_step := (serve_step env fopen_r nesting lost).

(** Sending a response that is a line. *)
Lemma send_response b inp out r o closed :
  one_line r → r ≠ [] → closed && lost = false →
  serve_step (Net b inp out closed Calling r o) =
    Ok (true, Net b inp (out ++ r ++ [newline]) closed Receiving r o).
Proof.
  intros Hr Hn Hc. unfold Comm.serve_step, comm_serve_send. cbn. unfold mbind, ST_bind, get. cbn.
  rewrite cstr_id by by apply one_line_no_null. destruct r as [|c r]; [done|]. cbn [length Nat.eqb]. by rewrite Hc.
Qed.

(** Receiving and running a command. *)
Lemma receive_command b inp out r o closed command rest r' m m' :
  fgets_conn (BUFLEN - 1) inp closed = Got command rest → no_null command → db_rep b m →
  spec_command fopen_r BUFLEN nesting command m = Some (r', m') →
  ∃ b', db_rep b' m' ∧
    serve_step (Net b inp out closed Receiving r o) = Ok (true, Net b' rest out closed Calling r' o).
Proof.
  intros Hg Hnn Hrep Hspec.
  destruct (interpret_command_Ok env fopen_r BUFLEN Henv ltac:(unfold BUFLEN; lia) _ _ _ _ _ b Hspec Hrep)
    as (b' & Hrun & Hrep'). exists b'. split; [done|].
  unfold Comm.serve_step, comm_serve_receive, mbind, ST_bind, get. cbn [server_pc to_server client_closed database].
  rewrite Hg, cstr_id by done. rewrite Hrun. done.
Qed.

(** A client waiting to send: its thread waits for a command. *)
Definition ready (d : net) (m : table) : Prop :=
  ∃ b r o p, d = Net b [] [] false p r o ∧ db_rep b m ∧ (p = Receiving ∨ p = Calling ∧ r = []).

(** A line is answered by a line. *)
Lemma serve_line d m body r m' :
  ready d m → clean_table m → one_line body → (length body < BUFLEN - 1)%nat →
  spec_command fopen_r BUFLEN nesting (body ++ [newline]) m = Some (r, m') →
  ∃ b, db_rep b m' ∧ good_answer r m' ∧
    run_server env fopen_r nesting lost (send_server (body ++ [newline]) d) =
      Ok (tt, Net b [] (r ++ [newline]) false Receiving r (output d)).
Proof.
  intros (b & r0 & o & p & -> & Hrep & Hp) Hclean Hbody Hlen Hspec.
  assert (no_null (body ++ [newline])) as Hnn.
  { apply Forall_app. split; [by apply one_line_no_null|]. by repeat constructor. }
  assert (fgets_conn (BUFLEN - 1) (body ++ [newline]) false = Got (body ++ [newline]) []) as Hg by by apply fgets_conn_line.
  pose proof (spec_command_clean fopen_r Hfiles _ _ _ _ _ Hnn Hclean Hspec) as Hgood.
  destruct Hgood as (Hr & Hrn & Hrl & Hm').
  destruct (receive_command b _ [] r0 o false _ _ _ _ _ Hg Hnn Hrep Hspec) as (b' & Hrep' & Hrecv).
  exists b'. split_and!; [done..|]. unfold run_server. rewrite ST_get. cbn [to_server send_server].
  assert (∀ k, serve (S (S (S k))) (Net b (body ++ [newline]) [] false Receiving r0 o) =
    Ok (tt, Net b' [] (r ++ [newline]) false Receiving r o)) as Hmain.
  { intros k. rewrite (serve_go _ _ _ _ _ _ _ Hrecv), (serve_go _ _ _ _ _ _ _ (send_response b' [] [] r o false Hr Hrn eq_refl)).
    by apply serve_stop. }
  assert (∃ k, 2 * length (([] : bytes) ++ body ++ [newline]) + 3 = S (S (S (S k))))%nat as [k ->].
  { exists (2 * length body + 1)%nat. rewrite !length_app. simpl. lia. }
  destruct Hp as [->|[-> ->]]; [apply (Hmain (S k))|].
  by rewrite (serve_go _ _ _ _ _ _ (Net b (body ++ [newline]) [] false Receiving [] o)).
Qed.

(** ** The client *)

(** A line that a client can send whole. *)
Definition sendable (q : bytes) : Prop :=
  ∃ body, q = body ++ [newline] ∧ one_line body ∧ (length body < BUFLEN - 1)%nat.

Abbreviation client_loop := (client_loop env fopen_r nesting lost).

Lemma sendable_no_null q : sendable q → no_null q.
Proof. intros (body & -> & Hb & _). apply Forall_app. split; [by apply one_line_no_null|]. by repeat constructor. Qed.

(** One turn of the loop of the client. *)
Lemma client_line fuel q rest qbuf d m r m' :
  ready d m → clean_table m → sendable q →
  spec_command fopen_r BUFLEN nesting q m = Some (r, m') →
  ∃ b, db_rep b m' ∧ clean_table m' ∧
    client_loop (S fuel) (q ++ rest) qbuf d =
      client_loop fuel rest (Some q) (Net b [] [] false Receiving r (output d ++ r ++ [newline])).
Proof.
  intros Hd Hm Hq Hspec. pose proof (sendable_no_null q Hq) as Hnn. destruct Hq as (body & -> & Hbody & Hlen).
  destruct (serve_line d m body r m' Hd Hm Hbody Hlen Hspec) as (b & Hrep & (Hr & Hrn & Hrl & Hm') & Hrun).
  exists b. split_and!; [done..|]. cbn [Comm.client_loop].
  assert (server_gone d = false) as Hgone by (by destruct Hd as (? & ? & ? & ? & -> & _ & [->|[-> _]])).
  replace (fgets_chars (BUFSIZE - 1) ((body ++ [newline]) ++ rest)) with (body ++ [newline], rest).
  2:{ rewrite <- app_assoc. symmetry. apply fgets_line; [done|]. unfold BUFLEN, BUFSIZE in *. lia. }
  assert (∀ A (x y : A), match (body ++ [newline]) ++ rest with [] => x | _ => y end = y) as Hne by by destruct body.
  rewrite Hne, ST_get, Hgone, cstr_id by done. cbn [andb]. rewrite ST_modify.
  run Hrun. rewrite ST_get. cbn [to_client server_gone server_pc].
  rewrite (fgets_conn_line (BUFSIZE - 1) r [] false) by (done || (unfold BUFLEN, BUFSIZE in *; lia)).
  rewrite (cstr_id (r ++ [newline])); [done|]. apply Forall_app. split; [by apply one_line_no_null|]. by repeat constructor.
Qed.

(** The lines of a script, one after the other. *)
Lemma client_lines fuel rest lines : ∀ qbuf d m rs m',
  ready d m → clean_table m → Forall sendable lines →
  spec_commands fopen_r BUFLEN nesting lines m = Some (rs, m') →
  ∃ d', ready d' m' ∧ clean_table m' ∧ output d' = output d ++ concat (map (λ r, r ++ [newline]) rs) ∧
    client_loop (length lines + fuel) (concat lines ++ rest) qbuf d =
      client_loop fuel rest (match last lines with Some q => Some q | None => qbuf end) d'.
Proof.
  induction lines as [|q lines IH]; intros qbuf d m rs m' Hd Hm Hl.
  { intros [= <- <-]. exists d. by rewrite app_nil_r. }
  inversion_clear Hl as [|? ? Hq Hl']. cbn [spec_commands concat length Nat.add].
  destruct (spec_command fopen_r BUFLEN nesting q m) as [[r m1]|] eqn:Hc; [|done].
  destruct (spec_commands fopen_r BUFLEN nesting lines m1) as [[rs' m2]|] eqn:Hcs; [|done]. intros [= <- <-].
  destruct (client_line (length lines + fuel) q (concat lines ++ rest) qbuf d m r m1 Hd Hm Hq Hc) as (b & Hrep & Hm1 & Hrun).
  rewrite <- app_assoc, Hrun.
  destruct (IH (Some q) (Net b [] [] false Receiving r (output d ++ r ++ [newline])) m1 rs' m2)
    as (d' & Hd' & Hm' & Ho & ->); [|done..|].
  { do 4 eexists. split; [reflexivity|]. auto. }
  exists d'. split_and!; [done|done| |rewrite last_cons; by destruct (last lines)].
  rewrite Ho. cbn [output map concat]. by rewrite <- !app_assoc.
Qed.

(** The byte [EOF] and what is left in the buffer behind it. *)
Lemma farewell q m :
  nesting ≠ O → sendable q →
  no_null (chr 255 :: tail q) ∧ fgets_conn (BUFLEN - 1) (chr 255 :: tail q) true = Got (chr 255 :: tail q) [] ∧
  spec_command fopen_r BUFLEN nesting (chr 255 :: tail q) m = Some (ill_formed, m).
Proof using.
  intros Hn Hq. pose proof (sendable_no_null q Hq) as Hnn. destruct Hq as (body & -> & Hbody & Hlen).
  split_and!.
  - constructor; [done|]. destruct body; simpl; [constructor|by inversion Hnn].
  - destruct body as [|c body]; [done|]. cbn [app tail]. inversion_clear Hbody.
    apply (fgets_conn_line (BUFLEN - 1) (chr 255 :: body) [] true); [by constructor|exact Hlen].
  - destruct nesting as [|n]; [done|]. by destruct body as [|c [|c' body]].
Qed.

(** The thread of the server when the client has hung up. *)
Lemma serve_farewell k b out r o q m :
  nesting ≠ O → db_rep b m → sendable q →
  ∃ b' out' r', db_rep b' m ∧
    serve (S (S (S k))) (Net b (chr 255 :: tail q) out true Receiving r o) = Ok (tt, Net b' [] out' true Finished r' o).
Proof.
  intros Hn Hrep Hq. destruct (farewell q m Hn Hq) as (Hnn & Hg & Hspec).
  destruct (receive_command b _ out r o true _ _ _ _ _ Hg Hnn Hrep Hspec) as (b' & Hrep' & Hrecv).
  exists b', (if lost then out else out ++ ill_formed ++ [newline]), ill_formed. split; [done|].
  rewrite (serve_go _ _ _ _ _ _ _ Hrecv). clear Hrecv. by destruct lost.
Qed.

(** The end of the script: the client sends what is left in its buffer behind
    the byte 255 and hangs up; the server takes it for a command, which is
    ill-formed, and its thread ends. *)
Lemma client_ends fuel q d m :
  nesting ≠ O → ready d m → sendable q →
  ∃ d', (status ← client_loop (S fuel) [] (Some q);
         modify close_client;; run_server env fopen_r nesting lost;; mret status) d = Ok (0, d') ∧
    output d' = output d ++ text "Client terminated cleanly." ++ [newline] ∧
    db_rep (database d') m ∧ server_pc d' = Finished.
Proof.
  intros Hn (b & r & o & p & -> & Hrep & Hp) Hq. destruct (farewell q m Hn Hq) as (Hnn & _ & _).
  set (o' := o ++ text "Client terminated cleanly." ++ [newline]).
  assert (client_loop (S fuel) [] (Some q) (Net b [] [] false p r o) =
    Ok (0, Net b (chr 255 :: tail q) [] true p r o')) as Hloop.
  { cbn [Comm.client_loop]. unfold mbind, ST_bind. cbn [deref mret ST_ret modify send_server close_client print].
    by rewrite (cstr_id _ Hnn). }
  run Hloop. rewrite ST_modify. unfold run_server, close_client. cbn [database to_server to_client client_closed server_pc response output].
  destruct (serve_farewell (2 * length (tail q) + 1) b [] r o' q m Hn Hrep Hq) as (b' & out & r' & Hrep' & Hrun).
  destruct (serve_farewell (2 * length (tail q) + 2) b [] r o' q m Hn Hrep Hq) as (b2 & out2 & r2 & Hrep2 & Hrun2).
  destruct Hp as [->|[-> ->]].
  - exists (Net b2 [] out2 true Finished r2 o'). split; [|done].
    rewrite (ST_bind_Ok _ _ _ tt (Net b2 [] out2 true Finished r2 o')); [done|].
    rewrite ST_get, <- Hrun2. f_equal. simpl. lia.
  - exists (Net b' [] out true Finished r' o'). split; [|done].
    rewrite (ST_bind_Ok _ _ _ tt (Net b' [] out true Finished r' o')); [done|].
    rewrite ST_get, <- Hrun. cbn [to_server length].
    replace (2 * S (length (tail q)) + 3)%nat with (S (S (S (S (2 * length (tail q) + 1))))) by lia.
    by apply serve_go.
Qed.

(** Every line has a byte at least. *)
Lemma concat_sendable lines : Forall sendable lines → (length lines ≤ length (concat lines))%nat.
Proof. induction 1 as [|q lines (body & -> & _) _ IH]; [done|]. simpl. rewrite !length_app. simpl. lia. Qed.

(** The server waits for the end of the line and the client for a response. *)
Lemma client_blocks fuel l qbuf d m :
  ready d m → one_line l → l ≠ [] → (length l < BUFLEN - 1)%nat → client_loop (S fuel) l qbuf d = Err Blocked.
Proof using.
  intros (b & r & o & p & -> & _ & Hp) Hl Hne Hlen. cbn [Comm.client_loop].
  rewrite (fgets_part (BUFSIZE - 1) l) by (done || (unfold BUFLEN, BUFSIZE in *; lia)).
  assert (∀ A (x y : A), match l with [] => x | _ => y end = y) as -> by by destruct l.
  assert (server_gone (Net b [] [] false p r o) = false) as Hgone by (by destruct Hp as [->|[-> _]]).
  rewrite ST_get, Hgone, cstr_id by by apply one_line_no_null. cbn [andb]. rewrite ST_modify.
  assert (serve_step (Net b l [] false Receiving r o) = Ok (false, Net b l [] false Receiving r o)) as Hwait.
  { unfold Comm.serve_step, comm_serve_receive. rewrite ST_get. cbn [server_pc]. rewrite ST_get.
    cbn [to_server client_closed]. by rewrite fgets_conn_part. }
  assert (run_server env fopen_r nesting lost (Net b l [] false p r o) = Ok (tt, Net b l [] false Receiving r o)) as Hrun.
  { unfold run_server. rewrite ST_get. cbn [to_server]. replace (2 * length l + 3)%nat with (S (S (2 * length l + 1))) by lia.
    destruct Hp as [->|[-> ->]]; [by apply serve_stop|]. rewrite (serve_go _ _ _ _ _ _ (Net b l [] false Receiving [] o)) by done.
    by apply serve_stop. }
  run Hrun. done.
Qed.

Lemma session_blocks lines b m rs m' l :
  db_rep b m → clean_table m → Forall sendable lines →
  spec_commands fopen_r BUFLEN nesting lines m = Some (rs, m') →
  one_line l → l ≠ [] → (length l < BUFLEN - 1)%nat →
  session env fopen_r nesting lost (concat lines ++ l) (connected b) = Err Blocked.
Proof.
  intros Hrep Hm Hs Hspec Hl Hne Hlen. pose proof (concat_sendable lines Hs) as Hlen'.
  destruct (client_lines (S (length (concat lines ++ l) - length lines)) l lines None (connected b) m rs m')
    as (d & Hd & _ & _ & Hrun); [by do 4 eexists; eauto|done..|].
  unfold session. apply ST_bind_Err. rewrite length_app in *.
  replace (S (length (concat lines) + length l)) with
    (length lines + S (length (concat lines) + length l - length lines))%nat by lia.
  rewrite Hrun. by eapply client_blocks.
Qed.

(** A whole session. *)
Lemma session_Ok lines b m rs m' :
  db_rep b m → clean_table m → lines ≠ [] → Forall sendable lines →
  spec_commands fopen_r BUFLEN nesting lines m = Some (rs, m') →
  ∃ d', session env fopen_r nesting lost (concat lines) (connected b) = Ok (0, d') ∧
    output d' = concat (map (λ r, r ++ [newline]) rs) ++ text "Client terminated cleanly." ++ [newline] ∧
    db_rep (database d') m' ∧ server_pc d' = Finished.
Proof.
  intros Hrep Hm Hne Hl Hspec.
  assert (nesting ≠ O) as Hn by (intros H0; rewrite H0 in Hspec; by destruct lines).
  pose proof (concat_sendable lines Hl) as Hlen.
  destruct (client_lines (S (length (concat lines) - length lines)) [] lines None (connected b) m rs m')
    as (d & Hd & Hm' & Ho & Hrun); [by do 4 eexists; eauto|done..|].
  replace (length lines + S (length (concat lines) - length lines))%nat with (S (length (concat lines))) in Hrun by lia.
  rewrite app_nil_r in Hrun.
  destruct (last lines) as [q|] eqn:Hq; [|by apply last_None in Hq].
  assert (sendable q) as Hsq by (apply last_Some in Hq as [l' ->]; apply Forall_app in Hl as [_ Hl]; by inversion Hl).
  destruct (client_ends (length (concat lines) - length lines) q d m' Hn Hd Hsq) as (d' & Hend & Ho' & Hend').
  exists d'. split; [|by rewrite Ho', Ho, <- app_assoc]. rewrite <- Hend. unfold session, mbind, ST_bind. by rewrite Hrun.
Qed.
End Session.
