(* ===== verification/Client.v ===== *)
(** * The client program: the rest of [7-database-haininz/client.c].

    Finding the server, the processes that [main] forks, and what each of them
    does before and after the loop of [Comm].  The resolver, the sockets and
    [fork] and [wait] are inputs of the model; the descriptors that are open are
    its state. *)

From Stdlib Require Import ZArith Lia Ascii String.
From stdpp Require Import base gmap strings numbers option list.
From S2P Require Import Prelude Stdio Db DbTree DbProofs DbRemove DbCmd Comm.

Open Scope Z_scope.
Open Scope list_scope.

(** What the program prints on its standard error. *)
Inductive complaint_line :=
  | AddrError (err : Z) | FailedConnect (server : bytes) | ScriptError | ForkError | WaitError | ClientUsage.

(** The descriptors in use, and what has been printed. *)
Record process := Process {
  fds : gset Z;
  said : list complaint_line;
}.

Abbreviation ps := (ST process).

Definition complain (m : complaint_line) : ps unit := modify (λ p, Process (fds p) (said p ++ [m])).
Definition open_fd (fd : Z) : ps unit := modify (λ p, Process ({[fd]} ∪ fds p) (said p)).
Definition close_fd (fd : Z) : ps unit := modify (λ p, Process (fds p ∖ {[fd]}) (said p)).

(** The network: the addresses of a server or an error, a new socket for an
    address given the descriptors in use, and whether it can be connected. *)
Record network (A : Type) := Network {
  getaddrinfo : bytes → bytes → Z + list A;
  socket : A → gset Z → Z;
  connect : Z → A → bool;
}.
Arguments getaddrinfo {A} n.
Arguments socket {A} n.
Arguments connect {A} n.

Section Client.
Context {A : Type} (net : network A).

(** The loop of [get_socket]: the socket of the first address that accepts. *)
Fixpoint connect_first (addrs : list A) : ps (option Z) :=
  match addrs with
  | [] => mret None
  | res :: addrs' =>
      p ← get;
      let sock := socket net res (fds p) in
      if sock <? 0 then connect_first addrs'
      else
        open_fd sock;;
        if connect net sock res then mret (Some sock)
        else close_fd sock;; connect_first addrs'
  end.

(** [get_socket] *)
Definition get_socket (server port : bytes) : ps Z :=
  match getaddrinfo net server port with
  | inl err => complain (AddrError err);; mret (-1)
  | inr result =>
      found ← connect_first result;
      match found with
      | None => complain (FailedConnect server);; mret (-1)
      | Some sock => mret sock
      end
  end.

(** What the child of [create_occurence] does before its loop: the text it will
    read and the socket, or the status it exits with.  [fopen_r] and [stdin] are
    the files. *)
Definition prepare (fopen_r : bytes → option bytes) (stdin server port : bytes) (script : option bytes) :
    ps (Z + bytes * Z) :=
  match match script with Some name => fopen_r name | None => Some stdin end with
  | None => complain ScriptError;; mret (inl 1)
  | Some infile =>
      sock ← get_socket server port;
      if sock =? -1 then mret (inl 1) else mret (inr (infile, sock))
  end.

(** The child: its status.  It talks over a new connection to a thread of the
    server; only at the end of the script does it close its socket. *)
Definition create_occurence_child (env : heap_env) (fopen_db : bytes → option bytes) (nesting : nat) (lost : bool)
    (fopen_r : bytes → option bytes) (stdin server port : bytes) (script : option bytes) (b : db_state) (p : process) :
    result (Z * process * db_state * bytes) :=
  match prepare fopen_r stdin server port script p with
  | Err e => Err e
  | Ok (inl status, p') => Ok (status, p', b, [])
  | Ok (inr (infile, sock), p') =>
      match session env fopen_db nesting lost infile (connected b) with
      | Err e => Err e
      | Ok (status, d) =>
          Ok (status, if status =? 0 then Process (fds p' ∖ {[sock]}) (said p') else p', database d, output d)
      end
  end.

(** ** [main] *)

(** What a child was created with. *)
Record occurence := Occurence { to_host : bytes; to_port : bytes; runs_script : option bytes }.

Section Forking.
(** What the [i]-th [fork] and the [i]-th [wait] return. *)
Context (fork wait : nat → Z).

(** The loop that creates the clients: the children, and whether all are there. *)
Fixpoint create_all (n i : nat) (o : occurence) : list occurence * bool :=
  match n with
  | O => ([], true)
  | S n' =>
      if fork i =? -1 then ([], false)
      else let '(os, all) := create_all n' (S i) o in (o :: os, all)
  end.

(** The loop that waits for them. *)
Fixpoint wait_all (n i : nat) : bool :=
  match n with
  | O => true
  | S n' => if wait i =? -1 then false else wait_all n' (S i)
  end.

(** [main]: the status, what it prints, and the children. *)
Definition client_main (argv : list bytes) : Z * list complaint_line * list occurence :=
  match argv with
  | [_; server; port] | [_; server; port; _; _] =>
      let '(script, occurences) :=
        match argv with [_; _; _; script; n] => (Some script, atoi n) | _ => (None, 1) end in
      let '(os, all) := create_all (Z.to_nat occurences) 0 (Occurence server port script) in
      if negb all then (1, [ForkError], os)
      else if negb (wait_all (Z.to_nat occurences) 0) then (1, [WaitError], os)
      else (0, [], os)
  | _ => (1, [ClientUsage], [])
  end.
End Forking.
End Client.

(** ** Sockets *)

Section Sockets.
Context {A : Type} (net : network A).

(** A new descriptor is not in use. *)
Definition fresh_sockets : Prop := ∀ a F, socket net a F < 0 ∨ socket net a F ∉ F.

Context (Hfresh : fresh_sockets).

(** The first address, from descriptors [F], that gives a connected socket. *)
Fixpoint first_connection (F : gset Z) (addrs : list A) : option Z :=
  match addrs with
  | [] => None
  | a :: addrs' =>
      let sock := socket net a F in
      if (0 <=? sock) && connect net sock a then Some sock else first_connection F addrs'
  end.

Lemma connect_first_Ok addrs p :
  connect_first net addrs p =
    Ok (first_connection (fds p) addrs,
        match first_connection (fds p) addrs with
        | Some sock => Process ({[sock]} ∪ fds p) (said p)
        | None => p
        end).
Proof.
  induction addrs as [|a addrs IH]; cbn [connect_first first_connection]; [done|]. rewrite ST_get.
  destruct (Z.ltb_spec (socket net a (fds p)) 0) as [Hneg|Hpos].
  { by rewrite (proj2 (Z.leb_gt _ _)) by lia. }
  rewrite (proj2 (Z.leb_le _ _)) by lia. cbn [andb]. unfold open_fd. rewrite ST_modify.
  destruct (connect net (socket net a (fds p)) a); [done|]. unfold close_fd. rewrite ST_modify. cbn [fds said].
  assert (({[socket net a (fds p)]} ∪ fds p) ∖ {[socket net a (fds p)]} = fds p) as ->.
  { destruct (Hfresh a (fds p)) as [?|Hn]; [lia|]. set_solver. }
  by destruct p.
Qed.

Lemma first_connection_Some F addrs sock :
  first_connection F addrs = Some sock → 0 ≤ sock ∧ (sock ∉ F) ∧ (∃ a, a ∈ addrs ∧ connect net sock a = true).
Proof.
  induction addrs as [|a addrs IH]; cbn [first_connection]; [done|].
  destruct (Z.leb_spec 0 (socket net a F)), (connect net (socket net a F) a) eqn:Hc; cbn [andb].
  1: { intros [= <-]. destruct (Hfresh a F) as [?|?]; [lia|]. split_and!; [done|done|]. exists a. split; [set_solver|done]. }
  all: intros (? & ? & b & Hb & ?)%IH; split_and!; try done; exists b; split; [set_solver|done].
Qed.

Lemma get_socket_Ok server port addrs p :
  getaddrinfo net server port = inr addrs →
  get_socket net server port p =
    match first_connection (fds p) addrs with
    | Some sock => Ok (sock, Process ({[sock]} ∪ fds p) (said p))
    | None => Ok (-1, Process (fds p) (said p ++ [FailedConnect server]))
    end.
Proof.
  intros Ha. unfold get_socket. rewrite Ha. unfold mbind, ST_bind. rewrite connect_first_Ok.
  by destruct (first_connection (fds p) addrs).
Qed.
End Sockets.

(** ** Processes *)

Section Processes.
Context (fork wait : nat → Z).

Lemma create_all_Ok n o : ∀ i,
  (∀ j, (i ≤ j < i + n)%nat → fork j ≠ -1) → create_all fork n i o = (replicate n o, true).
Proof.
  induction n as [|n IH]; intros i H; cbn [create_all replicate]; [done|].
  rewrite (proj2 (Z.eqb_neq _ _)) by (apply H; lia). by rewrite IH by (intros; apply H; lia).
Qed.

(** The children before the first [fork] that fails. *)
Lemma create_all_fails n o k : ∀ i,
  (k < n)%nat → (∀ j, (i ≤ j < i + k)%nat → fork j ≠ -1) → fork (i + k)%nat = -1 →
  create_all fork n i o = (replicate k o, false).
Proof.
  revert n. induction k as [|k IH]; intros [|n] i Hk H Hf; [lia| |lia|]; cbn [create_all replicate].
  - rewrite Nat.add_0_r in Hf. by rewrite Hf.
  - rewrite (proj2 (Z.eqb_neq _ _)) by (apply H; lia). rewrite (IH n (S i)); [done|lia|intros; apply H; lia|].
    by rewrite Nat.add_succ_r in Hf.
Qed.

Lemma wait_all_Ok n : ∀ i, (∀ j, (i ≤ j < i + n)%nat → wait j ≠ -1) → wait_all wait n i = true.
Proof.
  induction n as [|n IH]; intros i H; cbn [wait_all]; [done|].
  rewrite (proj2 (Z.eqb_neq _ _)) by (apply H; lia). by apply IH; intros; apply H; lia.
Qed.
End Processes.
