(* ===== verification/CommClaims.v ===== *)
(** * Properties of a client and its thread in the server. *)

From Stdlib Require Import ZArith Lia Ascii String.
From stdpp Require Import base gmap strings numbers option list.
From S2P Require Import Prelude Stdio Db DbTree DbProofs DbRemove DbCmd DbClaims Comm CommProofs Client.

Open Scope Z_scope.
Open Scope list_scope.

(** A line of text, with its end. *)
Definition line (s : string) : bytes := text s ++ [newline].

Lemma sendable_line s :
  forallb (λ c, negb (ord c =? 0) && negb (ord c =? 10)) (text s) = true → (length (text s) < 255)%nat →
  sendable (line s).
Proof. intros H Hn. exists (text s). split_and!; [done|by apply text_line|done]. Qed.

Definition demo_lines : list bytes := [line "a m 1"; line "a c 2"; line "q m"; line "d m"; line "q m"; line "x"].

Lemma demo_sendable : Forall sendable demo_lines.
Proof. repeat constructor; (apply sendable_line; [done|vm_compute; lia]). Qed.

(** A client that runs a script of lines of fewer than 255 bytes gets one
    response line for each line, in order: the responses that the table of keys
    and values gives, whatever the database held before.  The client prints
    them and ends with status 0, and when it has hung up its thread in the
    server ends with the database holding the final table: the remains of the
    last line that the client sends behind the byte [EOF] change nothing. *)
Theorem client_session_correct env fopen_r nesting lost lines b m rs m' :
  env_ok env → (∀ f i, fopen_r f = Some i → no_null i) →
  db_rep b m → clean_table m → lines ≠ [] → Forall sendable lines →
  spec_commands fopen_r BUFLEN nesting lines m = Some (rs, m') →
  ∃ d, session env fopen_r nesting lost (concat lines) (connected b) = Ok (0, d) ∧
    output d = concat (map (λ r, r ++ [newline]) rs) ++ text "Client terminated cleanly." ++ [newline] ∧
    db_rep (database d) m' ∧ server_pc d = Finished.
Proof. intros Henv Hfiles. by apply session_Ok. Qed.

Lemma client_session_correct_witness :
  ∃ d, session roomy (λ _, None) 1 true (concat demo_lines) (connected db_start) = Ok (0, d) ∧
    output d = concat (map (λ r, r ++ [newline])
      [text "added"; text "added"; text "1"; text "removed"; text "not found"; text "ill-formed command"]) ++
      text "Client terminated cleanly." ++ [newline] ∧
    db_rep (database d) {[text "c" := text "2"]} ∧ server_pc d = Finished.
Proof.
  apply (client_session_correct roomy (λ _, None) 1 true demo_lines db_start ∅); [apply roomy_ok|done|
    apply db_start_rep|apply map_Forall_empty|done|apply demo_sendable|vm_compute; reflexivity].
Defined.






(** Where the client program gives up: a wrong number of arguments; a [fork] that
    fails, after which it returns 1 without waiting for the children it has; a
    script that cannot be read, a server that is not found or an address list
    where nothing accepts, for which the child exits with 1, has sent nothing
    and holds no socket. *)
Theorem client_program_errors {A} (net : network A) (fork wait : nat → Z) env fopen_db nesting lost fopen_r stdin
    server port b p :
  fresh_sockets net →
  (∀ argv, length argv ≠ 3%nat → length argv ≠ 5%nat → client_main fork wait argv = (1, [ClientUsage], [])) ∧
  (∀ prog script num k, (k < Z.to_nat (atoi num))%nat → (∀ j, (j < k)%nat → fork j ≠ -1) → fork k = -1 →
     client_main fork wait [prog; server; port; script; num] =
       (1, [ForkError], replicate k (Occurence server port (Some script)))) ∧
  (∀ script, fopen_r script = None →
     create_occurence_child net env fopen_db nesting lost fopen_r stdin server port (Some script) b p =
       Ok (1, Process (fds p) (said p ++ [ScriptError]), b, [])) ∧
  (∀ err, getaddrinfo net server port = inl err →
     create_occurence_child net env fopen_db nesting lost fopen_r stdin server port None b p =
       Ok (1, Process (fds p) (said p ++ [AddrError err]), b, [])) ∧
  (∀ addrs, getaddrinfo net server port = inr addrs → first_connection net (fds p) addrs = None →
     create_occurence_child net env fopen_db nesting lost fopen_r stdin server port None b p =
       Ok (1, Process (fds p) (said p ++ [FailedConnect server]), b, [])).
Proof.
  intros Hfresh. split_and!.
  - intros [|? [|? [|? [|? [|? [|? ?]]]]]] H3 H5; done.
  - intros prog script num k Hk Hok Hbad. unfold client_main.
    rewrite (create_all_fails fork _ _ k 0) by (done || lia || (intros; apply Hok; lia)). done.
  - intros script Hs. unfold create_occurence_child, prepare. by rewrite Hs.
  - intros err Herr. unfold create_occurence_child, prepare, get_socket. by rewrite Herr.
  - intros addrs Ha Hnone. unfold create_occurence_child, prepare, mbind, ST_bind.
    rewrite (get_socket_Ok net Hfresh server port addrs p Ha), Hnone. done.
Qed.

(** A script whose last line has no end makes the client hang: the server
    waits for the rest of the line and the client for the response. *)
Lemma client_unfinished_line env fopen_r nesting lost lines b m rs m' l :
  env_ok env → (∀ f i, fopen_r f = Some i → no_null i) →
  db_rep b m → clean_table m → Forall sendable lines →
  spec_commands fopen_r BUFLEN nesting lines m = Some (rs, m') →
  one_line l → l ≠ [] → (length l < BUFLEN - 1)%nat →
  session env fopen_r nesting lost (concat lines ++ l) (connected b) = Err Blocked.
Proof. intros Henv Hfiles. by apply session_blocks. Qed.

Lemma client_unfinished_line_witness :
  session roomy (λ _, None) 1 true (concat demo_lines ++ text "q c") (connected db_start) = Err Blocked.
Proof.
  eapply (client_unfinished_line roomy (λ _, None) 1 true demo_lines db_start ∅ _ _ (text "q c"));
    [apply roomy_ok|done|apply db_start_rep|apply map_Forall_empty|apply demo_sendable|vm_compute; reflexivity|
     by apply text_line|done|vm_compute; lia].
Defined.
